(* ===== verification/_CoqProject ===== *)
-Q . S2P
Prelude.v
Path.v
CString.v
ListH.v
ListReverse.v
HlistH.v
HashH.v
WordTable.v
PtrBacktrace.v
Heap.v
IpCache.v
ArrayH.v
BinSearch.v
ProcMaps.v
ProcInfo.v
AddrMaps.v
Crc32.v
DebugFile.v
TableBuild.v
Symtab.v
DebugLine.v
Callstack.v
Memblock.v
Tracker.v
CallstackRefine.v
MemblockRefine.v
Handlers.v
TrackerSteps.v
Accounting.v
Expiry.v
TrackerSafe.v
Report.v
Machines.v
PtrMaps.v
FreeBSD.v
MainLoop.v
Prepare.v
Monitor.v
Main.v
WaitStatus.v
WellTyped.v
Liveness.v
Program.v
