(* ===== verification/Prelude.v ===== *)
(** * memleax: a verified model

    memleax watches a running process: it plants breakpoints at the entries of
    [malloc], [free], [realloc] and [calloc], follows each call to its return,
    keeps the live blocks of the process with the call stack that allocated each
    of them, and reports the call stacks whose blocks live longer than a time.
    This library models the monitor as it is written, in C for Linux and, where it
    differs, for FreeBSD, and proves what makes its parts, and their composition,
    right.

    ** How C is modelled

    A stateful function is a command [cmd S A] (this file): a function of the
    state that returns a value and the new state, or [None] for undefined
    behaviour.  [undefined] stands for an access outside of an object, a null
    dereference, a signed overflow of an index, and for the end of a loop's fuel;
    the theorems therefore show that a command is defined.  [result] is for
    functions that may call [exit].  Integers are [Z], with the conversions of
    their width ([u32], [s32], [u64]) where C has them.  Each component has its
    own state, a record; [zoom] runs the commands of a component inside a larger
    state, by a [Lens].  Lists, hash tables and heap objects are at the level of
    addresses: pointers are [Z], [container_of] is a subtraction, and memory is a
    finite map; where keys are compared by bytes the bytes are in the model.

    ** The files

    From below to above; the names of sources are those under [src/].
    - [Prelude] (this file): commands, results, lenses, integers, lists.
      [Path]: chains of pointers.  [CString]: strings, [atoi], [sscanf], [fgets].
    - [ListH], [ListReverse], [HlistH]: [list.h]; [HashH]: [hash.h], on the
      chains and on the bytes of the keys; [WordTable]: tables keyed by a word.
    - [Heap]: [malloc], which may fail, messages, the clock and the rest of what
      the environment supplies to an event.  [ArrayH]: [array.h]; the class
      [Qsort] is what is used of [qsort], with an instance.
    - [PtrBacktrace], [IpCache], [PtrMaps]: [ptr_backtrace.c]: the backtrace with
      its cache of threads, the cache of procedure information, and the memory
      accessor with the files that it reads instead of the target.
    - [BinSearch]: the binary search of the three tables.  [ProcMaps]: the
      iterator over the mappings, as its four callers use it, a class with an
      instance for each system; [ProcInfo]: [proc_info.c] on Linux.  [AddrMaps]:
      [addr_maps.c].  [Crc32], [DebugFile]: [debug_file.c].  [TableBuild]: the
      loop that [symtab.c] and [debug_line.c] share, for any [Reader]; [Symtab],
      [DebugLine]: these files, the latter for both libraries (the class
      [DwarfLib] and its two instances).  The four builders are for any instance
      of [ProcMaps].
    - [Callstack], [Memblock]: [callstack.c], [memblock.c]; [Handlers]: the
      handlers of [breakpoint.c] and sequences of events.
    - [Tracker]: the abstract specification of these: call stacks with their
      statistics, and blocks, as maps and sequences.  [CallstackRefine],
      [MemblockRefine]: the operations implement it; [R] relates the two.
      [TrackerSteps]: the specification as a step relation.  [Accounting],
      [Expiry], [TrackerSafe]: invariants and safety.  [Report]: the report.
    - [Machines]: [machines.h] and the memory accesses of [ptrace_utils.h]; the
      class [Machine] with its four processors on Linux, and x86-64 on FreeBSD.
      [FreeBSD]: what else is different there, the walk over the mappings, which
      is the other instance of [ProcMaps], and the unwinder's accessor.
    - [MainLoop]: the breakpoints of [breakpoint.c] and the loop of [memleax.c];
      [Monitor]: the abstract monitor of the loop; [Main]: the options,
      attaching and the end; [WaitStatus]: the status words of [waitpid].
      [Prepare]: the four tables, built on one heap, and what the monitor gets
      from them, [symbolizer_of] and [by_name_of].  [WellTyped]: the types of the
      objects in memory, whenever the loop waits.  [Liveness]: the alarm, and the
      end of waiting.  [Program]: [main] as a whole.

    ** The theorems

    - Structures: sequences of operations of the lists, chains and tables act as
      on sequences and on maps from keys ([list_ops_refine], [hlist_ops_refine],
      [hash_table_refines]); the loop macros visit what they should, deletion
      during the walk included; [array_push_correct].
    - The tracker: [tracker_refines] (the pointer structures implement the
      specification, for every sequence of events), [reported_counts_correct]
      (the statistics are those of the history), [expire_scan_complete],
      [expire_stops_at_limits], [tracker_event_safe], [report_lists_leaks].
    - The monitor: [monitor_follows_calls] (the loop gives the tracker the calls
      that the program makes), [memory_well_typed] (pointers lead to
      live objects of their types, and no iteration is undefined),
      [threads_accounted] (no thread is forgotten), [held_threads_released] (one
      that has to wait for the call of another goes on in the end),
      [target_code_restored] (the target gets its code back), [alarm_in_time] (it
      does not sleep through an expiry).
    - The program: [main_correct] (all of it, from the arguments to the report,
      with the prepared tables: no step is undefined, and it waits or ends as it
      should), [main_restores_code] (the target's code at the
      end), [main_exits] (the errors before the loop);
      options, attaching and status words ([parse_options_correct],
      [attach_threads_correct], [wait_status_roundtrip]).
    - Backtraces: [ptr_backtrace_refines_lru], [proc_info_cached],
      [ptr_access_mem_correct].
    - The symbols: building a table and searching it gives what the files say
      ([addr_maps_correct], [symtab_build_correct], [symtab_by_address_correct],
      [debug_line_build_correct], [debug_line_search_correct], ...), walking the
      mappings reads back what the kernel shows ([proc_maps_walk],
      [bsd_proc_maps_walk]), the
      candidates for debug files in their order ([debug_try_sequence]), the CRC
      is CRC-32 ([file_crc32_correct]), and the notes of ELF files are read back.
      Together: [prepare_correct] (the builders do not damage one another's
      tables), [frame_correct] (what is printed for an address),
      [breakpoints_correct] (where the breakpoints are).
    - The machines: [set_breakpoint_bytes] (which bytes a breakpoint changes).
    - Where the code does something else than it means to, a theorem shows it:
      [resize_expired_mismatch], [set_breakpoint_bytes] (on AArch64),
      [freebsd_return_address_truncated], [bsd_access_word],
      [addr_maps_search_boundary], [symtab_nested_missed], [libdwarf_file_name],
      [breakpoint_init_missing].

    ** Fuel and bounds

    A loop over a list or a chain takes as fuel the number of pointers in memory
    ([list_fuel], [chain_fuel]), which no list exceeds; a loop over a text takes
    its length; the binary search the length of the table; the loop over
    [proc_tasks] any number above that of the names.  The theorems say that the
    result is there with this fuel.  The arrays that the code does not check
    are undefined behaviour when they are full: the 1000 held threads, the 50
    instruction pointers, the 100 bytes of a name, a build-id or unwind
    information.  Statistics are [int]s and wrap; the theorems say when they do
    not.

    ** What is assumed of the environment

    One event of the tracker reads the clock once.  The allocator returns fresh
    addresses in increasing order or null, and memory that is freed is not used
    again.  What libunwind, libelf, libdw, libdwarf, [getopt], [waitpid] and the
    kernel answer are values, arguments of the definitions that use them.
    Between two stops the target may change its memory but not the code under
    the breakpoints that are planted.  What the kernel shows of the mappings and
    threads does not change while the tables are built and the monitor attaches.

    ** Not modelled

    The text of messages: a message is a constructor with the values that are
    printed.  [log_debug], which is empty; the version of [debug_line.c] without
    a library, which does nothing; the registers of the processors other than
    those that the monitor uses; of [libprocstat], more than the array of
    entries that it answers with. *)

From stdpp Require Export base tactics list sorting gmap.
From Stdlib Require Export ZArith Lia.

#[global] Open Scope Z_scope.
#[global] Set Default Goal Selector "!".

Create HintDb memleax.

(** ** Machine-width integers

    A C integer is a [Z]; the functions below are the conversions that C
    inserts at an assignment to an object of that width. *)

Definition u32 (z : Z) : Z := z mod 2 ^ 32.
Definition u64 (z : Z) : Z := z mod 2 ^ 64.
Definition s32 (z : Z) : Z := (z + 2 ^ 31) mod 2 ^ 32 - 2 ^ 31.

Definition is_u32 (z : Z) : Prop := 0 <= z < 2 ^ 32.
Definition is_u64 (z : Z) : Prop := 0 <= z < 2 ^ 64.
Definition is_s32 (z : Z) : Prop := - 2 ^ 31 <= z < 2 ^ 31.

Lemma u32_range z : is_u32 (u32 z).
Proof. apply Z.mod_pos_bound; lia. Qed.

Lemma u64_range z : is_u64 (u64 z).
Proof. apply Z.mod_pos_bound; lia. Qed.

Lemma u32_small z : is_u32 z -> u32 z = z.
Proof. apply Z.mod_small. Qed.

Lemma u64_small z : is_u64 z -> u64 z = z.
Proof. apply Z.mod_small. Qed.

Lemma s32_range z : is_s32 (s32 z).
Proof.
  unfold is_s32, s32.
  pose proof (Z.mod_pos_bound (z + 2 ^ 31) (2 ^ 32) ltac:(lia)). lia.
Qed.

Lemma s32_small z : is_s32 z -> s32 z = z.
Proof. unfold is_s32, s32. intros. rewrite Z.mod_small; lia. Qed.

(** Two values that differ by a multiple of [2 ^ 32] are the same [int]. *)
Definition eqm32 (a b : Z) : Prop := (a - b) mod 2 ^ 32 = 0.

Lemma eqm32_s32 z : eqm32 (s32 z) z.
Proof.
  unfold eqm32, s32.
  replace ((z + 2 ^ 31) mod 2 ^ 32 - 2 ^ 31 - z)
    with (- ((z + 2 ^ 31) / 2 ^ 32) * 2 ^ 32).
  - apply Z.mod_mul. lia.
  - pose proof (Z.div_mod (z + 2 ^ 31) (2 ^ 32) ltac:(lia)). lia.
Qed.

#[export] Instance eqm32_equiv : Equivalence eqm32.
Proof.
  unfold eqm32. split.
  - intros x. by rewrite Z.sub_diag.
  - intros x y H. replace (y - x) with (- (x - y)) by lia.
    by apply Z.mod_opp_l_z.
  - intros x y z H1 H2. replace (x - z) with ((x - y) + (y - z)) by lia.
    by rewrite Z.add_mod, H1, H2.
Qed.

#[export] Instance eqm32_add : Proper (eqm32 ==> eqm32 ==> eqm32) Z.add.
Proof.
  unfold eqm32. intros x x' H y y' H'.
  replace (x + y - (x' + y')) with ((x - x') + (y - y')) by lia.
  by rewrite Z.add_mod, H, H'.
Qed.

#[export] Instance eqm32_sub : Proper (eqm32 ==> eqm32 ==> eqm32) Z.sub.
Proof.
  unfold eqm32. intros x x' H y y' H'.
  replace (x - y - (x' - y')) with ((x - x') - (y - y')) by lia.
  by rewrite Zminus_mod, H, H'.
Qed.

Lemma s32_eqm a b : eqm32 a b -> s32 a = s32 b.
Proof.
  unfold eqm32, s32. intros H. f_equal.
  apply Z.mod_divide in H as [k H]; [| lia].
  replace (a + 2 ^ 31) with (b + 2 ^ 31 + k * 2 ^ 32) by lia.
  apply Z.mod_add. lia.
Qed.

Lemma eqm32_s32_iff a b : eqm32 a b <-> s32 a = s32 b.
Proof.
  split; [apply s32_eqm |]. intros H.
  rewrite <- (eqm32_s32 a), <- (eqm32_s32 b). by rewrite H.
Qed.

Lemma s32_s32_add_l a b : s32 (s32 a + b) = s32 (a + b).
Proof. apply s32_eqm. by rewrite eqm32_s32. Qed.

(** ** The C monad

    A command over a state [S] returns a result and the new state, or [None]
    when the execution is undefined in C: a null or dangling pointer is
    dereferenced, or memory outside an object is accessed. *)

Definition cmd (S A : Type) : Type := S -> option (A * S).

#[export] Instance cmd_ret S : MRet (cmd S) := fun A a s => Some (a, s).
#[export] Instance cmd_bind S : MBind (cmd S) := fun A B f m s =>
  match m s with
  | Some (a, s') => f a s'
  | None => None
  end.

Definition undefined {S A} : cmd S A := fun _ => None.
Definition get_state {S} : cmd S S := fun s => Some (s, s).
Definition put_state {S} (s : S) : cmd S unit := fun _ => Some (tt, s).
Definition gets {S A} (f : S -> A) : cmd S A := fun s => Some (f s, s).
Definition gets_opt {S A} (f : S -> option A) : cmd S A := fun s =>
  match f s with Some a => Some (a, s) | None => None end.
Definition modify {S} (f : S -> S) : cmd S unit := fun s => Some (tt, f s).
Definition when {S} (b : bool) (m : cmd S unit) : cmd S unit :=
  if b then m else mret tt.

(** [m ⟶[ s ] (a, s')]: from [s] the command returns [a] in state [s']. *)
Notation "m ⟶[ s ] r" := (m s = Some r) (at level 70, only parsing) : stdpp_scope.

Lemma cmd_bind_Some {S A B} (m : cmd S A) (f : A -> cmd S B) s a s' :
  m s = Some (a, s') -> (m ≫= f) s = f a s'.
Proof. intros H. unfold mbind, cmd_bind. by rewrite H. Qed.

Lemma cmd_bind_inv {S A B} (m : cmd S A) (f : A -> cmd S B) s r :
  (m ≫= f) s = Some r -> exists a s', m s = Some (a, s') /\ f a s' = Some r.
Proof.
  unfold mbind, cmd_bind. destruct (m s) as [[a s'] |]; [| done]. eauto.
Qed.

(** ** Functions that may end the program *)

(** [exit(code)], or the function returns. *)
Inductive result (A : Type) := Exit (code : Z) | Ret (a : A).
Arguments Exit {A}. Arguments Ret {A}.

Definition result_bind {S A B} (m : cmd S (result A)) (f : A -> cmd S (result B)) :
    cmd S (result B) :=
  r ← m; match r with Exit c => mret (Exit c) | Ret a => f a end.

Notation "x ←! m ; k" := (result_bind m (fun x => k))
  (at level 20, m at level 100, k at level 200, only parsing) : stdpp_scope.
Notation "m ;;! k" := (result_bind m (fun _ => k))
  (at level 100, k at level 200, right associativity, only parsing) : stdpp_scope.

Lemma result_bind_Ret {S A B} (m : cmd S (result A)) (f : A -> cmd S (result B)) s a s' :
  m s = Some (Ret a, s') -> result_bind m f s = f a s'.
Proof. intros E. unfold result_bind. by erewrite cmd_bind_Some by done. Qed.

Lemma result_bind_inv {S A B} (m : cmd S (result A)) (f : A -> cmd S (result B)) s b s'' :
  result_bind m f s = Some (Ret b, s'') ->
  exists a s', m s = Some (Ret a, s') /\ f a s' = Some (Ret b, s'').
Proof.
  intros Hrun. apply cmd_bind_inv in Hrun as ([c | a] & s' & Hm & Hf); [done |]. by exists a, s'.
Qed.

(** ** Lenses: a component's memory inside a larger state *)

Class Lens (S A : Type) := {
  view : S -> A;
  update : A -> S -> S;
  view_update : forall a s, view (update a s) = a;
  update_update : forall a b s, update a (update b s) = update a s;
  update_view : forall s, update (view s) s = s
}.
#[export] Hint Mode Lens - ! : typeclass_instances.

#[export, refine] Instance lens_id S : Lens S S := {
  view s := s;
  update s _ := s
}.
Proof. all: done. Defined.

(** Run a command of the component on the larger state. *)
Definition zoom {S A B} `{Lens S A} (m : cmd A B) : cmd S B := fun s =>
  match m (view s) with
  | Some (b, a) => Some (b, update a s)
  | None => None
  end.

Lemma zoom_Some {S A B} `{Lens S A} (m : cmd A B) s b a :
  m (view s) = Some (b, a) -> zoom m s = Some (b, update a s).
Proof. unfold zoom. by intros ->. Qed.

(** ** Lists *)

Lemma NoDup_middle {A} (h n : A) xs ys :
  NoDup (h :: xs ++ n :: ys) <-> (n ∉ h :: xs ++ ys) /\ NoDup (h :: xs ++ ys).
Proof.
  rewrite <- NoDup_cons.
  assert ((h :: xs ++ n :: ys) ≡ₚ (n :: h :: xs ++ ys)) as ->; [| done].
  rewrite <- Permutation_middle. apply Permutation_swap.
Qed.

Lemma NoDup_head_reverse {A} (h : A) xs : NoDup (h :: xs) -> NoDup (h :: reverse xs).
Proof. by rewrite reverse_Permutation. Qed.

Lemma filter_all {A} (P : A -> Prop) `{forall x, Decision (P x)} (l : list A) :
  (forall x, x ∈ l -> P x) -> filter P l = l.
Proof.
  induction l as [| x l IH]; intros Hl; [done |].
  rewrite filter_cons_True by (apply Hl; set_solver).
  f_equal. apply IH. set_solver.
Qed.

Lemma filter_none {A} (P : A -> Prop) `{forall x, Decision (P x)} (l : list A) :
  (forall x, x ∈ l -> ~ P x) -> filter P l = [].
Proof.
  induction l as [| x l IH]; intros Hl; [done |].
  rewrite filter_cons_False by (apply Hl; set_solver).
  apply IH. set_solver.
Qed.

Lemma list_filter_iff_elem {A} (P Q : A -> Prop) `{forall x, Decision (P x)} `{forall x, Decision (Q x)}
    (l : list A) :
  (forall x, x ∈ l -> P x <-> Q x) -> filter P l = filter Q l.
Proof.
  induction l as [| x l IH]; intros HPQ; [done |]. rewrite !filter_cons.
  pose proof (HPQ x ltac:(set_solver)). rewrite IH by set_solver. by repeat case_decide; try tauto.
Qed.

(** The parts of a list that a function tells apart make up the list. *)
Lemma concat_filter_perm {A B} `{!EqDecision B} (g : A -> option B) (js : list B) (l : list A) :
  NoDup js -> Forall (fun x => exists j, g x = Some j /\ j ∈ js) l ->
  concat ((fun j => filter (fun x => g x = Some j) l) <$> js) ≡ₚ l.
Proof.
  intros Hnd Hl. induction Hl as [| x l (j & Hj & Hin) _ IH].
  - clear Hnd. by induction js.
  - apply list_elem_of_split in Hin as (js1 & js2 & ->).
    apply NoDup_app in Hnd as (_ & H1 & [H2 _]%NoDup_cons).
    rewrite fmap_app, concat_app in *. cbn [fmap list_fmap concat] in *.
    rewrite filter_cons_True by done.
    assert (forall js : list B, j ∉ js -> list_fmap _ _ (fun j => filter (fun y => g y = Some j) (x :: l)) js =
      list_fmap _ _ (fun j => filter (fun y => g y = Some j) l) js) as E.
    { intros js Hjs. apply list_fmap_ext. intros i k Hk. apply filter_cons_False.
      apply list_elem_of_lookup_2 in Hk. congruence. }
    rewrite !E by (done || intros Hj1; by apply (H1 j Hj1), elem_of_cons; left).
    cbn [app]. rewrite <- Permutation_middle. by rewrite IH.
Qed.

Lemma StronglySorted_omap {A B} (R : A -> A -> Prop) (R' : B -> B -> Prop) (f : A -> option B) (l : list A) :
  (forall x y x' y', R x y -> f x = Some x' -> f y = Some y' -> R' x' y') ->
  StronglySorted R l -> StronglySorted R' (omap f l).
Proof.
  intros Hf. induction 1 as [| x l Hl IH Hx]; cbn [omap list_omap]; [constructor |].
  destruct (f x) as [x' |] eqn:E; [| done]. constructor; [done |].
  rewrite Forall_forall in Hx. rewrite Forall_forall. intros y' (y & Hy & E')%list_elem_of_omap.
  by apply (Hf x y); [apply Hx | ..].
Qed.

Lemma StronglySorted_lookup {A} (R : A -> A -> Prop) (l : list A) i j x y :
  StronglySorted R l -> l !! i = Some x -> l !! j = Some y -> (i < j)%nat -> R x y.
Proof.
  intros Hl. revert i j. induction Hl as [| z l _ IH Hz]; intros i j Hi Hj Hij; [done |].
  destruct j as [| j]; [lia |]. destruct i as [| i].
  - injection Hi as <-. rewrite Forall_forall in Hz. apply Hz. by eapply list_elem_of_lookup_2.
  - apply (IH i j); [done | done | lia].
Qed.

Lemma find_first {A} (f : A -> bool) (l1 l2 : list A) x :
  (forall y, y ∈ l1 -> f y = false) -> f x = true -> List.find f (l1 ++ x :: l2) = Some x.
Proof.
  intros Hl1 Hx. induction l1 as [| y l1 IH]; cbn [app List.find]; [by rewrite Hx |].
  rewrite Hl1 by set_solver. apply IH. set_solver.
Qed.

(** A weaker order on the elements of the list. *)
Lemma StronglySorted_impl {A} (P Q : A -> A -> Prop) (l : list A) :
  (forall x y, x ∈ l -> y ∈ l -> P x y -> Q x y) -> StronglySorted P l -> StronglySorted Q l.
Proof.
  induction l as [| x l IH]; intros HPQ Hs; [constructor |].
  apply StronglySorted_inv in Hs as [Hs Hx]. constructor.
  - apply IH; [| done]. intros y z Hy Hz. apply HPQ; set_solver.
  - rewrite !Forall_forall in *. intros y Hy. apply HPQ; [set_solver | set_solver | by apply Hx].
Qed.

(** ** Running a loop body over the elements of a list

    The body may return from the enclosing function with [Some r]; [None] goes
    on to the next element. *)

Fixpoint run_list {S R A} (body : A -> cmd S (option R)) (xs : list A) : cmd S (option R) :=
  match xs with
  | [] => mret None
  | x :: xs =>
      r ← body x;
      match r with
      | Some r => mret (Some r)
      | None => run_list body xs
      end
  end.

Lemma run_list_app {S R A} (body : A -> cmd S (option R)) xs ys s :
  run_list body (xs ++ ys) s =
  match run_list body xs s with
  | Some (None, s') => run_list body ys s'
  | r => r
  end.
Proof.
  revert s. induction xs as [| x xs IH]; intros s; simpl; [done |].
  unfold mbind, cmd_bind. destruct (body x s) as [[[r |] s'] |]; [done | apply IH | done].
Qed.

Lemma run_list_inv {S R A} (P : S -> Prop) (body : A -> cmd S (option R)) xs s r s' :
  (forall x s r s', x ∈ xs -> P s -> body x s = Some (r, s') -> P s') ->
  P s -> run_list body xs s = Some (r, s') -> P s'.
Proof.
  revert s. induction xs as [| x xs IH]; intros s Hb HP; simpl; [by intros [= <- <-] |].
  unfold mbind, cmd_bind. destruct (body x s) as [[[r1 |] s1] |] eqn:E; [| | done].
  - intros [= <- <-]. eapply Hb; [| done..]. set_solver.
  - apply IH; [intros y t r2 t' Hy; apply Hb; set_solver |]. eapply Hb; [| done..]. set_solver.
Qed.

(** The state of a component together with the local variables of a function. *)
#[export, refine] Instance lens_fst S A B `{Lens S A} : Lens (S * B) A := {
  view s := view s.1;
  update a s := (update a s.1, s.2)
}.
Proof.
  - intros a s. apply view_update.
  - intros a b s. simpl. by rewrite update_update.
  - intros [s b]. simpl. by rewrite update_view.
Defined.

(** Run a command with a local variable that starts as [b]; its last value is
    returned with the result. *)
Definition with_local {S A B} (b : B) (m : cmd (S * B) A) : cmd S (A * B) := fun s =>
  match m (s, b) with
  | Some (a, (s', b')) => Some ((a, b'), s')
  | None => None
  end.

Definition set_local {S B} (b : B) : cmd (S * B) unit := fun s => Some (tt, (s.1, b)).
