(* ===== verification/Path.v ===== *)
(** * Paths through a field

    [path f a xs b]: starting at [a] and following the field [f] one passes
    exactly the nodes [xs], in order, and then reaches [b].  The lists of
    [list.h] are paths through [next] and, backwards, through [prev]; the
    hash chains are paths through [first]/[next] that end at the null pointer. *)

From S2P Require Import Prelude.

Fixpoint path (f : gmap Z Z) (a : Z) (xs : list Z) (b : Z) : Prop :=
  match xs with
  | [] => f !! a = Some b
  | x :: xs => f !! a = Some x /\ path f x xs b
  end.

Lemma path_app f a xs y ys b :
  path f a (xs ++ y :: ys) b <-> path f a xs y /\ path f y ys b.
Proof.
  revert a. induction xs as [| x xs IH]; intros a; simpl; [done |].
  rewrite IH. tauto.
Qed.

Lemma path_ext f g a xs b :
  (forall z, z ∈ a :: xs -> g !! z = f !! z) -> path f a xs b -> path g a xs b.
Proof.
  revert a. induction xs as [| x xs IH]; intros a Hz; simpl.
  - rewrite Hz; [done | set_solver].
  - intros [H1 H2]. split; [rewrite Hz; [done | set_solver] |].
    apply IH; [| done]. intros z Hzz. apply Hz. set_solver.
Qed.

Lemma path_insert_ne f a xs b p v :
  p ∉ a :: xs -> path f a xs b -> path (<[p := v]> f) a xs b.
Proof.
  intros Hp. apply path_ext. intros z Hz.
  rewrite lookup_insert_ne; [done |]. set_solver.
Qed.

(** The last node of a path, and the first node after its start. *)
Lemma path_last f a xs b : path f a xs b -> f !! (default a (last xs)) = Some b.
Proof.
  destruct xs as [| y xs _] using rev_ind; [done |].
  rewrite path_app, last_snoc. simpl. tauto.
Qed.

Lemma path_head f a xs b : path f a xs b -> f !! a = Some (default b (head xs)).
Proof. destruct xs; simpl; tauto. Qed.

Lemma path_is_Some f a xs b z : path f a xs b -> z ∈ a :: xs -> is_Some (f !! z).
Proof.
  revert a. induction xs as [| x xs IH]; intros a; simpl.
  - intros H Hz. apply list_elem_of_singleton in Hz as ->. eauto.
  - intros [H1 H2] Hz. apply elem_of_cons in Hz as [-> | Hz]; eauto.
Qed.

Lemma path_inj f a xs ys b :
  path f a xs b -> path f a ys b -> b ∉ xs -> b ∉ ys -> xs = ys.
Proof.
  revert a ys. induction xs as [| x xs IH]; intros a [| y ys]; simpl; try done.
  - intros H [H' _] _ Hb. assert (b = y) by congruence. set_solver.
  - intros [H _] H' Hb _. assert (b = x) by congruence. set_solver.
  - intros [H1 H2] [H3 H4] Hb Hb'. assert (y = x) as -> by congruence.
    f_equal. apply (IH x); [done.. | set_solver | set_solver].
Qed.

(** Retarget the end of a path. *)
Lemma path_set_last f a xs b c :
  NoDup (a :: xs) -> path f a xs b -> path (<[default a (last xs) := c]> f) a xs c.
Proof.
  destruct xs as [| y xs _] using rev_ind; simpl.
  - intros _ _. apply lookup_insert_eq.
  - rewrite last_snoc. simpl. intros Hnd. rewrite !path_app. simpl.
    intros [H _]. split; [| apply lookup_insert_eq].
    apply path_insert_ne; [| done].
    rewrite app_comm_cons in Hnd.
    apply NoDup_app in Hnd as (_ & Hnd & _). intros Hin.
    apply (Hnd y Hin). set_solver.
Qed.

(** Insert the node [n] between two consecutive nodes of a path. *)
Lemma path_insert_node f a xs ys b n :
  NoDup (a :: xs ++ ys) -> n ∉ a :: xs ++ ys ->
  path f a (xs ++ ys) b ->
  path (<[default a (last xs) := n]> (<[n := default b (head ys)]> f))
    a (xs ++ n :: ys) b.
Proof.
  intros Hnd Hn Hp. rewrite path_app.
  set (f' := <[n := default b (head ys)]> f).
  assert (path f' a (xs ++ ys) b) as Hp' by (apply path_insert_ne; done).
  assert (default a (last xs) ∈ a :: xs) as Hlast.
  { destruct (last xs) as [z |] eqn:E; simpl; [| set_solver].
    apply last_Some_elem_of in E. set_solver. }
  rewrite app_comm_cons in Hnd, Hn. apply NoDup_app in Hnd as (Hnd1 & Hdis & Hnd2).
  split.
  - destruct ys as [| y ys].
    + rewrite app_nil_r in Hp'. by eapply path_set_last.
    + apply path_app in Hp' as [H1 _]. by eapply path_set_last.
  - apply path_insert_ne.
    + intros Hin. apply elem_of_cons in Hin as [Hin | Hin].
      * rewrite Hin in Hlast. set_solver.
      * by apply (Hdis _ Hlast).
    + destruct ys as [| y ys]; simpl; [apply lookup_insert_eq |].
      split; [apply lookup_insert_eq |].
      by apply path_app in Hp' as [_ H2].
Qed.

(** Unlink the node [n] of a path. *)
Lemma path_delete_node f a xs n ys b :
  NoDup (a :: xs ++ n :: ys) -> path f a (xs ++ n :: ys) b ->
  path (<[default a (last xs) := default b (head ys)]> f) a (xs ++ ys) b.
Proof.
  intros Hnd Hp. apply path_app in Hp as [H1 H2].
  rewrite app_comm_cons in Hnd. apply NoDup_app in Hnd as (Hnd1 & Hdis & _).
  apply (path_set_last _ _ _ _ (default b (head ys))) in H1; [| done].
  destruct ys as [| y ys]; simpl in *.
  - rewrite app_nil_r. exact H1.
  - apply path_app. split; [exact H1 |]. destruct H2 as [_ H2].
    apply path_insert_ne; [| done].
    intros Hin. apply (Hdis (default a (last xs))).
    + destruct (last xs) as [z |] eqn:E; simpl; [| set_solver].
      apply last_Some_elem_of in E. set_solver.
    + set_solver.
Qed.

#[export] Hint Resolve path_insert_ne : memleax.

Lemma default_last_elem (x : Z) xs : default x (last xs) ∈ x :: xs.
Proof.
  destruct (last xs) eqn:E; simpl; [| set_solver].
  apply last_Some_elem_of in E. set_solver.
Qed.

(** Splice the nodes of another closed path between two consecutive nodes. *)
Lemma path_splice f l x xs a ys zs b :
  NoDup (x :: xs) -> NoDup (a :: ys ++ zs) ->
  (forall z, z ∈ x :: xs -> z ∉ a :: ys ++ zs) ->
  path f l (x :: xs) l -> path f a (ys ++ zs) b ->
  path (<[default x (last xs) := default b (head zs)]>
         (<[default a (last ys) := x]> f)) a (ys ++ x :: xs ++ zs) b.
Proof.
  intros Hndx Hnda Hdis [_ Hx] Ha.
  pose proof (default_last_elem x xs) as Hlx.
  pose proof (default_last_elem a ys) as Hly.
  rewrite app_comm_cons in Hnda, Hdis.
  apply NoDup_app in Hnda as (Hndy & Hyz & _).
  assert (default x (last xs) ∉ a :: ys) as Hlx' by set_solver.
  assert (default x (last xs) <> default a (last ys)) as Hne.
  { intros E. rewrite E in Hlx'. done. }
  rewrite path_app. split.
  - apply path_insert_ne; [done |].
    destruct zs as [| z zs].
    + rewrite app_nil_r in Ha. by eapply path_set_last.
    + apply path_app in Ha as [Ha _]. by eapply path_set_last.
  - rewrite insert_insert_ne by done.
    assert (default a (last ys) ∉ x :: xs) as Hly' by set_solver.
    apply (path_set_last _ _ _ _ (default b (head zs))) in Hx; [| done].
    destruct zs as [| z zs]; simpl in *.
    { rewrite app_nil_r. by apply path_insert_ne. }
    apply path_app in Ha as [_ Ha]. apply path_app.
    split; [by apply path_insert_ne |].
    do 2 (apply path_insert_ne; [set_solver |]). done.
Qed.
