(* ===== verification/CString.v ===== *)
(** * C strings

    A string is the list of its characters before the null character; a pointer
    into a string is the suffix it points at.  The functions of [string.h] and
    [stdlib.h], and the conversions of [sscanf], that the program uses. *)

From Stdlib Require Export Ascii.
From Stdlib Require String.
From S2P Require Import Prelude.
Export String.StringSyntax.
#[global] Open Scope Z_scope.

Abbreviation cstr := (list ascii).

(** A literal. *)
Abbreviation lit := String.list_ascii_of_string.
Abbreviation to_string := String.string_of_list_ascii.

Definition char_code (c : ascii) : Z := Z.of_nat (nat_of_ascii c).

(** ** [string.h] *)

(** [strrchr]: the last occurrence. *)
Fixpoint strrchr (s : cstr) (c : ascii) : option cstr :=
  match s with
  | [] => None
  | x :: s' =>
      match strrchr s' c with
      | Some p => Some p
      | None => if decide (x = c) then Some s else None
      end
  end.

Fixpoint has_prefix (pat s : cstr) : bool :=
  match pat, s with
  | [], _ => true
  | c :: pat, x :: s => bool_decide (c = x) && has_prefix pat s
  | _ :: _, [] => false
  end.

(** [strstr]: the first occurrence. *)
Fixpoint strstr (s pat : cstr) : option cstr :=
  if has_prefix pat s then Some s
  else match s with [] => None | _ :: s => strstr s pat end.

Lemma strrchr_None s c : strrchr s c = None <-> c ∉ s.
Proof.
  induction s as [| x s IH]; cbn [strrchr]; [set_solver |].
  destruct (strrchr s c) as [p |].
  - split; [done |]. intros Hn. assert (c ∈ s) by (destruct (decide (c ∈ s)); naive_solver). set_solver.
  - case_decide; set_solver.
Qed.

(** The string behind the last [c]. *)
Lemma strrchr_last d c b : c ∉ b -> strrchr (d ++ c :: b) c = Some (c :: b).
Proof.
  intros Hb. induction d as [| x d IH]; simpl.
  - rewrite (proj2 (strrchr_None b c) Hb). by rewrite decide_True.
  - by rewrite IH.
Qed.

Lemma strrchr_Some s c p : strrchr s c = Some p -> exists d b, s = d ++ c :: b /\ p = c :: b /\ c ∉ b.
Proof.
  revert p. induction s as [| x s IH]; intros p; cbn [strrchr]; [done |].
  destruct (strrchr s c) as [q |] eqn:E.
  - intros [= <-]. destruct (IH q eq_refl) as (d & b & -> & -> & Hb). by exists (x :: d), b.
  - case_decide; [| done]. intros [= <-]. subst x. exists [], s. by rewrite <- strrchr_None.
Qed.

Lemma has_prefix_true pat s : has_prefix pat s = true <-> exists r, s = pat ++ r.
Proof.
  revert s. induction pat as [| c pat IH]; intros s; simpl.
  - split; [by exists s | done].
  - destruct s as [| x s]; simpl; [split; [done | by intros []] |].
    rewrite andb_true_iff, bool_decide_eq_true, IH. split.
    + intros [-> [r ->]]. by exists r.
    + intros [r [= -> ->]]. eauto.
Qed.

(** [pat] occurs in [x ++ pat ++ y] behind [x] and not before. *)
Definition first_occurrence (pat x y : cstr) : Prop :=
  forall x1 x2, x = x1 ++ x2 -> x2 <> [] -> has_prefix pat (x2 ++ pat ++ y) = false.

Lemma strstr_first pat x y :
  first_occurrence pat x y -> strstr (x ++ pat ++ y) pat = Some (pat ++ y).
Proof.
  induction x as [| c x IH]; intros Hf.
  - cbn [app]. destruct (pat ++ y) as [| c s] eqn:E; simpl.
    + apply app_eq_nil in E as [-> ->]. done.
    + assert (has_prefix pat (c :: s) = true) as -> by (apply has_prefix_true; exists y; congruence).
      done.
  - pose proof (Hf [] (c :: x) eq_refl ltac:(done)) as E. cbn [app] in *. cbn [strstr].
    rewrite E. apply IH.
    intros x1 x2 E' Hne. apply (Hf (c :: x1) x2); [by rewrite E' | done].
Qed.

Lemma strstr_Some s pat q :
  strstr s pat = Some q -> exists x y, s = x ++ pat ++ y /\ q = pat ++ y /\ first_occurrence pat x y.
Proof.
  induction s as [| c s IH]; cbn [strstr].
  - destruct (has_prefix pat []) eqn:E; [| done]. intros [= <-].
    apply has_prefix_true in E as [r E]. symmetry in E. apply app_eq_nil in E as [-> ->].
    exists [], []. split_and!; [done..|]. intros x1 x2 E. by destruct x1, x2.
  - destruct (has_prefix pat (c :: s)) eqn:E.
    + intros [= <-]. apply has_prefix_true in E as [r ->]. exists [], r. split_and!; [done..|].
      intros x1 x2 Ex. by destruct x1, x2.
    + intros Hs. destruct (IH Hs) as (x & y & -> & -> & Hf). exists (c :: x), y.
      split_and!; [done..|]. intros x1 x2 Ex Hne. destruct x1 as [| c' x1]; simplify_eq/=.
      * exact E.
      * by eapply Hf.
Qed.

Lemma strstr_None_app s pat : strstr s pat = None -> forall x y, s <> x ++ pat ++ y.
Proof.
  induction s as [| c s IH]; cbn [strstr]; intros Hs x y E.
  - symmetry in E. apply app_eq_nil in E as [-> E]. apply app_eq_nil in E as [-> ->]. done.
  - destruct (has_prefix pat (c :: s)) eqn:Hp; [done |]. destruct x as [| c' x]; simplify_eq/=.
    + assert (has_prefix pat (c :: s) = true) by (apply has_prefix_true; exists y; done). congruence.
    + by eapply IH.
Qed.

(** ** Numbers *)

Definition is_digit (c : ascii) : bool := (48 <=? char_code c) && (char_code c <=? 57).

Definition is_space (c : ascii) : bool :=
  (char_code c =? 32) || ((9 <=? char_code c) && (char_code c <=? 13)).

Definition hex_digit (c : ascii) : option Z :=
  let n := char_code c in
  if (48 <=? n) && (n <=? 57) then Some (n - 48)
  else if (65 <=? n) && (n <=? 70) then Some (n - 55)
  else if (97 <=? n) && (n <=? 102) then Some (n - 87)
  else None.

Definition dec_digit (c : ascii) : option Z :=
  if is_digit c then Some (char_code c - 48) else None.

Fixpoint skip_space (s : cstr) : cstr :=
  match s with
  | c :: s' => if is_space c then skip_space s' else s
  | [] => []
  end.

(** The longest sequence of digits, after [acc]. *)
Fixpoint digits (digit : ascii -> option Z) (base acc : Z) (s : cstr) : Z * cstr :=
  match s with
  | c :: s' =>
      match digit c with
      | Some d => digits digit base (acc * base + d) s'
      | None => (acc, s)
      end
  | [] => (acc, [])
  end.

Definition sign (s : cstr) : bool * cstr :=
  match s with
  | c :: s' =>
      if decide (c = "-"%char) then (true, s')
      else if decide (c = "+"%char) then (false, s') else (false, s)
  | [] => (false, [])
  end.

(** [atoi]: what is not a number is 0. *)
Definition atoi (s : cstr) : Z :=
  let '(neg, s) := sign (skip_space s) in
  let n := fst (digits dec_digit 10 0 s) in
  if neg then - n else n.

(** ** The conversions of [sscanf]: the value and the rest, or no match *)

Definition number (digit : ascii -> option Z) (base : Z) (s : cstr) : option (Z * cstr) :=
  match s with
  | c :: _ => match digit c with Some _ => Some (digits digit base 0 s) | None => None end
  | [] => None
  end.

Definition skip_0x (s : cstr) : cstr :=
  match s with
  | z :: x :: s' =>
      if decide (z = "0"%char /\ (x = "x"%char \/ x = "X"%char)) then s' else s
  | _ => s
  end.

(** [%x] *)
Definition scan_x (s : cstr) : option (Z * cstr) :=
  let '(neg, s) := sign (skip_space s) in
  '(n, s) ← number hex_digit 16 (skip_0x s);
  Some (if neg : bool then - n else n, s).

(** [%d] *)
Definition scan_d (s : cstr) : option (Z * cstr) :=
  let '(neg, s) := sign (skip_space s) in
  '(n, s) ← number dec_digit 10 s;
  Some (if neg : bool then - n else n, s).

Fixpoint word_rest (s : cstr) : cstr * cstr :=
  match s with
  | c :: s' => if is_space c then ([], s) else let '(w, r) := word_rest s' in (c :: w, r)
  | [] => ([], [])
  end.

(** [%s] *)
Definition scan_s (s : cstr) : option (cstr * cstr) :=
  let '(w, r) := word_rest (skip_space s) in
  match w with [] => None | _ => Some (w, r) end.

(** A character of the format. *)
Definition scan_char (c : ascii) (s : cstr) : option cstr :=
  match s with
  | x :: s' => if decide (x = c) then Some s' else None
  | [] => None
  end.

(** ** A directive of the format; the number is the size of what is assigned:
    bits for a number, characters for a string *)
Inductive directive :=
  | DX (bits : Z)
  | DD (bits : Z)
  | DS (size : nat)
  | DChar (c : ascii)
  | DSpace.

Inductive field := FNum (n : Z) | FStr (s : cstr).

(** The fields that are assigned; the value of [sscanf] is their number, except
    that it is -1, and not 0, when the string ends before the first one.  A
    string that does not fit in its array is undefined. *)
Fixpoint sscanf (fmt : list directive) (s : cstr) : option (list field) :=
  match fmt with
  | [] => Some []
  | DX bits :: fmt =>
      match scan_x s with
      | Some (n, s) => fs ← sscanf fmt s; Some (FNum (n mod 2 ^ bits) :: fs)
      | None => Some []
      end
  | DD bits :: fmt =>
      match scan_d s with
      | Some (n, s) =>
          fs ← sscanf fmt s; Some (FNum ((n + 2 ^ (bits - 1)) mod 2 ^ bits - 2 ^ (bits - 1)) :: fs)
      | None => Some []
      end
  | DS size :: fmt =>
      match scan_s s with
      | Some (w, s) =>
          if decide (length w < size)%nat then fs ← sscanf fmt s; Some (FStr w :: fs) else None
      | None => Some []
      end
  | DChar c :: fmt =>
      match scan_char c s with Some s => sscanf fmt s | None => Some [] end
  | DSpace :: fmt => sscanf fmt (skip_space s)
  end.

(** ** [fgets]: a line with its newline, or the first [size - 1] characters *)

Fixpoint take_line (n : nat) (s : cstr) : cstr * cstr :=
  match n, s with
  | S n, c :: s =>
      if decide (c = "010"%char) then ([c], s)
      else let '(l, r) := take_line n s in (c :: l, r)
  | _, _ => ([], s)
  end.

Definition fgets (size : nat) (s : cstr) : option (cstr * cstr) :=
  match s with [] => None | _ => Some (take_line (size - 1) s) end.

Lemma take_line_length n s l r : take_line n s = (l, r) -> (length l + length r = length s)%nat.
Proof.
  revert s l r. induction n as [| n IH]; intros s l r; [by intros [= <- <-] |].
  destruct s as [| c s]; cbn [take_line]; [by intros [= <- <-] |].
  case_decide; [by intros [= <- <-] |]. destruct (take_line n s) as [l' r'] eqn:E.
  intros [= <- <-]. simpl. f_equal. by apply IH.
Qed.

Lemma fgets_shorter size s l r :
  (1 < size)%nat -> fgets size s = Some (l, r) -> (length r < length s)%nat.
Proof.
  intros Hs. destruct s as [| c s]; [done |]. cbn [fgets].
  destruct size as [| [| n]]; [lia.. |]. replace (S (S n) - 1)%nat with (S n) by lia.
  cbn [take_line]. case_decide; [intros [= <- <-]; simpl; lia |].
  destruct (take_line n s) as [l' r'] eqn:E. intros [= <- <-].
  apply take_line_length in E. simpl. lia.
Qed.

(** A whole line fits. *)
Lemma take_line_newline n l r :
  "010"%char ∉ l -> (length l < n)%nat ->
  take_line n (l ++ "010"%char :: r) = (l ++ ["010"%char], r).
Proof.
  revert n. induction l as [| c l IH]; intros n Hl Hn; destruct n as [| n]; simpl in *; try lia.
  - done.
  - rewrite decide_False by set_solver. rewrite IH by (set_solver || lia). done.
Qed.

Lemma fgets_line size l r :
  "010"%char ∉ l -> (length l + 1 < size)%nat ->
  fgets size (l ++ "010"%char :: r) = Some (l ++ ["010"%char], r).
Proof.
  intros Hl Hs. unfold fgets. destruct (l ++ "010"%char :: r) eqn:E; [by destruct l |].
  rewrite <- E, take_line_newline by (done || lia). done.
Qed.

(** ** Numbers that are printed *)

Definition hex_char (d : Z) : ascii := ascii_of_nat (Z.to_nat (if d <? 10 then 48 + d else 87 + d)).
Definition dec_char (d : Z) : ascii := ascii_of_nat (Z.to_nat (48 + d)).

(** The last [w] digits of [n]. *)
Fixpoint print_digits (char : Z -> ascii) (base : Z) (w : nat) (n : Z) : cstr :=
  match w with
  | O => []
  | S w => char (n / base ^ Z.of_nat w mod base) :: print_digits char base w n
  end.

Definition print_x := print_digits hex_char 16.
Definition print_d := print_digits dec_char 10.

(** The next character is no digit. *)
Definition no_digit (digit : ascii -> option Z) (s : cstr) : Prop :=
  match s with c :: _ => digit c = None | [] => True end.

Lemma digits_print digit char base w n acc r :
  1 < base -> (forall d, 0 <= d < base -> digit (char d) = Some d) -> no_digit digit r ->
  digits digit base acc (print_digits char base w n ++ r) =
  (acc * base ^ Z.of_nat w + n mod base ^ Z.of_nat w, r).
Proof.
  intros Hb Hd Hr. revert acc. induction w as [| w IH]; intros acc.
  - cbn [print_digits app]. rewrite Z.mod_1_r. replace (acc * base ^ Z.of_nat 0 + 0) with acc by (simpl; lia).
    destruct r as [| c r]; [done |]. simpl in *. by rewrite Hr.
  - cbn [print_digits app digits]. rewrite Hd by (apply Z.mod_pos_bound; lia). rewrite IH. f_equal.
    assert (0 < base ^ Z.of_nat w) by lia.
    rewrite Nat2Z.inj_succ, Z.pow_succ_r by lia.
    rewrite (Z.mul_comm base), Z.rem_mul_r by lia. lia.
Qed.

(** A decision for every digit. *)
Lemma hex_char_digit d : 0 <= d < 16 -> hex_digit (hex_char d) = Some d.
Proof.
  intros Hd. assert (Forall (fun d => hex_digit (hex_char d) = Some d) (seqZ 0 16)) as HF
    by (apply (bool_decide_unpack _); vm_compute; exact I).
  rewrite Forall_forall in HF. apply HF. apply elem_of_seqZ. lia.
Qed.

Lemma dec_char_digit d : 0 <= d < 10 -> dec_digit (dec_char d) = Some d.
Proof.
  intros Hd. assert (Forall (fun d => dec_digit (dec_char d) = Some d) (seqZ 0 10)) as HF
    by (apply (bool_decide_unpack _); vm_compute; exact I).
  rewrite Forall_forall in HF. apply HF. apply elem_of_seqZ. lia.
Qed.

(** ** Scanning what was printed *)

(** The separators of the printed fields. *)
Definition stops (s : cstr) : Prop :=
  match s with c :: _ => c ∈ [" "%char; "-"%char; ":"%char] | [] => False end.

Lemma stops_no_digit s : stops s -> no_digit hex_digit s /\ no_digit dec_digit s.
Proof.
  destruct s as [| c s]; [done |]. cbn [stops no_digit].
  intros Hc. repeat (apply elem_of_cons in Hc as [-> | Hc]; [done |]). by apply elem_of_nil in Hc.
Qed.

(** What may not begin a number that is printed. *)
Definition begins_number (s : cstr) : Prop :=
  match s with
  | c :: _ => is_space c = false /\ c <> "-"%char /\ c <> "+"%char
  | [] => False
  end.

Lemma hex_char_begins d : 0 <= d < 16 ->
  is_space (hex_char d) = false /\ hex_char d <> "-"%char /\ hex_char d <> "+"%char /\
  hex_char d <> "x"%char /\ hex_char d <> "X"%char.
Proof.
  intros Hd. assert (Forall (fun d => is_space (hex_char d) = false /\ hex_char d <> "-"%char /\
    hex_char d <> "+"%char /\ hex_char d <> "x"%char /\ hex_char d <> "X"%char) (seqZ 0 16)) as HF
    by (apply (bool_decide_unpack _); vm_compute; exact I).
  rewrite Forall_forall in HF. apply HF. apply elem_of_seqZ. lia.
Qed.

Lemma dec_char_begins d : 0 <= d < 10 ->
  is_space (dec_char d) = false /\ dec_char d <> "-"%char /\ dec_char d <> "+"%char.
Proof.
  intros Hd. assert (Forall (fun d => is_space (dec_char d) = false /\ dec_char d <> "-"%char /\
    dec_char d <> "+"%char) (seqZ 0 10)) as HF by (apply (bool_decide_unpack _); vm_compute; exact I).
  rewrite Forall_forall in HF. apply HF. apply elem_of_seqZ. lia.
Qed.

Lemma sign_begins s : begins_number s -> sign (skip_space s) = (false, s).
Proof.
  destruct s as [| c s]; [done |]. intros (Hs & Hm & Hp). cbn [skip_space]. rewrite Hs.
  cbn [sign]. by rewrite !decide_False by done.
Qed.

Lemma scan_x_print w n r :
  (0 < w)%nat -> 0 <= n < 16 ^ Z.of_nat w -> stops r -> scan_x (print_x w n ++ r) = Some (n, r).
Proof.
  intros Hw Hn Hr. destruct w as [| w]; [lia |].
  assert (forall a b, 0 <= a / b mod 16 < 16) as Hrange by (intros; apply Z.mod_pos_bound; lia).
  unfold scan_x. rewrite sign_begins.
  2: { cbn [print_x print_digits app begins_number].
       destruct (hex_char_begins _ (Hrange n (16 ^ Z.of_nat w))) as (? & ? & ? & _). done. }
  assert (skip_0x (print_x (S w) n ++ r) = print_x (S w) n ++ r) as ->.
  { unfold print_x. cbn [print_digits app skip_0x]. destruct w as [| w]; cbn [print_digits app].
    - destruct r as [| c r]; [done |]. rewrite decide_False; [done |]. intros [_ Hx].
      cbn [stops] in Hr. set_solver.
    - rewrite decide_False; [done |]. intros [_ Hx].
      destruct (hex_char_begins _ (Hrange n (16 ^ Z.of_nat w))) as (_ & _ & _ & ? & ?). naive_solver. }
  assert (number hex_digit 16 (print_x (S w) n ++ r) =
    Some (digits hex_digit 16 0 (print_x (S w) n ++ r))) as ->.
  { unfold print_x. cbn [print_digits app number]. by rewrite hex_char_digit. }
  unfold print_x. rewrite digits_print; [| lia | apply hex_char_digit | by apply stops_no_digit].
  simpl. by rewrite Z.mod_small.
Qed.

Lemma scan_d_print w n r :
  (0 < w)%nat -> 0 <= n < 10 ^ Z.of_nat w -> stops r -> scan_d (print_d w n ++ r) = Some (n, r).
Proof.
  intros Hw Hn Hr. destruct w as [| w]; [lia |].
  assert (forall a b, 0 <= a / b mod 10 < 10) as Hrange by (intros; apply Z.mod_pos_bound; lia).
  unfold scan_d. rewrite sign_begins by
    (cbn [print_d print_digits app begins_number]; apply dec_char_begins, Hrange).
  assert (number dec_digit 10 (print_d (S w) n ++ r) =
    Some (digits dec_digit 10 0 (print_d (S w) n ++ r))) as ->.
  { unfold print_d. cbn [print_digits app number]. by rewrite dec_char_digit. }
  unfold print_d. rewrite digits_print; [| lia | apply dec_char_digit | by apply stops_no_digit].
  simpl. by rewrite Z.mod_small.
Qed.

(** A word: no white space, and not empty. *)
Definition is_word (w : cstr) : Prop := w <> [] /\ Forall (fun c => is_space c = false) w.

#[export] Instance is_word_dec w : Decision (is_word w).
Proof. unfold is_word. apply _. Defined.

Definition ends_word (s : cstr) : Prop :=
  match s with c :: _ => is_space c = true | [] => True end.

Lemma word_rest_app w r :
  Forall (fun c => is_space c = false) w -> ends_word r -> word_rest (w ++ r) = (w, r).
Proof.
  intros Hw Hr. induction Hw as [| c w Hc _ IH].
  - destruct r as [| c r]; [done |]. cbn in *. by rewrite Hr.
  - cbn [app word_rest]. by rewrite Hc, IH.
Qed.

Lemma skip_space_word w r : is_word w -> skip_space (w ++ r) = w ++ r.
Proof.
  intros [Hne Hw]. destruct w as [| c w]; [done |]. cbn [app skip_space].
  apply Forall_cons in Hw as [-> _]. done.
Qed.

Lemma scan_s_word w r : is_word w -> ends_word r -> scan_s (w ++ r) = Some (w, r).
Proof.
  intros Hw Hr. unfold scan_s. rewrite skip_space_word, word_rest_app by (done || apply Hw).
  destruct Hw as [Hne _]. by destruct w.
Qed.

Lemma skip_spaces n s : skip_space (replicate n " "%char ++ s) = skip_space s.
Proof. induction n as [| n IH]; [done |]. cbn [replicate app skip_space]. exact IH. Qed.

Lemma skip_space_idem s : skip_space (skip_space s) = skip_space s.
Proof.
  induction s as [| c s IH]; [done |]. cbn [skip_space]. destruct (is_space c) eqn:E; [done |].
  cbn [skip_space]. by rewrite E.
Qed.

(** The conversions but [%c] skip white space first. *)
Lemma scan_skip s :
  scan_x (skip_space s) = scan_x s /\ scan_d (skip_space s) = scan_d s /\
  scan_s (skip_space s) = scan_s s.
Proof. unfold scan_x, scan_d, scan_s. by rewrite skip_space_idem. Qed.
