(* ===== verification/ListH.v ===== *)
(** * [list.h], first half: circular doubly linked lists

    A [struct list_head] object is an address; the memory maps every allocated
    object to its [next] and to its [prev] field.  The two fields are two
    separate maps, since a [next] field is never the same object as a [prev]
    field.  Reading or writing a field of an address that is not an allocated
    [struct list_head] is undefined, and so makes the command fail.

    [dll m h xs] says that the list whose head is [h] holds the nodes [xs], in
    order.  The theorems give, for each operation of the header, the list that
    results, and what it leaves alone. *)

From S2P Require Import Prelude Path.

(** ** Memory and the operations *)

Record lmem := mk_lmem { nxt : gmap Z Z; prv : gmap Z Z }.

Definition get_next (p : Z) : cmd lmem Z := gets_opt (fun m => nxt m !! p).
Definition get_prev (p : Z) : cmd lmem Z := gets_opt (fun m => prv m !! p).

Definition set_next (p v : Z) : cmd lmem unit := fun m =>
  match nxt m !! p with
  | Some _ => Some (tt, mk_lmem (<[p := v]> (nxt m)) (prv m))
  | None => None
  end.

Definition set_prev (p v : Z) : cmd lmem unit := fun m =>
  match prv m !! p with
  | Some _ => Some (tt, mk_lmem (nxt m) (<[p := v]> (prv m)))
  | None => None
  end.

Definition INIT_LIST_HEAD (ptr : Z) : cmd lmem unit :=
  set_next ptr ptr;; set_prev ptr ptr.

Definition __list_add (nnew prev next : Z) : cmd lmem unit :=
  set_prev next nnew;;
  set_next nnew next;;
  set_prev nnew prev;;
  set_next prev nnew.

Definition list_add (nnew head : Z) : cmd lmem unit :=
  next ← get_next head;
  __list_add nnew head next.

Definition list_add_tail (nnew head : Z) : cmd lmem unit :=
  prev ← get_prev head;
  __list_add nnew prev head.

Definition __list_del (prev next : Z) : cmd lmem unit :=
  set_prev next prev;;
  set_next prev next.

Definition list_del (entry : Z) : cmd lmem unit :=
  prev ← get_prev entry;
  next ← get_next entry;
  __list_del prev next;;
  set_prev entry 0;;
  set_next entry 0.

Definition list_del_init (entry : Z) : cmd lmem unit :=
  prev ← get_prev entry;
  next ← get_next entry;
  __list_del prev next;;
  INIT_LIST_HEAD entry.

Definition list_empty (head : Z) : cmd lmem bool :=
  next ← get_next head;
  mret (next =? head).

Definition list_splice (list head : Z) : cmd lmem unit :=
  first ← get_next list;
  if first =? list then mret tt
  else
    last ← get_prev list;
    at_ ← get_next head;
    set_prev first head;;
    set_next head first;;
    set_next last at_;;
    set_prev at_ last.

(** [list_entry]: the address of the structure whose member at [offset] is
    [ptr]; the subtraction is on pointers. *)
Definition list_entry (ptr offset : Z) : Z := u64 (ptr - offset).

(** The loop macros.  The body is a command on a client state that contains a
    list memory; it may return from the enclosing function with [Some r]. *)
Section loops.
Context {S R : Type} `{Lens S lmem}.

Fixpoint list_for_each_from (fuel : nat) (body : Z -> cmd S (option R))
    (pos head : Z) : cmd S (option R) :=
  match fuel with
  | O => undefined
  | Datatypes.S fuel =>
      if pos =? head then mret None
      else
        r ← body pos;
        match r with
        | Some r => mret (Some r)
        | None =>
            next ← zoom (get_next pos);
            list_for_each_from fuel body next head
        end
  end.

Definition list_for_each (fuel : nat) (body : Z -> cmd S (option R))
    (head : Z) : cmd S (option R) :=
  pos ← zoom (get_next head);
  list_for_each_from fuel body pos head.

Fixpoint list_for_each_safe_from (fuel : nat) (body : Z -> cmd S (option R))
    (pos n head : Z) : cmd S (option R) :=
  match fuel with
  | O => undefined
  | Datatypes.S fuel =>
      if pos =? head then mret None
      else
        r ← body pos;
        match r with
        | Some r => mret (Some r)
        | None =>
            n' ← zoom (get_next n);
            list_for_each_safe_from fuel body n n' head
        end
  end.

Definition list_for_each_safe (fuel : nat) (body : Z -> cmd S (option R))
    (head : Z) : cmd S (option R) :=
  pos ← zoom (get_next head);
  n ← zoom (get_next pos);
  list_for_each_safe_from fuel body pos n head.

End loops.

(** ** Representation *)

Definition alloc (m : lmem) (a : Z) : Prop :=
  is_Some (nxt m !! a) /\ is_Some (prv m !! a).

Definition dll (m : lmem) (h : Z) (xs : list Z) : Prop :=
  NoDup (h :: xs) /\ path (nxt m) h xs h /\ path (prv m) h (reverse xs) h.

(** [m'] differs from [m] only in the fields of the objects [l], and the same
    objects are allocated in both. *)
Definition changes_only (l : list Z) (m m' : lmem) : Prop :=
  (forall a, a ∉ l -> nxt m' !! a = nxt m !! a /\ prv m' !! a = prv m !! a) /\
  (forall a, alloc m a -> alloc m' a).

Lemma dll_ext m m' h xs :
  (forall a, a ∈ h :: xs -> nxt m' !! a = nxt m !! a /\ prv m' !! a = prv m !! a) ->
  dll m h xs -> dll m' h xs.
Proof.
  intros Hsame (Hnd & Hn & Hp). split; [done |]. split.
  - eapply path_ext; [| exact Hn]. intros z Hz. by apply Hsame.
  - eapply path_ext; [| exact Hp]. intros z Hz. apply Hsame. set_solver.
Qed.

Lemma dll_changes_only l m m' h xs :
  changes_only l m m' -> (forall a, a ∈ h :: xs -> a ∉ l) ->
  dll m h xs -> dll m' h xs.
Proof.
  intros [Hsame _] Hdis. apply dll_ext. intros a Ha. by apply Hsame, Hdis.
Qed.

Lemma dll_alloc m h xs a : dll m h xs -> a ∈ h :: xs -> alloc m a.
Proof.
  intros (_ & Hn & Hp) Ha. split.
  - eapply path_is_Some; [exact Hn | done].
  - eapply path_is_Some; [exact Hp | set_solver].
Qed.

Lemma dll_NoDup m h xs : dll m h xs -> NoDup xs.
Proof. intros (Hnd & _). by apply NoDup_cons in Hnd as [_ ?]. Qed.

Lemma dll_inj m h xs ys : dll m h xs -> dll m h ys -> xs = ys.
Proof.
  intros (Hx & Hnx & _) (Hy & Hny & _).
  apply NoDup_cons in Hx as [Hx _], Hy as [Hy _].
  eapply path_inj; eauto.
Qed.

(** The neighbours of a position in the list. *)
Definition before (h : Z) (xs : list Z) : Z := default h (last xs).
Definition after (h : Z) (ys : list Z) : Z := default h (head ys).

Lemma before_elem h xs : before h xs ∈ h :: xs.
Proof.
  unfold before. destruct (last xs) eqn:E; simpl; [| set_solver].
  apply last_Some_elem_of in E. set_solver.
Qed.

Lemma after_elem h ys : after h ys ∈ h :: ys.
Proof. unfold after. destruct ys; simpl; set_solver. Qed.

Lemma set_next_Some m p v :
  is_Some (nxt m !! p) ->
  set_next p v m = Some (tt, mk_lmem (<[p := v]> (nxt m)) (prv m)).
Proof. intros [x Hx]. unfold set_next. by rewrite Hx. Qed.

Lemma set_prev_Some m p v :
  is_Some (prv m !! p) ->
  set_prev p v m = Some (tt, mk_lmem (nxt m) (<[p := v]> (prv m))).
Proof. intros [x Hx]. unfold set_prev. by rewrite Hx. Qed.

Lemma get_next_Some m p v : nxt m !! p = Some v -> get_next p m = Some (v, m).
Proof. intros H. unfold get_next, gets_opt. by rewrite H. Qed.

Lemma get_prev_Some m p v : prv m !! p = Some v -> get_prev p m = Some (v, m).
Proof. intros H. unfold get_prev, gets_opt. by rewrite H. Qed.

Lemma insert_is_Some (f : gmap Z Z) p v a :
  is_Some (f !! a) -> is_Some (<[p := v]> f !! a).
Proof. intros H. rewrite lookup_insert. case_decide; eauto. Qed.

#[export] Hint Resolve insert_is_Some before_elem after_elem dll_alloc : memleax.

(** Run the next field access of a command. *)
Ltac field_step :=
  match goal with
  | |- context [(mbind _ (set_next _ _)) _] =>
      erewrite cmd_bind_Some;
        [| apply set_next_Some; simpl; by eauto 6 with memleax]
  | |- context [(mbind _ (set_prev _ _)) _] =>
      erewrite cmd_bind_Some;
        [| apply set_prev_Some; simpl; by eauto 6 with memleax]
  | |- context [(mbind _ (get_next _)) _] =>
      erewrite cmd_bind_Some; [| apply get_next_Some; simpl; by eauto]
  | |- context [(mbind _ (get_prev _)) _] =>
      erewrite cmd_bind_Some; [| apply get_prev_Some; simpl; by eauto]
  | |- context [set_next _ _ _] =>
      rewrite set_next_Some by (simpl; eauto 6 with memleax)
  | |- context [set_prev _ _ _] =>
      rewrite set_prev_Some by (simpl; eauto 6 with memleax)
  end; simpl.

Lemma changes_only_insert l m (f g : gmap Z Z) :
  (forall a, a ∉ l -> f !! a = nxt m !! a) ->
  (forall a, a ∉ l -> g !! a = prv m !! a) ->
  (forall a, is_Some (nxt m !! a) -> is_Some (f !! a)) ->
  (forall a, is_Some (prv m !! a) -> is_Some (g !! a)) ->
  changes_only l m (mk_lmem f g).
Proof.
  intros Hf Hg Hf' Hg'. split; simpl.
  - intros a Ha. auto.
  - intros a [H1 H2]. split; simpl; auto.
Qed.

Ltac solve_changes :=
  apply changes_only_insert;
  [ intros; repeat (rewrite lookup_insert_ne by set_solver); done
  | intros; repeat (rewrite lookup_insert_ne by set_solver); done
  | intros; eauto with memleax
  | intros; eauto with memleax ].

(** ** Insertion *)

Lemma __list_add_between m h xs ys n :
  dll m h (xs ++ ys) -> n ∉ h :: xs ++ ys -> alloc m n ->
  exists m', __list_add n (before h xs) (after h ys) m = Some (tt, m') /\
    dll m' h (xs ++ n :: ys) /\
    changes_only [n; before h xs; after h ys] m m'.
Proof.
  intros Hd Hn [Hn1 Hn2]. pose proof Hd as (Hnd & Hnx & Hpr).
  assert (alloc m (before h xs)) as [Hb1 Hb2].
  { eapply dll_alloc; [done |]. pose proof (before_elem h xs). set_solver. }
  assert (alloc m (after h ys)) as [Ha1 Ha2].
  { eapply dll_alloc; [done |]. pose proof (after_elem h ys). set_solver. }
  eexists. split; [unfold __list_add; repeat field_step; reflexivity |].
  split; [| solve_changes].
  assert (n <> after h ys) as Hne by (pose proof (after_elem h ys); set_solver).
  split; [| split]; simpl.
  - by apply NoDup_middle.
  - by apply path_insert_node.
  - rewrite insert_insert_ne by done. rewrite reverse_app, reverse_cons.
    rewrite <- app_assoc. simpl. rewrite reverse_app in Hpr.
    pose proof (path_insert_node (prv m) h (reverse ys) (reverse xs) h n) as H.
    rewrite last_reverse, head_reverse, <- reverse_app in H.
    apply H; [by apply NoDup_head_reverse | set_solver |].
    by rewrite reverse_app.
Qed.

Lemma list_add_spec m h xs n :
  dll m h xs -> n ∉ h :: xs -> alloc m n ->
  exists m', list_add n h m = Some (tt, m') /\ dll m' h (n :: xs) /\
    changes_only [n; h; after h xs] m m'.
Proof.
  intros Hd Hn Ha. pose proof Hd as (_ & Hnx & _).
  destruct (__list_add_between m h [] xs n Hd Hn Ha) as (m' & Hrun & Hd' & Hch).
  exists m'. split; [| done].
  unfold list_add. apply path_head in Hnx. by field_step.
Qed.

Lemma list_add_tail_spec m h xs n :
  dll m h xs -> n ∉ h :: xs -> alloc m n ->
  exists m', list_add_tail n h m = Some (tt, m') /\ dll m' h (xs ++ [n]) /\
    changes_only [n; before h xs; h] m m'.
Proof.
  intros Hd Hn Ha. pose proof Hd as (_ & _ & Hpr).
  rewrite <- (app_nil_r xs) in Hd, Hn.
  destruct (__list_add_between m h xs [] n Hd Hn Ha) as (m' & Hrun & Hd' & Hch).
  exists m'. split; [| done].
  unfold list_add_tail. apply path_head in Hpr. rewrite head_reverse in Hpr.
  by field_step.
Qed.

(** ** Deletion *)

Lemma dll_neighbours m h xs n ys :
  dll m h (xs ++ n :: ys) ->
  prv m !! n = Some (before h xs) /\ nxt m !! n = Some (after h ys).
Proof.
  intros (_ & Hnx & Hpr). split.
  - rewrite reverse_app, reverse_cons, <- app_assoc in Hpr. simpl in Hpr.
    apply path_app in Hpr as [_ Hpr]. apply path_head in Hpr.
    by rewrite head_reverse in Hpr.
  - apply path_app in Hnx as [_ Hnx]. by apply path_head in Hnx.
Qed.

Lemma __list_del_between m h xs n ys :
  dll m h (xs ++ n :: ys) ->
  exists m', __list_del (before h xs) (after h ys) m = Some (tt, m') /\
    dll m' h (xs ++ ys) /\ changes_only [before h xs; after h ys] m m'.
Proof.
  intros Hd. pose proof Hd as (Hnd & Hnx & Hpr).
  assert (alloc m (before h xs)) as [Hb1 Hb2].
  { eapply dll_alloc; [done |]. pose proof (before_elem h xs). set_solver. }
  assert (alloc m (after h ys)) as [Ha1 Ha2].
  { eapply dll_alloc; [done |]. pose proof (after_elem h ys). set_solver. }
  eexists. split; [unfold __list_del; repeat field_step; reflexivity |].
  split; [| solve_changes].
  split; [| split]; simpl.
  - by apply NoDup_middle in Hnd as [_ Hnd].
  - by eapply path_delete_node.
  - pose proof (path_delete_node (prv m) h (reverse ys) n (reverse xs) h) as H.
    rewrite last_reverse, head_reverse, <- reverse_app in H. apply H.
    + apply NoDup_head_reverse in Hnd.
      by rewrite reverse_app, reverse_cons, <- app_assoc in Hnd.
    + by rewrite reverse_app, reverse_cons, <- app_assoc in Hpr.
Qed.

Lemma changes_only_alloc l m m' a : changes_only l m m' -> alloc m a -> alloc m' a.
Proof. intros [_ H]. apply H. Qed.

Lemma changes_only_weaken l l' m m' :
  (forall a, a ∈ l -> a ∈ l') -> changes_only l m m' -> changes_only l' m m'.
Proof. intros Hl [H1 H2]. split; [| done]. intros a Ha. apply H1. set_solver. Qed.

Lemma changes_only_trans l m m' m'' :
  changes_only l m m' -> changes_only l m' m'' -> changes_only l m m''.
Proof.
  intros [H1 H2] [H3 H4]. split; [| eauto].
  intros a Ha. destruct (H1 a Ha) as [<- <-]. by apply H3.
Qed.

#[export] Hint Resolve changes_only_alloc : memleax.

(** Overwriting both fields of a node that is on no list of interest. *)
Lemma write_node m n v w :
  alloc m n ->
  changes_only [n] m (mk_lmem (<[n := v]> (nxt m)) (<[n := w]> (prv m))).
Proof. intros [? ?]. solve_changes. Qed.

Lemma list_del_spec m h xs n ys :
  dll m h (xs ++ n :: ys) ->
  exists m', list_del n m = Some (tt, m') /\ dll m' h (xs ++ ys) /\
    nxt m' !! n = Some 0 /\ prv m' !! n = Some 0 /\
    changes_only [before h xs; n; after h ys] m m'.
Proof.
  intros Hd. pose proof (dll_neighbours _ _ _ _ _ Hd) as [Hp Hn].
  pose proof Hd as (Hnd & _).
  destruct (__list_del_between _ _ _ _ _ Hd) as (m1 & Hrun & Hd1 & Hch).
  assert (alloc m1 n) as [Ha1 Ha2] by (eapply changes_only_alloc; [done | split; eauto]).
  eexists. split.
  { unfold list_del. do 2 field_step. erewrite cmd_bind_Some by exact Hrun.
    repeat field_step. reflexivity. }
  pose proof (write_node m1 n 0 0 ltac:(done)) as Hw.
  apply NoDup_middle in Hnd as [Hnotin Hnd].
  split_and!; [| apply lookup_insert_eq | apply lookup_insert_eq |].
  - eapply dll_changes_only; [exact Hw | set_solver | done].
  - eapply changes_only_trans; [eapply changes_only_weaken; [| exact Hch] |
      eapply changes_only_weaken; [| exact Hw]]; set_solver.
Qed.

Lemma list_del_init_spec m h xs n ys :
  dll m h (xs ++ n :: ys) ->
  exists m', list_del_init n m = Some (tt, m') /\
    dll m' h (xs ++ ys) /\ dll m' n [] /\
    changes_only [before h xs; n; after h ys] m m'.
Proof.
  intros Hd. pose proof (dll_neighbours _ _ _ _ _ Hd) as [Hp Hn].
  pose proof Hd as (Hnd & _).
  destruct (__list_del_between _ _ _ _ _ Hd) as (m1 & Hrun & Hd1 & Hch).
  assert (alloc m1 n) as [Ha1 Ha2] by (eapply changes_only_alloc; [done | split; eauto]).
  eexists. split.
  { unfold list_del_init. do 2 field_step. erewrite cmd_bind_Some by exact Hrun.
    unfold INIT_LIST_HEAD. repeat field_step. reflexivity. }
  pose proof (write_node m1 n n n ltac:(done)) as Hw.
  apply NoDup_middle in Hnd as [Hnotin Hnd].
  split_and!.
  - eapply dll_changes_only; [exact Hw | set_solver | done].
  - split_and!; [apply NoDup_singleton | apply lookup_insert_eq..].
  - eapply changes_only_trans; [eapply changes_only_weaken; [| exact Hch] |
      eapply changes_only_weaken; [| exact Hw]]; set_solver.
Qed.

Lemma INIT_LIST_HEAD_spec m h :
  alloc m h ->
  exists m', INIT_LIST_HEAD h m = Some (tt, m') /\ dll m' h [] /\
    changes_only [h] m m'.
Proof.
  intros Ha. pose proof Ha as [? ?].
  eexists. split; [unfold INIT_LIST_HEAD; repeat field_step; reflexivity |].
  split; [| by apply write_node].
  split_and!; [apply NoDup_singleton | apply lookup_insert_eq..].
Qed.

Lemma list_empty_spec m h xs :
  dll m h xs -> list_empty h m = Some (bool_decide (xs = []), m).
Proof.
  intros (Hnd & Hnx & _). unfold list_empty.
  apply path_head in Hnx. field_step. unfold mret, cmd_ret.
  do 2 f_equal. apply NoDup_cons in Hnd as [Hnd _].
  destruct xs as [| x xs]; simpl; [by rewrite Z.eqb_refl |].
  apply Z.eqb_neq. set_solver.
Qed.

(** ** Joining two lists *)

Lemma reverse_cons_shape (x : Z) xs :
  exists rs, reverse (x :: xs) = default x (last xs) :: rs /\
    default (default x (last xs)) (last rs) = x.
Proof.
  destruct xs as [| y xs _] using rev_ind; [by exists [] |].
  exists (reverse (x :: xs)). rewrite last_snoc. simpl.
  rewrite app_comm_cons, reverse_app. split; [done |]. by rewrite last_reverse.
Qed.

Lemma list_splice_nil m l h :
  dll m l [] -> list_splice l h m = Some (tt, m).
Proof.
  intros (_ & Hn & _). unfold list_splice. field_step. by rewrite Z.eqb_refl.
Qed.

Lemma list_splice_cons m l x xs h ys :
  dll m l (x :: xs) -> dll m h ys ->
  (forall a, a ∈ l :: x :: xs -> a ∉ h :: ys) ->
  exists m', list_splice l h m = Some (tt, m') /\
    dll m' h (x :: xs ++ ys) /\
    changes_only [x; default x (last xs); h; after h ys] m m'.
Proof.
  intros Hl Hh Hdis. pose proof Hl as (Hndl & Hnl & Hpl).
  pose proof Hh as (Hndh & Hnh & Hph).
  pose proof (default_last_elem x xs) as Hlx. pose proof (after_elem h ys) as Hay.
  assert (forall a, a ∈ l :: x :: xs -> alloc m a) as Hal by eauto with memleax.
  assert (forall a, a ∈ h :: ys -> alloc m a) as Hah by eauto with memleax.
  destruct (Hal x ltac:(set_solver)), (Hal (default x (last xs)) ltac:(set_solver)),
    (Hah h ltac:(set_solver)), (Hah (after h ys) ltac:(set_solver)).
  assert (prv m !! l = Some (default x (last xs))) as Hlast.
  { apply path_head in Hpl. rewrite head_reverse in Hpl.
    rewrite Hpl. f_equal. destruct xs as [| y xs] using rev_ind; [done |].
    by rewrite app_comm_cons, !last_snoc. }
  pose proof (path_head _ _ _ _ Hnl) as Hfirst. simpl in Hfirst.
  pose proof (path_head _ _ _ _ Hnh) as Hat.
  eexists. split.
  { unfold list_splice. field_step.
    destruct (Z.eqb_spec x l) as [-> |]; [exfalso; apply NoDup_cons in Hndl; set_solver |].
    repeat field_step. reflexivity. }
  split; [| solve_changes].
  apply NoDup_cons in Hndl as [Hl1 Hndl].
  split_and!; simpl.
  - rewrite app_comm_cons. apply NoDup_cons in Hndh as [Hh1 Hndh].
    apply NoDup_cons. split; [set_solver |]. apply NoDup_app. split_and!; [done | set_solver | done].
  - apply (path_splice (nxt m) l x xs h [] ys h); try done. set_solver.
  - destruct (reverse_cons_shape x xs) as (rs & Hrev & Hlastrev).
    rewrite app_comm_cons, reverse_app, Hrev.
    rewrite insert_insert_ne by set_solver.
    pose proof (path_splice (prv m) l (default x (last xs)) rs h (reverse ys) [] h) as Hsp.
    rewrite Hlastrev, last_reverse, !app_nil_r in Hsp. simpl in Hsp.
    rewrite Hrev in Hpl. apply Hsp; try done.
    + rewrite <- Hrev. by rewrite reverse_Permutation.
    + by apply NoDup_head_reverse.
    + intros z Hz. rewrite <- Hrev in Hz. set_solver.
Qed.

(** No list is longer than the memory. *)
Definition list_fuel (m : lmem) : nat := S (base.size (nxt m)).

Lemma dll_fuel m h xs : dll m h xs -> (length xs < list_fuel m)%nat.
Proof.
  intros Hd. pose proof (dll_NoDup _ _ _ Hd) as Hnd. unfold list_fuel.
  enough (length xs <= base.size (nxt m))%nat by lia.
  rewrite <- (size_dom (D := gset Z)), <- (size_list_to_set (C := gset Z) xs) by done.
  apply subseteq_size. intros x Hx. apply elem_of_list_to_set in Hx.
  apply elem_of_dom. eapply dll_alloc; [done | set_solver].
Qed.

(** ** The loop macros run their body over the nodes of the list

    [run_list body xs] runs the body on each node in turn, until it returns
    from the enclosing function.  The loops are equal to it, undefinedness
    included: [list_for_each] when the body keeps the list as it is, and
    [list_for_each_safe] when it keeps the part of the list that is still to be
    visited, the node it is called on excluded. *)

Section loop_specs.
Context {S R : Type} `{Lens S lmem}.
Implicit Types (body : Z -> cmd S (option R)) (h : Z) (s : S).

Lemma zoom_get_next p v s :
  nxt (view s) !! p = Some v -> zoom (get_next p) s = Some (v, s).
Proof.
  intros Hp. erewrite zoom_Some by by apply get_next_Some. by rewrite update_view.
Qed.

Definition keeps_list (P : S -> Prop) body h (xs : list Z) : Prop :=
  (forall s, P s -> dll (view s) h xs) /\
  (forall x s r s', x ∈ xs -> P s -> body x s = Some (r, s') -> P s').

Lemma list_for_each_from_run P body h xs vis todo fuel s :
  keeps_list P body h xs -> xs = vis ++ todo -> (length todo < fuel)%nat -> P s ->
  list_for_each_from fuel body (after h todo) h s = run_list body todo s.
Proof.
  intros [Hdll Hkeep]. revert vis fuel s.
  induction todo as [| x todo IH]; intros vis fuel s Hxs Hf HP;
    (destruct fuel as [| fuel]; simpl in *; [lia |]).
  - by rewrite Z.eqb_refl.
  - change (after h (x :: todo)) with x.
    pose proof (Hdll s HP) as (Hnd & _). rewrite Hxs in Hnd.
    apply NoDup_cons in Hnd as [Hh _].
    destruct (Z.eqb_spec x h) as [-> |]; [set_solver |].
    unfold mbind, cmd_bind. destruct (body x s) as [[[r |] s'] |] eqn:E; [done | | done].
    assert (P s') as HP' by (eapply Hkeep; [| done..]; set_solver).
    pose proof (Hdll s' HP') as Hd'. rewrite Hxs in Hd'.
    apply dll_neighbours in Hd' as [_ Hx].
    rewrite (zoom_get_next _ _ _ Hx).
    apply (IH (vis ++ [x])); [| lia | done]. by rewrite <- app_assoc.
Qed.

Lemma list_for_each_run P body h xs fuel s :
  keeps_list P body h xs -> (length xs < fuel)%nat -> P s ->
  list_for_each fuel body h s = run_list body xs s.
Proof.
  intros Hk Hf HP. unfold list_for_each.
  pose proof (proj1 Hk s HP) as (_ & Hn & _). apply path_head in Hn.
  erewrite cmd_bind_Some by by apply zoom_get_next.
  by apply (list_for_each_from_run P _ _ xs []).
Qed.

(** The nodes [todo] are still linked, and the head is still a node. *)
Definition remaining (m : lmem) (h : Z) (todo : list Z) : Prop :=
  is_Some (nxt m !! h) /\
  match todo with [] => True | y :: todo => path (nxt m) y todo h end.

Definition keeps_rest (P : list Z -> S -> Prop) body h : Prop :=
  (forall todo s, P todo s -> remaining (view s) h todo) /\
  (forall x todo s s', P (x :: todo) s -> body x s = Some (None, s') -> P todo s').

Lemma list_for_each_safe_from_run P body h todo fuel s n :
  keeps_rest P body h -> h ∉ todo -> (length todo < fuel)%nat -> P todo s ->
  (todo <> [] -> n = after h (tail todo)) ->
  list_for_each_safe_from fuel body (after h todo) n h s = run_list body todo s.
Proof.
  intros [Hrem Hkeep]. revert fuel s n.
  induction todo as [| x todo IH]; intros fuel s n Hh Hf HP Hn;
    (destruct fuel as [| fuel]; simpl in *; [lia |]).
  - by rewrite Z.eqb_refl.
  - change (after h (x :: todo)) with x.
    destruct (Z.eqb_spec x h) as [-> |]; [set_solver |].
    unfold mbind, cmd_bind. destruct (body x s) as [[[r |] s'] |] eqn:E; [done | | done].
    assert (P todo s') as HP' by eauto.
    destruct (Hrem _ _ HP') as [[v Hv] Hpath]. rewrite (Hn ltac:(done)).
    destruct todo as [| y todo]; unfold after in *; simpl in *.
    + rewrite (zoom_get_next _ _ _ Hv).
      apply (IH fuel s' v); [set_solver | lia | done | congruence].
    + apply path_head in Hpath. rewrite (zoom_get_next _ _ _ Hpath).
      apply IH; [set_solver | lia | done | done].
Qed.

Lemma list_for_each_safe_run P body h xs fuel s :
  keeps_rest P body h -> dll (view s) h xs -> (length xs < fuel)%nat -> P xs s ->
  list_for_each_safe fuel body h s = run_list body xs s.
Proof.
  intros Hk (Hnd & Hn & _) Hf HP. unfold list_for_each_safe.
  apply NoDup_cons in Hnd as [Hh _].
  pose proof (path_head _ _ _ _ Hn) as Hhd.
  erewrite cmd_bind_Some by by apply zoom_get_next.
  destruct xs as [| x xs]; simpl in *.
  - erewrite cmd_bind_Some by by apply zoom_get_next.
    apply (list_for_each_safe_from_run P _ _ []); (done || congruence).
  - destruct Hn as [_ Hn]. pose proof (path_head _ _ _ _ Hn) as Hhd'.
    erewrite cmd_bind_Some by by apply zoom_get_next.
    by apply (list_for_each_safe_from_run P _ _ (x :: xs)).
Qed.

End loop_specs.

(** ** Refinement: the operations on one list are those of a sequence *)

Inductive list_op :=
  | OpAdd (n : Z)
  | OpAddTail (n : Z)
  | OpDel (n : Z)
  | OpDelInit (n : Z).

Definition run_list_op (h : Z) (o : list_op) : cmd lmem unit :=
  match o with
  | OpAdd n => list_add n h
  | OpAddTail n => list_add_tail n h
  | OpDel n => list_del n
  | OpDelInit n => list_del_init n
  end.

(** The abstract operation; [None] when the header's rules forbid it: only a
    node that is not on the list may be added, only one that is on it deleted. *)
Definition abs_list_op (o : list_op) (xs : list Z) : option (list Z) :=
  match o with
  | OpAdd n => if decide (n ∈ xs) then None else Some (n :: xs)
  | OpAddTail n => if decide (n ∈ xs) then None else Some (xs ++ [n])
  | OpDel n | OpDelInit n =>
      if decide (n ∈ xs) then Some (filter (fun x => x <> n) xs) else None
  end.

Definition op_node (o : list_op) : Z :=
  match o with OpAdd n | OpAddTail n | OpDel n | OpDelInit n => n end.

Fixpoint run_list_ops (h : Z) (os : list list_op) : cmd lmem unit :=
  match os with
  | [] => mret tt
  | o :: os => run_list_op h o;; run_list_ops h os
  end.

Fixpoint abs_list_ops (os : list list_op) (xs : list Z) : option (list Z) :=
  match os with
  | [] => Some xs
  | o :: os => xs ← abs_list_op o xs; abs_list_ops os xs
  end.

Lemma filter_ne_middle (xs ys : list Z) n :
  NoDup (xs ++ n :: ys) -> filter (fun x => x <> n) (xs ++ n :: ys) = xs ++ ys.
Proof.
  intros Hnd. apply NoDup_app in Hnd as (_ & Hdis & Hnd).
  apply NoDup_cons in Hnd as [Hn _].
  rewrite filter_app, filter_cons_False by naive_solver.
  f_equal; apply filter_all; set_solver.
Qed.

Lemma run_list_op_refines m h xs xs' o :
  dll m h xs -> abs_list_op o xs = Some xs' -> op_node o <> h -> alloc m (op_node o) ->
  exists m', run_list_op h o m = Some (tt, m') /\ dll m' h xs' /\
    (forall a, alloc m a -> alloc m' a).
Proof.
  intros Hd Habs Hne Ha.
  destruct o as [n | n | n | n]; simpl in *; case_decide as Hn; simplify_eq.
  - destruct (list_add_spec _ _ _ n Hd) as (m' & ? & ? & [_ ?]); [set_solver | done | eauto].
  - destruct (list_add_tail_spec _ _ _ n Hd) as (m' & ? & ? & [_ ?]);
      [set_solver | done | eauto].
  - apply list_elem_of_split in Hn as (l1 & l2 & ->).
    rewrite filter_ne_middle by by eapply dll_NoDup.
    destruct (list_del_spec _ _ _ _ _ Hd) as (m' & ? & ? & _ & _ & [_ ?]). eauto.
  - apply list_elem_of_split in Hn as (l1 & l2 & ->).
    rewrite filter_ne_middle by by eapply dll_NoDup.
    destruct (list_del_init_spec _ _ _ _ _ Hd) as (m' & ? & ? & _ & [_ ?]). eauto.
Qed.

(** C17: every sequence of [list_add], [list_add_tail], [list_del] and
    [list_del_init] that obeys the rules of the header (add what is not on the
    list, delete what is) runs without undefined behaviour and leaves the
    circular list that the same operations give on a sequence. *)
Theorem list_ops_refine m h xs xs' os :
  dll m h xs -> abs_list_ops os xs = Some xs' ->
  Forall (fun o => op_node o <> h /\ alloc m (op_node o)) os ->
  exists m', run_list_ops h os m = Some (tt, m') /\ dll m' h xs'.
Proof.
  revert m xs. induction os as [| o os IH]; intros m xs Hd Habs Hos; simpl in *.
  - simplify_eq. by exists m.
  - apply bind_Some in Habs as (xs1 & Habs & Habs').
    apply Forall_cons in Hos as [[Hne Ha] Hos].
    destruct (run_list_op_refines _ _ _ _ _ Hd Habs Hne Ha) as (m1 & Hrun & Hd1 & Hal).
    destruct (IH m1 xs1 Hd1 Habs') as (m' & Hrun' & Hd').
    { eapply Forall_impl; [exact Hos |]. naive_solver. }
    exists m'. split; [| done]. by erewrite cmd_bind_Some by exact Hrun.
Qed.

(** A head at 8 and three loose nodes. *)
Definition example_lmem : lmem :=
  mk_lmem {[8 := 8; 16 := 0; 32 := 0; 48 := 0]} {[8 := 8; 16 := 0; 32 := 0; 48 := 0]}.

Lemma list_ops_refine_witness :
  exists m', run_list_ops 8 [OpAddTail 16; OpAddTail 32; OpAdd 48; OpDel 16] example_lmem
    = Some (tt, m') /\ dll m' 8 [48; 32].
Proof.
  apply (list_ops_refine example_lmem 8 []); [| reflexivity |].
  - split_and!; [apply NoDup_singleton | reflexivity | reflexivity].
  - repeat constructor; try done; eexists; reflexivity.
Defined.

(** [list_splice] moves the whole of one list to the front of another, and
    changes nothing when the list that is moved is empty. *)
Theorem list_splice_correct m l xs h ys :
  dll m l xs -> dll m h ys -> (forall a, a ∈ l :: xs -> a ∉ h :: ys) ->
  exists m', list_splice l h m = Some (tt, m') /\ dll m' h (xs ++ ys) /\
    (xs = [] -> m' = m) /\
    (forall a, a ∉ l :: xs -> a ∉ h :: ys -> nxt m' !! a = nxt m !! a /\ prv m' !! a = prv m !! a).
Proof.
  intros Hl Hh Hdis. destruct xs as [| x xs].
  - exists m. rewrite list_splice_nil by done. done.
  - destruct (list_splice_cons m l x xs h ys) as (m' & Hrun & Hd & [Hch _]); [done.. |].
    exists m'. split_and!; [done | done | done |].
    intros a Ha1 Ha2. apply Hch.
    pose proof (default_last_elem x xs). pose proof (after_elem h ys). set_solver.
Qed.

Definition example_two_lists : lmem :=
  mk_lmem {[8 := 16; 16 := 8; 24 := 32; 32 := 24]} {[8 := 16; 16 := 8; 24 := 32; 32 := 24]}.

Lemma list_splice_correct_witness :
  exists m', list_splice 8 24 example_two_lists = Some (tt, m') /\ dll m' 24 [16; 32] /\
    ([16] = [] -> m' = example_two_lists) /\
    (forall a, a ∉ [8; 16] -> a ∉ [24; 32] ->
      nxt m' !! a = nxt example_two_lists !! a /\ prv m' !! a = prv example_two_lists !! a).
Proof.
  apply (list_splice_correct example_two_lists 8 [16] 24 [32]).
  - split_and!; [by apply (bool_decide_unpack _) | done | done].
  - split_and!; [by apply (bool_decide_unpack _) | done | done].
  - intros a Ha. set_solver by lia.
Defined.

(** A loop body that deletes the node it is at, and logs it. *)
Definition log_and_delete (p : Z) : cmd (lmem * list Z) (option unit) :=
  zoom (list_del p);;
  modify (fun s => (s.1, s.2 ++ [p]));;
  mret None.

Lemma log_and_delete_run m h x xs tr :
  dll m h (x :: xs) ->
  exists m', log_and_delete x (m, tr) = Some (None, (m', tr ++ [x])) /\ dll m' h xs.
Proof.
  intros Hd. destruct (list_del_spec m h [] x xs Hd) as (m' & Hrun & Hd' & _).
  exists m'. split; [| done].
  unfold log_and_delete. by erewrite cmd_bind_Some by by apply zoom_Some.
Qed.

Lemma run_log_and_delete m h xs tr :
  dll m h xs ->
  exists m', run_list log_and_delete xs (m, tr) = Some (None, (m', tr ++ xs)) /\ dll m' h [].
Proof.
  revert m tr. induction xs as [| x xs IH]; intros m tr Hd.
  - exists m. by rewrite app_nil_r.
  - destruct (log_and_delete_run _ _ _ _ tr Hd) as (m1 & Hrun1 & Hd1).
    destruct (IH m1 (tr ++ [x]) Hd1) as (m' & Hrun & Hd').
    exists m'. split; [| done]. cbn [run_list].
    erewrite cmd_bind_Some by exact Hrun1. cbn beta iota. by rewrite Hrun, <- app_assoc.
Qed.

(** A [list_for_each_safe] loop whose body deletes the node it is at visits
    every node once, in order, and leaves the list empty: the successor is read
    before the body runs. *)
Lemma list_for_each_safe_delete_all m h xs tr fuel :
  dll m h xs -> (length xs < fuel)%nat ->
  exists m', list_for_each_safe fuel log_and_delete h (m, tr) =
      Some (None, (m', tr ++ xs)) /\ dll m' h [].
Proof.
  intros Hd Hf. destruct (run_log_and_delete m h xs tr Hd) as (m' & Hrun & Hd').
  exists m'. split; [| done]. rewrite <- Hrun.
  apply (list_for_each_safe_run (fun todo s => dll s.1 h todo)); [| done..]. split.
  - intros todo [m1 t1] (_ & Hn & _). split; [by eapply path_head in Hn; eexists |].
    destruct todo; [done |]. by destruct Hn.
  - intros x todo [m1 t1] s' Hd1 Hb.
    destruct (log_and_delete_run _ _ _ _ t1 Hd1) as (m2 & Hrun2 & Hd2).
    simpl in Hrun2. rewrite Hrun2 in Hb. by simplify_eq.
Qed.

Lemma list_for_each_safe_delete_all_witness :
  exists m', list_for_each_safe 3 log_and_delete 24 (example_two_lists, []) =
      Some (None, (m', [32])) /\ dll m' 24 [].
Proof.
  apply (list_for_each_safe_delete_all example_two_lists 24 [32]); [| simpl; lia].
  split_and!; [by apply (bool_decide_unpack _) | done | done].
Defined.
