(* ===== verification/ListReverse.v ===== *)
(** * [list_for_each_reverse_safe] of [list.h]

    A list is symmetric: with the two links of every node exchanged, it is the
    list in reverse order ([dll_mirror]).  The loop backwards is the loop
    forwards on that memory ([reverse_safe_mirror]), so that what is known of
    the one is known of the other. *)

From S2P Require Import Prelude Path ListH.

Section loops.
Context {S R : Type} `{Lens S lmem}.

Fixpoint list_for_each_reverse_safe_from (fuel : nat) (body : Z -> cmd S (option R))
    (pos n head : Z) : cmd S (option R) :=
  match fuel with
  | O => undefined
  | Datatypes.S fuel =>
      if pos =? head then mret None
      else
        r ← body pos;
        match r with
        | Some r => mret (Some r)
        | None =>
            n' ← zoom (get_prev n);
            list_for_each_reverse_safe_from fuel body n n' head
        end
  end.

Definition list_for_each_reverse_safe (fuel : nat) (body : Z -> cmd S (option R))
    (head : Z) : cmd S (option R) :=
  pos ← zoom (get_prev head);
  n ← zoom (get_prev pos);
  list_for_each_reverse_safe_from fuel body pos n head.

(** ** The mirror *)

Definition mirror (m : lmem) : lmem := mk_lmem (prv m) (nxt m).

Lemma mirror_mirror m : mirror (mirror m) = m.
Proof. by destruct m. Qed.

Lemma dll_mirror m h xs : dll m h xs -> dll (mirror m) h (reverse xs).
Proof.
  intros (Hnd & Hn & Hp). split_and!; [| exact Hp | by rewrite reverse_involutive].
  by rewrite reverse_Permutation.
Qed.

Definition mirror_lens : Lens S lmem.
Proof.
  refine {| view s := mirror (view s); update l s := update (mirror l) s |}.
  - intros l s. by rewrite view_update, mirror_mirror.
  - intros l l' s. by rewrite update_update.
  - intros s. by rewrite mirror_mirror, update_view.
Defined.

Lemma zoom_mirror p (s : S) : zoom (get_prev p) s = zoom (H := mirror_lens) (get_next p) s.
Proof.
  unfold zoom, get_prev, get_next, gets_opt. cbn. destruct (prv (view s) !! p); [| done].
  by rewrite mirror_mirror.
Qed.

Lemma reverse_safe_from_mirror fuel body pos n head s :
  list_for_each_reverse_safe_from fuel body pos n head s =
  list_for_each_safe_from (H := mirror_lens) fuel body pos n head s.
Proof.
  revert pos n s. induction fuel as [| fuel IH]; intros pos n s; [done |]. cbn.
  destruct (pos =? head); [done |]. unfold mbind, cmd_bind.
  destruct (body pos s) as [[[r |] s1] |]; [done | | done]. rewrite zoom_mirror.
  by destruct (zoom (get_next n) s1) as [[n' s2] |].
Qed.

Lemma reverse_safe_mirror fuel body head s :
  list_for_each_reverse_safe fuel body head s = list_for_each_safe (H := mirror_lens) fuel body head s.
Proof.
  unfold list_for_each_reverse_safe, list_for_each_safe, mbind, cmd_bind. rewrite zoom_mirror.
  destruct (zoom (get_next head) s) as [[pos s1] |]; [| done]. rewrite zoom_mirror.
  destruct (zoom (get_next pos) s1) as [[n s2] |]; [| done]. apply reverse_safe_from_mirror.
Qed.

(** The loop runs its body over the nodes of the list in reverse order, if the
    body keeps the part that is still to be visited. *)
Lemma list_for_each_reverse_safe_run P body h xs fuel s :
  keeps_rest (H := mirror_lens) P body h -> dll (view s) h xs -> (length xs < fuel)%nat -> P (reverse xs) s ->
  list_for_each_reverse_safe fuel body h s = run_list body (reverse xs) s.
Proof.
  intros Hk Hd Hf HP. rewrite reverse_safe_mirror.
  apply (list_for_each_safe_run (H := mirror_lens) P); [done | by apply dll_mirror | by rewrite length_reverse | done].
Qed.

End loops.

(** The node behind [xs]. *)
Lemma log_and_delete_last m h xs x tr :
  dll m h (xs ++ [x]) ->
  exists m', log_and_delete x (m, tr) = Some (None, (m', tr ++ [x])) /\ dll m' h xs.
Proof.
  intros Hd. destruct (list_del_spec m h xs x [] Hd) as (m' & Hrun & Hd' & _). rewrite app_nil_r in Hd'.
  exists m'. split; [| done].
  unfold log_and_delete. by erewrite cmd_bind_Some by by apply zoom_Some.
Qed.

Lemma run_log_and_delete_reverse m h xs tr :
  dll m h (reverse xs) ->
  exists m', run_list log_and_delete xs (m, tr) = Some (None, (m', tr ++ xs)) /\ dll m' h [].
Proof.
  revert m tr. induction xs as [| x xs IH]; intros m tr Hd.
  - exists m. by rewrite app_nil_r.
  - rewrite reverse_cons in Hd. destruct (log_and_delete_last _ _ _ _ tr Hd) as (m1 & Hrun1 & Hd1).
    destruct (IH m1 (tr ++ [x]) Hd1) as (m' & Hrun & Hd').
    exists m'. split; [| done]. cbn [run_list].
    erewrite cmd_bind_Some by exact Hrun1. cbn beta iota. by rewrite Hrun, <- app_assoc.
Qed.

(** A [list_for_each_reverse_safe] loop whose body deletes the node it is at
    visits every node once, from the last one to the first, and leaves the list
    empty. *)
Lemma list_for_each_reverse_safe_delete_all m h xs tr fuel :
  dll m h xs -> (length xs < fuel)%nat ->
  exists m', list_for_each_reverse_safe fuel log_and_delete h (m, tr) =
      Some (None, (m', tr ++ reverse xs)) /\ dll m' h [].
Proof.
  intros Hd Hf. destruct (run_log_and_delete_reverse m h (reverse xs) tr) as (m' & Hrun & Hd').
  { by rewrite reverse_involutive. }
  exists m'. split; [| done]. rewrite <- Hrun.
  apply (list_for_each_reverse_safe_run (fun todo s => dll s.1 h (reverse todo)));
    [| done | done | by rewrite reverse_involutive]. split.
  - intros todo [m1 t1] Hd1%dll_mirror. rewrite reverse_involutive in Hd1. destruct Hd1 as (_ & Hn & _).
    split; [by eapply path_head in Hn; eexists |]. destruct todo; [done |]. by destruct Hn.
  - intros x todo [m1 t1] s' Hd1 Hb. rewrite reverse_cons in Hd1.
    destruct (log_and_delete_last _ _ _ _ t1 Hd1) as (m2 & Hrun2 & Hd2).
    simpl in Hrun2. rewrite Hrun2 in Hb. by simplify_eq.
Qed.
