(* ===== verification/HlistH.v ===== *)
(** * [list.h], second half: hash chains ([hlist])

    Both [struct hlist_head] and [struct hlist_node] begin with an object of
    type [struct hlist_node *] ([first], [next]), and a node's [pprev] is the
    address of the one that points to the node.  The memory maps the address of
    every such pointer object to its value, and every node to its [pprev]; as
    [first] and [next] are at offset 0, [&h->first] is [h] and [&n->next] is
    [n].  Access to anything that is not an object is undefined; the null
    pointer is 0 and is never an object of a well-formed chain.

    [hchain m h xs] says that the chain of head [h] holds the nodes [xs]. *)

From S2P Require Import Prelude Path.

Record hmem := mk_hmem { cell : gmap Z Z; pprev : gmap Z Z }.

Definition NULL : Z := 0.
Definition addr_of_first (h : Z) : Z := h.
Definition addr_of_next (n : Z) : Z := n.

Definition load (p : Z) : cmd hmem Z := gets_opt (fun m => cell m !! p).
Definition get_pprev (n : Z) : cmd hmem Z := gets_opt (fun m => pprev m !! n).

Definition store (p v : Z) : cmd hmem unit := fun m =>
  match cell m !! p with
  | Some _ => Some (tt, mk_hmem (<[p := v]> (cell m)) (pprev m))
  | None => None
  end.

Definition set_pprev (n v : Z) : cmd hmem unit := fun m =>
  match pprev m !! n with
  | Some _ => Some (tt, mk_hmem (cell m) (<[n := v]> (pprev m)))
  | None => None
  end.

(** ** The operations *)

Definition INIT_HLIST_HEAD (ptr : Z) : cmd hmem unit := store (addr_of_first ptr) NULL.

Definition INIT_HLIST_NODE (h : Z) : cmd hmem unit :=
  store (addr_of_next h) NULL;;
  set_pprev h NULL.

Definition hlist_unhashed (h : Z) : cmd hmem bool :=
  pp ← get_pprev h;
  mret (pp =? NULL).

Definition hlist_empty (h : Z) : cmd hmem bool :=
  first ← load (addr_of_first h);
  mret (first =? NULL).

Definition __hlist_del (n : Z) : cmd hmem unit :=
  next ← load (addr_of_next n);
  pp ← get_pprev n;
  store pp next;;
  when (negb (next =? NULL)) (set_pprev next pp).

Definition hlist_del (n : Z) : cmd hmem unit :=
  __hlist_del n;;
  store (addr_of_next n) NULL;;
  set_pprev n NULL.

Definition hlist_del_init (n : Z) : cmd hmem unit :=
  b ← hlist_unhashed n;
  when (negb b) (__hlist_del n;; INIT_HLIST_NODE n).

Definition hlist_add_head (n h : Z) : cmd hmem unit :=
  first ← load (addr_of_first h);
  store (addr_of_next n) first;;
  when (negb (first =? NULL)) (set_pprev first (addr_of_next n));;
  store (addr_of_first h) n;;
  set_pprev n (addr_of_first h).

Definition hlist_add_before (n next : Z) : cmd hmem unit :=
  pp ← get_pprev next;
  set_pprev n pp;;
  store (addr_of_next n) next;;
  set_pprev next (addr_of_next n);;
  pp' ← get_pprev n;
  store pp' n.

Definition hlist_add_after (n next : Z) : cmd hmem unit :=
  nn ← load (addr_of_next n);
  store (addr_of_next next) nn;;
  store (addr_of_next n) next;;
  set_pprev next (addr_of_next n);;
  nn' ← load (addr_of_next next);
  when (negb (nn' =? NULL)) (set_pprev nn' (addr_of_next next)).

Definition hlist_move_list (old nnew : Z) : cmd hmem unit :=
  first ← load (addr_of_first old);
  store (addr_of_first nnew) first;;
  first' ← load (addr_of_first nnew);
  when (negb (first' =? NULL)) (set_pprev first' (addr_of_first nnew));;
  store (addr_of_first old) NULL.

(** [hlist_for_each]: the body may return from the enclosing function. *)
Section loop.
Context {S R : Type} `{Lens S hmem}.

Fixpoint hlist_for_each_from (fuel : nat) (body : Z -> cmd S (option R))
    (pos : Z) : cmd S (option R) :=
  match fuel with
  | O => undefined
  | Datatypes.S fuel =>
      if pos =? NULL then mret None
      else
        r ← body pos;
        match r with
        | Some r => mret (Some r)
        | None =>
            next ← zoom (load (addr_of_next pos));
            hlist_for_each_from fuel body next
        end
  end.

Definition hlist_for_each (fuel : nat) (body : Z -> cmd S (option R))
    (head : Z) : cmd S (option R) :=
  pos ← zoom (load (addr_of_first head));
  hlist_for_each_from fuel body pos.

End loop.

(** ** Representation *)

(** [back g a xs]: the back pointer of each node of [xs] is the address of the
    pointer object before it, starting from [a]. *)
Fixpoint back (g : gmap Z Z) (a : Z) (xs : list Z) : Prop :=
  match xs with
  | [] => True
  | x :: xs => g !! x = Some a /\ back g x xs
  end.

Definition hchain (m : hmem) (h : Z) (xs : list Z) : Prop :=
  NoDup (h :: xs) /\ (NULL ∉ h :: xs) /\
  path (cell m) h xs NULL /\ back (pprev m) h xs.

Definition hnode (m : hmem) (n : Z) : Prop :=
  n <> NULL /\ is_Some (cell m !! n) /\ is_Some (pprev m !! n).

Definition hchanges_only (l : list Z) (m m' : hmem) : Prop :=
  (forall a, a ∉ l -> cell m' !! a = cell m !! a /\ pprev m' !! a = pprev m !! a) /\
  (forall a, is_Some (cell m !! a) -> is_Some (cell m' !! a)) /\
  (forall a, is_Some (pprev m !! a) -> is_Some (pprev m' !! a)).

Lemma back_app g a xs ys :
  back g a (xs ++ ys) <-> back g a xs /\ back g (default a (last xs)) ys.
Proof.
  revert a. induction xs as [| x xs IH]; intros a; simpl; [tauto |].
  rewrite IH. replace (default x (last xs)) with (default a (last (x :: xs))); [tauto |].
  destruct xs as [| y xs _] using rev_ind; [done |].
  by rewrite app_comm_cons, !last_snoc.
Qed.

Lemma back_ext g g' a xs :
  (forall z, z ∈ xs -> g' !! z = g !! z) -> back g a xs -> back g' a xs.
Proof.
  revert a. induction xs as [| x xs IH]; intros a Hz; simpl; [done |].
  intros [H1 H2]. split; [rewrite Hz; [done | set_solver] |].
  apply IH; [| done]. intros z ?. apply Hz. set_solver.
Qed.

Lemma back_insert_ne g a xs p v : p ∉ xs -> back g a xs -> back (<[p := v]> g) a xs.
Proof.
  intros Hp. apply back_ext. intros z Hz. rewrite lookup_insert_ne; [done |].
  set_solver.
Qed.

(** Point the first node of [ys], if there is one, back to [v]. *)
Definition set_back_head (g : gmap Z Z) (ys : list Z) (v : Z) : gmap Z Z :=
  match ys with [] => g | y :: _ => <[y := v]> g end.

Lemma back_set_head g a ys v :
  NoDup ys -> back g a ys -> back (set_back_head g ys v) v ys.
Proof.
  destruct ys as [| y ys]; simpl; [done |]. intros Hnd [_ H].
  apply NoDup_cons in Hnd as [Hy _].
  split; [apply lookup_insert_eq | by apply back_insert_ne].
Qed.

Lemma set_back_head_ne g ys v z : z ∉ ys -> set_back_head g ys v !! z = g !! z.
Proof.
  destruct ys as [| y ys]; simpl; [done |]. intros Hz.
  apply lookup_insert_ne. set_solver.
Qed.

Lemma back_insert_node g a xs ys n :
  NoDup (xs ++ ys) -> n ∉ xs ++ ys -> back g a (xs ++ ys) ->
  back (<[n := default a (last xs)]> (set_back_head g ys n)) a (xs ++ n :: ys).
Proof.
  intros Hnd Hn. apply NoDup_app in Hnd as (_ & Hdis & Hnd).
  rewrite !back_app. intros [H1 H2]. split; [| simpl; split].
  - apply back_insert_ne; [set_solver |]. eapply back_ext; [| exact H1].
    intros z Hz. apply set_back_head_ne. set_solver.
  - apply lookup_insert_eq.
  - apply back_insert_ne; [set_solver |]. by eapply back_set_head.
Qed.

Lemma back_delete_node g a xs n ys :
  NoDup (xs ++ n :: ys) -> back g a (xs ++ n :: ys) ->
  back (set_back_head g ys (default a (last xs))) a (xs ++ ys).
Proof.
  intros Hnd. apply NoDup_app in Hnd as (_ & Hdis & Hnd).
  apply NoDup_cons in Hnd as [Hn Hnd].
  rewrite !back_app. simpl. intros (H1 & _ & H2). split.
  - eapply back_ext; [| exact H1].
    intros z Hz. apply set_back_head_ne. set_solver.
  - by eapply back_set_head.
Qed.

Lemma hchain_insert m h xs ys n :
  hchain m h (xs ++ ys) -> n ∉ h :: xs ++ ys -> n <> NULL ->
  hchain
    (mk_hmem (<[default h (last xs) := n]> (<[n := default NULL (head ys)]> (cell m)))
             (<[n := default h (last xs)]> (set_back_head (pprev m) ys n)))
    h (xs ++ n :: ys).
Proof.
  intros (Hnd & Hnull & Hp & Hb) Hn Hnn. split_and!; simpl.
  - by apply NoDup_middle.
  - set_solver.
  - by apply path_insert_node.
  - apply NoDup_cons in Hnd as [_ Hnd]. apply back_insert_node; set_solver.
Qed.

Lemma hchain_delete m h xs n ys :
  hchain m h (xs ++ n :: ys) ->
  hchain
    (mk_hmem (<[default h (last xs) := default NULL (head ys)]> (cell m))
             (set_back_head (pprev m) ys (default h (last xs))))
    h (xs ++ ys).
Proof.
  intros (Hnd & Hnull & Hp & Hb). split_and!; simpl.
  - by apply NoDup_middle in Hnd as [_ Hnd].
  - set_solver.
  - by eapply path_delete_node.
  - apply NoDup_cons in Hnd as [_ Hnd]. by eapply back_delete_node.
Qed.

Lemma hchain_ext m m' h xs :
  (forall a, a ∈ h :: xs -> cell m' !! a = cell m !! a /\ pprev m' !! a = pprev m !! a) ->
  hchain m h xs -> hchain m' h xs.
Proof.
  intros Hsame (Hnd & Hnull & Hp & Hb). split_and!; [done | done | |].
  - eapply path_ext; [| exact Hp]. intros z Hz. by apply Hsame.
  - eapply back_ext; [| exact Hb]. intros z Hz. apply Hsame. set_solver.
Qed.

Lemma hchain_hchanges_only l m m' h xs :
  hchanges_only l m m' -> (forall a, a ∈ h :: xs -> a ∉ l) ->
  hchain m h xs -> hchain m' h xs.
Proof.
  intros [Hsame _] Hdis. apply hchain_ext. intros a Ha. by apply Hsame, Hdis.
Qed.

Lemma back_lookup g a xs n ys :
  back g a (xs ++ n :: ys) -> g !! n = Some (default a (last xs)).
Proof. rewrite back_app. simpl. tauto. Qed.

Lemma back_is_Some g a xs z : back g a xs -> z ∈ xs -> is_Some (g !! z).
Proof.
  intros Hb Hz. apply list_elem_of_split in Hz as (l1 & l2 & ->).
  eexists. by eapply back_lookup.
Qed.

Lemma hchain_cell m h xs a : hchain m h xs -> a ∈ h :: xs -> is_Some (cell m !! a).
Proof. intros (_ & _ & Hp & _). by apply path_is_Some with (b := NULL). Qed.

Lemma hchain_hnode m h xs a : hchain m h xs -> a ∈ xs -> hnode m a.
Proof.
  intros Hh Ha. pose proof Hh as (_ & Hnull & _ & Hb). split_and!.
  - set_solver.
  - eapply hchain_cell; [done | set_solver].
  - by eapply back_is_Some.
Qed.

Lemma hchain_inj m h xs ys : hchain m h xs -> hchain m h ys -> xs = ys.
Proof.
  intros (_ & Hx & Hpx & _) (_ & Hy & Hpy & _).
  eapply path_inj; [done.. | set_solver | set_solver].
Qed.

(** ** Running the commands *)

Lemma store_Some m p v :
  is_Some (cell m !! p) ->
  store p v m = Some (tt, mk_hmem (<[p := v]> (cell m)) (pprev m)).
Proof. intros [x Hx]. unfold store. by rewrite Hx. Qed.

Lemma set_pprev_Some m p v :
  is_Some (pprev m !! p) ->
  set_pprev p v m = Some (tt, mk_hmem (cell m) (<[p := v]> (pprev m))).
Proof. intros [x Hx]. unfold set_pprev. by rewrite Hx. Qed.

Lemma load_Some m p v : cell m !! p = Some v -> load p m = Some (v, m).
Proof. intros H. unfold load, gets_opt. by rewrite H. Qed.

Lemma get_pprev_Some m p v : pprev m !! p = Some v -> get_pprev p m = Some (v, m).
Proof. intros H. unfold get_pprev, gets_opt. by rewrite H. Qed.

(** The idiom [if (x) x->pprev = v] on the first node of [ys], if any. *)
Lemma when_set_pprev m ys v :
  (NULL ∉ ys) -> (forall y, y ∈ ys -> is_Some (pprev m !! y)) ->
  when (negb (default NULL (head ys) =? NULL)) (set_pprev (default NULL (head ys)) v) m
  = Some (tt, mk_hmem (cell m) (set_back_head (pprev m) ys v)).
Proof.
  intros Hn Hs. destruct ys as [| y ys]; simpl; [by destruct m |].
  destruct (Z.eqb_spec y NULL) as [-> |]; [set_solver |].
  simpl. apply set_pprev_Some. set_solver.
Qed.

Lemma set_back_head_is_Some g ys v a :
  is_Some (g !! a) -> is_Some (set_back_head g ys v !! a).
Proof.
  destruct ys; simpl; [done |]. intros H. rewrite lookup_insert. case_decide; eauto.
Qed.

Lemma insert_cell_is_Some (f : gmap Z Z) p v a :
  is_Some (f !! a) -> is_Some (<[p := v]> f !! a).
Proof. intros H. rewrite lookup_insert. case_decide; eauto. Qed.

Lemma insert_cell_self (f : gmap Z Z) p v : is_Some (<[p := v]> f !! p).
Proof. rewrite lookup_insert_eq. eauto. Qed.

#[export] Hint Resolve set_back_head_is_Some insert_cell_is_Some insert_cell_self
  hchain_cell hchain_hnode : memleax.

Ltac hstep :=
  match goal with
  | |- context [(mbind _ (store _ _)) _] =>
      erewrite cmd_bind_Some;
        [| apply store_Some; simpl; by eauto 8 with memleax]
  | |- context [(mbind _ (set_pprev _ _)) _] =>
      erewrite cmd_bind_Some;
        [| apply set_pprev_Some; simpl; by eauto 8 with memleax]
  | |- context [(mbind _ (load _)) _] =>
      erewrite cmd_bind_Some; [| apply load_Some; simpl; by eauto]
  | |- context [(mbind _ (get_pprev _)) _] =>
      erewrite cmd_bind_Some; [| apply get_pprev_Some; simpl; by eauto]
  | |- context [store _ _ _] =>
      rewrite store_Some by (simpl; eauto 8 with memleax)
  | |- context [set_pprev _ _ _] =>
      rewrite set_pprev_Some by (simpl; eauto 8 with memleax)
  end; simpl.

Lemma hchanges_only_mk l m (f g : gmap Z Z) :
  (forall a, a ∉ l -> f !! a = cell m !! a) ->
  (forall a, a ∉ l -> g !! a = pprev m !! a) ->
  (forall a, is_Some (cell m !! a) -> is_Some (f !! a)) ->
  (forall a, is_Some (pprev m !! a) -> is_Some (g !! a)) ->
  hchanges_only l m (mk_hmem f g).
Proof. intros Hf Hg Hf' Hg'. repeat split; simpl; auto. Qed.

(** The nodes whose [pprev] an update of the first node of [ys] writes. *)
Definition head_list (ys : list Z) : list Z := match ys with [] => [] | y :: _ => [y] end.

Lemma set_back_head_notin g ys v a :
  a ∉ head_list ys -> set_back_head g ys v !! a = g !! a.
Proof. destruct ys; simpl; [done |]. intros. apply lookup_insert_ne. set_solver. Qed.

Ltac solve_hchanges :=
  apply hchanges_only_mk;
  [ intros; repeat (rewrite lookup_insert_ne by set_solver); done
  | intros; repeat (rewrite lookup_insert_ne by set_solver);
    first [ done | apply set_back_head_notin; set_solver ]
  | intros; eauto 6 with memleax
  | intros; eauto 6 with memleax ].

(** ** Specifications *)

Lemma hlist_add_head_spec m h xs n :
  hchain m h xs -> n ∉ h :: xs -> hnode m n ->
  exists m', hlist_add_head n h m = Some (tt, m') /\ hchain m' h (n :: xs) /\
    hchanges_only (n :: h :: head_list xs) m m'.
Proof.
  intros Hc Hn (Hnn & Hn1 & Hn2). pose proof Hc as (Hnd & Hnull & Hp & Hb).
  pose proof (hchain_insert m h [] xs n Hc Hn Hnn) as Hc'.
  pose proof (path_head _ _ _ _ Hp) as Hfirst.
  eexists. split; [| split; [exact Hc' | solve_hchanges]].
  unfold hlist_add_head, addr_of_first, addr_of_next. hstep. hstep.
  erewrite cmd_bind_Some.
  2:{ apply when_set_pprev; [set_solver |]. intros y Hy. simpl. by eapply back_is_Some. }
  simpl. hstep. by hstep.
Qed.

Lemma hlist_node_fields m h xs n ys :
  hchain m h (xs ++ n :: ys) ->
  cell m !! n = Some (default NULL (head ys)) /\
  pprev m !! n = Some (default h (last xs)).
Proof.
  intros (_ & _ & Hp & Hb). split; [| by eapply back_lookup].
  apply path_app in Hp as [_ Hp]. by apply path_head in Hp.
Qed.

Lemma __hlist_del_run m h xs n ys :
  hchain m h (xs ++ n :: ys) ->
  __hlist_del n m = Some (tt,
    mk_hmem (<[default h (last xs) := default NULL (head ys)]> (cell m))
            (set_back_head (pprev m) ys (default h (last xs)))).
Proof.
  intros Hc. pose proof Hc as (Hnd & Hnull & Hp & Hb).
  destruct (hlist_node_fields _ _ _ _ _ Hc) as [Hn1 Hn2].
  pose proof (default_last_elem h xs) as Hl.
  assert (is_Some (cell m !! default h (last xs))).
  { eapply hchain_cell; [done | set_solver]. }
  unfold __hlist_del, addr_of_next. repeat hstep.
  rewrite when_set_pprev; [done | set_solver |].
  intros y Hy. simpl. eapply back_is_Some; [done | set_solver].
Qed.

(** Overwriting both fields of a node that is on no chain of interest. *)
Lemma write_hnode m n v w :
  is_Some (cell m !! n) -> is_Some (pprev m !! n) ->
  hchanges_only [n] m (mk_hmem (<[n := v]> (cell m)) (<[n := w]> (pprev m))).
Proof. intros. solve_hchanges. Qed.

Lemma hchanges_only_trans l m m' m'' :
  hchanges_only l m m' -> hchanges_only l m' m'' -> hchanges_only l m m''.
Proof.
  intros (H1 & H2 & H2') (H3 & H4 & H4'). split_and!; [| eauto | eauto].
  intros a Ha. destruct (H1 a Ha) as [<- <-]. by apply H3.
Qed.

Lemma hchanges_only_weaken l l' m m' :
  (forall a, a ∈ l -> a ∈ l') -> hchanges_only l m m' -> hchanges_only l' m m'.
Proof. intros Hl [H1 H2]. split; [| done]. intros a Ha. apply H1. set_solver. Qed.

(** The common part of [hlist_del] and [hlist_del_init]. *)
Lemma hlist_unlink_clear m h xs n ys :
  hchain m h (xs ++ n :: ys) ->
  exists m1, __hlist_del n m = Some (tt, m1) /\
    is_Some (cell m1 !! n) /\ is_Some (pprev m1 !! n) /\
    let m' := mk_hmem (<[n := NULL]> (cell m1)) (<[n := NULL]> (pprev m1)) in
    hchain m' h (xs ++ ys) /\
    hchanges_only (default h (last xs) :: n :: head_list ys) m m'.
Proof.
  intros Hc. eexists. split; [by apply __hlist_del_run |].
  pose proof (hchain_delete _ _ _ _ _ Hc) as Hc'.
  pose proof (hchain_hnode _ _ _ n Hc ltac:(set_solver)) as (Hnn & Hn1 & Hn2).
  simpl. split_and!; [by eauto with memleax.. | |].
  - refine (hchain_hchanges_only [n] _ _ _ _
      (write_hnode (mk_hmem _ _) n NULL NULL _ _) _ Hc'); simpl; [eauto with memleax.. |].
    destruct Hc as (Hnd & _). apply NoDup_middle in Hnd. set_solver.
  - solve_hchanges.
Qed.

Lemma hlist_del_spec m h xs n ys :
  hchain m h (xs ++ n :: ys) ->
  exists m', hlist_del n m = Some (tt, m') /\ hchain m' h (xs ++ ys) /\
    cell m' !! n = Some NULL /\ pprev m' !! n = Some NULL /\
    hchanges_only (default h (last xs) :: n :: head_list ys) m m'.
Proof.
  intros Hc. destruct (hlist_unlink_clear _ _ _ _ _ Hc)
    as (m1 & Hrun & Hn1 & Hn2 & Hc' & Hch).
  eexists. split_and!; [| exact Hc' | apply lookup_insert_eq | apply lookup_insert_eq | exact Hch].
  unfold hlist_del, addr_of_next. erewrite cmd_bind_Some by exact Hrun.
  by repeat hstep.
Qed.

Lemma hlist_del_init_spec m h xs n ys :
  hchain m h (xs ++ n :: ys) ->
  exists m', hlist_del_init n m = Some (tt, m') /\ hchain m' h (xs ++ ys) /\
    hlist_unhashed n m' = Some (true, m') /\
    hchanges_only (default h (last xs) :: n :: head_list ys) m m'.
Proof.
  intros Hc. destruct (hlist_unlink_clear _ _ _ _ _ Hc)
    as (m1 & Hrun & Hn1 & Hn2 & Hc' & Hch).
  destruct (hlist_node_fields _ _ _ _ _ Hc) as [_ Hpp].
  eexists. split_and!; [| exact Hc' | | exact Hch].
  - unfold hlist_del_init, hlist_unhashed. erewrite cmd_bind_Some.
    2:{ hstep. reflexivity. }
    destruct (Z.eqb_spec (default h (last xs)) NULL) as [E |].
    { exfalso. pose proof (default_last_elem h xs) as Hl. rewrite E in Hl.
      destruct Hc as (_ & Hnull & _). set_solver. }
    simpl. erewrite cmd_bind_Some by exact Hrun.
    unfold INIT_HLIST_NODE, addr_of_next. by repeat hstep.
  - unfold hlist_unhashed. erewrite cmd_bind_Some;
      [| apply get_pprev_Some, lookup_insert_eq]. done.
Qed.

(** A node that is on no chain is left alone by [hlist_del_init]. *)
Lemma hlist_del_init_unhashed m n :
  pprev m !! n = Some NULL -> hlist_del_init n m = Some (tt, m).
Proof.
  intros H. unfold hlist_del_init, hlist_unhashed.
  erewrite cmd_bind_Some by (hstep; reflexivity). done.
Qed.

Lemma hlist_empty_spec m h xs :
  hchain m h xs -> hlist_empty h m = Some (bool_decide (xs = []), m).
Proof.
  intros (_ & Hnull & Hp & _). apply path_head in Hp.
  unfold hlist_empty, addr_of_first. hstep. unfold mret, cmd_ret. do 2 f_equal.
  destruct xs as [| x xs]; simpl; [done |]. apply Z.eqb_neq. set_solver.
Qed.

(** The operations that link a node next to another one. *)

Lemma hlist_add_before_spec m h xs next ys n :
  hchain m h (xs ++ next :: ys) -> n ∉ h :: xs ++ next :: ys -> hnode m n ->
  exists m', hlist_add_before n next m = Some (tt, m') /\
    hchain m' h (xs ++ n :: next :: ys) /\
    hchanges_only [default h (last xs); n; next] m m'.
Proof.
  intros Hc Hn (Hnn & Hn1 & Hn2).
  destruct (hlist_node_fields _ _ _ _ _ Hc) as [Hx1 Hx2].
  pose proof (hchain_insert m h xs (next :: ys) n Hc Hn Hnn) as Hc'. simpl in Hc'.
  pose proof (default_last_elem h xs) as Hl.
  assert (is_Some (cell m !! default h (last xs))).
  { eapply hchain_cell; [done | set_solver]. }
  assert (n <> next) by set_solver.
  eexists. split_and!; [| exact Hc' | solve_hchanges].
  unfold hlist_add_before, addr_of_next. do 4 hstep.
  erewrite cmd_bind_Some.
  2:{ apply get_pprev_Some. simpl. rewrite lookup_insert_ne by done.
      apply lookup_insert_eq. }
  hstep. do 3 f_equal. by apply insert_insert_ne.
Qed.

Lemma hlist_add_after_spec m h xs n ys next :
  hchain m h (xs ++ n :: ys) -> next ∉ h :: xs ++ n :: ys -> hnode m next ->
  exists m', hlist_add_after n next m = Some (tt, m') /\
    hchain m' h (xs ++ n :: next :: ys) /\
    hchanges_only (n :: next :: head_list ys) m m'.
Proof.
  intros Hc Hn (Hnn & Hn1 & Hn2). pose proof Hc as (_ & Hnull & _ & Hb).
  destruct (hlist_node_fields _ _ _ _ _ Hc) as [Hx1 Hx2].
  assert (xs ++ n :: ys = (xs ++ [n]) ++ ys) as Heq by by rewrite <- app_assoc.
  rewrite Heq in Hc, Hn.
  pose proof (hchain_insert m h (xs ++ [n]) ys next Hc Hn Hnn) as Hc'.
  rewrite last_snoc in Hc'. simpl in Hc'. rewrite <- app_assoc in Hc'. simpl in Hc'.
  assert (n <> next) by set_solver.
  eexists. split_and!; [| exact Hc' | solve_hchanges].
  unfold hlist_add_after, addr_of_next. do 4 hstep.
  erewrite cmd_bind_Some.
  2:{ apply load_Some. simpl. rewrite lookup_insert_ne by done. apply lookup_insert_eq. }
  rewrite when_set_pprev; [simpl | set_solver |].
  - do 3 f_equal. destruct ys as [| y ys]; simpl; [done |].
    apply insert_insert_ne. set_solver.
  - intros y Hy. simpl. apply insert_cell_is_Some. eapply back_is_Some; [done | set_solver].
Qed.

Lemma hlist_move_list_spec m old nnew xs :
  hchain m old xs -> hchain m nnew [] -> nnew ∉ old :: xs ->
  exists m', hlist_move_list old nnew m = Some (tt, m') /\
    hchain m' nnew xs /\ hchain m' old [] /\
    hchanges_only (old :: nnew :: head_list xs) m m'.
Proof.
  intros Hc Hc' Hn. pose proof Hc as (Hnd & Hnull & Hp & Hb).
  pose proof Hc' as (_ & Hnull' & Hp' & _). simpl in Hp'.
  apply NoDup_cons in Hnd as [Hold Hnd].
  pose proof (path_head _ _ _ _ Hp) as Hfirst.
  assert (old <> nnew) by set_solver.
  eexists. split_and!.
  - unfold hlist_move_list, addr_of_first. hstep. hstep.
    erewrite cmd_bind_Some; [| apply load_Some, lookup_insert_eq].
    erewrite cmd_bind_Some.
    2:{ apply when_set_pprev; [set_solver |]. intros y Hy. simpl. by eapply back_is_Some. }
    hstep. reflexivity.
  - split_and!; simpl; [apply NoDup_cons; split; [set_solver | done] | set_solver | |].
    + rewrite insert_insert_ne by done. destruct xs as [| x xs]; simpl.
      * apply lookup_insert_eq.
      * split; [apply lookup_insert_eq |]. destruct Hp as [_ Hp].
        apply path_insert_ne; [set_solver |]. apply path_insert_ne; [set_solver | done].
    + by eapply back_set_head.
  - split_and!; simpl; [apply NoDup_singleton | set_solver | apply lookup_insert_eq | done].
  - solve_hchanges.
Qed.

(** ** [hlist_for_each] runs its body over the nodes of the chain *)

Section loop_spec.
Context {S R : Type} `{Lens S hmem}.
Implicit Types (body : Z -> cmd S (option R)) (h : Z) (s : S).

Lemma zoom_load p v s :
  cell (view s) !! p = Some v -> zoom (load p) s = Some (v, s).
Proof.
  intros Hp. erewrite zoom_Some by by apply load_Some. by rewrite update_view.
Qed.

Definition keeps_chain (P : S -> Prop) body h (xs : list Z) : Prop :=
  (forall s, P s -> hchain (view s) h xs) /\
  (forall x s r s', x ∈ xs -> P s -> body x s = Some (r, s') -> P s').

Lemma hlist_for_each_from_run P body h xs vis todo fuel s :
  keeps_chain P body h xs -> xs = vis ++ todo -> (length todo < fuel)%nat -> P s ->
  hlist_for_each_from fuel body (default NULL (head todo)) s = run_list body todo s.
Proof.
  intros [Hch Hkeep]. revert vis fuel s.
  induction todo as [| x todo IH]; intros vis fuel s Hxs Hf HP;
    (destruct fuel as [| fuel]; simpl in *; [lia |]); [done |].
  pose proof (Hch s HP) as (_ & Hnull & _). rewrite Hxs in Hnull.
  destruct (Z.eqb_spec x NULL) as [-> |]; [set_solver |].
  unfold mbind, cmd_bind. destruct (body x s) as [[[r |] s'] |] eqn:E; [done | | done].
  assert (P s') as HP' by (eapply Hkeep; [| done..]; set_solver).
  pose proof (Hch s' HP') as Hc. rewrite Hxs in Hc.
  apply hlist_node_fields in Hc as [Hc _].
  unfold addr_of_next. rewrite (zoom_load _ _ _ Hc).
  apply (IH (vis ++ [x])); [| lia | done]. by rewrite <- app_assoc.
Qed.

Lemma hlist_for_each_run P body h xs fuel s :
  keeps_chain P body h xs -> (length xs < fuel)%nat -> P s ->
  hlist_for_each fuel body h s = run_list body xs s.
Proof.
  intros Hk Hf HP. unfold hlist_for_each, addr_of_first.
  pose proof (proj1 Hk s HP) as (_ & _ & Hp & _). apply path_head in Hp.
  erewrite cmd_bind_Some by by apply zoom_load.
  by apply (hlist_for_each_from_run P _ h xs []).
Qed.

End loop_spec.

(** A chain is no longer than the memory: a bound for the loop's fuel. *)
Definition chain_fuel (m : hmem) : nat := Datatypes.S (size (cell m)).

Lemma hchain_fuel m h xs : hchain m h xs -> (length xs < chain_fuel m)%nat.
Proof.
  intros Hc. pose proof Hc as (Hnd & _). unfold chain_fuel.
  apply NoDup_cons in Hnd as [_ Hnd].
  enough (length xs <= size (cell m))%nat by lia.
  rewrite <- (size_dom (D := gset Z)), <- (size_list_to_set (C := gset Z) xs) by done.
  apply subseteq_size. intros x Hx. apply elem_of_list_to_set in Hx.
  apply elem_of_dom. eapply hchain_cell; [done | set_solver].
Qed.

(** ** Refinement: the operations on one chain are those of a sequence *)

Inductive hlist_op :=
  | HAddHead (n : Z)
  | HAddBefore (n next : Z)
  | HAddAfter (n next : Z)
  | HDel (n : Z)
  | HDelInit (n : Z).

Definition run_hlist_op (h : Z) (o : hlist_op) : cmd hmem unit :=
  match o with
  | HAddHead n => hlist_add_head n h
  | HAddBefore n next => hlist_add_before n next
  | HAddAfter n next => hlist_add_after n next
  | HDel n => hlist_del n
  | HDelInit n => hlist_del_init n
  end.

(** Insert [n] before, or after, the first occurrence of [x]. *)
Fixpoint insert_before (n x : Z) (xs : list Z) : list Z :=
  match xs with
  | [] => []
  | y :: ys => if decide (y = x) then n :: y :: ys else y :: insert_before n x ys
  end.

Fixpoint insert_after (n x : Z) (xs : list Z) : list Z :=
  match xs with
  | [] => []
  | y :: ys => if decide (y = x) then y :: n :: ys else y :: insert_after n x ys
  end.

(** The node that an operation links or unlinks, and the node, if any, that it
    is given as its place. *)
Definition abs_hlist_op (o : hlist_op) (xs : list Z) : option (list Z) :=
  match o with
  | HAddHead n => if decide (n ∈ xs) then None else Some (n :: xs)
  | HAddBefore n next =>
      if decide ((n ∉ xs) /\ next ∈ xs) then Some (insert_before n next xs) else None
  | HAddAfter n next =>
      if decide ((next ∉ xs) /\ n ∈ xs) then Some (insert_after next n xs) else None
  | HDel n | HDelInit n =>
      if decide (n ∈ xs) then Some (filter (fun x => x <> n) xs) else None
  end.

Definition hop_node (o : hlist_op) : Z :=
  match o with
  | HAddHead n | HAddBefore n _ | HDel n | HDelInit n => n
  | HAddAfter _ next => next
  end.

Fixpoint run_hlist_ops (h : Z) (os : list hlist_op) : cmd hmem unit :=
  match os with
  | [] => mret tt
  | o :: os => run_hlist_op h o;; run_hlist_ops h os
  end.

Fixpoint abs_hlist_ops (os : list hlist_op) (xs : list Z) : option (list Z) :=
  match os with
  | [] => Some xs
  | o :: os => xs ← abs_hlist_op o xs; abs_hlist_ops os xs
  end.

Lemma insert_before_middle n x xs ys :
  x ∉ xs -> insert_before n x (xs ++ x :: ys) = xs ++ n :: x :: ys.
Proof.
  induction xs as [| y xs IH]; intros Hx; simpl; [by rewrite decide_True |].
  rewrite decide_False by set_solver. f_equal. apply IH. set_solver.
Qed.

Lemma insert_after_middle n x xs ys :
  x ∉ xs -> insert_after n x (xs ++ x :: ys) = xs ++ x :: n :: ys.
Proof.
  induction xs as [| y xs IH]; intros Hx; simpl; [by rewrite decide_True |].
  rewrite decide_False by set_solver. f_equal. apply IH. set_solver.
Qed.

(** An element of a chain splits it where it occurs for the first, and only,
    time. *)
Lemma hchain_split m h xs n :
  hchain m h xs -> n ∈ xs ->
  exists l1 l2, xs = l1 ++ n :: l2 /\ (n ∉ l1) /\ filter (fun x => x <> n) xs = l1 ++ l2.
Proof.
  intros (Hnd & _) (l1 & l2 & ->)%list_elem_of_split.
  apply NoDup_middle in Hnd as [Hn _].
  exists l1, l2. split_and!; [done | set_solver |].
  rewrite filter_app, filter_cons_False by naive_solver.
  f_equal; apply filter_all; set_solver.
Qed.

Lemma hchanges_only_hnode l m m' a : hchanges_only l m m' -> hnode m a -> hnode m' a.
Proof. intros (_ & H1 & H2) (? & ? & ?). split_and!; auto. Qed.

#[export] Hint Resolve hchanges_only_hnode : memleax.

Lemma run_hlist_op_refines m h xs xs' o :
  hchain m h xs -> abs_hlist_op o xs = Some xs' ->
  hop_node o <> h -> hnode m (hop_node o) ->
  exists m', run_hlist_op h o m = Some (tt, m') /\ hchain m' h xs' /\
    (forall a, hnode m a -> hnode m' a).
Proof.
  intros Hc Habs Hne Hn.
  destruct o as [n | n next | n next | n | n]; simpl in *;
    case_decide as Hin; simplify_eq.
  - destruct (hlist_add_head_spec m h xs n) as (m' & ? & ? & ?);
      [done | set_solver | done |]. eauto 6 with memleax.
  - destruct Hin as [Hnin Hin].
    destruct (hchain_split _ _ _ _ Hc Hin) as (l1 & l2 & -> & Hl & _).
    rewrite insert_before_middle by done.
    destruct (hlist_add_before_spec m h l1 next l2 n) as (m' & ? & ? & ?);
      [done | set_solver | done |]. eauto 6 with memleax.
  - destruct Hin as [Hnin Hin].
    destruct (hchain_split _ _ _ _ Hc Hin) as (l1 & l2 & -> & Hl & _).
    rewrite insert_after_middle by done.
    destruct (hlist_add_after_spec m h l1 n l2 next) as (m' & ? & ? & ?);
      [done | set_solver | done |]. eauto 6 with memleax.
  - destruct (hchain_split _ _ _ _ Hc Hin) as (l1 & l2 & -> & _ & ->).
    destruct (hlist_del_spec m h l1 n l2 Hc) as (m' & ? & ? & _ & _ & ?).
    eauto 6 with memleax.
  - destruct (hchain_split _ _ _ _ Hc Hin) as (l1 & l2 & -> & _ & ->).
    destruct (hlist_del_init_spec m h l1 n l2 Hc) as (m' & ? & ? & _ & ?).
    eauto 6 with memleax.
Qed.

(** C18: every sequence of [hlist_add_head], [hlist_add_before],
    [hlist_add_after], [hlist_del] and [hlist_del_init] that links only nodes
    that are not on the chain, next to nodes that are, and unlinks only nodes
    that are, runs without undefined behaviour and leaves the null-terminated
    chain, back pointers included, that the operations give on a sequence. *)
Theorem hlist_ops_refine m h xs xs' os :
  hchain m h xs -> abs_hlist_ops os xs = Some xs' ->
  Forall (fun o => hop_node o <> h /\ hnode m (hop_node o)) os ->
  exists m', run_hlist_ops h os m = Some (tt, m') /\ hchain m' h xs'.
Proof.
  revert m xs. induction os as [| o os IH]; intros m xs Hc Habs Hos; simpl in *.
  - simplify_eq. by exists m.
  - apply bind_Some in Habs as (xs1 & Habs & Habs').
    apply Forall_cons in Hos as [[Hne Ha] Hos].
    destruct (run_hlist_op_refines _ _ _ _ _ Hc Habs Hne Ha) as (m1 & Hrun & Hc1 & Hal).
    destruct (IH m1 xs1 Hc1 Habs') as (m' & Hrun' & Hd').
    { eapply Forall_impl; [exact Hos |]. naive_solver. }
    exists m'. split; [| done]. by erewrite cmd_bind_Some by exact Hrun.
Qed.

(** A head at 8 and three loose nodes. *)
Definition example_hmem : hmem :=
  mk_hmem {[8 := 0; 16 := 0; 32 := 0; 48 := 0]} {[16 := 0; 32 := 0; 48 := 0]}.

Lemma hlist_ops_refine_witness :
  exists m', run_hlist_ops 8
      [HAddHead 16; HAddHead 32; HAddAfter 32 48; HDel 32; HAddBefore 32 16] example_hmem
    = Some (tt, m') /\ hchain m' 8 [48; 32; 16].
Proof.
  apply (hlist_ops_refine example_hmem 8 []); [| reflexivity |].
  - split_and!; [apply NoDup_singleton | by apply (bool_decide_unpack _) | done | done].
  - repeat constructor; try done; eexists; reflexivity.
Defined.

(** [hlist_move_list] moves a whole chain to another, empty, head: the
    first node's back pointer is the new head's, and the old head is empty. *)
Theorem hlist_move_list_correct m old nnew xs :
  hchain m old xs -> hchain m nnew [] -> nnew ∉ old :: xs ->
  exists m', hlist_move_list old nnew m = Some (tt, m') /\
    hchain m' nnew xs /\ hlist_empty old m' = Some (true, m') /\
    (forall x, head xs = Some x -> pprev m' !! x = Some (addr_of_first nnew)).
Proof.
  intros Hc Hc' Hn. destruct (hlist_move_list_spec _ _ _ _ Hc Hc' Hn)
    as (m' & Hrun & Hc1 & Hc2 & _).
  exists m'. split_and!; [done | done | |].
  - by rewrite (hlist_empty_spec _ _ _ Hc2).
  - intros x Hx. destruct xs as [| y xs]; simplify_eq/=.
    by destruct Hc1 as (_ & _ & _ & [? _]).
Qed.

Lemma hlist_move_list_correct_witness :
  let m := mk_hmem {[8 := 32; 16 := 0; 32 := 0]} {[32 := 8]} in
  exists m', hlist_move_list 8 16 m = Some (tt, m') /\
    hchain m' 16 [32] /\ hlist_empty 8 m' = Some (true, m') /\
    (forall x, head [32] = Some x -> pprev m' !! x = Some (addr_of_first 16)).
Proof.
  apply (hlist_move_list_correct _ 8 16 [32]).
  - split_and!; [by apply (bool_decide_unpack _) | by apply (bool_decide_unpack _) | done | done].
  - split_and!; [by apply (bool_decide_unpack _) | by apply (bool_decide_unpack _) | done | done].
  - by apply (bool_decide_unpack _).
Defined.
