(* ===== verification/HashH.v ===== *)
(** * [hash.h]: hash tables of [HASH_SIZE] chains

    A table is an array of [struct hlist_head]; a node's key is the bytes that
    follow the node in its structure ([node + 1]).  The memory has the chains'
    pointer objects ([HlistH]) and the bytes of the keys; reading a byte that
    is not part of an object is undefined, for [memcmp] too.

    [htable m hash T]: the table at address [hash] holds, in the chain of slot
    [i], the nodes [T i].  [hash_slot] is an executable definition on the bytes
    of the key, used as it is by the components that own a table. *)

From S2P Require Import Prelude Path HlistH.

Definition HASH_SIZE : Z := 29989.

(** ** [hash_slot] *)

(** A [uint32_t] read from memory, on a little-endian machine. *)
Definition le32 (b0 b1 b2 b3 : Z) : Z := b0 + 2 ^ 8 * b1 + 2 ^ 16 * b2 + 2 ^ 24 * b3.

(** [for (i = 0; i < count; i++) n ^= p[i];], where [p] points to [key]. *)
Fixpoint xor_words (n : Z) (key : list Z) (count : nat) {struct count} : option Z :=
  match count with
  | O => Some n
  | S count =>
      match key with
      | b0 :: b1 :: b2 :: b3 :: key => xor_words (Z.lxor n (le32 b0 b1 b2 b3)) key count
      | _ => None
      end
  end.

Definition hash_slot (key : list Z) (len : Z) : option Z :=
  n ← xor_words 0 key (Z.to_nat (u64 len / 4));
  Some (n mod HASH_SIZE).

(** The bytes of a 64-bit word, and of an array of them. *)
Definition word_bytes (w : Z) : list Z :=
  (fun i => (w / 2 ^ (8 * i)) mod 2 ^ 8) <$> [0; 1; 2; 3; 4; 5; 6; 7].

Definition key_bytes (ws : list Z) : list Z := mjoin (word_bytes <$> ws).

(** The slot of a key that is an array of 64-bit words, as in the tables of
    memory blocks, of call stacks and of unwind information. *)
Definition slot_of_words (ws : list Z) : Z :=
  foldl (fun n w => Z.lxor n (Z.lxor (w mod 2 ^ 32) (w / 2 ^ 32 mod 2 ^ 32))) 0 ws
    mod HASH_SIZE.

Lemma le32_word_bytes w :
  le32 (w / 2 ^ (8 * 0) mod 2 ^ 8) (w / 2 ^ (8 * 1) mod 2 ^ 8)
       (w / 2 ^ (8 * 2) mod 2 ^ 8) (w / 2 ^ (8 * 3) mod 2 ^ 8) = w mod 2 ^ 32.
Proof.
  unfold le32.
  change (2 ^ (8 * 0)) with 1. change (2 ^ (8 * 1)) with 256.
  change (2 ^ (8 * 2)) with (256 * 256). change (2 ^ (8 * 3)) with (256 * 256 * 256).
  change (2 ^ 8) with 256. rewrite Z.div_1_r, <- !Z.div_div by lia.
  apply (Z.mod_unique_pos _ _ (w / 256 / 256 / 256 / 256)).
  - pose proof (Z.mod_pos_bound w 256). pose proof (Z.mod_pos_bound (w / 256) 256).
    pose proof (Z.mod_pos_bound (w / 256 / 256) 256).
    pose proof (Z.mod_pos_bound (w / 256 / 256 / 256) 256). lia.
  - pose proof (Z.div_mod w 256). pose proof (Z.div_mod (w / 256) 256).
    pose proof (Z.div_mod (w / 256 / 256) 256).
    pose proof (Z.div_mod (w / 256 / 256 / 256) 256). lia.
Qed.

Lemma le32_word_bytes_high w :
  le32 (w / 2 ^ (8 * 4) mod 2 ^ 8) (w / 2 ^ (8 * 5) mod 2 ^ 8)
       (w / 2 ^ (8 * 6) mod 2 ^ 8) (w / 2 ^ (8 * 7) mod 2 ^ 8) = w / 2 ^ 32 mod 2 ^ 32.
Proof.
  rewrite <- (le32_word_bytes (w / 2 ^ 32)), !Z.div_div by lia. reflexivity.
Qed.

Lemma xor_words_key_bytes n ws rest :
  xor_words n (key_bytes ws ++ rest) (2 * length ws) =
  Some (foldl (fun n w => Z.lxor n (Z.lxor (w mod 2 ^ 32) (w / 2 ^ 32 mod 2 ^ 32))) n ws).
Proof.
  revert n. induction ws as [| w ws IH]; intros n; [done |].
  replace (2 * length (w :: ws))%nat with (S (S (2 * length ws))) by (simpl; lia).
  cbn [key_bytes word_bytes fmap list_fmap mjoin list_join app xor_words foldl].
  rewrite le32_word_bytes, le32_word_bytes_high, Z.lxor_assoc. apply IH.
Qed.

Lemma hash_slot_words ws :
  8 * Z.of_nat (length ws) < 2 ^ 64 ->
  hash_slot (key_bytes ws) (8 * Z.of_nat (length ws)) = Some (slot_of_words ws).
Proof.
  intros Hlen. unfold hash_slot. rewrite u64_small by (unfold is_u64; lia).
  replace (Z.to_nat (8 * Z.of_nat (length ws) / 4)) with (2 * length ws)%nat.
  - rewrite <- (app_nil_r (key_bytes ws)), xor_words_key_bytes. done.
  - rewrite Z.mul_comm. change 8 with (2 * 4).
    rewrite Z.mul_assoc, Z.div_mul by lia. lia.
Qed.

Lemma slot_of_words_range ws : 0 <= slot_of_words ws < HASH_SIZE.
Proof. apply Z.mod_pos_bound. done. Qed.

Lemma hash_slot_range key len s : hash_slot key len = Some s -> 0 <= s < HASH_SIZE.
Proof.
  unfold hash_slot. destruct (xor_words _ _ _); simpl; [| done].
  intros [= <-]. by apply Z.mod_pos_bound.
Qed.

(** Words equal to zero at the end of a key do not change its slot. *)
Lemma slot_of_words_zero ws : slot_of_words (ws ++ [0]) = slot_of_words ws.
Proof.
  unfold slot_of_words. rewrite foldl_app. simpl. by rewrite Z.lxor_0_r.
Qed.

Lemma length_key_bytes ws : length (key_bytes ws) = (8 * length ws)%nat.
Proof.
  induction ws as [| w ws IH]; [done |].
  change (key_bytes (w :: ws)) with (word_bytes w ++ key_bytes ws).
  rewrite length_app, IH. simpl. lia.
Qed.

Lemma word_bytes_inj w w' : is_u64 w -> is_u64 w' -> word_bytes w = word_bytes w' -> w = w'.
Proof.
  intros Hw Hw' [= H0 H1 H2 H3 H4 H5 H6 H7].
  assert (w mod 2 ^ 32 = w' mod 2 ^ 32) as Hlo.
  { rewrite <- !le32_word_bytes. by rewrite H0, H1, H2, H3. }
  assert (w / 2 ^ 32 mod 2 ^ 32 = w' / 2 ^ 32 mod 2 ^ 32) as Hhi.
  { rewrite <- !le32_word_bytes_high. by rewrite H4, H5, H6, H7. }
  unfold is_u64 in *.
  rewrite (Z.mod_small (w / _)) in Hhi by
    (split; [apply Z.div_pos | apply Z.div_lt_upper_bound]; lia).
  rewrite (Z.mod_small (w' / _)) in Hhi by
    (split; [apply Z.div_pos | apply Z.div_lt_upper_bound]; lia).
  rewrite (Z.div_mod w (2 ^ 32)), (Z.div_mod w' (2 ^ 32)) by lia. lia.
Qed.

(** ** The table's operations *)

Record hash_mem := mk_hash_mem { chains : hmem; bytes : gmap Z Z }.

#[export, refine] Instance hash_mem_chains : Lens hash_mem hmem := {
  view := chains;
  update c m := mk_hash_mem c (bytes m)
}.
Proof.
  - done.
  - done.
  - by intros [].
Defined.

Definition sizeof_hlist_node : Z := 16.
Definition sizeof_hlist_head : Z := 8.

(** [&hash[slot]] *)
Definition bucket (hash slot : Z) : Z := hash + sizeof_hlist_head * slot.

Fixpoint read_bytes (m : gmap Z Z) (p : Z) (len : nat) : option (list Z) :=
  match len with
  | O => Some []
  | S len => b ← m !! p; bs ← read_bytes m (p + 1) len; Some (b :: bs)
  end.

(** Write bytes to memory, at consecutive addresses. *)
Fixpoint write_bytes (m : gmap Z Z) (p : Z) (bs : list Z) : gmap Z Z :=
  match bs with
  | [] => m
  | b :: bs => <[p := b]> (write_bytes m (p + 1) bs)
  end.

Lemma read_bytes_ext m m' p n :
  (forall a, p <= a < p + Z.of_nat n -> m' !! a = m !! a) ->
  read_bytes m' p n = read_bytes m p n.
Proof.
  revert p. induction n as [| n IH]; intros p Ha; [done |].
  cbn [read_bytes]. rewrite Ha by lia. rewrite IH; [done |]. intros a ?. apply Ha. lia.
Qed.

Lemma write_bytes_ne m p bs a :
  a < p \/ p + Z.of_nat (length bs) <= a -> write_bytes m p bs !! a = m !! a.
Proof.
  revert p. induction bs as [| b bs IH]; intros p Ha; [done |].
  cbn [write_bytes length] in *. rewrite lookup_insert_ne by lia. apply IH. lia.
Qed.

(** A read of what was written, and a read of other addresses. *)
Lemma read_write_bytes m p bs : read_bytes (write_bytes m p bs) p (length bs) = Some bs.
Proof.
  revert p. induction bs as [| b bs IH]; intros p; [done |].
  cbn [write_bytes read_bytes length]. rewrite lookup_insert_eq. simpl.
  rewrite (read_bytes_ext (write_bytes m (p + 1) bs)), IH; [done |].
  intros a Ha. apply lookup_insert_ne. lia.
Qed.

Lemma read_write_bytes_ne m p bs q n :
  q + Z.of_nat n <= p \/ p + Z.of_nat (length bs) <= q ->
  read_bytes (write_bytes m p bs) q n = read_bytes m q n.
Proof. intros H. apply read_bytes_ext. intros a Ha. apply write_bytes_ne. lia. Qed.

Lemma read_bytes_app m p bs bs' :
  read_bytes m p (length (bs ++ bs')) = Some (bs ++ bs') ->
  read_bytes m p (length bs) = Some bs /\
  read_bytes m (p + Z.of_nat (length bs)) (length bs') = Some bs'.
Proof.
  revert p. induction bs as [| b bs IH]; intros p; cbn [app length read_bytes].
  - rewrite Z.add_0_r. done.
  - destruct (m !! p) as [b' |]; simpl; [| done].
    destruct (read_bytes m (p + 1) (length (bs ++ bs'))) eqn:E; simpl; [| done].
    intros [= -> ->]. destruct (IH _ E) as [H1 H2]. rewrite H1. split; [done |].
    by replace (p + Z.of_nat (S (length bs))) with (p + 1 + Z.of_nat (length bs)) by lia.
Qed.

Lemma key_bytes_app ws ws' : key_bytes (ws ++ ws') = key_bytes ws ++ key_bytes ws'.
Proof. unfold key_bytes. by rewrite fmap_app, join_app. Qed.

Lemma key_bytes_inj ws ws' :
  Forall is_u64 ws -> Forall is_u64 ws' -> key_bytes ws = key_bytes ws' -> ws = ws'.
Proof.
  intros Hws. revert ws'. induction Hws as [| w ws Hw _ IH]; intros [| w' ws'] Hws' Heq;
    [done | by simplify_eq/= | by simplify_eq/= |].
  apply Forall_cons in Hws' as [Hw' Hws'].
  change (word_bytes w ++ key_bytes ws = word_bytes w' ++ key_bytes ws') in Heq.
  apply app_inj_1 in Heq as [Hww Heq]; [| done].
  f_equal; [by apply word_bytes_inj | by apply IH].
Qed.

Lemma take_key_bytes n ws : take (8 * n) (key_bytes ws) = key_bytes (take n ws).
Proof.
  revert n. induction ws as [| w ws IH]; intros [| n]; try done.
  replace (8 * S n)%nat with (8 + 8 * n)%nat by lia.
  change (key_bytes (w :: ws)) with (word_bytes w ++ key_bytes ws).
  rewrite take_app_add' by done. by rewrite IH.
Qed.

(** The [len] bytes at [node + 1]. *)
Definition node_key (m : gmap Z Z) (node len : Z) : option (list Z) :=
  read_bytes m (node + sizeof_hlist_node) (Z.to_nat len).

Definition hash_add (hash node len : Z) : cmd hash_mem unit :=
  key ← gets_opt (fun m => node_key (bytes m) node len);
  slot ← gets_opt (fun _ => hash_slot key len);
  zoom (hlist_add_head node (bucket hash slot)).

Definition hash_delete (node : Z) : cmd hash_mem unit := zoom (hlist_del node).

(** The body of the search loop: [memcmp(p + 1, vkey, len) == 0]. *)
Definition search_body (vkey : list Z) (len p : Z) : cmd hash_mem (option Z) :=
  key ← gets_opt (fun m => node_key (bytes m) p len);
  mret (if decide (key = take (Z.to_nat len) vkey) then Some p else None).

(** [vkey] is the content of the object that the argument points to. *)
Definition hash_search (hash : Z) (vkey : list Z) (len : Z) : cmd hash_mem Z :=
  n ← gets_opt (fun _ => hash_slot vkey len);
  fuel ← gets (fun m => chain_fuel (chains m));
  r ← hlist_for_each fuel (search_body vkey len) (bucket hash n);
  mret (default NULL r).

(** [hash_for_each]: [i] is the slot that the outer loop is at. *)
Section for_each.
Context {S R : Type} `{Lens S hash_mem}.

#[local, refine] Instance lens_chains : Lens S hmem := {
  view s := chains (view s);
  update c s := update (mk_hash_mem c (bytes (view s))) s
}.
Proof.
  - intros c s. by rewrite view_update.
  - intros a b s. by rewrite view_update, update_update.
  - intros s. destruct (view s) eqn:E. simpl. by rewrite <- E, update_view.
Defined.

Fixpoint hash_for_each_from (count : nat) (fuel : nat)
    (body : Z -> cmd S (option R)) (hash i : Z) : cmd S (option R) :=
  match count with
  | O => mret None
  | Datatypes.S count =>
      r ← hlist_for_each fuel body (bucket hash i);
      match r with
      | Some r => mret (Some r)
      | None => hash_for_each_from count fuel body hash (i + 1)
      end
  end.

Definition hash_for_each (fuel : nat) (body : Z -> cmd S (option R)) (hash : Z) :
    cmd S (option R) :=
  hash_for_each_from (Z.to_nat HASH_SIZE) fuel body hash 0.

End for_each.

(** ** Representation *)

Section htable.
Context (hash : Z).

Definition is_slot (i : Z) : Prop := 0 <= i < HASH_SIZE.

Definition htable (m : hmem) (T : Z -> list Z) : Prop :=
  (forall i, is_slot i -> hchain m (bucket hash i) (T i)) /\
  (forall i j n, is_slot i -> is_slot j -> n ∈ T i -> n ∈ T j -> i = j) /\
  (forall i j, is_slot i -> is_slot j -> bucket hash j ∉ T i).

(** [n] is neither a node nor a head of the table. *)
Definition outside (T : Z -> list Z) (n : Z) : Prop :=
  forall i, is_slot i -> n ∉ bucket hash i :: T i.

(** The abstract table after a change of one chain. *)
Definition set_slot (T : Z -> list Z) (i : Z) (xs : list Z) : Z -> list Z :=
  fun j => if decide (j = i) then xs else T j.

Lemma bucket_inj i j : bucket hash i = bucket hash j -> i = j.
Proof. unfold bucket, sizeof_hlist_head. lia. Qed.

Lemma htable_set_slot m m' T i xs l :
  htable m T -> is_slot i -> hchain m' (bucket hash i) xs ->
  hchanges_only l m m' ->
  (forall j a, is_slot j -> j <> i -> a ∈ bucket hash j :: T j -> a ∉ l) ->
  (forall j n, is_slot j -> j <> i -> n ∈ xs -> n ∉ bucket hash j :: T j) ->
  htable m' (set_slot T i xs).
Proof.
  intros (H1 & H2 & H3) Hi Hc Hch Hl Hxs. unfold set_slot. split_and!.
  - intros j Hj. case_decide as Hji; [by subst |].
    eapply hchain_hchanges_only; [exact Hch | | by apply H1]. eauto.
  - intros j k n Hj Hk. repeat case_decide; subst; try done; intros Hn Hn'.
    + exfalso. by eapply (Hxs k n); [.. | apply elem_of_cons; right].
    + exfalso. by eapply (Hxs j n); [.. | apply elem_of_cons; right].
    + by eapply H2.
  - intros j k Hj Hk. case_decide; subst; [| by apply H3].
    destruct (decide (k = i)) as [-> |].
    + destruct Hc as (Hnd & _). by apply NoDup_cons in Hnd as [? _].
    + intros Hn. eapply (Hxs k); [done | done | exact Hn | set_solver].
Qed.

(** The nodes that an update of slot [i] writes are not those of another slot. *)
Lemma htable_other_slot m T i j a :
  htable m T -> is_slot i -> is_slot j -> j <> i -> a ∈ bucket hash j :: T j ->
  a <> bucket hash i /\ a ∉ T i.
Proof.
  intros (_ & H2 & H3) Hi Hj Hji Ha. apply elem_of_cons in Ha as [-> | Ha].
  - split; [intros Hb; by apply bucket_inj in Hb | by apply H3].
  - split; [intros -> ; by eapply (H3 j i) |]. intros Hn. by apply Hji, (H2 j i a).
Qed.

Lemma elem_of_head_list ys (a : Z) : a ∈ head_list ys -> a ∈ ys.
Proof. destruct ys; simpl; set_solver. Qed.

Lemma hash_add_run m T node len key slot :
  htable (chains m) T -> outside T node -> hnode (chains m) node ->
  node_key (bytes m) node len = Some key -> hash_slot key len = Some slot ->
  exists c, hash_add hash node len m = Some (tt, mk_hash_mem c (bytes m)) /\
    htable c (set_slot T slot (node :: T slot)) /\
    (forall a, hnode (chains m) a -> hnode c a).
Proof.
  intros HT Hout Hnode Hkey Hslot. pose proof (hash_slot_range _ _ _ Hslot) as Hs.
  pose proof HT as (H1 & H2 & H3).
  destruct (hlist_add_head_spec (chains m) (bucket hash slot) (T slot) node)
    as (c & Hrun & Hc & Hch); [by apply H1 | by apply Hout | done |].
  exists c. split_and!; [| | eauto with memleax].
  - unfold hash_add, gets_opt, mbind, cmd_bind. rewrite Hkey, Hslot.
    by erewrite zoom_Some by exact Hrun.
  - eapply htable_set_slot; [exact HT | done | exact Hc | exact Hch | |].
    + intros j a Hj Hji Ha Hin.
      destruct (htable_other_slot _ _ _ _ _ HT Hs Hj Hji Ha) as [Hb Hn].
      apply elem_of_cons in Hin as [-> | Hin]; [by apply (Hout j Hj) |].
      apply elem_of_cons in Hin as [-> | Hin%elem_of_head_list]; done.
    + intros j n Hj Hji Hn Ha.
      destruct (htable_other_slot _ _ _ _ _ HT Hs Hj Hji Ha) as [Hb Hn'].
      apply elem_of_cons in Hn as [-> | Hn]; [by apply (Hout j Hj) | done].
Qed.

Lemma hash_delete_run m T i xs node ys :
  htable (chains m) T -> is_slot i -> T i = xs ++ node :: ys ->
  exists c, hash_delete node m = Some (tt, mk_hash_mem c (bytes m)) /\
    htable c (set_slot T i (xs ++ ys)) /\
    (forall a, hnode (chains m) a -> hnode c a).
Proof.
  intros HT Hi HTi. pose proof HT as (H1 & H2 & H3).
  pose proof (H1 i Hi) as Hci. rewrite HTi in Hci.
  destruct (hlist_del_spec _ _ _ _ _ Hci) as (c & Hrun & Hc & _ & _ & Hch).
  assert (forall j a, is_slot j -> j <> i -> a ∈ bucket hash j :: T j ->
    a <> bucket hash i /\ a ∉ xs ++ node :: ys) as Hother.
  { intros j a Hj Hji Ha. rewrite <- HTi. by eapply htable_other_slot. }
  exists c. split_and!; [| | eauto with memleax].
  - unfold hash_delete. by erewrite zoom_Some by exact Hrun.
  - eapply htable_set_slot; [exact HT | done | exact Hc | exact Hch | |].
    + intros j a Hj Hji Ha Hin. destruct (Hother j a Hj Hji Ha) as [Hb Hn].
      apply elem_of_cons in Hin as [-> | Hin].
      { pose proof (default_last_elem (bucket hash i) xs). set_solver. }
      apply elem_of_cons in Hin as [-> | Hin%elem_of_head_list]; set_solver.
    + intros j n Hj Hji Hn Ha. destruct (Hother j n Hj Hji Ha). set_solver.
Qed.

(** The search, on the nodes of a slot: the first node whose [len] bytes of
    key are those of [vkey]; undefined if a key that is compared is shorter. *)
Fixpoint search_chain (keys : Z -> option (list Z)) (vkey : list Z) (xs : list Z) : option Z :=
  match xs with
  | [] => Some NULL
  | x :: xs =>
      key ← keys x;
      if decide (key = vkey) then Some x else search_chain keys vkey xs
  end.

Lemma search_body_run vkey len p m :
  search_body vkey len p m =
  (key ← node_key (bytes m) p len;
   Some (if decide (key = take (Z.to_nat len) vkey) then Some p else None, m)).
Proof.
  unfold search_body, gets_opt, mbind at 1, cmd_bind.
  by destruct (node_key (bytes m) p len).
Qed.

Lemma run_search_body m vkey len xs :
  (r ← run_list (search_body vkey len) xs; mret (default NULL r)) m =
  (r ← search_chain (fun p => node_key (bytes m) p len)
         (take (Z.to_nat len) vkey) xs; Some (r, m)).
Proof.
  induction xs as [| x xs IH]; [done |].
  cbn [run_list search_chain]. unfold mbind at 1 2, cmd_bind at 1 2.
  rewrite search_body_run. unfold mbind at 1, cmd_bind in IH.
  destruct (node_key (bytes m) x len) as [key |]; simpl; [| done].
  destruct (decide (key = take (Z.to_nat len) vkey)); [done | exact IH].
Qed.

Lemma hash_search_run m T vkey len slot :
  htable (chains m) T -> hash_slot vkey len = Some slot ->
  hash_search hash vkey len m =
  (r ← search_chain (fun p => node_key (bytes m) p len)
         (take (Z.to_nat len) vkey) (T slot); Some (r, m)).
Proof.
  intros (H1 & _) Hslot. pose proof (hash_slot_range _ _ _ Hslot) as Hs.
  rewrite <- run_search_body. unfold hash_search, gets_opt, gets, mbind, cmd_bind.
  rewrite Hslot. erewrite (hlist_for_each_run (fun s => s = m)); [done | | | done].
  - split; [intros s -> ; by apply H1 |].
    intros x s r s' _ ->. unfold search_body, gets_opt, mbind, cmd_bind.
    destruct (node_key _ _ _); [| done]. by intros [= _ <-].
  - eapply hchain_fuel. by apply H1.
Qed.

(** *** [hash_for_each] goes through the chains, slot by slot *)

Section for_each_spec.
Context {S R : Type} `{Lens S hash_mem}.
#[local] Existing Instance lens_chains.
Implicit Types (body : Z -> cmd S (option R)) (s : S).

(** The table stays as it is, under [P]. *)
Definition keeps_table (P : S -> Prop) body (T : Z -> list Z) : Prop :=
  (forall s, P s -> htable (chains (view s)) T) /\
  (forall i n s r s', is_slot i -> n ∈ T i -> P s -> body n s = Some (r, s') -> P s').

Lemma hash_for_each_from_run P body T fuel count i s :
  keeps_table P body T -> (forall j, is_slot j -> (length (T j) < fuel)%nat) ->
  0 <= i -> i + Z.of_nat count <= HASH_SIZE -> P s ->
  hash_for_each_from count fuel body hash i s =
    run_list body (concat (T <$> seqZ i (Z.of_nat count))) s.
Proof.
  intros [Htab Hkeep] Hf. revert i s. induction count as [| count IH]; intros i s Hi Hc HP; [done |].
  assert (is_slot i) as His by (unfold is_slot; lia).
  cbn [hash_for_each_from]. rewrite seqZ_cons by lia. cbn [fmap list_fmap concat].
  replace (Z.pred (Z.of_nat (Datatypes.S count))) with (Z.of_nat count) by lia.
  rewrite run_list_app. unfold mbind, cmd_bind.
  rewrite (hlist_for_each_run P body (bucket hash i) (T i)); [| | by apply Hf | done].
  2: { split; [intros s' HP'; by apply (Htab s' HP') |]. intros n s' r s'' Hn HP' Hb. by eapply Hkeep. }
  destruct (run_list body (T i) s) as [[[r |] s'] |] eqn:E; [done | | done].
  apply (IH (i + 1)); [lia | lia |].
  eapply run_list_inv; [| exact HP | exact E]. intros n t r t' Hn. by apply (Hkeep i).
Qed.

(** The nodes in the order in which the loop visits them. *)
Definition table_nodes (T : Z -> list Z) : list Z := concat (T <$> seqZ 0 HASH_SIZE).

Lemma hash_for_each_run P body T fuel s :
  keeps_table P body T -> (forall j, is_slot j -> (length (T j) < fuel)%nat) -> P s ->
  hash_for_each fuel body hash s = run_list body (table_nodes T) s.
Proof. intros Hk Hf HP. by apply (hash_for_each_from_run P). Qed.

End for_each_spec.

(** ** Refinement: a table is a list of nodes, newest first

    [len_of n] is the length of the key of the node [n]. *)

Section refinement.
Context (len_of : Z -> Z) (b : gmap Z Z).

Inductive hash_op :=
  | HashAdd (n : Z)
  | HashDelete (n : Z).

Definition run_hash_op (o : hash_op) : cmd hash_mem unit :=
  match o with
  | HashAdd n => hash_add hash n (len_of n)
  | HashDelete n => hash_delete n
  end.

Fixpoint run_hash_ops (os : list hash_op) : cmd hash_mem unit :=
  match os with
  | [] => mret tt
  | o :: os => run_hash_op o;; run_hash_ops os
  end.

Definition abs_hash_op (o : hash_op) (l : list Z) : option (list Z) :=
  match o with
  | HashAdd n => if decide (n ∈ l) then None else Some (n :: l)
  | HashDelete n => if decide (n ∈ l) then Some (filter (fun x => x <> n) l) else None
  end.

Fixpoint abs_hash_ops (os : list hash_op) (l : list Z) : option (list Z) :=
  match os with
  | [] => Some l
  | o :: os => l ← abs_hash_op o l; abs_hash_ops os l
  end.

Definition slot_at (n : Z) : option Z :=
  key ← node_key b n (len_of n); hash_slot key (len_of n).

Definition hash_op_node (o : hash_op) : Z :=
  match o with HashAdd n | HashDelete n => n end.

(** A node with a key that can be read, and apart from the heads. *)
Definition node_ok (m : hmem) (n : Z) : Prop :=
  hnode m n /\ is_Some (slot_at n) /\ (forall j, is_slot j -> n <> bucket hash j).

Definition table_of (l : list Z) (i : Z) : list Z := filter (fun n => slot_at n = Some i) l.

(** The table in [m] holds the nodes [l]. *)
Definition hash_rep (m : hash_mem) (l : list Z) : Prop :=
  (exists T, htable (chains m) T /\ forall i, is_slot i -> T i = table_of l i) /\
  bytes m = b /\ Forall (fun n => is_Some (slot_at n)) l.

(** Every node is in the chain of one slot. *)
Lemma table_nodes_perm l :
  Forall (fun n => is_Some (slot_at n)) l -> table_nodes (table_of l) ≡ₚ l.
Proof.
  intros Hl. apply concat_filter_perm; [apply NoDup_seqZ |].
  eapply Forall_impl; [exact Hl |]. intros n [i Hi]. exists i. split; [done |].
  apply elem_of_seqZ. unfold slot_at in Hi. apply bind_Some in Hi as (key & _ & Hs).
  apply hash_slot_range in Hs. lia.
Qed.

Lemma htable_ext m T T' :
  (forall i, is_slot i -> T i = T' i) -> htable m T -> htable m T'.
Proof.
  intros HT (H1 & H2 & H3). split_and!.
  - intros i Hi. rewrite <- HT by done. auto.
  - intros i j n Hi Hj. rewrite <- !HT by done. by apply H2.
  - intros i j Hi Hj. rewrite <- HT by done. by apply H3.
Qed.

Lemma table_of_filter_ne n l i :
  table_of (filter (fun x => x <> n) l) i = filter (fun x => x <> n) (table_of l i).
Proof.
  unfold table_of. rewrite !list_filter_filter. apply list_filter_iff. intros; tauto.
Qed.

Lemma run_hash_op_refines m l l' o :
  hash_rep m l -> abs_hash_op o l = Some l' -> node_ok (chains m) (hash_op_node o) ->
  exists m', run_hash_op o m = Some (tt, m') /\ hash_rep m' l' /\
    (forall n, node_ok (chains m) n -> node_ok (chains m') n).
Proof.
  intros ((T0 & HT0 & HTl) & Hb & Hl) Habs (Hn & [i Hi] & Hbk).
  assert (htable (chains m) (table_of l)) as HT by by eapply htable_ext.
  pose proof HT as (Hch & _).
  unfold slot_at in Hi. apply bind_Some in Hi as (key & Hkey & Hslot).
  pose proof (hash_slot_range _ _ _ Hslot) as Hs.
  pose proof Hkey as Hkey'. rewrite <- Hb in Hkey'.
  destruct o as [n | n]; simpl in *; case_decide as Hin; simplify_eq.
  - destruct (hash_add_run m _ n (len_of n) key i HT) as (c & Hrun & HT' & Hal); try done.
    { intros j Hj. apply not_elem_of_cons. split; [by apply Hbk |].
      unfold table_of. rewrite list_elem_of_filter. tauto. }
    assert (slot_at n = Some i) as Hsl by (unfold slot_at; by rewrite Hkey).
    exists (mk_hash_mem c (bytes m)). split_and!; [done | | unfold node_ok; naive_solver].
    split_and!; [| done | constructor; [by eexists | done]].
    exists (set_slot (table_of l) i (n :: table_of l i)). split; [done |].
    intros j _. unfold set_slot, table_of. rewrite filter_cons, Hsl.
    case_decide as E; subst; case_decide; try congruence; done.
  - assert (slot_at n = Some i) as Hsl by (unfold slot_at; by rewrite Hkey).
    assert (n ∈ table_of l i) as Hni by by apply list_elem_of_filter.
    destruct (hchain_split _ _ _ _ (Hch i Hs) Hni) as (xs & ys & Heq & _ & Hfil).
    destruct (hash_delete_run m _ i xs n ys HT Hs Heq) as (c & Hrun & HT' & Hal).
    exists (mk_hash_mem c (bytes m)). split_and!; [done | | unfold node_ok; naive_solver].
    split_and!; [| done |].
    + exists (set_slot (table_of l) i (xs ++ ys)). split; [done |].
      intros j _. rewrite table_of_filter_ne. unfold set_slot. case_decide as E; subst; [done |].
      symmetry. apply filter_all. intros x (Hx & _)%list_elem_of_filter ->. congruence.
    + apply Forall_forall. intros x (_ & Hx)%list_elem_of_filter.
      rewrite Forall_forall in Hl. by apply Hl.
Qed.

Lemma hash_rep_search m l vkey len slot :
  hash_rep m l -> hash_slot vkey len = Some slot ->
  hash_search hash vkey len m =
  (r ← search_chain (fun p => node_key b p len) (take (Z.to_nat len) vkey) (table_of l slot);
   Some (r, m)).
Proof.
  intros ((T & HT & HTl) & Hb & Hl) Hslot. erewrite hash_search_run by done.
  pose proof (hash_slot_range _ _ _ Hslot) as Hs. by rewrite HTl, Hb by done.
Qed.

End refinement.

(** The representation depends on the memory of the heads and of the nodes only,
    and on the slots of the nodes. *)
Lemma hash_rep_ext len_of b len_of' m m' l :
  hash_rep len_of b m l ->
  (forall a, a ∈ l \/ (exists i, is_slot i /\ a = bucket hash i) ->
     cell (chains m') !! a = cell (chains m) !! a /\
     pprev (chains m') !! a = pprev (chains m) !! a) ->
  (forall n, n ∈ l -> slot_at len_of' (bytes m') n = slot_at len_of b n) ->
  hash_rep len_of' (bytes m') m' l.
Proof.
  intros ((T & (H1 & H2 & H3) & HTl) & _ & Hl) Hsame Hslot.
  assert (forall i, is_slot i -> forall n, n ∈ T i -> n ∈ l) as HTin.
  { intros i Hi n. rewrite HTl by done. unfold table_of. rewrite list_elem_of_filter. tauto. }
  split_and!; [exists T; split | done |].
  - split_and!; [| done | done]. intros i Hi. eapply hchain_ext; [| by apply H1].
    intros a [-> | Ha]%elem_of_cons; apply Hsame; [right; eauto | left; eauto].
  - intros i Hi. rewrite HTl by done. unfold table_of.
    clear HTin HTl Hsame Hl. induction l as [| n l IH]; [done |].
    rewrite !filter_cons, Hslot by set_solver. rewrite IH; [done |].
    intros n' Hn'. apply Hslot. set_solver.
  - apply Forall_forall. intros n Hn. rewrite Hslot by done.
    rewrite Forall_forall in Hl. by apply Hl.
Qed.

(** The node that was added last among those that hold the key. *)
Definition find_newest (b : gmap Z Z) (len : Z) (vkey : list Z) (l : list Z) : Z :=
  default NULL (head (filter (fun n => node_key b n len = Some vkey) l)).

Lemma search_table_of b len l vkey i :
  Forall (fun n => is_Some (slot_at (fun _ => len) b n)) l -> hash_slot vkey len = Some i ->
  search_chain (fun p => node_key b p len) vkey (table_of (fun _ => len) b l i) =
    Some (find_newest b len vkey l).
Proof.
  intros Hl Hslot. unfold find_newest.
  induction Hl as [| n l [s Hs] _ IH]; [done |].
  unfold table_of. rewrite !filter_cons. fold (table_of (fun _ => len) b l i).
  pose proof Hs as Hs'. unfold slot_at in Hs'. apply bind_Some in Hs' as (key & Hkey & Hks).
  destruct (decide (key = vkey)) as [-> | Hne].
  - rewrite decide_True by congruence. simpl. rewrite Hkey. simpl.
    by rewrite !decide_True.
  - case_decide; simpl; [rewrite Hkey; simpl; rewrite decide_False by done |];
      rewrite decide_False by congruence; exact IH.
Qed.

Lemma hash_rep_search_newest b len m l vkey slot :
  hash_rep (fun _ => len) b m l -> length vkey = Z.to_nat len ->
  hash_slot vkey len = Some slot ->
  hash_search hash vkey len m = Some (find_newest b len vkey l, m).
Proof.
  intros Hrep Hlen Hslot. erewrite hash_rep_search by done.
  destruct Hrep as (_ & _ & Hl). by rewrite take_ge, search_table_of by (done || lia).
Qed.

(** C16: after any sequence of [hash_add] and [hash_delete] that adds nodes that
    are not in the table and deletes nodes that are, [hash_search] is defined
    for every key of the table's length, and finds the node that was added
    last among those in the table that hold the key; null if there is none. *)
Theorem hash_table_refines b len m l l' os :
  hash_rep (fun _ => len) b m l -> abs_hash_ops os l = Some l' ->
  Forall (fun o => node_ok (fun _ => len) b (chains m) (hash_op_node o)) os ->
  exists m', run_hash_ops (fun _ => len) os m = Some (tt, m') /\
    hash_rep (fun _ => len) b m' l' /\
    forall vkey slot, length vkey = Z.to_nat len -> hash_slot vkey len = Some slot ->
      hash_search hash vkey len m' = Some (find_newest b len vkey l', m').
Proof.
  revert m l. induction os as [| o os IH]; intros m l Hrep Habs Hos; simpl in *.
  - simplify_eq. exists m. split_and!; [done.. |].
    intros vkey slot. by apply hash_rep_search_newest.
  - apply bind_Some in Habs as (l1 & Habs & Habs').
    apply Forall_cons in Hos as [Hn Hos].
    destruct (run_hash_op_refines _ _ _ _ _ _ Hrep Habs Hn) as (m1 & Hrun & Hrep1 & Hal).
    destruct (IH m1 l1 Hrep1 Habs') as (m' & Hrun' & Hrest).
    { eapply Forall_impl; [exact Hos |]. naive_solver. }
    exists m'. split; [| done]. by erewrite cmd_bind_Some by exact Hrun.
Qed.

End htable.

(** ** The empty table *)

(** The first [n] heads of a table in static storage: all null. *)
Definition heads (hash n : Z) : gmap Z Z :=
  list_to_map ((fun i => (bucket hash i, NULL)) <$> seqZ 0 n).

Definition empty_heads (hash : Z) : gmap Z Z := heads hash HASH_SIZE.

Lemma heads_lookup hash n i : 0 <= i < n -> heads hash n !! bucket hash i = Some NULL.
Proof.
  intros Hi. unfold heads. apply elem_of_list_to_map_1.
  - rewrite <- list_fmap_compose. apply NoDup_fmap_2_strong; [| apply NoDup_seqZ].
    intros x y _ _. apply bucket_inj.
  - apply list_elem_of_fmap. exists i. split; [done |]. apply elem_of_seqZ. lia.
Qed.

Lemma heads_hchain hash n (f g : gmap Z Z) i :
  0 < hash -> 0 <= i < n -> hchain (mk_hmem (heads hash n ∪ f) g) (bucket hash i) [].
Proof.
  intros Hh Hi. pose proof (heads_lookup hash n i Hi) as Hl.
  split_and!; [apply NoDup_singleton | | | done].
  - unfold bucket, sizeof_hlist_head, NULL. set_solver by lia.
  - simpl. by apply lookup_union_Some_l.
Qed.

Lemma empty_htable hash (f g : gmap Z Z) :
  0 < hash -> htable hash (mk_hmem (empty_heads hash ∪ f) g) (fun _ => []).
Proof.
  intros Hh. split; [| split; [set_solver | set_solver]].
  intros i Hi. unfold empty_heads. revert Hi. unfold is_slot.
  generalize HASH_SIZE. intros n Hi. by apply heads_hchain.
Qed.

#[local] Opaque empty_heads.

(** Two nodes, at 64 and 128, that hold the same 8-byte key. *)
Definition example_bytes : gmap Z Z :=
  list_to_map (zip (seqZ 80 8) (word_bytes 4096) ++ zip (seqZ 144 8) (word_bytes 4096)).

Definition example_table : hash_mem :=
  mk_hash_mem
    (mk_hmem (empty_heads 16777216 ∪ {[64 := 0; 128 := 0]}) {[64 := 0; 128 := 0]})
    example_bytes.

Lemma example_node_ok n :
  n = 64 \/ n = 128 -> node_ok 16777216 (fun _ => 8) example_bytes (chains example_table) n.
Proof.
  intros Hn. split; [| split].
  - split; [unfold NULL; lia |]. split.
    + apply lookup_union_is_Some. right. destruct Hn as [-> | ->]; by eexists.
    + destruct Hn as [-> | ->]; by eexists.
  - destruct Hn as [-> | ->]; eexists; vm_compute; reflexivity.
  - intros j Hj. unfold bucket, sizeof_hlist_head, is_slot in *. lia.
Qed.

Lemma hash_table_refines_witness :
  exists m', run_hash_ops 16777216 (fun _ => 8) [HashAdd 64; HashAdd 128; HashDelete 128] example_table
      = Some (tt, m') /\
    hash_rep 16777216 (fun _ => 8) example_bytes m' [64] /\
    forall vkey slot, length vkey = Z.to_nat 8 -> hash_slot vkey 8 = Some slot ->
      hash_search 16777216 vkey 8 m' = Some (find_newest example_bytes 8 vkey [64], m').
Proof.
  apply (hash_table_refines 16777216 example_bytes 8 example_table [] [64]).
  - split; [| split; [reflexivity | constructor]].
    exists (fun _ => []). split; [| intros i _; reflexivity].
    apply (empty_htable 16777216 {[64 := 0; 128 := 0]} {[64 := 0; 128 := 0]}). lia.
  - reflexivity.
  - do 3 (apply Forall_cons; split; [apply example_node_ok; simpl; lia |]).
    constructor.
Defined.
