(* ===== verification/WordTable.v ===== *)
(** * Hash tables whose key is the word behind the node

    [_ptr_find_proc_info] keys its table by an address, that is the member
    behind the node.  [wtable] says that a table of [HashH] holds such nodes,
    with their keys; [wtable_search] and [wtable_add] are the two operations. *)

From S2P Require Import Prelude Path HlistH HashH.

Definition sizeof_word : Z := 8.

Section word_table.
Context (hash heap_start : Z).
Context (Hhash : 0 < hash) (Hheap : hash + 8 * HASH_SIZE <= heap_start).

(** [keys] has the key of each node; the newest node is the first. *)
Record wtable (m : hash_mem) (keys : gmap Z Z) (nodes : list Z) : Prop := {
  wt_rep : hash_rep hash (fun _ => sizeof_word) (bytes m) m nodes;
  wt_nodes : forall n, n ∈ nodes -> hnode (chains m) n /\ heap_start <= n;
  wt_dom : forall n, n ∈ nodes <-> is_Some (keys !! n);
  wt_key : forall n a, keys !! n = Some a ->
    node_key (bytes m) n sizeof_word = Some (word_bytes a) /\ is_u64 a
}.

Definition newest (keys : gmap Z Z) (nodes : list Z) (a : Z) : Z :=
  default NULL (head (filter (fun n => keys !! n = Some a) nodes)).

Lemma hash_slot_one a : hash_slot (word_bytes a) sizeof_word = Some (slot_of_words [a]).
Proof. by apply (hash_slot_words [a]). Qed.

Lemma wtable_slot m keys nodes n a :
  wtable m keys nodes -> keys !! n = Some a ->
  slot_at (fun _ => sizeof_word) (bytes m) n = Some (slot_of_words [a]).
Proof.
  intros Hw Ha. unfold slot_at. rewrite (proj1 (wt_key _ _ _ Hw _ _ Ha)). apply hash_slot_one.
Qed.

Lemma wtable_search m keys nodes a :
  wtable m keys nodes -> is_u64 a ->
  hash_search hash (word_bytes a) sizeof_word m = Some (newest keys nodes a, m).
Proof.
  intros Hw Ha. 
  rewrite (hash_rep_search_newest hash (bytes m) sizeof_word m nodes (word_bytes a) (slot_of_words [a]))
    by (done || apply (wt_rep _ _ _ Hw) || apply hash_slot_one).
  do 2 f_equal. unfold find_newest, newest. do 2 f_equal.
  apply list_filter_iff_elem. intros n Hn. apply (wt_dom _ _ _ Hw) in Hn as [k Hk].
  destruct (wt_key _ _ _ Hw n k Hk) as [-> Hu]. rewrite Hk. split; [| congruence].
  intros E. apply (inj Some), word_bytes_inj in E; [congruence | done..].
Qed.

Lemma newest_cases m keys nodes a :
  wtable m keys nodes ->
  (newest keys nodes a = NULL /\ forall n, keys !! n <> Some a) \/
  (newest keys nodes a ∈ nodes /\ newest keys nodes a <> NULL /\
   keys !! newest keys nodes a = Some a).
Proof.
  intros Hw. unfold newest. destruct (filter _ nodes) as [| n l] eqn:E; simpl.
  - left. split; [done |]. intros n Hn.
    assert (n ∈ filter (fun n => keys !! n = Some a) nodes) as Hin.
    { apply list_elem_of_filter. split; [done |]. apply (wt_dom _ _ _ Hw). by eexists. }
    rewrite E in Hin. by apply elem_of_nil in Hin.
  - right. assert (n ∈ filter (fun n => keys !! n = Some a) nodes) as [Ha Hn]%list_elem_of_filter
      by (rewrite E; set_solver).
    split_and!; [done | by apply (wt_nodes _ _ _ Hw) | done].
Qed.

(** A node that is not in the table and its memory. *)
Definition new_node (n a : Z) (m : hash_mem) : hash_mem :=
  mk_hash_mem
    (mk_hmem (<[n := NULL]> (cell (chains m))) (<[n := NULL]> (pprev (chains m))))
    (write_bytes (bytes m) (n + sizeof_hlist_node) (word_bytes a)).

Lemma not_a_bucket n i : heap_start <= n -> is_slot i -> n <> bucket hash i.
Proof. unfold bucket, sizeof_hlist_head, is_slot. lia. Qed.

Lemma new_node_table m keys nodes n a :
  wtable m keys nodes -> heap_start <= n -> (forall n', n' ∈ nodes -> n' + 24 <= n) ->
  wtable (new_node n a m) keys nodes.
Proof.
  intros Hw Hlo Hf. pose proof Hw as [].
  assert (forall n', n' ∈ nodes -> n' <> n) as Hne by (intros n' Hn'%Hf; lia).
  assert (forall n' k, keys !! n' = Some k ->
    node_key (bytes (new_node n a m)) n' sizeof_word = Some (word_bytes k) /\ is_u64 k) as Hkey.
  { intros n' k Hk. destruct (wt_key0 n' k Hk) as [E Hu]. split; [| done]. rewrite <- E.
    assert (n' ∈ nodes) as Hn'%Hf by (apply wt_dom0; by eexists).
    apply read_bytes_ext. intros x Hx. apply write_bytes_ne.
    unfold sizeof_hlist_node, sizeof_word in *. lia. }
  constructor; [| | done | exact Hkey].
  - eapply hash_rep_ext; [exact wt_rep0 | |].
    + intros x Hx. simpl. rewrite !lookup_insert_ne; [done | |];
        (destruct Hx as [Hx%Hne | (i & Hi & ->)]; [done | intros E; by apply (not_a_bucket n i)]).
    + intros n' Hn'. apply wt_dom0 in Hn' as [k Hk]. rewrite (wtable_slot m keys nodes n' k) by done.
      unfold slot_at. rewrite (proj1 (Hkey n' k Hk)). apply hash_slot_one.
  - intros n' Hn'. destruct (wt_nodes0 n' Hn') as [Hh ?]. split; [| done].
    unfold hnode in *. simpl. by rewrite !lookup_insert_ne by (by apply not_eq_sym, Hne).
Qed.

Lemma wtable_add m keys nodes n a :
  wtable m keys nodes -> is_u64 a -> heap_start <= n -> (forall n', n' ∈ nodes -> n' + 24 <= n) ->
  exists m', hash_add hash n sizeof_word (new_node n a m) = Some (tt, m') /\
    wtable m' (<[n := a]> keys) (n :: nodes).
Proof.
  intros Hw Hu Hlo Hf. pose proof (new_node_table m keys nodes n a Hw Hlo Hf) as Hw1.
  set (m1 := new_node n a m) in *.
  assert (n ∉ nodes) as Hn by (intros Hn%Hf; lia).
  assert (node_key (bytes m1) n sizeof_word = Some (word_bytes a)) as Hkey
    by apply (read_write_bytes (bytes m) (n + sizeof_hlist_node) (word_bytes a)).
  assert (hnode (chains m1) n) as Hnode.
  { unfold hnode. simpl. rewrite !lookup_insert_eq. unfold NULL, HASH_SIZE in *.
    split; [lia | split; by eexists]. }
  assert (forall n', n' ∈ n :: nodes -> node_ok hash (fun _ => sizeof_word) (bytes m1) (chains m1) n') as Hok.
  { intros n' [-> | Hn']%elem_of_cons.
    - split; [done |]. split; [| intros j; by apply not_a_bucket].
      eexists. unfold slot_at. rewrite Hkey. apply hash_slot_one.
    - destruct (wt_nodes _ _ _ Hw1 n' Hn') as [Hh Hl]. split; [done |].
      split; [| intros j; by apply not_a_bucket].
      apply (wt_dom _ _ _ Hw1) in Hn' as [k Hk]. eexists. by eapply wtable_slot. }
  destruct (run_hash_op_refines _ _ _ _ _ (n :: nodes) (HashAdd n) (wt_rep _ _ _ Hw1))
    as (m' & Hrun & Hrep & Hkeep).
  { cbn [abs_hash_op]. by rewrite decide_False. }
  { apply Hok. set_solver. }
  exists m'. split; [exact Hrun |]. assert (bytes m' = bytes m1) as Eb by apply Hrep.
  constructor; rewrite ?Eb; [done | | |].
  - intros n' Hn'. split; [apply Hkeep, Hok, Hn' |].
    apply elem_of_cons in Hn' as [-> | Hn']; [done |]. by apply (wt_nodes _ _ _ Hw).
  - intros n'. rewrite elem_of_cons, lookup_insert, (wt_dom _ _ _ Hw). case_decide; naive_solver.
  - intros n' k. rewrite lookup_insert. case_decide as E.
    + intros [= <-]. by subst n'.
    + apply (wt_key _ _ _ Hw1).
Qed.

Lemma wtable_empty f g b :
  wtable (mk_hash_mem (mk_hmem (empty_heads hash ∪ f) g) b) ∅ [].
Proof.
  constructor.
  - split_and!; [exists (fun _ => []); split; [by apply empty_htable | done] | done | constructor].
  - by intros n ?%elem_of_nil.
  - intros n. rewrite lookup_empty. split; [by intros ?%elem_of_nil | by intros [? ?]].
  - intros n a. by rewrite lookup_empty.
Qed.

End word_table.
