(* ===== verification/PtrBacktrace.v ===== *)
(** * [ptr_backtrace.c]: backtraces of a thread, by libunwind

    [ptr_backtrace] keeps the unwinding objects of the last [SPACE_MAX] threads
    in a list of [struct thread_space_s], most recently used first.  The list
    is a list of [list.h], at the pointer level: the model calls [ListH].

    libunwind is not part of the source: its address spaces and its [UPT]
    objects are values of parameter types, and what an unwind returns (the
    instruction pointers of a thread's frames) is a parameter. *)

From S2P Require Import Prelude Path ListH.

Definition SPACE_MAX : nat := 10.
Definition sizeof_thread_space : Z := 40.

Section spaces.
(** libunwind: the two kinds of objects, and how they are made. *)
Context {uspace_t upt_t : Type}.
Context (unw_create_addr_space : uspace_t) (UPT_create : Z -> upt_t).
(** The addresses of the static variables [space_head] and [spaces]. *)
Context (space_head spaces : Z).

(** The node [list_node] is at offset 0; the unwinding objects of a space are
    absent as long as it was not used. *)
Record thread_space_s := mk_space {
  uspace : option uspace_t;
  upt_info : option upt_t;
  thread_id : Z
}.

Inductive unw_event :=
  | EvCreate (thread : Z)
  | EvDestroy (thread : Z).

Record bt_state := mk_bt {
  bt_lists : lmem;
  bt_spaces : gmap Z thread_space_s;
  bt_events : list unw_event
}.

#[local, refine] Instance bt_lists_lens : Lens bt_state lmem := {
  view := bt_lists;
  update m s := mk_bt m (bt_spaces s) (bt_events s)
}.
Proof.
  - done.
  - done.
  - by intros [].
Defined.

(** [&spaces[i]] *)
Definition space_addr (i : nat) : Z := spaces + sizeof_thread_space * Z.of_nat i.

Definition get_space (sp : Z) : cmd bt_state thread_space_s :=
  gets_opt (fun s => bt_spaces s !! sp).

Definition set_space (sp : Z) (v : thread_space_s) : cmd bt_state unit := fun s =>
  match bt_spaces s !! sp with
  | Some _ => Some (tt, mk_bt (bt_lists s) (<[sp := v]> (bt_spaces s)) (bt_events s))
  | None => None
  end.

Definition emit (e : unw_event) : cmd bt_state unit :=
  modify (fun s => mk_bt (bt_lists s) (bt_spaces s) (bt_events s ++ [e])).

(** [for (i = 0; i < SPACE_MAX; i++) list_add(&spaces[i].list_node, &space_head);] *)
Fixpoint init_spaces (i : nat) (count : nat) : cmd bt_state unit :=
  match count with
  | O => mret tt
  | S count =>
      zoom (list_add (space_addr i) space_head);;
      init_spaces (S i) count
  end.

(** The loop that searches the current thread; [sp] is a local variable of
    [ptr_backtrace], and [Some tt] is its [break]. *)
Definition search_thread (current p : Z) : cmd (bt_state * Z) (option unit) :=
  let sp := list_entry p 0 in
  set_local sp;;
  t ← gets_opt (fun s => thread_id <$> bt_spaces s.1 !! sp);
  mret (if t =? 0 then Some tt else if t =? current then Some tt else None).

Definition find_space (current : Z) : cmd bt_state Z :=
  r ← with_local 0 (list_for_each (S SPACE_MAX) (search_thread current) space_head);
  mret r.2.

(** [if not found, create one] *)
Definition claim_thread (current sp : Z) : cmd bt_state unit :=
  space ← get_space sp;
  when (negb (thread_id space =? current)) (
    when (negb (thread_id space =? 0)) (emit (EvDestroy (thread_id space)));;
    emit (EvCreate current);;
    set_space sp (mk_space (Some unw_create_addr_space)
      (Some (UPT_create current)) current)).

(** [update LRU] *)
Definition update_lru (sp : Z) : cmd bt_state unit :=
  zoom (list_del sp);;
  zoom (list_add sp space_head).

(** The [do ... while] loop: [ip] is what [unw_get_reg] reads at the current
    frame, [rest] the frames that [unw_step] goes on to while it returns a
    positive number, and [i] the number of entries of [ips] written so far. *)
Fixpoint unwind_loop (i size ip : Z) (rest : list Z) : list Z :=
  ip :: (if i + 1 <? size then
           match rest with
           | [] => []
           | ip' :: rest => unwind_loop (i + 1) size ip' rest
           end
         else []).

(** [frames us upt]: the instruction pointers of the frames of the thread that
    [upt] is for; there is always a first one.  The result is what is written
    to [ips]; the return value of the function is its length. *)
Definition ptr_backtrace (frames : uspace_t -> upt_t -> Z * list Z)
    (g_current_thread size : Z) : cmd bt_state (list Z) :=
  empty ← zoom (list_empty space_head);
  when empty (init_spaces 0 SPACE_MAX);;
  sp ← find_space g_current_thread;
  claim_thread g_current_thread sp;;
  update_lru sp;;
  space ← get_space sp;
  us ← gets_opt (fun _ => uspace space);
  upt ← gets_opt (fun _ => upt_info space);
  let (ip, rest) := frames us upt in
  mret (unwind_loop 0 size ip rest).

(** ** The list of spaces is a least-recently-used cache of the threads *)

Definition space_addrs : list Z := space_addr <$> seq 0 SPACE_MAX.

(** The static variables are in memory, and do not overlap. *)
Definition layout_ok : Prop :=
  0 < spaces /\ spaces + sizeof_thread_space * Z.of_nat SPACE_MAX <= 2 ^ 64 /\
  space_head ∉ space_addrs.

Definition space_ok (s : bt_state) (a t : Z) : Prop :=
  exists v, bt_spaces s !! a = Some v /\ thread_id v = t /\
    (t <> 0 -> uspace v = Some unw_create_addr_space /\ upt_info v = Some (UPT_create t)).

(** The list holds the nodes [nodes], for the threads [ids]; 0 is no thread. *)
Definition bt_rep_nodes (s : bt_state) (nodes ids : list Z) : Prop :=
  dll (bt_lists s) space_head nodes /\ nodes ≡ₚ space_addrs /\
  Forall2 (space_ok s) nodes ids.

Definition bt_rep (s : bt_state) (ids : list Z) : Prop :=
  exists nodes, bt_rep_nodes s nodes ids.

(** Before the first call: static storage is zero, [LIST_HEAD] is empty. *)
Definition bt_initial (s : bt_state) : Prop :=
  dll (bt_lists s) space_head [] /\
  (forall a, a ∈ space_addrs -> alloc (bt_lists s) a) /\
  (forall a, a ∈ space_addrs -> bt_spaces s !! a = Some (mk_space None None 0)).

(** What a call does to the threads: the node that the search ends at goes to
    the front, and now belongs to the current thread. *)
Fixpoint lru_remove (current : Z) (ids : list Z) : list Z :=
  match ids with
  | [] => []
  | [t] => []
  | t :: ids => if (t =? 0) || (t =? current) then ids else t :: lru_remove current ids
  end.

Definition lru_touch (current : Z) (ids : list Z) : list Z :=
  current :: lru_remove current ids.

Lemma lru_split current ids :
  ids <> [] ->
  exists zs v ws, ids = zs ++ v :: ws /\
    Forall (fun t => t <> 0 /\ t <> current) zs /\
    (v = 0 \/ v = current \/ ws = []) /\ lru_remove current ids = zs ++ ws.
Proof.
  induction ids as [| t ids IH]; [done |]. intros _.
  destruct ids as [| t' ids].
  - exists [], t, []. split_and!; [done | constructor | auto | done].
  - change (lru_remove current (t :: t' :: ids)) with
      (if (t =? 0) || (t =? current) then t' :: ids
       else t :: lru_remove current (t' :: ids)).
    destruct (Z.eqb_spec t 0) as [-> |]; cbn [orb].
    + exists [], 0, (t' :: ids). split_and!; [done | constructor | auto | done].
    + destruct (Z.eqb_spec t current) as [-> |].
      * exists [], current, (t' :: ids). split_and!; [done | constructor | auto | done].
      * destruct IH as (zs & v & ws & E & Hzs & Hv & Hr); [done |].
        exists (t :: zs), v, ws. rewrite Hr, E.
        split_and!; [done | by constructor | done | done].
Qed.

Lemma space_addr_inj i j : space_addr i = space_addr j -> i = j.
Proof. unfold space_addr, sizeof_thread_space. lia. Qed.

Lemma space_addrs_NoDup : NoDup space_addrs.
Proof.
  apply NoDup_fmap_2_strong; [| apply NoDup_seq].
  intros i j _ _. apply space_addr_inj.
Qed.

Lemma length_space_addrs : length space_addrs = SPACE_MAX.
Proof. unfold space_addrs. by rewrite length_fmap, length_seq. Qed.

Lemma space_addrs_u64 a : layout_ok -> a ∈ space_addrs -> list_entry a 0 = a.
Proof.
  intros (H1 & H2 & _) (i & -> & Hi)%list_elem_of_fmap. apply elem_of_seq in Hi.
  unfold list_entry, space_addr. rewrite u64_small; [lia |].
  unfold is_u64, sizeof_thread_space, SPACE_MAX in *. lia.
Qed.

(** *** Initialisation *)

Lemma init_spaces_run s i count nodes :
  dll (bt_lists s) space_head nodes ->
  (forall k, (i <= k < i + count)%nat ->
     alloc (bt_lists s) (space_addr k) /\ space_addr k ∉ space_head :: nodes) ->
  exists m : lmem, init_spaces i count s = Some (tt, update m s) /\
    dll m space_head (reverse (space_addr <$> seq i count) ++ nodes).
Proof.
  revert s i nodes. induction count as [| count IH]; intros s i nodes Hd Hk; simpl.
  - exists (bt_lists s). by destruct s.
  - destruct (Hk i ltac:(lia)) as [Ha Hn].
    destruct (list_add_spec _ _ _ _ Hd Hn Ha) as (m & Hrun & Hd' & Hch).
    destruct (IH (update m s) (S i) (space_addr i :: nodes)) as (m' & Hrun' & Hd'').
    + done.
    + intros k Hk'. destruct (Hk k ltac:(lia)) as [Hka Hkn]. split.
      * by eapply changes_only_alloc.
      * assert (space_addr k <> space_addr i) by (intros E%space_addr_inj; lia).
        set_solver.
    + exists m'. split.
      * erewrite cmd_bind_Some by by apply zoom_Some.
        rewrite Hrun'. by rewrite update_update.
      * rewrite reverse_cons, <- app_assoc. exact Hd''.
Qed.

Lemma Forall2_replicate_r {A B} (P : A -> B -> Prop) (xs : list A) y :
  (forall x, x ∈ xs -> P x y) -> Forall2 P xs (replicate (length xs) y).
Proof.
  induction xs as [| x xs IH]; intros H; simpl; constructor.
  - apply H. set_solver.
  - apply IH. intros. apply H. set_solver.
Qed.

Lemma bt_initial_rep s :
  layout_ok -> bt_initial s ->
  exists m : lmem, init_spaces 0 SPACE_MAX s = Some (tt, update m s) /\
    bt_rep (update m s) (replicate SPACE_MAX 0).
Proof.
  intros (_ & _ & Hl) (Hd & Ha & Hz).
  destruct (init_spaces_run s 0 SPACE_MAX [] Hd) as (m & Hrun & Hd').
  - intros k Hk. assert (space_addr k ∈ space_addrs).
    { apply list_elem_of_fmap. exists k. split; [done |]. apply elem_of_seq. lia. }
    split; [by apply Ha |]. set_solver.
  - exists m. split; [done |]. exists (reverse space_addrs). rewrite app_nil_r in Hd'.
    split_and!; [exact Hd' | apply reverse_Permutation |].
    replace SPACE_MAX with (length (reverse space_addrs)) by done.
    apply Forall2_replicate_r. intros a Hain. rewrite elem_of_reverse in Hain.
    exists (mk_space None None 0). split_and!; [by apply Hz | done | done].
Qed.

(** *** The search *)

Lemma search_thread_run current s sp a t :
  layout_ok -> a ∈ space_addrs -> space_ok s a t ->
  search_thread current a (s, sp) =
    Some (if (t =? 0) || (t =? current) then Some tt else None, (s, a)).
Proof.
  intros Hl Ha (v & Hv & <- & _). unfold search_thread, gets_opt, set_local, mbind, cmd_bind.
  rewrite space_addrs_u64 by done. simpl. rewrite Hv. simpl.
  by destruct (thread_id v =? 0), (thread_id v =? current).
Qed.

Lemma run_search_thread current s sp nz n nw zs v :
  layout_ok -> (forall a, a ∈ nz ++ n :: nw -> a ∈ space_addrs) ->
  Forall2 (space_ok s) nz zs -> space_ok s n v ->
  Forall (fun t => t <> 0 /\ t <> current) zs ->
  (v = 0 \/ v = current \/ nw = []) ->
  exists r, run_list (search_thread current) (nz ++ n :: nw) (s, sp) = Some (r, (s, n)).
Proof.
  intros Hl Hin Hz Hn Hzs Hv. revert sp Hzs.
  induction Hz as [| a t nz zs Hat Hz IH]; intros sp Hzs; cbn [app run_list].
  - unfold mbind at 1, cmd_bind at 1.
    erewrite search_thread_run; [| done | apply Hin; set_solver | done].
    destruct Hv as [-> | [-> | ->]]; [by eexists | |].
    + rewrite Z.eqb_refl, orb_true_r. by eexists.
    + destruct ((v =? 0) || (v =? current)); by eexists.
  - apply Forall_cons in Hzs as [[Ht0 Htc] Hzs].
    unfold mbind at 1, cmd_bind at 1.
    erewrite search_thread_run; [| done | apply Hin; set_solver | done].
    rewrite (proj2 (Z.eqb_neq _ _) Ht0), (proj2 (Z.eqb_neq _ _) Htc). cbn [orb].
    apply IH; [set_solver | done].
Qed.

Lemma find_space_run current s nz n nw zs v ws :
  layout_ok -> bt_rep_nodes s (nz ++ n :: nw) (zs ++ v :: ws) ->
  length nz = length zs ->
  Forall (fun t => t <> 0 /\ t <> current) zs ->
  (v = 0 \/ v = current \/ nw = []) ->
  find_space current s = Some (n, s).
Proof.
  intros Hl (Hd & Hperm & Hok) Hlen Hzs Hv.
  apply Forall2_app_inv in Hok as [Hok1 Hok2]; [| done].
  apply Forall2_cons in Hok2 as [Hok2 _].
  assert (forall a, a ∈ nz ++ n :: nw -> a ∈ space_addrs) as Hin.
  { intros a. by rewrite Hperm. }
  destruct (run_search_thread current s 0 nz n nw zs v) as [r Hr]; [done.. |].
  unfold find_space, with_local, mbind, cmd_bind.
  erewrite (list_for_each_run (fun s' => s'.1 = s) _ _ (nz ++ n :: nw));
    [by rewrite Hr | | | done].
  - split; [intros s' <-; exact Hd |].
    intros a [s' sp'] r' [s'' sp''] _ Hs Hb. simpl in Hs. subst s'.
    unfold search_thread, gets_opt, set_local, mbind, cmd_bind in Hb. simpl in Hb.
    unfold mret, cmd_ret in Hb. destruct (bt_spaces s !! _); by simplify_eq/=.
  - rewrite Hperm, length_space_addrs. lia.
Qed.

(** *** A call *)

(** The state when the space of the current thread is at hand. *)
Definition claim_space (current n t : Z) (s : bt_state) : bt_state :=
  if t =? current then s
  else mk_bt (bt_lists s)
    (<[n := mk_space (Some unw_create_addr_space) (Some (UPT_create current)) current]>
       (bt_spaces s))
    (bt_events s ++ (if t =? 0 then [] else [EvDestroy t]) ++ [EvCreate current]).

Lemma claim_space_lists current n t s : bt_lists (claim_space current n t s) = bt_lists s.
Proof. unfold claim_space. by destruct (t =? current). Qed.

Lemma claim_space_ok current n t s :
  space_ok s n t -> current <> 0 -> space_ok (claim_space current n t s) n current.
Proof.
  intros (v & Hv & <- & Hv') Hc. unfold claim_space.
  destruct (Z.eqb_spec (thread_id v) current) as [<- |].
  - exists v. auto.
  - eexists. split_and!; [apply lookup_insert_eq | done | done].
Qed.

Lemma claim_space_other current n t s a t' :
  a <> n -> space_ok s a t' -> space_ok (claim_space current n t s) a t'.
Proof.
  intros Ha (v & Hv & Ht & Hv'). unfold claim_space.
  destruct (t =? current); [by exists v |]. exists v. split; [| done].
  simpl. by rewrite lookup_insert_ne.
Qed.

Lemma claim_space_run current n v s :
  bt_spaces s !! n = Some v ->
  claim_thread current n s = Some (tt, claim_space current n (thread_id v) s).
Proof.
  intros Hv. unfold claim_thread, get_space, gets_opt, mbind at 1, cmd_bind at 1. rewrite Hv.
  unfold claim_space. destruct (thread_id v =? current); [done |].
  destruct (thread_id v =? 0); cbn [negb when];
    unfold emit, modify, mbind, cmd_bind, mret, cmd_ret, set_space; simpl; rewrite Hv;
    by rewrite <- ?app_assoc.
Qed.

Lemma claim_space_rep current s nz n nw zs v ws :
  bt_rep_nodes s (nz ++ n :: nw) (zs ++ v :: ws) -> length nz = length zs ->
  current <> 0 ->
  bt_rep_nodes (claim_space current n v s) (nz ++ n :: nw) (zs ++ current :: ws).
Proof.
  intros (Hd & Hperm & Hok) Hlen Hc. pose proof Hd as (Hnd & _).
  apply NoDup_middle in Hnd as [Hn _].
  apply Forall2_app_inv in Hok as [Hok1 Hok2]; [| done].
  apply Forall2_cons in Hok2 as [Hok2 Hok3].
  split_and!; [by rewrite claim_space_lists | done |].
  assert (forall xs ts, n ∉ xs -> Forall2 (space_ok s) xs ts ->
    Forall2 (space_ok (claim_space current n v s)) xs ts) as Hother.
  { intros xs ts Hxs Hf. induction Hf as [| a t xs ts Hat _ IH]; constructor.
    - apply claim_space_other; [set_solver | done].
    - apply IH. set_solver. }
  apply Forall2_app; [| constructor].
  - apply Hother; [set_solver | done].
  - by apply claim_space_ok.
  - apply Hother; [set_solver | done].
Qed.

Lemma move_to_front s nz n nw zs v ws current :
  bt_rep_nodes s (nz ++ n :: nw) (zs ++ v :: ws) -> length nz = length zs ->
  space_ok s n current ->
  exists m : lmem,
    update_lru n s = Some (tt, update m s) /\
    bt_rep_nodes (update m s) (n :: nz ++ nw) (current :: zs ++ ws).
Proof.
  intros (Hd & Hperm & Hok) Hlen Hn.
  pose proof Hd as (Hnd & _). apply NoDup_middle in Hnd as [Hnot Hnd].
  destruct (list_del_spec _ _ _ _ _ Hd) as (m1 & Hrun1 & Hd1 & Hn1 & Hp1 & Hch1).
  destruct (list_add_spec m1 space_head (nz ++ nw) n) as (m2 & Hrun2 & Hd2 & Hch2);
    [done | done | split; by eexists |].
  exists m2. split.
  - unfold update_lru. erewrite cmd_bind_Some by by apply zoom_Some.
    erewrite zoom_Some by by rewrite view_update. by rewrite update_update.
  - split_and!; [done | |].
    + by rewrite <- Hperm, Permutation_middle.
    + apply Forall2_app_inv in Hok as [Hok1 Hok2]; [| done].
      apply Forall2_cons in Hok2 as [_ Hok2].
      constructor; [exact Hn |]. by apply Forall2_app.
Qed.

Lemma ptr_backtrace_run s ids frames current size :
  layout_ok -> bt_rep s ids -> current <> 0 ->
  exists s', ptr_backtrace frames current size s =
      (let (ip, rest) := frames unw_create_addr_space (UPT_create current) in
       Some (unwind_loop 0 size ip rest, s')) /\
    bt_rep s' (lru_touch current ids).
Proof.
  intros Hl [nodes Hrep] Hc. pose proof Hrep as (Hd & Hperm & Hok).
  assert (length nodes = SPACE_MAX) as Hlen.
  { by rewrite Hperm, length_space_addrs. }
  pose proof (Forall2_length _ _ _ Hok) as Hlen'.
  destruct (lru_split current ids) as (zs & v & ws & -> & Hzs & Hv & Hrem).
  { intros ->. simpl in Hlen'. rewrite Hlen in Hlen'. done. }
  unfold lru_touch. rewrite Hrem. clear Hrem.
  apply Forall2_app_inv_r in Hok as (nz & nw & Hok1 & Hok2 & ->).
  apply Forall2_cons_inv_r in Hok2 as (n & nw' & Hn & Hok2 & ->).
  pose proof (Forall2_length _ _ _ Hok1) as Hlz.
  pose proof (Forall2_length _ _ _ Hok2) as Hlw.
  assert (v = 0 \/ v = current \/ nw' = []) as Hv'.
  { destruct Hv as [? | [? | ->]]; [auto | auto | destruct nw'; [auto | done]]. }
  pose proof (find_space_run _ _ _ _ _ _ _ _ Hl Hrep Hlz Hzs Hv') as Hfind.
  pose proof Hn as (vs & Hvs & Hvt & _).
  pose proof (claim_space_run current n vs s Hvs) as Hclaim. rewrite Hvt in Hclaim.
  set (s1 := claim_space current n v s) in *.
  assert (bt_rep_nodes s1 (nz ++ n :: nw') (zs ++ current :: ws)) as Hrep1.
  { by apply claim_space_rep. }
  destruct (move_to_front s1 nz n nw' zs current ws current Hrep1 Hlz)
    as (m & Hmove & Hrep2); [by apply claim_space_ok |].
  exists (update m s1). split; [| by eexists].
  unfold ptr_backtrace.
  erewrite cmd_bind_Some by by apply zoom_Some, list_empty_spec.
  rewrite bool_decide_false by (intros E; by rewrite E in Hlen).
  erewrite cmd_bind_Some by done.
  erewrite cmd_bind_Some by (rewrite update_view; exact Hfind).
  erewrite cmd_bind_Some by exact Hclaim.
  erewrite cmd_bind_Some by exact Hmove.
  destruct Hrep2 as (_ & _ & Hok'). apply Forall2_cons in Hok' as [Hok' _].
  destruct Hok' as (v' & Hv1 & _ & Hv2). destruct (Hv2 Hc) as [Hus Hupt].
  unfold get_space, gets_opt, mbind, cmd_bind. rewrite Hv1, Hus, Hupt.
  by destruct (frames _ _).
Qed.

Lemma ptr_backtrace_first_run s frames current size :
  layout_ok -> bt_initial s -> current <> 0 ->
  exists s', ptr_backtrace frames current size s =
      (let (ip, rest) := frames unw_create_addr_space (UPT_create current) in
       Some (unwind_loop 0 size ip rest, s')) /\
    bt_rep s' (lru_touch current (replicate SPACE_MAX 0)).
Proof.
  intros Hl Hi Hc. destruct (bt_initial_rep s Hl Hi) as (m & Hinit & Hrep).
  destruct (ptr_backtrace_run _ _ frames current size Hl Hrep Hc) as (s' & Hrun & Hrep').
  exists s'. split; [| done]. rewrite <- Hrun.
  destruct Hi as (Hd & _). destruct Hrep as (nodes & Hd' & Hperm & _).
  unfold ptr_backtrace.
  erewrite cmd_bind_Some by by apply zoom_Some, list_empty_spec.
  rewrite (bool_decide_true ([] = [])) by done.
  erewrite cmd_bind_Some by (rewrite update_view; exact Hinit).
  symmetry. erewrite cmd_bind_Some by by apply zoom_Some, list_empty_spec.
  rewrite bool_decide_false.
  - erewrite cmd_bind_Some by done. by rewrite update_view.
  - intros ->. by apply Permutation_nil_l in Hperm.
Qed.

(** *** The cache over a sequence of calls *)

Definition live (ids : list Z) : list Z := filter (fun t => t <> 0) ids.

(** Distinct threads first, unused spaces after them. *)
Definition ids_ok (ids : list Z) : Prop :=
  NoDup (live ids) /\ exists k, ids = live ids ++ replicate k 0.

(** The abstract cache: the last [SPACE_MAX] distinct threads, latest first. *)
Definition cache_touch (current : Z) (l : list Z) : list Z :=
  take SPACE_MAX (current :: filter (fun t => t <> current) l).

Lemma live_app xs ys : live (xs ++ ys) = live xs ++ live ys.
Proof. apply filter_app. Qed.

Lemma live_nonzero xs : (forall t, t ∈ xs -> t <> 0) -> live xs = xs.
Proof. apply filter_all. Qed.

Lemma live_zeros k : live (replicate k 0) = [].
Proof. by induction k. Qed.

Lemma live_no_zero xs : 0 ∉ live xs.
Proof. unfold live. rewrite list_elem_of_filter. tauto. Qed.

(** In a well-formed list only unused spaces follow an unused space. *)
Lemma ids_ok_zero zs ws :
  ids_ok (zs ++ 0 :: ws) -> (forall t, t ∈ zs -> t <> 0) ->
  exists k, ws = replicate k 0.
Proof.
  intros [_ [k Hk]] Hzs. rewrite live_app, (live_nonzero zs) in Hk by done.
  rewrite <- app_assoc in Hk. apply app_inv_head in Hk.
  change (live (0 :: ws)) with (live ws) in Hk. pose proof (live_no_zero ws) as Hno.
  destruct (live ws) as [| t l]; simpl in Hk.
  - destruct k as [| k]; simplify_eq/=. by exists k.
  - simplify_eq/=. set_solver.
Qed.

Lemma filter_ne_id (c : Z) (xs : list Z) : c ∉ xs -> filter (fun t => t <> c) xs = xs.
Proof. intros H. apply filter_all. set_solver. Qed.

(** A thread is put in front of [zs ++ ws], where [v], between them, is left out. *)
#[local] Abbreviation others current zs := (Forall (fun t => t <> 0 /\ t <> current) zs).

Lemma others_nonzero current zs t : others current zs -> t ∈ zs -> t <> 0.
Proof. intros Hzs Ht. rewrite Forall_forall in Hzs. by apply Hzs. Qed.

Lemma others_not_in current zs : others current zs -> current ∉ zs.
Proof. intros Hzs Ht. rewrite Forall_forall in Hzs. by apply (Hzs current). Qed.

Lemma live_front current zs ws :
  current <> 0 -> others current zs -> live (current :: zs ++ ws) = current :: zs ++ live ws.
Proof.
  intros Hc Hzs.
  change (live ([current] ++ zs ++ ws) = current :: zs ++ live ws).
  rewrite !live_app, (live_nonzero zs), (live_nonzero [current]); [done | set_solver |].
  intros t. by apply others_nonzero with current.
Qed.

(** A space that was not used. *)
Lemma front_unused current zs ws :
  current <> 0 -> others current zs -> ids_ok (zs ++ 0 :: ws) ->
  ids_ok (current :: zs ++ ws) /\ live ws = [] /\ live (zs ++ 0 :: ws) = zs.
Proof.
  intros Hc Hzs Hok. pose proof (fun t => others_nonzero current zs t Hzs) as Hz0.
  destruct (ids_ok_zero _ _ Hok Hz0) as [j ->]. destruct Hok as [Hnd _].
  rewrite live_app, (live_nonzero zs) in * by done.
  change (live (0 :: replicate j 0)) with (live (replicate j 0)) in *.
  rewrite live_zeros, app_nil_r in *. split_and!; [| done..].
  split; rewrite live_front, live_zeros, app_nil_r by done; [| by exists j].
  apply NoDup_cons. split; [by apply others_not_in | done].
Qed.

(** The thread's own space, or the last one. *)
Lemma front_used current v zs ws :
  current <> 0 -> others current zs -> ids_ok (zs ++ v :: ws) -> v <> 0 -> v = current \/ ws = [] ->
  ids_ok (current :: zs ++ ws) /\ live (zs ++ v :: ws) = zs ++ v :: live ws /\ v ∉ live ws.
Proof.
  intros Hc Hzs [Hnd [k Hk]] Hv0 Hv. pose proof (fun t => others_nonzero current zs t Hzs) as Hz0.
  rewrite live_app, (live_nonzero zs) in * by done.
  assert (live (v :: ws) = v :: live ws) as E by by apply filter_cons_True. rewrite E in *.
  pose proof (others_not_in current zs Hzs). apply NoDup_app in Hnd as (Hndz & Hdis & Hnd). apply NoDup_cons in Hnd as [Hvn Hnd].
  split_and!; [| done..]. split; rewrite live_front by done.
  - apply NoDup_cons. split; [| apply NoDup_app; set_solver].
    destruct Hv as [-> | ->]; [set_solver | by rewrite app_nil_r].
  - exists k. rewrite <- app_assoc in Hk. apply app_inv_head in Hk.
    simpl in Hk. simplify_eq. simpl. rewrite <- app_assoc. congruence.
Qed.

Lemma lru_touch_cache current ids :
  ids_ok ids -> length ids = SPACE_MAX -> current <> 0 ->
  ids_ok (lru_touch current ids) /\
  live (lru_touch current ids) = cache_touch current (live ids) /\
  length (lru_touch current ids) = SPACE_MAX.
Proof.
  intros Hok Hlen Hc.
  destruct (lru_split current ids) as (zs & v & ws & -> & Hzs & Hv & Hrem); [by intros -> |].
  pose proof (others_not_in current zs Hzs) as Hzc. rewrite length_app in Hlen. simpl in Hlen.
  unfold lru_touch, cache_touch. rewrite Hrem, live_front by done.
  assert (length (current :: zs ++ ws) = SPACE_MAX) as Hlen' by (simpl; rewrite length_app; lia).
  assert (length (live ws) <= length ws)%nat as Hlw by apply length_filter.
  destruct (decide (v = 0)) as [-> | Hv0].
  - destruct (front_unused current zs ws Hc Hzs Hok) as (Hok' & -> & ->). split_and!; [done | | done].
    rewrite (filter_ne_id current zs), app_nil_r, take_ge by (done || simpl; lia). done.
  - destruct (front_used current v zs ws Hc Hzs Hok Hv0) as (Hok' & -> & Hvn); [tauto |].
    split_and!; [done | | done]. rewrite filter_app, (filter_ne_id current zs) by done.
    destruct (decide (v = current)) as [-> | Hvc].
    + rewrite filter_cons_False, (filter_ne_id current (live ws)) by naive_solver.
      rewrite take_ge; [done |]. simpl. rewrite length_app. lia.
    + destruct Hv as [? | [? | ->]]; [done | done |]. rewrite filter_cons_True by done.
      change (live []) with (@nil Z). rewrite filter_nil, app_nil_r. simpl in Hlen.
      change (take SPACE_MAX (current :: zs ++ [v])) with (current :: take 9 (zs ++ [v])).
      f_equal. by rewrite take_app_length' by (unfold SPACE_MAX in Hlen; lia).
Qed.

(** A sequence of calls: the unwinding at each call, the thread, the limit. *)
Definition bt_call : Type := (uspace_t -> upt_t -> Z * list Z) * Z * Z.
Definition call_thread (c : bt_call) : Z := c.1.2.

Fixpoint backtraces (calls : list bt_call) : cmd bt_state (list (list Z)) :=
  match calls with
  | [] => mret []
  | (frames, t, size) :: calls =>
      ips ← ptr_backtrace frames t size;
      rest ← backtraces calls;
      mret (ips :: rest)
  end.

(** The result of a call: at most [size] instruction pointers, and at least
    one, of the frames of the thread itself. *)
Definition call_result (c : bt_call) : list Z :=
  let '(frames, t, size) := c in
  let (ip, rest) := frames unw_create_addr_space (UPT_create t) in
  take (Z.to_nat (Z.max 1 size)) (ip :: rest).

Lemma unwind_loop_take i size ip rest :
  unwind_loop i size ip rest = take (Z.to_nat (Z.max 1 (size - i))) (ip :: rest).
Proof.
  revert i ip. induction rest as [| ip' rest IH]; intros i ip; simpl.
  - destruct (Z.to_nat _) eqn:E; [lia |]. simpl. rewrite take_nil.
    by destruct (i + 1 <? size).
  - destruct (Z.ltb_spec (i + 1) size).
    + rewrite IH. replace (Z.to_nat (Z.max 1 (size - i)))
        with (S (Z.to_nat (Z.max 1 (size - (i + 1))))) by lia. done.
    + replace (Z.to_nat (Z.max 1 (size - i))) with 1%nat by lia. done.
Qed.

Lemma call_result_unwind (frames : uspace_t -> upt_t -> Z * list Z) t size :
  (let (ip, rest) := frames unw_create_addr_space (UPT_create t) in
   unwind_loop 0 size ip rest) = call_result (frames, t, size).
Proof.
  unfold call_result. destruct (frames _ _). rewrite unwind_loop_take.
  by rewrite Z.sub_0_r.
Qed.

Lemma ids_ok_zeros k : ids_ok (replicate k 0).
Proof. split; rewrite live_zeros; [constructor | by exists k]. Qed.

Lemma backtraces_run s ids calls :
  layout_ok -> bt_rep s ids -> ids_ok ids -> length ids = SPACE_MAX ->
  Forall (fun c => call_thread c <> 0) calls ->
  exists s' ids', backtraces calls s = Some (call_result <$> calls, s') /\
    bt_rep s' ids' /\ live ids' = foldl (flip cache_touch) (live ids) (call_thread <$> calls).
Proof.
  intros Hl. revert s ids.
  induction calls as [| [[frames t] size] calls IH]; intros s ids Hrep Hok Hlen Hcs.
  - by exists s, ids.
  - apply Forall_cons in Hcs as [Ht Hcs]. simpl in Ht.
    destruct (ptr_backtrace_run s ids frames t size) as (s1 & Hrun & Hrep1); [done.. |].
    destruct (lru_touch_cache t ids) as (Hok1 & Hlive1 & Hlen1); [done.. |].
    destruct (IH s1 _ Hrep1 Hok1 Hlen1 Hcs) as (s' & ids' & Hrun' & Hrep' & Hlive').
    exists s', ids'. split_and!; [| done |].
    + cbn [backtraces]. pose proof (call_result_unwind frames t size) as Hres.
      destruct (frames unw_create_addr_space (UPT_create t)).
      erewrite cmd_bind_Some by exact Hrun. erewrite cmd_bind_Some by exact Hrun'.
      by rewrite Hres.
    + rewrite Hlive'. simpl. by rewrite Hlive1.
Qed.

(** C14: whatever sequence of calls is made after start-up, every call succeeds
    and returns the innermost [max 1 size] instruction pointers of the thread
    it is made for, and the spaces in use are an LRU cache: those of the last
    [SPACE_MAX] distinct threads, the latest first. *)
Theorem ptr_backtrace_refines_lru s c calls :
  layout_ok -> bt_initial s -> Forall (fun c => call_thread c <> 0) (c :: calls) ->
  exists s' ids, backtraces (c :: calls) s = Some (call_result <$> (c :: calls), s') /\
    bt_rep s' ids /\
    live ids = foldl (flip cache_touch) [] (call_thread <$> (c :: calls)).
Proof.
  intros Hl Hi Hcs. destruct c as [[frames t] size].
  apply Forall_cons in Hcs as [Ht Hcs]. simpl in Ht.
  destruct (ptr_backtrace_first_run s frames t size) as (s1 & Hrun & Hrep1); [done.. |].
  destruct (lru_touch_cache t (replicate SPACE_MAX 0)) as (Hok1 & Hlive1 & Hlen1);
    [apply ids_ok_zeros | done | done |].
  destruct (backtraces_run s1 _ calls Hl Hrep1 Hok1 Hlen1 Hcs)
    as (s' & ids' & Hrun' & Hrep' & Hlive').
  exists s', ids'. split_and!; [| done |].
  - cbn [backtraces]. pose proof (call_result_unwind frames t size) as Hres.
    destruct (frames unw_create_addr_space (UPT_create t)).
    erewrite cmd_bind_Some by exact Hrun. erewrite cmd_bind_Some by exact Hrun'.
    by rewrite Hres.
  - rewrite Hlive', Hlive1. done.
Qed.

End spaces.

(** Twelve calls for eleven threads, at concrete addresses. *)
Definition example_bt_state : bt_state :=
  let addrs := 64 :: ((fun i => 128 + 40 * Z.of_nat i) <$> seq 0 10) in
  mk_bt (uspace_t := unit) (upt_t := Z)
    (mk_lmem (list_to_map ((fun a => (a, if a =? 64 then 64 else 0)) <$> addrs))
             (list_to_map ((fun a => (a, if a =? 64 then 64 else 0)) <$> addrs)))
    (list_to_map ((fun a => (a, mk_space (None : option unit) (None : option Z) 0)) <$> tail addrs)) [].

Definition example_calls : list (bt_call (uspace_t := unit) (upt_t := Z)) :=
  (fun t => (fun _ upt => (1000 + upt, [2000 + upt; 3000 + upt]), t, 2))
    <$> [1; 2; 3; 4; 5; 6; 7; 8; 9; 10; 11; 2].

Lemma example_bt_initial : bt_initial 64 128 example_bt_state.
Proof.
  split_and!.
  - split_and!; [apply NoDup_singleton | reflexivity | reflexivity].
  - apply Forall_forall. repeat constructor; eexists; reflexivity.
  - apply Forall_forall. repeat constructor; reflexivity.
Qed.

Lemma example_layout_ok : layout_ok 64 128.
Proof.
  split_and!; [lia | unfold sizeof_thread_space, SPACE_MAX; lia |].
  apply (bool_decide_unpack _). vm_compute. exact I.
Qed.

Lemma ptr_backtrace_refines_lru_witness :
  exists s' ids, backtraces tt (fun t => t) 64 128 example_calls example_bt_state =
      Some (call_result tt (fun t => t) <$> example_calls, s') /\
    bt_rep tt (fun t => t) 64 128 s' ids /\
    live ids = [2; 11; 10; 9; 8; 7; 6; 5; 4; 3].
Proof.
  apply (ptr_backtrace_refines_lru tt (fun t => t) 64 128 example_bt_state);
    [apply example_layout_ok | apply example_bt_initial |].
  repeat constructor; done.
Defined.
