(* ===== verification/Heap.v ===== *)
(** * The C heap of the monitor, and its output

    [malloc] hands out fresh addresses, in order, and returns the null pointer
    when the room that is left ([heap_end - brk]) is too small; so every state
    is a state in which an allocation may succeed or fail.  [free] does not
    make an address available again: an access to a freed object is then
    undefined in the model, as it is in C.

    [env] is what the environment of the process supplies at the time of an
    event: the clock, the thread and API entry that are current, and the frames
    that libunwind finds on the stack of a thread. *)

From stdpp Require Export strings.
From S2P Require Import Prelude HlistH.

#[global] Open Scope Z_scope.

Record heap := mk_heap { brk : Z; heap_end : Z }.

Definition round_up16 (sz : Z) : Z := (sz + 15) / 16 * 16.

Definition malloc (sz : Z) : cmd heap Z := fun h =>
  if brk h + round_up16 sz <=? heap_end h
  then Some (brk h, mk_heap (brk h + round_up16 sz) (heap_end h))
  else Some (NULL, h).

(** Addresses are positive and fit in a pointer. *)
Definition heap_ok (h : heap) : Prop := 0 < brk h <= heap_end h /\ heap_end h <= 2 ^ 63.

Lemma round_up16_ge sz : sz <= round_up16 sz < sz + 16.
Proof.
  unfold round_up16. pose proof (Z.mod_pos_bound (sz + 15) 16 ltac:(lia)).
  pose proof (Z.div_mod (sz + 15) 16 ltac:(lia)). lia.
Qed.

(** Both outcomes of an allocation. *)
Lemma malloc_cases sz h :
  heap_ok h -> 0 <= sz ->
  (malloc sz h = Some (NULL, h) /\ heap_end h < brk h + round_up16 sz) \/
  (exists h', malloc sz h = Some (brk h, h') /\ heap_ok h' /\
    brk h + sz <= brk h' /\ heap_end h' = heap_end h /\ brk h <> NULL).
Proof.
  intros [Hb He] Hsz. unfold malloc. pose proof (round_up16_ge sz).
  destruct (Z.leb_spec (brk h + round_up16 sz) (heap_end h)); [right | left; auto].
  eexists. split_and!; [done | unfold heap_ok; simpl; lia | simpl; lia | done | unfold NULL; lia].
Qed.

(** With enough room. *)
Lemma malloc_enough sz h :
  heap_ok h -> 0 <= sz -> sz + 15 <= heap_end h - brk h ->
  exists h', malloc sz h = Some (brk h, h') /\ brk h <> NULL /\ heap_ok h' /\
    heap_end h' = heap_end h /\ brk h + sz <= brk h' <= brk h + sz + 15.
Proof.
  intros Hh Hsz Hroom. pose proof (round_up16_ge sz). unfold heap_ok in *.
  unfold malloc. rewrite (proj2 (Z.leb_le _ _)) by lia. eexists. split; [done |]. simpl.
  unfold NULL. lia.
Qed.

Lemma malloc_grows sz h p h' :
  heap_ok h -> malloc sz h = Some (p, h') -> 0 <= sz ->
  heap_ok h' /\ brk h <= brk h' /\ (p <> NULL -> p = brk h /\ p + sz <= brk h').
Proof.
  intros Hh Hm Hsz. destruct (malloc_cases sz h Hh Hsz) as [[E _] | (h1 & E & ? & ? & _)];
    rewrite E in Hm; simplify_eq; split_and!; try done. lia.
Qed.

(** What the environment supplies; the unwinding is that of [PtrBacktrace]. *)
Record env {uspace_t upt_t : Type} := mk_env {
  now : Z;                                       (* time(NULL) *)
  g_current_entry : Z;
  g_current_thread : Z;
  frames : uspace_t -> upt_t -> Z * list Z
}.
Arguments env : clear implicits.
Arguments mk_env {_ _}.

(** ** Output of [memblock.c] and [callstack.c], a constructor per [printf] *)

Inductive msg :=
  | MsgAllocNull
  | MsgFrame (address : Z) (map : string) (proc : option (string * Z))
      (file : option (string * Z))
  | MsgExpiredFree (id seconds : Z)
  | MsgTooManyExpiredFree (id : Z)
  | MsgExpire (id size : Z)
  | MsgExpireAgain (id size count : Z)
  | MsgTooManyCallstacks (limit : Z)
  | MsgTooManyBlocks (limit id : Z)
  | MsgNoExpired
  | MsgStatisticsHeader
  | MsgStatistics (id may_leak may_leak_size expired expired_size free_expired
      free_expired_size alloc alloc_size free free_size free_min free_max
      free_average unfree_max : Z).

#[export] Instance msg_eq_dec : EqDecision msg.
Proof. solve_decision. Defined.

(** ** The symbolizer: what [callstack_print] needs of other components *)

Class Symbolizer := {
  addr_maps_search : Z -> string;
  symtab_by_address : Z -> option (string * Z);
  debug_line_search : Z -> option (string * Z)
}.
