(* ===== verification/IpCache.v ===== *)
(** * The cache of procedure information in [ptr_backtrace.c]

    libunwind asks for the procedure information of an instruction pointer with
    every frame; [_ptr_find_proc_info] keeps the answers of libunwind-ptrace in
    a hash table, refusals too.  On x86 the answer has a pointer to unwind
    information, which is copied: into a new buffer for the cache, and from
    there into a static buffer for the caller.

    The answers are libunwind's: [UPT_find_proc_info] is a parameter.
    [proc_info_cached] says that a caller cannot tell the cache from the
    library, and that the library is asked once for each instruction pointer. *)

From S2P Require Import Prelude ListH HlistH HashH WordTable Heap.

Definition UNW_INFO_BUF_SIZE : Z := 100.

Section cache.
(** The members of [unw_proc_info_t], except [unwind_info]. *)
Context {pinfo : Type} (unwind_info_size : pinfo -> Z).
Context (sizeof_unw_proc_info : Z).
(** The return value, and what is filled in: the members and the bytes behind
    [unwind_info]. *)
Context (UPT_find_proc_info : Z -> Z * pinfo * list Z).
(** Where libunwind-ptrace puts the unwind information. *)
Context (upt_info : Z).
(** [MLX_X86] or [MLX_X86_64]. *)
Context (copies_unwind_info : bool).
(** The static variables. *)
Context (ip_info_hash unw_info_buf : Z).

Record unw_proc_info := mk_pi { pi_info : pinfo; unwind_info : Z }.

(** [hash_node] and [ip] are in the memory of the table; [ii_pi] is [None] as
    long as it was not written. *)
Record ip_info_s := mk_ip_info { ii_pi : option unw_proc_info; ii_ret : Z }.

Definition sizeof_ip_info : Z := 24 + sizeof_unw_proc_info + 8.

Record ip_world := mk_ip_world {
  ip_heap : heap;
  ip_hash : hash_mem;
  ip_objs : gmap Z ip_info_s;
  ip_info : gmap Z (list Z);               (* unwind information, at its address *)
  ip_asked : list Z                        (* the queries to the library, a ghost *)
}.

#[export, refine] Instance ip_heap_lens : Lens ip_world heap := {
  view := ip_heap;
  update h w := mk_ip_world h (ip_hash w) (ip_objs w) (ip_info w) (ip_asked w)
}.
Proof. all: by try intros []. Defined.

#[export, refine] Instance ip_hash_lens : Lens ip_world hash_mem := {
  view := ip_hash;
  update h w := mk_ip_world (ip_heap w) h (ip_objs w) (ip_info w) (ip_asked w)
}.
Proof. all: by try intros []. Defined.

Definition set_ii (ii : Z) (o : ip_info_s) : cmd ip_world unit := modify (fun w =>
  mk_ip_world (ip_heap w) (ip_hash w) (<[ii := o]> (ip_objs w)) (ip_info w) (ip_asked w)).

Definition get_ii (ii : Z) : cmd ip_world ip_info_s := gets_opt (fun w => ip_objs w !! ii).

(** [memcpy] of the unwind information. *)
Definition copy_info (dst src : Z) : cmd ip_world unit :=
  info ← gets_opt (fun w => ip_info w !! src);
  modify (fun w => mk_ip_world (ip_heap w) (ip_hash w) (ip_objs w)
                     (<[dst := info]> (ip_info w)) (ip_asked w)).

(** The new value of [*d]. *)
Definition _ptr_unw_proc_info_copy (s : unw_proc_info) (new_unw_info_buf : bool) :
    cmd ip_world unw_proc_info :=
  if copies_unwind_info then
    let size := unwind_info_size (pi_info s) in
    if new_unw_info_buf then
      buf ← zoom (malloc size);
      if buf =? NULL then undefined
      else copy_info buf (unwind_info s);; mret (mk_pi (pi_info s) buf)
    else if UNW_INFO_BUF_SIZE <? size then undefined     (* past the end of the buffer *)
    else copy_info unw_info_buf (unwind_info s);; mret (mk_pi (pi_info s) unw_info_buf)
  else mret s.

(** The call of [_UPT_find_proc_info]. *)
Definition ask (ip : Z) : cmd ip_world (Z * unw_proc_info) := fun w =>
  let '(ret, info, bytes) := UPT_find_proc_info ip in
  Some ((ret, mk_pi info upt_info),
    mk_ip_world (ip_heap w) (ip_hash w) (ip_objs w) (<[upt_info := bytes]> (ip_info w))
      (ip_asked w ++ [ip])).

(** The fresh structure, with [ii->ip = ip]. *)
Definition new_ip_info (ii ip : Z) : cmd ip_world unit :=
  zoom (modify (new_node ii ip));;
  set_ii ii (mk_ip_info None 0).

(** The return value, and what [*pi] is, if it was filled in. *)
Definition _ptr_find_proc_info (ip : Z) : cmd ip_world (Z * option unw_proc_info) :=
  p ← zoom (hash_search ip_info_hash (word_bytes ip) sizeof_word);
  if negb (p =? NULL) then
    let ii := list_entry p 0 in
    o ← get_ii ii;
    if ii_ret o <? 0 then mret (ii_ret o, None)
    else
      s ← gets_opt (fun _ => ii_pi o);
      pi ← _ptr_unw_proc_info_copy s false;
      mret (ii_ret o, Some pi)
  else
    ii ← zoom (malloc sizeof_ip_info);
    if ii =? NULL then undefined
    else
      new_ip_info ii ip;;
      '(ret, pi) ← ask ip;
      set_ii ii (mk_ip_info None ret);;
      when (0 <=? ret) (
        d ← _ptr_unw_proc_info_copy pi true;
        set_ii ii (mk_ip_info (Some d) ret));;
      zoom (hash_add ip_info_hash ii sizeof_word);;
      mret (ret, if ret <? 0 then None else Some pi).

(** ** What a caller sees *)

(** The result, with the unwind information behind the pointer. *)
Definition result_of (w : ip_world) (r : Z * option unw_proc_info) :
    Z * option (pinfo * option (list Z)) :=
  (r.1, (fun pi => (pi_info pi, ip_info w !! unwind_info pi)) <$> r.2).

Definition answer (ip : Z) : Z * option (pinfo * option (list Z)) :=
  let '(ret, info, bytes) := UPT_find_proc_info ip in
  (ret, if ret <? 0 then None else Some (info, Some bytes)).

(** The caller reads the information before the next call. *)
Fixpoint find_all (ips : list Z) : cmd ip_world (list (Z * option (pinfo * option (list Z)))) :=
  match ips with
  | [] => mret []
  | ip :: ips =>
      r ← _ptr_find_proc_info ip;
      x ← gets (fun w => result_of w r);
      xs ← find_all ips;
      mret (x :: xs)
  end.

(** ** The cache *)

Context (heap_start : Z).
Context (Hcopies : copies_unwind_info = true).
Context (Hsizeof : 0 < sizeof_unw_proc_info).
(** Static storage is below the heap, and so is what the library owns. *)
Context (Hhash : 0 < ip_info_hash) (Hheap : ip_info_hash + 8 * HASH_SIZE <= heap_start).
Context (Hbuf : unw_info_buf < heap_start) (Hupt : upt_info < heap_start).
(** There is unwind information, and it fits in the static buffer. *)
Context (Hfit : forall ip, 0 < unwind_info_size (UPT_find_proc_info ip).1.2 <= UNW_INFO_BUF_SIZE).

(** The cached answer for [ip]. *)
Definition cached (w : ip_world) (ip : Z) (o : ip_info_s) : Prop :=
  let '(ret, info, bytes) := UPT_find_proc_info ip in
  ii_ret o = ret /\
  (0 <= ret -> exists p, ii_pi o = Some (mk_pi info p) /\ ip_info w !! p = Some bytes /\
     heap_start <= p < brk (ip_heap w)).

Record cache_rep (w : ip_world) (keys : gmap Z Z) (nodes : list Z) : Prop := {
  cr_table : wtable ip_info_hash heap_start (ip_hash w) keys nodes;
  cr_heap : heap_ok (ip_heap w) /\ heap_start <= brk (ip_heap w);
  cr_high : forall n, n ∈ nodes -> n + sizeof_ip_info <= brk (ip_heap w);
  cr_cached : forall n ip, keys !! n = Some ip ->
    exists o, ip_objs w !! n = Some o /\ cached w ip o;
  cr_asked : NoDup (ip_asked w) /\ forall ip, ip ∈ ip_asked w <-> exists n, keys !! n = Some ip
}.

(** What a call needs of the heap. *)
Definition call_room : Z := sizeof_ip_info + UNW_INFO_BUF_SIZE + 32.

Lemma cached_ext w w' ip o :
  (forall p, heap_start <= p < brk (ip_heap w) -> ip_info w' !! p = ip_info w !! p) ->
  brk (ip_heap w) <= brk (ip_heap w') -> cached w ip o -> cached w' ip o.
Proof.
  unfold cached. destruct (UPT_find_proc_info ip) as [[ret info] bytes]. intros Hinfo Hb [Hr Hc].
  split; [done |]. intros Hret. destruct (Hc Hret) as (p & Hp & Hi & Hlo & Hhi).
  exists p. rewrite Hinfo by lia. split_and!; [done.. | lia].
Qed.

(** The result for an instruction pointer that is in the cache. *)
Lemma find_hit w keys nodes ip n :
  cache_rep w keys nodes -> keys !! n = Some ip -> n ∈ nodes ->
  is_u64 ip -> newest keys nodes ip = n -> n <> NULL ->
  exists r w', _ptr_find_proc_info ip w = Some (r, w') /\ result_of w' r = answer ip /\
    cache_rep w' keys nodes /\ ip_heap w' = ip_heap w /\ ip_asked w' = ip_asked w.
Proof.
  intros Hrep Hn Hin Hu Hnew Hnz. pose proof Hrep as [].
  destruct cr_heap0 as [[Hb He] Hlo]. pose proof (cr_high0 n Hin) as Hhi.
  destruct (wt_nodes _ _ _ _ _ cr_table0 n Hin) as [_ Hge].
  destruct (cr_cached0 n ip Hn) as (o & Ho & Hc).
  assert (0 < n) as Hpos by (unfold HASH_SIZE in *; lia).
  unfold _ptr_find_proc_info. erewrite (cmd_bind_Some (zoom _) _ w n w).
  2: { unfold zoom. cbn [view ip_hash_lens]. erewrite wtable_search by done. rewrite Hnew.
       by destruct w. }
  cbn beta. rewrite (proj2 (Z.eqb_neq n NULL) Hnz). cbn [negb]. cbv zeta.
  assert (list_entry n 0 = n) as ->.
  { unfold list_entry. rewrite Z.sub_0_r. apply u64_small. unfold is_u64, sizeof_ip_info in *. lia. }
  erewrite (cmd_bind_Some (get_ii n) _ w o w) by (unfold get_ii, gets_opt; by rewrite Ho). cbn beta.
  pose proof (Hfit ip) as Hsz. unfold cached in Hc. unfold answer.
  destruct (UPT_find_proc_info ip) as [[ret info] bytes]. destruct Hc as [-> Hc]. cbn [fst snd] in *.
  destruct (Z.ltb_spec ret 0) as [Hneg | Hret]; [by exists (ret, None), w |].
  destruct (Hc Hret) as (p & Hp & Hinfo & Hp1 & Hp2).
  erewrite (cmd_bind_Some (gets_opt _) _ w (mk_pi info p) w) by (unfold gets_opt; by rewrite Hp).
  cbn beta. unfold _ptr_unw_proc_info_copy. rewrite Hcopies. cbn [pi_info unwind_info]. cbv zeta iota.
  rewrite (proj2 (Z.ltb_ge UNW_INFO_BUF_SIZE _)) by lia.
  set (w' := mk_ip_world (ip_heap w) (ip_hash w) (ip_objs w) (<[unw_info_buf := bytes]> (ip_info w))
    (ip_asked w)).
  exists (ret, Some (mk_pi info unw_info_buf)), w'. split_and!; [| | | done | done].
  - erewrite cmd_bind_Some; [reflexivity |]. erewrite cmd_bind_Some; [reflexivity |].
    unfold copy_info. erewrite cmd_bind_Some; [reflexivity |]. unfold gets_opt. by rewrite Hinfo.
  - unfold result_of. simpl. by rewrite lookup_insert_eq.
  - constructor; try done. intros n' ip' Hn'. destruct (cr_cached0 n' ip' Hn') as (o' & Ho' & Hc').
    exists o'. split; [done |]. eapply cached_ext; [| | exact Hc']; simpl; [| lia].
    intros q Hq. apply lookup_insert_ne. lia.
Qed.

(** The entry that is added for a new instruction pointer. *)
Lemma cache_add w keys nodes ip ii o h info m' :
  cache_rep w keys nodes -> (forall n, keys !! n <> Some ip) ->
  ii = brk (ip_heap w) -> heap_ok h -> ii + sizeof_ip_info <= brk h ->
  wtable ip_info_hash heap_start m' (<[ii := ip]> keys) (ii :: nodes) ->
  (forall p, heap_start <= p < brk (ip_heap w) -> info !! p = ip_info w !! p) ->
  let w' := mk_ip_world h m' (<[ii := o]> (ip_objs w)) info (ip_asked w ++ [ip]) in
  cached w' ip o -> cache_rep w' (<[ii := ip]> keys) (ii :: nodes).
Proof.
  intros [] Hno -> Hh Hhi Htab Hinfo. cbv zeta. intros Hc. destruct cr_heap0 as [Hh0 Hlo].
  assert (forall n k, keys !! n = Some k -> n + sizeof_ip_info <= brk (ip_heap w)) as Hold
    by (intros n k Hn; apply cr_high0, (wt_dom _ _ _ _ _ cr_table0); by eexists).
  unfold sizeof_ip_info in *. constructor; simpl.
  - exact Htab.
  - split; [done | lia].
  - intros n [-> | Hn%cr_high0]%elem_of_cons; unfold sizeof_ip_info in *; lia.
  - intros n k. rewrite !lookup_insert. case_decide as E; [intros [= <-]; by exists o |].
    intros Hn. destruct (cr_cached0 n k Hn) as (o' & Ho' & Hc'). exists o'. split; [done |].
    eapply cached_ext; [| | exact Hc']; simpl; [done | lia].
  - destruct cr_asked0 as [Hnd Hin]. split.
    + apply NoDup_app. split_and!; [done | | apply NoDup_singleton].
      intros k (n & Hn)%Hin ->%list_elem_of_singleton. by apply (Hno n).
    + intros k. rewrite elem_of_app, list_elem_of_singleton, Hin. split.
      * intros [[n Hn] | ->]; [| exists (brk (ip_heap w)); by rewrite lookup_insert_eq].
        exists n. rewrite lookup_insert_ne; [done |]. pose proof (Hold n k Hn). lia.
      * intros [n Hn]. rewrite lookup_insert in Hn. case_decide; [right; by simplify_eq | left; eauto].
Qed.

(** When the library has been asked: the new node, not yet in the table. *)
Definition asked_world (w : ip_world) (h : heap) (ip ret : Z) (bytes : list Z) : ip_world :=
  let ii := brk (ip_heap w) in
  mk_ip_world h (new_node ii ip (ip_hash w))
    (<[ii := mk_ip_info None ret]> (<[ii := mk_ip_info None 0]> (ip_objs w)))
    (<[upt_info := bytes]> (ip_info w)) (ip_asked w ++ [ip]).

Lemma find_asks w keys nodes ip h ret info bytes :
  cache_rep w keys nodes -> newest keys nodes ip = NULL -> is_u64 ip ->
  malloc sizeof_ip_info (ip_heap w) = Some (brk (ip_heap w), h) -> brk (ip_heap w) <> NULL ->
  UPT_find_proc_info ip = (ret, info, bytes) ->
  _ptr_find_proc_info ip w = (
    when (0 <=? ret) (
      d ← _ptr_unw_proc_info_copy (mk_pi info upt_info) true;
      set_ii (brk (ip_heap w)) (mk_ip_info (Some d) ret));;
    zoom (hash_add ip_info_hash (brk (ip_heap w)) sizeof_word);;
    mret (ret, if ret <? 0 then None else Some (mk_pi info upt_info))) (asked_world w h ip ret bytes).
Proof.
  intros [] Hnew Hu Hm Hnz EU. unfold _ptr_find_proc_info.
  erewrite (cmd_bind_Some (zoom (hash_search _ _ _)) _ w NULL w).
  2: { unfold zoom. cbn [view ip_hash_lens]. erewrite wtable_search by done. rewrite Hnew. by destruct w. }
  cbn beta. change (negb (NULL =? NULL)) with false. cbv iota.
  erewrite (cmd_bind_Some (zoom (malloc _))) by (apply zoom_Some; exact Hm). cbn beta.
  rewrite (proj2 (Z.eqb_neq _ NULL) Hnz).
  erewrite (cmd_bind_Some (new_ip_info _ ip)) by reflexivity. cbn beta.
  erewrite (cmd_bind_Some (ask ip)) by (unfold ask; rewrite EU; reflexivity). cbn beta iota.
  erewrite (cmd_bind_Some (set_ii _ _)) by reflexivity. reflexivity.
Qed.

Lemma copy_info_run dst src w info :
  ip_info w !! src = Some info ->
  copy_info dst src w = Some (tt, mk_ip_world (ip_heap w) (ip_hash w) (ip_objs w)
    (<[dst := info]> (ip_info w)) (ip_asked w)).
Proof. intros E. unfold copy_info. by erewrite cmd_bind_Some by (unfold gets_opt; rewrite E; reflexivity). Qed.

(** The copy of what the library has answered. *)
Lemma copy_asked w h h2 ip ret info bytes :
  malloc (unwind_info_size info) h = Some (brk h, h2) -> brk h <> NULL ->
  (d ← _ptr_unw_proc_info_copy (mk_pi info upt_info) true;
   set_ii (brk (ip_heap w)) (mk_ip_info (Some d) ret)) (asked_world w h ip ret bytes) =
  Some (tt, mk_ip_world h2 (new_node (brk (ip_heap w)) ip (ip_hash w))
    (<[brk (ip_heap w) := mk_ip_info (Some (mk_pi info (brk h))) ret]> (ip_objs (asked_world w h ip ret bytes)))
    (<[brk h := bytes]> (<[upt_info := bytes]> (ip_info w))) (ip_asked w ++ [ip])).
Proof.
  intros Hm Hnz. set (w1 := asked_world w h ip ret bytes).
  erewrite (cmd_bind_Some _ _ w1 (mk_pi info (brk h)) (mk_ip_world h2 (ip_hash w1) (ip_objs w1)
    (<[brk h := bytes]> (ip_info w1)) (ip_asked w1))); [reflexivity |].
  unfold _ptr_unw_proc_info_copy. rewrite Hcopies. cbn [pi_info unwind_info]. cbv zeta iota.
  erewrite cmd_bind_Some by (apply zoom_Some; exact Hm). cbn beta.
  rewrite (proj2 (Z.eqb_neq _ NULL) Hnz).
  by erewrite cmd_bind_Some by (apply copy_info_run; apply lookup_insert_eq).
Qed.

Lemma find_miss w keys nodes ip :
  cache_rep w keys nodes -> (forall n, keys !! n <> Some ip) -> newest keys nodes ip = NULL ->
  is_u64 ip -> call_room <= heap_end (ip_heap w) - brk (ip_heap w) ->
  exists r w' keys' nodes', _ptr_find_proc_info ip w = Some (r, w') /\ result_of w' r = answer ip /\
    cache_rep w' keys' nodes' /\ heap_end (ip_heap w') = heap_end (ip_heap w) /\
    brk (ip_heap w') <= brk (ip_heap w) + call_room /\ ip_asked w' = ip_asked w ++ [ip].
Proof.
  intros Hrep Hno Hnew Hu Hroom. pose proof Hrep as []. destruct cr_heap0 as [Hh Hlo].
  pose proof (Hfit ip) as Hsz. unfold call_room, UNW_INFO_BUF_SIZE, sizeof_ip_info in *.
  destruct (malloc_enough sizeof_ip_info (ip_heap w) Hh) as (h1 & Hm1 & Hnz & Hh1 & He1 & Hb1);
    [unfold sizeof_ip_info; lia | unfold sizeof_ip_info; lia |].
  destruct (wtable_add ip_info_hash heap_start Hhash Hheap (ip_hash w) keys nodes (brk (ip_heap w)) ip)
    as (m' & Hadd & Htab); [done | done | done | intros n Hn%cr_high0; lia |].
  unfold answer. pose proof Hsz as Hsz'.
  destruct (UPT_find_proc_info ip) as [[ret info] bytes] eqn:EU. cbn [fst snd] in Hsz'.
  rewrite (find_asks w keys nodes ip h1 ret info bytes) by done.
  set (ii := brk (ip_heap w)) in *. unfold sizeof_ip_info in Hb1.
  destruct (Z.ltb_spec ret 0) as [Hneg | Hret].
  - rewrite (proj2 (Z.leb_gt 0 ret)) by lia. cbn [when].
    eexists (ret, None), _, (<[ii := ip]> keys), (ii :: nodes).
    split_and!; [| | | | |].
    1: { erewrite (cmd_bind_Some (mret tt)) by reflexivity. cbn beta.
         erewrite (cmd_bind_Some (zoom _)) by (apply zoom_Some; exact Hadd). reflexivity. }
    all: try done.
    2: simpl; lia.
    unfold asked_world. cbn [update ip_hash_lens ip_objs ip_heap ip_info ip_asked]. fold ii. rewrite insert_insert_eq.
    apply (cache_add w); try done; [unfold sizeof_ip_info; lia | | ].
    + intros p Hp. apply lookup_insert_ne. lia.
    + unfold cached. rewrite EU. split; [done | lia].
  - rewrite (proj2 (Z.leb_le 0 ret)) by lia. cbn [when].
    destruct (malloc_enough (unwind_info_size info) h1 Hh1) as (h2 & Hm2 & Hnz2 & Hh2 & He2 & Hb2); [lia | lia |].
    eexists (ret, Some (mk_pi info upt_info)), _, (<[ii := ip]> keys), (ii :: nodes).
    split_and!; [| | | | |].
    1: { erewrite cmd_bind_Some by (by apply (copy_asked w h1 h2)). cbn beta.
         erewrite (cmd_bind_Some (zoom _)) by (apply zoom_Some; exact Hadd). reflexivity. }
    2: { unfold asked_world. cbn [update ip_hash_lens ip_objs ip_heap ip_info ip_asked]. fold ii. rewrite !insert_insert_eq.
         apply (cache_add w); try done; [unfold sizeof_ip_info; lia | |].
         - intros p Hp. rewrite !lookup_insert_ne by lia. done.
         - unfold cached. rewrite EU. split; [done |]. intros _. exists (brk h1). simpl.
           rewrite lookup_insert_eq. split_and!; [done.. | lia | lia]. }
    all: try done.
    2,3: simpl; lia.
    unfold result_of. simpl. rewrite lookup_insert_ne by lia. by rewrite lookup_insert_eq.
Qed.

Lemma find_run w keys nodes ip :
  cache_rep w keys nodes -> is_u64 ip -> call_room <= heap_end (ip_heap w) - brk (ip_heap w) ->
  exists r w' keys' nodes', _ptr_find_proc_info ip w = Some (r, w') /\ result_of w' r = answer ip /\
    cache_rep w' keys' nodes' /\ heap_end (ip_heap w') = heap_end (ip_heap w) /\
    brk (ip_heap w') <= brk (ip_heap w) + call_room /\
    ip_asked w' = ip_asked w ++ (if decide (ip ∈ ip_asked w) then [] else [ip]).
Proof.
  intros Hrep Hu Hroom. pose proof (proj2 (cr_asked _ _ _ Hrep)) as Hin.
  destruct (newest_cases _ _ Hhash Hheap _ _ _ ip (cr_table _ _ _ Hrep)) as [[Hnew Hno] | (Hn & Hnz & Hk)].
  - destruct (find_miss w keys nodes ip) as (r & w' & keys' & nodes' & H1 & H2 & H3 & H4 & H5 & H6); [done.. |].
    exists r, w', keys', nodes'. rewrite decide_False; [done |]. intros (n & Hn)%Hin. by apply (Hno n).
  - destruct (find_hit w keys nodes ip _ Hrep Hk Hn Hu eq_refl Hnz) as (r & w' & H1 & H2 & H3 & H4 & H5).
    exists r, w', keys, nodes. rewrite decide_True by (apply Hin; by eexists).
    rewrite H4, H5, app_nil_r. unfold call_room, sizeof_ip_info, UNW_INFO_BUF_SIZE. split_and!; done || lia.
Qed.

(** The queries, without the repetitions. *)
Fixpoint first_asked (asked ips : list Z) : list Z :=
  match ips with
  | [] => asked
  | ip :: ips => first_asked (asked ++ (if decide (ip ∈ asked) then [] else [ip])) ips
  end.

Lemma find_all_run w keys nodes ips :
  cache_rep w keys nodes -> Forall is_u64 ips ->
  Z.of_nat (length ips) * call_room <= heap_end (ip_heap w) - brk (ip_heap w) ->
  exists w', find_all ips w = Some (answer <$> ips, w') /\
    ip_asked w' = first_asked (ip_asked w) ips /\ NoDup (ip_asked w').
Proof.
  intros Hrep Hu. revert w keys nodes Hrep. induction Hu as [| ip ips Hip _ IH]; intros w keys nodes Hrep Hroom.
  - exists w. split_and!; [done.. | by apply (cr_asked _ _ _ Hrep)].
  - cbn [length] in Hroom. unfold call_room, sizeof_ip_info, UNW_INFO_BUF_SIZE in *.
    destruct (find_run w keys nodes ip Hrep Hip) as (r & w1 & keys1 & nodes1 & Hrun & Hres & Hrep1 & He & Hb & Ha).
    { unfold call_room, sizeof_ip_info, UNW_INFO_BUF_SIZE. lia. }
    unfold call_room, sizeof_ip_info, UNW_INFO_BUF_SIZE in Hb.
    destruct (IH w1 keys1 nodes1 Hrep1) as (w2 & Hrun2 & Ha2 & Hnd); [lia |].
    exists w2. split_and!; [| by rewrite Ha2, Ha | done]. cbn [find_all].
    erewrite cmd_bind_Some by exact Hrun. cbn beta. erewrite (cmd_bind_Some (gets _)) by reflexivity. cbn beta.
    erewrite cmd_bind_Some by exact Hrun2. by rewrite Hres.
Qed.

End cache.


