(* ===== verification/ArrayH.v ===== *)
(** * [array.h]: arrays that grow

    A [struct array_s] and the memory of its items: an item is an object at
    [data + item_size * i].  [array_push] returns the address of a new item,
    for its caller to write, or null when there is no memory.  The products and
    the doubling are on [int]; an overflow is undefined.  [array_sort] is over
    the class [Qsort], what is documented of [qsort]. *)

From stdpp Require Import sorting.
From S2P Require Import Prelude HlistH Heap.

Record array_s := mk_array { item_max : Z; item_num : Z; item_size : Z; data : Z }.

Definition ARRAY (size init_max : Z) : array_s := mk_array init_max 0 size NULL.

(** An [int] result that must not overflow. *)
Definition int_checked (z : Z) : option Z :=
  if bool_decide (- 2 ^ 31 <= z < 2 ^ 31) then Some z else None.

Section array.
Context {A : Type}.

Record array_mem := mk_array_mem { am_arr : array_s; am_heap : heap; am_items : gmap Z A }.

(** [&data[i]] *)
Definition item_addr (a : array_s) (i : Z) : Z := data a + item_size a * i.

(** What [realloc] copies: [n] items from [old] to [new]; the old ones are gone. *)
Fixpoint move_items (size old new : Z) (n : nat) (items : gmap Z A) : gmap Z A :=
  match n with
  | O => items
  | S n =>
      let items' := move_items size old new n items in
      match items' !! (old + size * Z.of_nat n) with
      | Some x => <[new + size * Z.of_nat n := x]> (delete (old + size * Z.of_nat n) items')
      | None => items'
      end
  end.

Definition set_arr (a : array_s) : cmd array_mem unit :=
  modify (fun s => mk_array_mem a (am_heap s) (am_items s)).

Definition arr_malloc (sz : Z) : cmd array_mem Z := fun s =>
  match malloc sz (am_heap s) with
  | Some (p, h) => Some (p, mk_array_mem (am_arr s) h (am_items s))
  | None => None
  end.

Definition arr_realloc (old sz : Z) : cmd array_mem Z := fun s =>
  match malloc sz (am_heap s) with
  | Some (p, h) =>
      let a := am_arr s in
      Some (p, mk_array_mem a h
                 (if p =? NULL then am_items s
                  else move_items (item_size a) old p (Z.to_nat (item_num a)) (am_items s)))
  | None => None
  end.

Definition array_push : cmd array_mem Z :=
  a ← gets am_arr;
  (if data a =? NULL then
     sz ← gets_opt (fun _ => int_checked (item_size a * item_max a));
     p ← arr_malloc sz;
     set_arr (mk_array (item_max a) (item_num a) (item_size a) p)
   else if item_num a =? item_max a then
     mx ← gets_opt (fun _ => int_checked (item_max a * 2));
     sz ← gets_opt (fun _ => int_checked (item_size a * mx));
     p ← arr_realloc (data a) sz;
     set_arr (mk_array mx (item_num a) (item_size a) p)
   else mret tt);;
  a ← gets am_arr;
  if data a =? NULL then mret NULL
  else
    set_arr (mk_array (item_max a) (item_num a + 1) (item_size a) (data a));;
    mret (item_addr a (item_num a)).

(** The caller's assignment to the new item. *)
Definition write_item (p : Z) (x : A) : cmd array_mem unit :=
  modify (fun s => mk_array_mem (am_arr s) (am_heap s) (<[p := x]> (am_items s))).

Definition read_item (p : Z) : cmd array_mem A := gets_opt (fun s => am_items s !! p).

Definition array_out (pos : Z) (a : array_s) : bool :=
  data a + item_size a * item_num a <=? pos.

Definition array_last : cmd array_mem Z :=
  a ← gets am_arr;
  if item_num a =? 0 then mret NULL
  else mret (data a + item_size a * (item_num a - 1)).

(** ** Representation: the array holds the sequence [xs] *)

Record array_rep (s : array_mem) (xs : list A) : Prop := {
  ar_num : item_num (am_arr s) = Z.of_nat (length xs);
  ar_size : 0 < item_size (am_arr s);
  ar_max : item_num (am_arr s) <= item_max (am_arr s) /\ 0 < item_max (am_arr s);
  ar_heap : heap_ok (am_heap s);
  ar_null : data (am_arr s) = NULL -> xs = [];
  ar_low : data (am_arr s) <> NULL -> 0 < data (am_arr s) /\
    data (am_arr s) + item_size (am_arr s) * item_max (am_arr s) <= brk (am_heap s);
  ar_items : forall i x, xs !! i = Some x ->
    am_items s !! item_addr (am_arr s) (Z.of_nat i) = Some x
}.

Lemma move_items_old size old new n items p :
  0 < size -> old + size * Z.of_nat n <= new ->
  (p < old \/ old + size * Z.of_nat n <= p) -> p < new -> 
  move_items size old new n items !! p = items !! p.
Proof.
  intros Hs. induction n as [| n IH]; intros Hb Hp Hn; [done |]. cbn [move_items].
  destruct (move_items size old new n items !! (old + size * Z.of_nat n)) eqn:E; [| apply IH; lia].
  rewrite lookup_insert_ne, lookup_delete_ne by lia. apply IH; lia.
Qed.

Lemma move_items_new size old new n items i x :
  0 < size -> old + size * Z.of_nat n <= new -> (i < n)%nat ->
  items !! (old + size * Z.of_nat i) = Some x ->
  move_items size old new n items !! (new + size * Z.of_nat i) = Some x.
Proof.
  intros Hs. induction n as [| n IH]; intros Hb Hi Hx; [lia |]. cbn [move_items].
  destruct (decide (i = n)) as [-> |].
  - rewrite move_items_old, Hx by lia. by rewrite lookup_insert_eq.
  - destruct (move_items size old new n items !! (old + size * Z.of_nat n)) eqn:E; [| apply IH; [lia | lia | done]].
    rewrite lookup_insert_ne, lookup_delete_ne by nia. apply IH; [lia | lia | done].
Qed.

Lemma int_checked_Some z r : int_checked z = Some r -> r = z /\ - 2 ^ 31 <= z < 2 ^ 31.
Proof. unfold int_checked. case_bool_decide; naive_solver. Qed.

(** [array_push] with room left, or after the room was made. *)
Lemma push_room s xs x :
  array_rep s xs -> data (am_arr s) <> NULL -> item_num (am_arr s) < item_max (am_arr s) ->
  let a := am_arr s in
  let p := item_addr a (item_num a) in
  p <> NULL /\ array_rep (mk_array_mem
    (mk_array (item_max a) (item_num a + 1) (item_size a) (data a)) (am_heap s)
    (<[p := x]> (am_items s))) (xs ++ [x]).
Proof.
  intros [] Hd Hroom. destruct (ar_low0 Hd) as [Hpos Hhi]. cbv zeta. unfold item_addr.
  split; [unfold NULL; lia |]. constructor; simpl; try done; try lia.
  - rewrite length_app. simpl. lia.
  - intros i y Hy. unfold item_addr. simpl. rewrite lookup_app in Hy.
    destruct (xs !! i) as [z |] eqn:E; simplify_eq.
    + pose proof (lookup_lt_Some _ _ _ E). rewrite lookup_insert_ne by nia. by apply ar_items0.
    + apply lookup_ge_None in E. destruct (i - length xs)%nat eqn:Hi; simplify_eq/=.
      replace (item_num (am_arr s)) with (Z.of_nat i) by lia. by rewrite lookup_insert_eq.
Qed.

(** The two ways in which room is made. *)
Lemma push_malloc s xs sz p h :
  array_rep s xs -> data (am_arr s) = NULL -> sz = item_size (am_arr s) * item_max (am_arr s) ->
  malloc sz (am_heap s) = Some (p, h) -> p <> NULL ->
  let a := am_arr s in
  array_rep (mk_array_mem (mk_array (item_max a) (item_num a) (item_size a) p) h (am_items s)) xs.
Proof.
  intros [] Hd -> Hm Hp. destruct (malloc_grows _ _ _ _ ar_heap0 Hm) as (Hh & _ & Hb); [nia |].
  destruct (Hb Hp) as [-> Hhi]. pose proof (proj1 ar_heap0). rewrite (ar_null0 Hd) in *.
  constructor; simpl; try done. intros _. split; [lia | done].
Qed.

Lemma push_realloc s xs sz p h :
  array_rep s xs -> data (am_arr s) <> NULL -> sz = item_size (am_arr s) * (item_max (am_arr s) * 2) ->
  malloc sz (am_heap s) = Some (p, h) -> p <> NULL ->
  let a := am_arr s in
  array_rep (mk_array_mem (mk_array (item_max a * 2) (item_num a) (item_size a) p) h
    (move_items (item_size a) (data a) p (Z.to_nat (item_num a)) (am_items s))) xs.
Proof.
  intros [] Hd -> Hm Hp. destruct (ar_low0 Hd) as [Hpos Hhi].
  destruct (malloc_grows _ _ _ _ ar_heap0 Hm) as (Hh & _ & Hb); [nia |].
  destruct (Hb Hp) as [-> Hhi']. constructor; simpl; try done; try lia.
  intros i x Hx. unfold item_addr. simpl. pose proof (lookup_lt_Some _ _ _ Hx).
  apply move_items_new; [done | nia | lia |]. by apply ar_items0.
Qed.


(** ** Filling an array

    [push_item] is [array_push] with the assignment that follows it in the
    callers that do not test the result: a null pointer is dereferenced. *)
Definition push_item (x : A) : cmd array_mem unit :=
  p ← array_push;
  if p =? NULL then undefined else write_item p x.

(** The memory for an array that grows: it gets to [budget_items] items at most,
    the heap is above [budget_low] already, and [budget_rest] bytes of it stay
    free for others. *)
Record budget := mk_budget { budget_items : Z; budget_low : Z; budget_rest : Z }.
#[global] Coercion budget_items : budget >-> Z.

(** Of an array that nothing else shares the heap with. *)
Definition alone (n : Z) : budget := mk_budget n 0 0.

(** Each block is at most [item_size + 15] bytes per item, and the blocks to
    come double. *)
Definition array_room (s : array_mem) (n : budget) : Prop :=
  let a := am_arr s in
  budget_low n <= brk (am_heap s) /\ 0 <= budget_rest n /\
  (item_size a + 15) * ((if data a =? NULL then item_max a else 0) +
                        Z.max 0 (4 * n - 2 * item_max a)) + budget_rest n <=
  heap_end (am_heap s) - brk (am_heap s).

(** The capacity is the first one, or at most twice the number of items. *)
Definition array_bounded (init : Z) (a : array_s) : Prop :=
  item_max a <= Z.max init (2 * item_num a).

(** An array that holds [xs] and can grow to [n] items. *)
Record growing (init : Z) (n : budget) (xs : list A) (s : array_mem) : Prop := {
  gr_rep : array_rep s xs;
  gr_room : array_room s n;
  gr_bounded : array_bounded init (am_arr s);
  gr_int : item_size (am_arr s) * Z.max init (2 * n) < 2 ^ 31
}.

Lemma round_up16_bound sz c : 0 <= sz -> 1 <= c -> round_up16 (sz * c) <= (sz + 15) * c.
Proof.
  intros Hs Hc. unfold round_up16.
  pose proof (Z.mul_div_le (sz * c + 15) 16 ltac:(lia)). nia.
Qed.

Lemma int_checked_small z : 0 <= z < 2 ^ 31 -> int_checked z = Some z.
Proof. intros Hz. unfold int_checked. by rewrite bool_decide_true by lia. Qed.

(** Making room for one item, in a growing array. *)
Lemma malloc_room h sz c :
  heap_ok h -> 0 < sz -> 1 <= c -> (sz + 15) * c <= heap_end h - brk h ->
  exists p h', malloc (sz * c) h = Some (p, h') /\ p <> NULL /\ brk h <= brk h' /\
    heap_end h' - brk h' >= heap_end h - brk h - (sz + 15) * c.
Proof.
  intros [Hb He] Hs Hc Hroom. pose proof (round_up16_bound sz c ltac:(lia) Hc) as Hr.
  pose proof (round_up16_ge (sz * c)).
  unfold malloc. rewrite (proj2 (Z.leb_le _ _)) by lia. eexists _, _. split; [done |].
  unfold NULL. simpl. lia.
Qed.

(** The new item, when there is room for it. *)
Lemma push_finish init n xs x s :
  growing init n xs s -> data (am_arr s) <> NULL -> item_num (am_arr s) < item_max (am_arr s) ->
  let a := am_arr s in
  growing init n (xs ++ [x]) (mk_array_mem
    (mk_array (item_max a) (item_num a + 1) (item_size a) (data a)) (am_heap s)
    (<[item_addr a (item_num a) := x]> (am_items s))) /\
  item_addr a (item_num a) <> NULL.
Proof.
  intros [Hrep Hroom Hbd Hint] Hd Hlt. cbv zeta.
  destruct (push_room _ _ x Hrep Hd Hlt) as [Hp Hrep']. split; [| exact Hp].
  constructor; [exact Hrep' | exact Hroom | | exact Hint].
  unfold array_bounded in *. simpl. lia.
Qed.

(** The sizes that are computed do not overflow. *)
Lemma growing_sizes init n xs s c :
  growing init n xs s -> 0 <= c -> c <= Z.max init (2 * n) ->
  0 <= c < 2 ^ 31 /\ 0 <= item_size (am_arr s) * c < 2 ^ 31.
Proof.
  intros [[] _ _ Hint] Hc Hle.
  assert (item_size (am_arr s) * c <= item_size (am_arr s) * Z.max init (2 * n))
    by (apply Z.mul_le_mono_nonneg_l; lia).
  assert (1 * c <= item_size (am_arr s) * c) by (apply Z.mul_le_mono_nonneg_r; lia). lia.
Qed.

(** The item has been pushed. *)
Definition pushed (init : Z) (n : budget) (xs : list A) (x : A) (s : array_mem) : Prop :=
  exists s', push_item x s = Some (tt, s') /\ growing init n (xs ++ [x]) s' /\
    item_size (am_arr s') = item_size (am_arr s) /\ brk (am_heap s) <= brk (am_heap s').

(** What is left of the heap, above what is kept for later. *)
Lemma growing_avail init n xs s :
  growing init n xs s -> exists avail, heap_end (am_heap s) - brk (am_heap s) = avail + budget_rest n.
Proof. intros _. exists (heap_end (am_heap s) - brk (am_heap s) - budget_rest n). lia. Qed.

(** Without memory yet. *)
Lemma push_first init n xs x s :
  growing init n xs s -> 0 < init -> Z.of_nat (length xs) < n -> data (am_arr s) = NULL -> pushed init n xs x s.
Proof.
  intros Hgr Hi Hn Hd. destruct (growing_avail _ _ _ _ Hgr) as [avail Havail].
  pose proof Hgr as [Hrep Hroom Hbd Hint]. pose proof Hrep as [].
  destruct Hroom as (Hlow & Hrest & Hroom). unfold array_bounded in Hbd.
  rewrite Havail in Hroom. apply Z.add_le_mono_r in Hroom. rewrite (proj2 (Z.eqb_eq _ _) Hd) in Hroom.
  destruct (malloc_room (am_heap s) (item_size (am_arr s)) (item_max (am_arr s)))
    as (p & h & Hm & Hp & Hbk & Hh); [done | done | lia | |].
  { rewrite Havail. transitivity avail; [nia | lia]. }
  rewrite Havail in Hh. destruct (growing_sizes _ _ _ _ (item_max (am_arr s)) Hgr) as [_ Hsz]; [lia | lia |].
  pose proof (push_malloc _ _ _ _ _ Hrep Hd eq_refl Hm Hp) as Hrep'.
  rewrite (ar_null0 Hd) in *. simpl in ar_num0.
  cbv zeta in Hrep'. set (s1 := mk_array_mem _ _ _) in Hrep'.
  assert (growing init n [] s1) as Hg1.
  { constructor; [exact Hrep' | | |]; unfold s1, array_room, array_bounded; simpl; [| lia | done].
    rewrite (proj2 (Z.eqb_neq _ _) Hp). lia. }
  destruct (push_finish init n _ x _ Hg1) as [Hg Hne]; [done | simpl; lia |].
  unfold pushed, push_item, array_push, write_item.
  unfold mbind, cmd_bind, gets, gets_opt, arr_malloc, set_arr, modify, mret, cmd_ret.
  rewrite (proj2 (Z.eqb_eq _ _) Hd), int_checked_small by done. rewrite Hm. simpl in *.
  rewrite (proj2 (Z.eqb_neq _ _) Hp). rewrite (proj2 (Z.eqb_neq _ _) Hne).
  eexists. split; [reflexivity |]. split; [exact Hg |]. split; [reflexivity | simpl; lia].
Qed.

(** When it is full. *)
Lemma push_full init n xs x s :
  growing init n xs s -> 0 < init -> Z.of_nat (length xs) < n ->
  data (am_arr s) <> NULL -> item_num (am_arr s) = item_max (am_arr s) -> pushed init n xs x s.
Proof.
  intros Hgr Hi Hn Hd Hfull. destruct (growing_avail _ _ _ _ Hgr) as [avail Havail].
  pose proof Hgr as [Hrep Hroom Hbd Hint]. pose proof Hrep as [].
  destruct Hroom as (Hlow & Hrest & Hroom). unfold array_bounded in Hbd.
  rewrite Havail in Hroom. apply Z.add_le_mono_r in Hroom. rewrite (proj2 (Z.eqb_neq _ _) Hd) in Hroom.
  destruct (malloc_room (am_heap s) (item_size (am_arr s)) (item_max (am_arr s) * 2))
    as (p & h & Hm & Hp & Hbk & Hh); [done | done | lia | |].
  { rewrite Havail. transitivity avail; [nia | lia]. }
  rewrite Havail in Hh.
  destruct (growing_sizes _ _ _ _ (item_max (am_arr s) * 2) Hgr) as [Hsz1 Hsz2]; [lia | lia |].
  pose proof (push_realloc _ _ _ _ _ Hrep Hd eq_refl Hm Hp) as Hrep'.
  cbv zeta in Hrep'. set (s1 := mk_array_mem _ _ _) in Hrep'.
  assert (growing init n xs s1) as Hg1.
  { constructor; [exact Hrep' | | |]; unfold s1, array_room, array_bounded; simpl; [| lia | done].
    rewrite (proj2 (Z.eqb_neq _ _) Hp). split_and!; [lia | done |]. nia. }
  destruct (push_finish init n _ x _ Hg1) as [Hg Hne]; [done | simpl; lia |].
  unfold pushed, push_item, array_push, write_item.
  unfold mbind, cmd_bind, gets, gets_opt, arr_realloc, set_arr, modify, mret, cmd_ret.
  rewrite (proj2 (Z.eqb_neq _ _) Hd), (proj2 (Z.eqb_eq _ _) Hfull), !int_checked_small by done.
  rewrite Hm. simpl in *.
  rewrite (proj2 (Z.eqb_neq _ _) Hp). rewrite (proj2 (Z.eqb_neq _ _) Hne).
  eexists. split; [reflexivity |]. split; [exact Hg |]. split; [reflexivity | simpl; lia].
Qed.

Lemma push_item_run init n xs x s :
  growing init n xs s -> 0 < init -> Z.of_nat (length xs) < n -> pushed init n xs x s.
Proof.
  intros Hgr Hi Hn. destruct (Z.eqb_spec (data (am_arr s)) NULL) as [Hd | Hd]; [by apply push_first |].
  destruct (Z.eqb_spec (item_num (am_arr s)) (item_max (am_arr s))) as [Hfull | Hfull]; [by apply push_full |].
  pose proof (ar_max _ _ (gr_rep _ _ _ _ Hgr)) as Hb.
  destruct (push_finish init n xs x s Hgr) as [Hg Hne]; [done | lia |].
  unfold pushed, push_item, array_push, write_item.
  unfold mbind, cmd_bind, gets, set_arr, modify, mret, cmd_ret.
  rewrite (proj2 (Z.eqb_neq _ _) Hd), (proj2 (Z.eqb_neq _ _) Hfull).
  simpl in *. rewrite ?(proj2 (Z.eqb_neq _ _) Hd), (proj2 (Z.eqb_neq _ _) Hne).
  eexists. split; [reflexivity |]. split; [exact Hg |]. split; [reflexivity | simpl; lia].
Qed.

(** The items are pushed one after the other. *)
Fixpoint push_items (xs : list A) : cmd array_mem unit :=
  match xs with
  | [] => mret tt
  | x :: xs => push_item x;; push_items xs
  end.

Lemma push_items_run init n xs ys s :
  growing init n xs s -> 0 < init -> Z.of_nat (length xs + length ys) <= n ->
  exists s', push_items ys s = Some (tt, s') /\ growing init n (xs ++ ys) s'.
Proof.
  intros Hg Hi. revert xs s Hg. induction ys as [| y ys IH]; intros xs s Hg Hn.
  - exists s. by rewrite app_nil_r.
  - cbn [length] in Hn. destruct (push_item_run init n xs y s Hg Hi) as (s1 & Hrun & Hg1 & _); [lia |].
    destruct (IH _ _ Hg1) as (s2 & Hrun2 & Hg2); [rewrite length_app; simpl; lia |].
    exists s2. split; [| by rewrite <- app_assoc in Hg2].
    cbn [push_items]. by erewrite cmd_bind_Some by done.
Qed.

Lemma growing_start size init (n : budget) h items :
  heap_ok h -> 0 < size -> 0 < init -> 0 <= n ->
  budget_low n <= brk h -> 0 <= budget_rest n ->
  (size + 15) * (init + 4 * n) + budget_rest n <= heap_end h - brk h ->
  size * Z.max init (2 * n) < 2 ^ 31 ->
  growing init n [] (mk_array_mem (ARRAY size init) h items).
Proof.
  intros Hh Hs Hi Hn Hlow Hrest Hroom Hint. constructor; simpl; [| | | done].
  - constructor; simpl; try done; lia.
  - unfold array_room. simpl. nia.
  - unfold array_bounded. simpl. lia.
Qed.

Lemma growing_rep init n xs s : growing init n xs s -> array_rep s xs.
Proof. by intros []. Qed.

Lemma growing_room init n xs s :
  growing init n xs s -> budget_low n <= brk (am_heap s) /\
    0 <= budget_rest n <= heap_end (am_heap s) - brk (am_heap s).
Proof.
  intros [[] (? & ? & Hroom) _ _]. split_and!; [done | done |].
  etransitivity; [| exact Hroom]. case_match; nia.
Qed.

(** Others may take from the heap. *)
Lemma array_rep_heap s xs h :
  array_rep s xs -> heap_ok h -> brk (am_heap s) <= brk h ->
  array_rep (mk_array_mem (am_arr s) h (am_items s)) xs.
Proof. intros [] Hh Hb. constructor; simpl; try done. intros Hd. destruct (ar_low0 Hd). lia. Qed.

(** ** The items of an array, read and written as a whole *)

Definition read_items : cmd array_mem (list A) :=
  gets_opt (fun s => let a := am_arr s in
    mapM (fun i => am_items s !! item_addr a i) (seqZ 0 (item_num a))).

Fixpoint insert_items (a : array_s) (i : Z) (xs : list A) (items : gmap Z A) : gmap Z A :=
  match xs with
  | [] => items
  | x :: xs => <[item_addr a i := x]> (insert_items a (i + 1) xs items)
  end.

Lemma read_items_run s xs : array_rep s xs -> read_items s = Some (xs, s).
Proof.
  intros []. unfold read_items, gets_opt.
  assert (forall ys j, (forall i y, ys !! i = Some y ->
      am_items s !! item_addr (am_arr s) (Z.of_nat (j + i)) = Some y) ->
    mapM (fun i => am_items s !! item_addr (am_arr s) i)
      (seqZ (Z.of_nat j) (Z.of_nat (length ys))) = Some ys) as Hread.
  { induction ys as [| y ys IH]; intros j Hj; [done |]. cbn [length].
    rewrite seqZ_cons by lia.
    replace (Z.pred (Z.of_nat (S (length ys)))) with (Z.of_nat (length ys)) by lia.
    replace (Z.succ (Z.of_nat j)) with (Z.of_nat (S j)) by lia.
    cbn [mapM]. pose proof (Hj O y eq_refl) as Hy. rewrite Nat.add_0_r in Hy. rewrite Hy. simpl.
    rewrite IH; [done |]. intros i z Hz.
    rewrite <- (Hj (S i) z Hz). do 2 f_equal. lia. }
  cbv zeta. rewrite ar_num0. pose proof (Hread xs O ar_items0) as E.
  change (Z.of_nat 0) with 0 in E. by rewrite E.
Qed.

Lemma insert_items_lookup a i xs items j x :
  0 < item_size a -> xs !! j = Some x ->
  insert_items a i xs items !! item_addr a (i + Z.of_nat j) = Some x.
Proof.
  intros Hs. revert i j. induction xs as [| y xs IH]; intros i j Hj; [done |]. cbn [insert_items].
  destruct j as [| j]; simplify_eq/=.
  - rewrite Z.add_0_r. by rewrite lookup_insert_eq.
  - rewrite lookup_insert_ne by (unfold item_addr; nia).
    replace (i + Z.of_nat (S j)) with (i + 1 + Z.of_nat j) by lia. by apply IH.
Qed.

End array.
Arguments array_mem : clear implicits.

(** ** [array_for_each]: the body may return from the enclosing function. *)

Section for_each.
Context {S R A : Type} `{Lens S (array_mem A)}.
Implicit Types (body : Z -> cmd S (option R)) (s : S).

Fixpoint array_for_each_from (fuel : nat) (body : Z -> cmd S (option R)) (pos : Z) :
    cmd S (option R) :=
  match fuel with
  | O => undefined
  | Datatypes.S fuel =>
      a ← zoom (gets am_arr);
      if array_out pos a then mret None
      else
        r ← body pos;
        match r with
        | Some r => mret (Some r)
        | None => array_for_each_from fuel body (pos + item_size a)
        end
  end.

Definition array_for_each (body : Z -> cmd S (option R)) : cmd S (option R) :=
  a ← zoom (gets am_arr);
  array_for_each_from (Datatypes.S (Z.to_nat (item_num a))) body (data a).

(** The array holds [xs] and stays where it is, under [P]; on an item's address
    the body does what [f] does on the item. *)
Definition for_each_ok (P : S -> Prop) (a : array_s) (xs : list A) body
    (f : A -> cmd S (option R)) : Prop :=
  (forall s, P s -> am_arr (view s) = a /\ array_rep (view s) xs) /\
  (forall i x s, xs !! i = Some x -> P s ->
     body (item_addr a (Z.of_nat i)) s = f x s /\
     forall r s', f x s = Some (r, s') -> P s').

Lemma zoom_arr s : zoom (gets am_arr) s = Some (am_arr (view s), s).
Proof. unfold zoom, gets. by rewrite update_view. Qed.

Lemma array_for_each_from_run P a xs body f fuel i s :
  for_each_ok P a xs body f -> (i <= length xs)%nat -> (length xs - i < fuel)%nat -> P s ->
  array_for_each_from fuel body (item_addr a (Z.of_nat i)) s = run_list f (drop i xs) s.
Proof.
  intros [Hrep Hbody]. revert i s. induction fuel as [| fuel IH]; intros i s Hi Hf HP; [lia |].
  cbn [array_for_each_from]. destruct (Hrep s HP) as [Ha []].
  erewrite cmd_bind_Some by apply zoom_arr. rewrite Ha in *. cbn beta.
  unfold array_out, item_addr at 1. destruct (decide (i = length xs)) as [-> | Hne].
  - rewrite (proj2 (Z.leb_le _ _)) by nia. by rewrite drop_all.
  - rewrite (proj2 (Z.leb_gt _ _)) by nia.
    destruct (lookup_lt_is_Some_2 xs i) as [x Hx]; [lia |].
    destruct (Hbody i x s Hx HP) as [Eb HP']. rewrite (drop_S xs x i) by done. cbn [run_list].
    unfold mbind, cmd_bind. rewrite Eb. destruct (f x s) as [[[r |] s'] |]; [done | | done].
    rewrite <- IH by (lia || by eapply HP'). f_equal. unfold item_addr. lia.
Qed.

Lemma array_for_each_run P a xs body f s :
  for_each_ok P a xs body f -> P s -> array_for_each body s = run_list f xs s.
Proof.
  intros Hok HP. unfold array_for_each. destruct (proj1 Hok s HP) as [Ha Hrep].
  erewrite cmd_bind_Some by apply zoom_arr. rewrite Ha in *. cbn beta.
  rewrite <- Ha at 1. rewrite (ar_num _ _ Hrep), Nat2Z.id.
  replace (data a) with (item_addr a (Z.of_nat 0)) by (unfold item_addr; lia).
  by rewrite (array_for_each_from_run P a xs body f) by (done || lia).
Qed.

End for_each.

(** ** [array_sort]

    [qsort] is the C library's: it permutes the array, and when the comparison
    puts the items in the order of some key, they are in this order
    afterwards. *)
Class Qsort := {
  qsort : forall {A}, (A -> A -> Z) -> list A -> list A;
  qsort_perm : forall {A} (cmp : A -> A -> Z) xs, qsort cmp xs ≡ₚ xs;
  qsort_sorted : forall {A} (cmp : A -> A -> Z) (key : A -> Z) xs,
    (forall x y, x ∈ xs -> y ∈ xs -> cmp x y < 0 <-> key x < key y) ->
    StronglySorted (fun x y => key x <= key y) (qsort cmp xs)
}.

Section sort.
Context {A : Type} `{!Qsort}.

Definition array_sort (cmp : A -> A -> Z) : cmd (array_mem A) unit :=
  xs ← read_items;
  modify (fun s => mk_array_mem (am_arr s) (am_heap s)
                     (insert_items (am_arr s) 0 (qsort cmp xs) (am_items s))).

Lemma array_sort_run cmp s xs :
  array_rep s xs ->
  exists s', array_sort cmp s = Some (tt, s') /\ array_rep s' (qsort cmp xs) /\
    am_arr s' = am_arr s /\ am_heap s' = am_heap s.
Proof.
  intros Hrep. unfold array_sort. erewrite cmd_bind_Some by by apply read_items_run.
  eexists. split; [done |]. destruct Hrep. split; [| done].
  pose proof (Permutation_length (qsort_perm cmp xs)) as Hl.
  constructor; simpl; try done; [by rewrite Hl | |].
  - intros E. specialize (ar_null0 E). subst xs. by apply Permutation_nil_r, qsort_perm.
  - intros i x Hx. by apply (insert_items_lookup _ 0).
Qed.

End sort.

(** *** [qsort] by insertion is one *)

Fixpoint insert_sorted {A} (cmp : A -> A -> Z) (x : A) (l : list A) : list A :=
  match l with
  | [] => [x]
  | y :: l' => if cmp x y <? 0 then x :: l else y :: insert_sorted cmp x l'
  end.

Lemma insert_sorted_perm {A} (cmp : A -> A -> Z) x l : insert_sorted cmp x l ≡ₚ x :: l.
Proof.
  induction l as [| y l IH]; cbn; [done |]. destruct (_ <? _); [done |].
  rewrite IH. apply Permutation_swap.
Qed.

Lemma insert_sorted_sorted {A} (cmp : A -> A -> Z) (key : A -> Z) x l :
  (forall y, y ∈ l -> cmp x y < 0 <-> key x < key y) ->
  StronglySorted (fun x y => key x <= key y) l ->
  StronglySorted (fun x y => key x <= key y) (insert_sorted cmp x l).
Proof.
  intros Hkey Hl. induction Hl as [| y l Hl IH Hy]; cbn; [repeat constructor |].
  pose proof (Hkey y ltac:(set_solver)) as Hxy. destruct (Z.ltb_spec (cmp x y) 0).
  - constructor; [by constructor |]. constructor; [lia |].
    eapply Forall_impl; [exact Hy |]. simpl. lia.
  - constructor; [apply IH; set_solver |]. rewrite insert_sorted_perm. constructor; [lia | done].
Qed.

#[export, refine] Instance insertion_sort : Qsort := {
  qsort A cmp l := foldr (insert_sorted cmp) [] l
}.
Proof.
  - intros A cmp l. induction l as [| x l IH]; [done |]. cbn. by rewrite insert_sorted_perm, IH.
  - intros A cmp key l Hkey.
    assert (foldr (insert_sorted cmp) [] l ≡ₚ l /\
      StronglySorted (fun x y => key x <= key y) (foldr (insert_sorted cmp) [] l)) as [_ H]; [| exact H].
    induction l as [| x l IH]; [split; [done | constructor] |]. cbn.
    destruct IH as [Hp Hs]; [intros; apply Hkey; set_solver |]. split.
    + by rewrite insert_sorted_perm, Hp.
    + apply insert_sorted_sorted; [| done]. intros y Hy. rewrite Hp in Hy. apply Hkey; set_solver.
Defined.

(** A full array of two items, at 64: the third push moves it. *)
Definition example_array : array_mem Z :=
  mk_array_mem (mk_array 2 2 16 64) (mk_heap 96 4096) {[64 := 7; 80 := 8]}.

Lemma example_array_rep : array_rep example_array [7; 8].
Proof.
  constructor; unfold heap_ok; simpl; try done; try lia.
  intros [| [| i]] x Hx; by simplify_eq/=.
Qed.

