(* ===== verification/BinSearch.v ===== *)
(** * The binary searches of the tables

    [addr_maps_search], [symtab_by_address] and [debug_line_search] have the
    same loop: an interval [min, max] of indexes, halved by a comparison of the
    address with an item.  [bsearch] is that loop; [get] reads the item at an
    index, and [cmp] is [Lt] when the address is below the item, [Gt] when it is
    above, [Eq] when it is in it.  The sum [min + max] is an [int]: an overflow
    is undefined.

    [bsearch_run] says that the loop ends within its fuel, that what it returns
    matches, and that it finds a match if there is one, when the comparisons are
    monotone along the table. *)

From S2P Require Import Prelude HlistH Heap ArrayH.

Section bsearch.
Context {S A : Type}.
Context (get : Z -> cmd S A) (cmp : A -> comparison).

Fixpoint bsearch (fuel : nat) (mn mx : Z) : cmd S (option (Z * A)) :=
  match fuel with
  | O => undefined
  | Datatypes.S fuel =>
      if mn <=? mx then
        sum ← gets_opt (fun _ => int_checked (mn + mx));
        let mid := Z.quot sum 2 in
        x ← get mid;
        match cmp x with
        | Lt => bsearch fuel mn (mid - 1)
        | Gt => bsearch fuel (mid + 1) mx
        | Eq => mret (Some (mid, x))
        end
      else mret None
  end.

(** The items at the indexes from 0 are [xs], and reading has no effect. *)
Definition reads (s : S) (xs : list A) : Prop :=
  forall i x, xs !! i = Some x -> get (Z.of_nat i) s = Some (x, s).

(** The address is above the items before a match and below those behind it. *)
Definition monotone (xs : list A) : Prop :=
  forall i j x y, xs !! i = Some x -> xs !! j = Some y -> (i < j)%nat ->
    (cmp x = Lt -> cmp y = Lt) /\ (cmp y = Gt -> cmp x = Gt).

(** The items outside the interval do not match. *)
Definition excluded (xs : list A) (mn mx : Z) : Prop :=
  forall i x, xs !! i = Some x -> Z.of_nat i < mn \/ mx < Z.of_nat i -> cmp x <> Eq.

Lemma excluded_below xs mn mx mid x :
  monotone xs -> excluded xs mn mx -> xs !! Z.to_nat mid = Some x -> cmp x = Lt -> 0 <= mid ->
  excluded xs mn (mid - 1).
Proof.
  intros Hmon Hex Hx Hlt Hmid i y Hy Hi. destruct (decide (i = Z.to_nat mid)) as [-> |]; [congruence |].
  destruct Hi as [Hi | Hi]; [apply (Hex i y Hy); lia |].
  destruct (Hmon (Z.to_nat mid) i x y Hx Hy) as [E _]; [lia |]. by rewrite (E Hlt).
Qed.

Lemma excluded_above xs mn mx mid x :
  monotone xs -> excluded xs mn mx -> xs !! Z.to_nat mid = Some x -> cmp x = Gt -> 0 <= mid ->
  excluded xs (mid + 1) mx.
Proof.
  intros Hmon Hex Hx Hgt Hmid i y Hy Hi. destruct (decide (i = Z.to_nat mid)) as [-> |]; [congruence |].
  destruct Hi as [Hi | Hi]; [| apply (Hex i y Hy); lia].
  destruct (Hmon i (Z.to_nat mid) y x Hy Hx) as [_ E]; [lia |]. by rewrite (E Hgt).
Qed.

(** What a search may return. *)
Definition search_result (xs : list A) (r : option (Z * A)) : Prop :=
  match r with
  | Some (i, x) => 0 <= i /\ xs !! Z.to_nat i = Some x /\ cmp x = Eq
  | None => monotone xs -> forall x, x ∈ xs -> cmp x <> Eq
  end.

Lemma bsearch_run fuel s xs mn mx :
  reads s xs -> Z.of_nat (length xs) <= 2 ^ 30 ->
  0 <= mn -> mx < Z.of_nat (length xs) -> (Z.to_nat (mx - mn + 1) < fuel)%nat ->
  (monotone xs -> excluded xs mn mx) ->
  exists r, bsearch fuel mn mx s = Some (r, s) /\ search_result xs r.
Proof.
  intros Hreads Hlen. revert mn mx. induction fuel as [| fuel IH]; intros mn mx Hmn Hmx Hf Hex; [lia |].
  cbn [bsearch]. destruct (Z.leb_spec mn mx) as [Hle | Hgt].
  - assert (int_checked (mn + mx) = Some (mn + mx)) as Hsum
      by (unfold int_checked; by rewrite bool_decide_true by lia).
    unfold gets_opt at 1. unfold mbind at 1, cmd_bind at 1. rewrite Hsum. cbv zeta.
    rewrite Z.quot_div_nonneg by lia. set (mid := (mn + mx) / 2).
    assert (mn <= mid <= mx) as Hmid.
    { subst mid. pose proof (Z.mul_div_le (mn + mx) 2 ltac:(lia)).
      pose proof (Z.mul_succ_div_gt (mn + mx) 2 ltac:(lia)). lia. }
    destruct (lookup_lt_is_Some_2 xs (Z.to_nat mid)) as [x Hx]; [lia |].
    pose proof (Hreads _ _ Hx) as Hget. rewrite Z2Nat.id in Hget by lia.
    rewrite (cmd_bind_Some _ _ _ _ _ Hget). destruct (cmp x) eqn:Hcmp.
    + exists (Some (mid, x)). split; [done |]. split_and!; [lia | done | done].
    + apply IH; [lia | lia | lia |]. intros Hm. eapply excluded_below; eauto. lia.
    + apply IH; [lia | lia | lia |]. intros Hm. eapply excluded_above; eauto. lia.
  - exists None. split; [done |]. intros Hm x [i Hi]%list_elem_of_lookup.
    apply (Hex Hm i x Hi). lia.
Qed.

(** The whole table. *)
Lemma bsearch_table s xs :
  reads s xs -> Z.of_nat (length xs) <= 2 ^ 30 ->
  exists r, bsearch (Datatypes.S (length xs)) 0 (Z.of_nat (length xs) - 1) s = Some (r, s) /\
    search_result xs r.
Proof.
  intros Hr Hl. apply bsearch_run; [done | done | lia | lia | lia |]. intros _ i x Hx Hi.
  apply lookup_lt_Some in Hx. lia.
Qed.

End bsearch.

(** ** A table in an array *)

Section table.
Context {A : Type}.

Definition get_item (i : Z) : cmd (array_mem A) A :=
  a ← gets am_arr; read_item (item_addr a i).

(** The loop with [min = 0] and [max = item_num - 1]. *)
Definition bsearch_array (cmp : A -> comparison) : cmd (array_mem A) (option (Z * A)) :=
  a ← gets am_arr;
  bsearch get_item cmp (S (Z.to_nat (item_num a))) 0 (item_num a - 1).

Lemma reads_array s xs : array_rep s xs -> reads get_item s xs.
Proof.
  intros [] i x Hx. unfold get_item, read_item, gets_opt. unfold mbind, cmd_bind, gets.
  by rewrite (ar_items i x Hx).
Qed.

Lemma bsearch_array_run cmp s xs :
  array_rep s xs -> Z.of_nat (length xs) <= 2 ^ 30 ->
  exists r, bsearch_array cmp s = Some (r, s) /\ search_result cmp xs r.
Proof.
  intros Hrep Hl. unfold bsearch_array.
  erewrite (cmd_bind_Some (gets am_arr) _ _ (am_arr s)) by done. cbn beta.
  rewrite (ar_num _ _ Hrep), Nat2Z.id. by apply bsearch_table; [apply reads_array |].
Qed.

End table.
