(* ===== verification/ProcMaps.v ===== *)
(** * The iterator of [proc_info.c], as its callers use it

    [proc_maps] is an iterator with static variables, written once for Linux and
    once for FreeBSD.  The class [ProcMaps] is what the four builders of tables
    use of it, and [walks] what they rely on: from the state at rest the calls
    return the mappings, in order, then null, and the iterator is at rest
    again.  The instances are in [ProcInfo] and [FreeBSD]; a theorem about
    [while_maps] is about both. *)

From stdpp Require Import sorting.
From S2P Require Import Prelude CString.

(** What a call returns: the path, [*start], [*end] and [*exe_self]. *)
Record map_entry := mk_map { path : cstr; start : Z; end_ : Z; exe_self : bool }.

(** A command on the second component of the state. *)
Definition on_snd {S B A} (m : cmd B A) : cmd (S * B) A := fun s =>
  match m s.2 with Some (a, b) => Some (a, (s.1, b)) | None => None end.

Fixpoint for_entries {B} (f : map_entry -> cmd B (result unit)) (es : list map_entry) :
    cmd B (result unit) :=
  match es with
  | [] => mret (Ret tt)
  | e :: es => f e;;! for_entries f es
  end.

(** ** The loops over an iterator *)

Section walk.
Context {T : Type} (next : cmd T (result (option map_entry))).

(** [while ((path = proc_maps(...)) != NULL) body] *)
Fixpoint while_next {S} `{Lens S T} (fuel : nat) (body : map_entry -> cmd S (result unit)) :
    cmd S (result unit) :=
  match fuel with
  | O => undefined
  | Datatypes.S fuel =>
      e ←! zoom next;
      match e with
      | None => mret (Ret tt)
      | Some e => body e;;! while_next fuel body
      end
  end.

(** The calls return the entries, and then null. *)
Inductive yields : T -> list map_entry -> T -> Prop :=
  | yields_end st st' : next st = Some (Ret None, st') -> yields st [] st'
  | yields_entry st e st1 es st' :
      next st = Some (Ret (Some e), st1) -> yields st1 es st' -> yields st (e :: es) st'.

(** The first call does the same at both states. *)
Lemma yields_same st1 st2 es st' : next st1 = next st2 -> yields st2 es st' -> yields st1 es st'.
Proof.
  intros E Hy. destruct Hy as [st st' Hn | st e st3 es st' Hn Hy].
  - constructor. by rewrite E.
  - eapply yields_entry; [by rewrite E | done].
Qed.

Lemma while_next_run {B} (f : map_entry -> cmd B (result unit)) fuel st es st' b b' :
  yields st es st' -> (length es < fuel)%nat -> for_entries f es b = Some (Ret tt, b') ->
  while_next fuel (fun e => on_snd (f e)) (st, b) = Some (Ret tt, (st', b')).
Proof.
  intros Hy. revert fuel b. induction Hy as [st st' Hn | st e st1 es st' Hn _ IH]; intros fuel b Hf Hrun;
    (destruct fuel as [| fuel]; [simpl in Hf; lia |]); cbn [while_next length] in *.
  - injection Hrun as <-. by erewrite result_bind_Ret by (apply zoom_Some; exact Hn).
  - erewrite result_bind_Ret by (apply zoom_Some; exact Hn). cbn beta iota.
    cbn [for_entries] in Hrun. apply result_bind_inv in Hrun as (u & b1 & Hf1 & Hrun).
    erewrite result_bind_Ret; [apply (IH fuel b1); [lia | exact Hrun] |].
    unfold on_snd. cbn. by rewrite Hf1.
Qed.

(** A call that exits ends the loop. *)
Lemma while_next_exit {B} (f : map_entry -> cmd B (result unit)) fuel st st' c b :
  next st = Some (Exit c, st') -> (0 < fuel)%nat ->
  while_next fuel (fun e => on_snd (f e)) (st, b) = Some (Exit c, (st', b)).
Proof.
  intros E Hf. destruct fuel; [lia |]. cbn [while_next]. unfold result_bind.
  by erewrite cmd_bind_Some by (apply zoom_Some; exact E).
Qed.

End walk.

(** ** The interface *)

Class ProcMaps := {
  maps_st : Type;                                  (* the static variables *)
  maps_unused : maps_st;                           (* when the program starts *)
  next_map : cmd maps_st (result (option map_entry));
  walk_fuel : nat;
  at_rest : maps_st -> Prop                        (* no walk is going on *)
}.

Section interface.
Context {maps : ProcMaps}.

Definition while_maps {B} (f : map_entry -> cmd B (result unit)) : cmd (maps_st * B) (result unit) :=
  while_next next_map walk_fuel (fun e => on_snd (f e)).

(** A walk over the mappings [es]. *)
Record walks (es : list map_entry) : Prop := {
  wk_unused : at_rest maps_unused;
  wk_yields : forall st, at_rest st -> exists st', yields next_map st es st' /\ at_rest st';
  wk_fuel : (length es < walk_fuel)%nat
}.

Lemma while_maps_run {B} es (f : map_entry -> cmd B (result unit)) st b b' :
  walks es -> at_rest st -> for_entries f es b = Some (Ret tt, b') ->
  exists st', while_maps f (st, b) = Some (Ret tt, (st', b')) /\ at_rest st'.
Proof.
  intros [_ Hy Hf] Hst Hrun. destruct (Hy st Hst) as (st' & Hst' & Hrest).
  exists st'. split; [by eapply while_next_run | done].
Qed.

End interface.

(** ** Mappings in the order of their addresses *)

Definition entries_ordered (es : list map_entry) : Prop :=
  StronglySorted (fun e e' => end_ e <= start e') es /\ Forall (fun e => start e <= end_ e) es.

(** The mappings of a kernel's list, by their bounds. *)
Lemma entries_ordered_omap {A} (first last : A -> Z) (f : A -> option map_entry) l :
  (forall x e, f x = Some e -> start e = first x /\ end_ e = last x) ->
  StronglySorted (fun x y => last x <= first y) l -> Forall (fun x => first x <= last x) l ->
  entries_ordered (omap f l).
Proof.
  intros Hf Hs Hle. split.
  - eapply StronglySorted_omap; [| exact Hs]. intros x y x' y' Hxy Hx Hy.
    destruct (Hf _ _ Hx) as [_ ->], (Hf _ _ Hy) as [-> _]. done.
  - apply Forall_forall. intros e (x & Hx & E)%list_elem_of_omap. destruct (Hf _ _ E) as [-> ->].
    rewrite Forall_forall in Hle. by apply Hle.
Qed.
