(* ===== verification/ProcInfo.v ===== *)
(** * [proc_info.c]: the mappings and the threads of the target, on Linux

    [proc_maps] is an iterator: it keeps the open file in a static variable,
    and a call returns the next executable mapping of a file, or null at the
    end.  [proc_tasks] is the same over a directory.  What the kernel shows at
    the moment of the call is an argument: the text of [/proc/pid/maps], the
    link [/proc/pid/exe], the names in [/proc/pid/task]; [None] is an error.

    [proc_maps_walk] says what a loop over the whole iterator sees, for a text
    that is printed as the kernel prints it. *)

From stdpp Require Import sorting.
From S2P Require Import Prelude CString ProcMaps.

Record proc_files := mk_proc_files {
  maps_text : option cstr;
  exe_link : option cstr
}.

(** The static variables of [proc_maps]: the rest of the open file. *)
Record maps_state := mk_maps_state { filp : option cstr; exe_name : cstr }.

(** "%zx-%zx %s %x %x:%x %d %s %s" *)
Definition maps_format : list directive :=
  [DX 64; DChar "-"%char; DX 64; DSpace; DS 5; DSpace; DX 32; DSpace; DX 32; DChar ":"%char; DX 32;
   DSpace; DD 32; DSpace; DS 1024; DSpace; DS 100].

(** The body of the loop over the lines; [None] goes on. *)
Definition maps_line (exe : cstr) (line : cstr) : option (option map_entry) :=
  fs ← sscanf maps_format line;
  Some match fs with
  | [FNum st; FNum en; FStr perms; FNum _; FNum _; FNum _; FNum _; FStr p] =>
      if bool_decide (perms !! 2%nat = Some "x"%char) && bool_decide (head p = Some "/"%char)
      then Some (mk_map p st en (bool_decide (p = exe)))
      else None
  | _ => None
  end.

Fixpoint maps_loop (fuel : nat) : cmd maps_state (option map_entry) :=
  match fuel with
  | O => undefined
  | S fuel =>
      f ← gets_opt filp;
      exe ← gets exe_name;
      match fgets 1024 f with
      | None => put_state (mk_maps_state None exe);; mret None      (* fclose *)
      | Some (line, rest) =>
          put_state (mk_maps_state (Some rest) exe);;
          e ← gets_opt (fun _ => maps_line exe line);
          match e with
          | Some e => mret (Some e)
          | None => maps_loop fuel
          end
      end
  end.

Definition proc_maps (files : proc_files) : cmd maps_state (result (option map_entry)) :=
  f ← gets filp;
  o ← (match f with
       | Some _ => mret (Ret tt)
       | None =>
           match maps_text files with
           | None => mret (Exit 3)
           | Some text =>
               match exe_link files with
               | None => exe ← gets exe_name; put_state (mk_maps_state (Some text) exe);; mret (Exit 3)
               | Some exe =>
                   (* readlink fills up to 1024 characters; the null character is behind them *)
                   if decide (length (take 1024 exe) < 1024)%nat
                   then put_state (mk_maps_state (Some text) (take 1024 exe));; mret (Ret tt)
                   else undefined
               end
           end
       end);
  match o with
  | Exit c => mret (Exit c)
  | Ret tt =>
      f ← gets_opt filp;
      e ← maps_loop (S (length f));
      mret (Ret e)
  end.

(** The entries of a text, line by line. *)
Fixpoint entries (fuel : nat) (exe text : cstr) : option (list map_entry) :=
  match fuel with
  | O => None
  | S fuel =>
      match fgets 1024 text with
      | None => Some []
      | Some (line, rest) =>
          e ← maps_line exe line;
          es ← entries fuel exe rest;
          Some (match e with Some e => e :: es | None => es end)
      end
  end.

Lemma entries_fuel fuel fuel' exe text es :
  (length text < fuel')%nat -> entries fuel exe text = Some es -> entries fuel' exe text = Some es.
Proof.
  revert fuel' text es. induction fuel as [| fuel IH]; intros fuel' text es Hf; [done |].
  destruct fuel' as [| fuel']; [lia |]. cbn [entries].
  destruct (fgets 1024 text) as [[line rest] |] eqn:E; [| done].
  apply fgets_shorter in E; [| lia].
  destruct (maps_line exe line) as [e |]; [| done]. simpl.
  destruct (entries fuel exe rest) as [es' |] eqn:E'; [| done].
  rewrite (IH fuel' rest es') by (done || lia). done.
Qed.

Lemma entries_cons fuel exe text line rest es :
  fgets 1024 text = Some (line, rest) -> entries (S fuel) exe text = Some es ->
  exists e es', maps_line exe line = Some e /\ entries fuel exe rest = Some es' /\
    es = match e with Some e => e :: es' | None => es' end.
Proof.
  intros E. cbn [entries]. rewrite E. destruct (maps_line exe line) as [e |]; [| done]. simpl.
  destruct (entries fuel exe rest) as [es' |] eqn:E'; [| done]. intros [= <-]. by exists e, es'.
Qed.

(** The loop stops at the next entry, or closes the file. *)
Lemma maps_loop_run fuel exe text es :
  (length text < fuel)%nat -> entries fuel exe text = Some es ->
  match es with
  | [] => maps_loop fuel (mk_maps_state (Some text) exe) = Some (None, mk_maps_state None exe)
  | e :: es => exists rest, (length rest < length text)%nat /\
      maps_loop fuel (mk_maps_state (Some text) exe) = Some (Some e, mk_maps_state (Some rest) exe) /\
      entries (S (length rest)) exe rest = Some es
  end.
Proof.
  revert text es. induction fuel as [| fuel IH]; intros text es Hf He; [done |].
  cbn [maps_loop]. unfold mbind, cmd_bind, gets_opt, gets, put_state, mret, cmd_ret. simpl.
  destruct (fgets 1024 text) as [[line rest] |] eqn:E.
  - destruct (entries_cons _ _ _ _ _ _ E He) as (e & es' & Hline & Hrest & ->).
    apply fgets_shorter in E; [| lia]. simpl. rewrite Hline. destruct e as [e |].
    + exists rest. split; [done |]. split; [done |]. exact (entries_fuel fuel (S (length rest)) _ _ _ (Nat.lt_succ_diag_r _) Hrest).
    + apply IH in Hrest; [| lia]. destruct es' as [| e es']; [exact Hrest |].
      destruct Hrest as (rest' & Hl & Hr). exists rest'. split; [lia |]. exact Hr.
  - cbn [entries] in He. rewrite E in He. injection He as <-. done.
Qed.

(** ** What the kernel prints

    [start-end perms offset major:minor inode path], the numbers with enough
    digits, and the path, of which there may be none, in words: a path with
    white space, or one that is deleted, has more than one. *)
Record vma := mk_vma {
  v_width : nat;                                   (* digits of the addresses *)
  v_start : Z; v_end : Z;
  v_perms : cstr;
  v_off_width : nat; v_offset : Z;
  v_major : Z; v_minor : Z;
  v_ino_width : nat; v_inode : Z;
  v_pad : nat;                                     (* blanks in front of the path *)
  v_words : list cstr
}.

Fixpoint join (words : list cstr) : cstr :=
  match words with
  | [] => []
  | [w] => w
  | w :: ws => w ++ " "%char :: join ws
  end.

Definition print_vma (v : vma) : cstr :=
  print_x (v_width v) (v_start v) ++ "-"%char :: print_x (v_width v) (v_end v) ++
  " "%char :: v_perms v ++ " "%char :: print_x (v_off_width v) (v_offset v) ++
  " "%char :: print_x 2 (v_major v) ++ ":"%char :: print_x 2 (v_minor v) ++
  " "%char :: print_d (v_ino_width v) (v_inode v) ++
  " "%char :: replicate (v_pad v) " "%char ++ join (v_words v) ++ ["010"%char].

Record vma_ok (v : vma) : Prop := {
  vo_width : (0 < v_width v <= 16)%nat;
  vo_start : 0 <= v_start v < 16 ^ Z.of_nat (v_width v);
  vo_end : 0 <= v_end v < 16 ^ Z.of_nat (v_width v);
  vo_perms : is_word (v_perms v) /\ length (v_perms v) = 4%nat;
  vo_offset : (0 < v_off_width v)%nat /\ 0 <= v_offset v < 16 ^ Z.of_nat (v_off_width v);
  vo_dev : 0 <= v_major v < 16 ^ 2 /\ 0 <= v_minor v < 16 ^ 2;
  vo_inode : (0 < v_ino_width v)%nat /\ 0 <= v_inode v < 10 ^ Z.of_nat (v_ino_width v);
  vo_words : Forall is_word (v_words v);
  vo_second : forall w, v_words v !! 1%nat = Some w -> (length w < 100)%nat;
  vo_length : (length (print_vma v) < 1024)%nat
}.

(** The entry of an executable mapping with a path of one word. *)
Definition visible (exe : cstr) (v : vma) : option map_entry :=
  match v_words v with
  | [p] =>
      if bool_decide (v_perms v !! 2%nat = Some "x"%char) && bool_decide (head p = Some "/"%char)
      then Some (mk_map p (v_start v) (v_end v) (bool_decide (p = exe)))
      else None
  | _ => None
  end.

Definition print_maps (vs : list vma) : cstr := concat (print_vma <$> vs).

(** ** Scanning a printed line *)

Lemma words_no_newline ws : Forall is_word ws -> "010"%char ∉ join ws.
Proof.
  intros Hws. induction Hws as [| w ws [_ Hw] Hws IH]; [by intros ?%elem_of_nil |].
  assert ("010"%char ∉ w) as Hn.
  { rewrite Forall_forall in Hw. intros Hin. by apply Hw in Hin. }
  destruct ws; cbn [join]; [done |]. rewrite not_elem_of_app, not_elem_of_cons. by split_and!.
Qed.

Lemma print_digits_chars char base w n (P : ascii -> Prop) :
  1 < base -> (forall d, 0 <= d < base -> P (char d)) -> Forall P (print_digits char base w n).
Proof.
  intros Hb Hc. induction w as [| w IH]; constructor; [| done]. apply Hc, Z.mod_pos_bound. lia.
Qed.

Lemma print_no_newline w n : ("010"%char ∉ print_x w n) /\ ("010"%char ∉ print_d w n).
Proof.
  split; intros Hin.
  - assert (Forall (fun c => c <> "010"%char) (print_x w n)) as HF.
    { apply print_digits_chars; [lia |]. intros d Hd E.
      destruct (hex_char_begins d Hd) as [Hs _]. by rewrite E in Hs. }
    rewrite Forall_forall in HF. by apply HF in Hin.
  - assert (Forall (fun c => c <> "010"%char) (print_d w n)) as HF.
    { apply print_digits_chars; [lia |]. intros d Hd E.
      destruct (dec_char_begins d Hd) as [Hs _]. by rewrite E in Hs. }
    rewrite Forall_forall in HF. by apply HF in Hin.
Qed.

(** A printed line has one newline, at its end. *)
Lemma print_vma_line v :
  vma_ok v -> exists l, print_vma v = l ++ ["010"%char] /\ "010"%char ∉ l.
Proof.
  intros []. unfold print_vma. eexists. split.
  - rewrite !app_assoc, !app_comm_cons, !app_assoc. reflexivity.
  - destruct vo_perms0 as [[_ Hp] _]. rewrite Forall_forall in Hp.
    assert ("010"%char ∉ v_perms v) by (intros Hin; by apply Hp in Hin).
    repeat first [rewrite not_elem_of_app | rewrite not_elem_of_cons]; split_and!;
      try (apply print_no_newline || by apply words_no_newline); try done; try set_solver.
    intros Hin%elem_of_replicate. by destruct Hin.
Qed.

(** The last two directives. *)
Lemma scan_words (n : nat) ws :
  Forall is_word ws -> (length (join ws) < 1024)%nat ->
  (forall w, ws !! 1%nat = Some w -> (length w < 100)%nat) ->
  sscanf [DSpace; DS 1024; DSpace; DS 100]
    (" "%char :: replicate n " "%char ++ join ws ++ ["010"%char]) =
  Some (FStr <$> take 2 ws).
Proof.
  intros Hws Hlen Hsec. cbn [sscanf]. change (" "%char :: ?s) with (replicate 1 " "%char ++ s) at 1.
  rewrite skip_spaces, skip_spaces. destruct (scan_skip (join ws ++ ["010"%char])) as (_ & _ & ->).
  destruct ws as [| w ws]; [done |]. apply Forall_cons in Hws as [Hw Hws].
  destruct ws as [| w2 ws].
  - cbn [join] in *. rewrite scan_s_word by done. rewrite decide_True by done. done.
  - change (join (w :: w2 :: ws)) with (w ++ " "%char :: join (w2 :: ws)) in *.
    rewrite length_app in Hlen. rewrite <- app_assoc, scan_s_word by done.
    rewrite decide_True by lia. apply Forall_cons in Hws as [Hw2 Hws].
    destruct (scan_skip ((" "%char :: join (w2 :: ws)) ++ ["010"%char])) as (_ & _ & E).
    rewrite E. clear E. specialize (Hsec w2 eq_refl).
    change ((" "%char :: ?s) ++ ?t) with (" "%char :: s ++ t).
    assert (forall s, scan_s (" "%char :: s) = scan_s s) as -> by done.
    assert (exists r, join (w2 :: ws) ++ ["010"%char] = w2 ++ r /\ ends_word r) as (r & -> & Hr).
    { destruct ws as [| w3 ws]; cbn [join]; [by eexists |]. rewrite <- app_assoc. by eexists. }
    rewrite scan_s_word by done. by rewrite decide_True by done.
Qed.

(** The side conditions of scanning what was printed. *)
Ltac side := first [done | lia | cbn [stops]; set_solver].

Lemma maps_line_print exe v : vma_ok v -> maps_line exe (print_vma v) = Some (visible exe v).
Proof.
  intros []. unfold maps_line.
  assert (sscanf maps_format (print_vma v) = Some (
    [FNum (v_start v); FNum (v_end v); FStr (v_perms v); FNum (v_offset v mod 2 ^ 32);
     FNum (v_major v); FNum (v_minor v);
     FNum ((v_inode v + 2 ^ 31) mod 2 ^ 32 - 2 ^ 31)] ++ (FStr <$> take 2 (v_words v)))) as ->.
  { assert (forall n, 0 <= n < 16 ^ Z.of_nat (v_width v) -> n mod 2 ^ 64 = n) as Hsmall.
    { intros n Hn. apply Z.mod_small. split; [lia |].
      assert (16 ^ Z.of_nat (v_width v) <= 16 ^ 16) by (apply Z.pow_le_mono_r; lia). lia. }
    assert (length (join (v_words v)) < 1024)%nat as Hjoin.
    { unfold print_vma in vo_length0. repeat first [rewrite length_app in vo_length0 | cbn [length] in vo_length0]. lia. }
    destruct vo_perms0 as [Hperms Hp4], vo_offset0 as [Hoff Hoff'], vo_dev0, vo_inode0.
    assert (forall s, scan_s (" "%char :: s) = scan_s s) as Hss by done.
    assert (forall s, scan_x (" "%char :: s) = scan_x s) as Hsx by done.
    assert (forall s, scan_d (" "%char :: s) = scan_d s) as Hsd by done.
    unfold maps_format, print_vma.
    cbn [sscanf]. rewrite scan_x_print by side. cbn [scan_char]. rewrite decide_True by done.
    rewrite scan_x_print by side. rewrite !Hsmall by done.
    rewrite (proj2 (proj2 (scan_skip _))), Hss, scan_s_word by done. rewrite decide_True by lia.
    rewrite (proj1 (scan_skip _)), Hsx, scan_x_print by side.
    rewrite (proj1 (scan_skip _)), Hsx, scan_x_print by side.
    cbn [scan_char]. rewrite decide_True by done. rewrite scan_x_print by side.
    rewrite (proj1 (proj2 (scan_skip _))), Hsd, scan_d_print by side.
    pose proof (scan_words (v_pad v) (v_words v) vo_words0 Hjoin vo_second0) as E.
    cbn [sscanf] in E. rewrite E. simpl.
    by rewrite (Z.mod_small (v_major v)), (Z.mod_small (v_minor v)) by lia. }
  simpl. unfold visible. destruct (v_words v) as [| p [| p2 ws]]; reflexivity.
Qed.

Lemma entries_print exe vs :
  Forall vma_ok vs ->
  entries (S (length (print_maps vs))) exe (print_maps vs) = Some (omap (visible exe) vs).
Proof.
  unfold print_maps. intros Hvs. induction Hvs as [| v vs Hv _ IH]; [done |].
  cbn [fmap list_fmap concat]. destruct (print_vma_line v Hv) as (l & El & Hl).
  assert (fgets 1024 (print_vma v ++ concat (print_vma <$> vs)) =
    Some (print_vma v, concat (print_vma <$> vs))) as Hg.
  { rewrite El, <- app_assoc. apply fgets_line; [done |].
    pose proof (vo_length _ Hv) as Hlen. rewrite El, length_app in Hlen. simpl in Hlen. lia. }
  assert (0 < length (print_vma v))%nat as Hpos by (rewrite El, length_app; simpl; lia).
  rewrite length_app. cbn [entries]. rewrite Hg, maps_line_print by done. simpl.
  eapply (entries_fuel _ (length (print_vma v) + length (concat (print_vma <$> vs)))) in IH; [| lia].
  rewrite IH. simpl. by destruct (visible exe v).
Qed.

(** ** A walk over the iterator *)

(** The file is open, with [es] still to come. *)
Definition maps_at (st : maps_state) (exe : cstr) (es : list map_entry) : Prop :=
  exists text, st = mk_maps_state (Some text) exe /\ entries (S (length text)) exe text = Some es.

Lemma proc_maps_open files st text exe es :
  filp st = None -> maps_text files = Some text -> exe_link files = Some exe ->
  (length exe < 1024)%nat -> entries (S (length text)) exe text = Some es ->
  exists st1, maps_at st1 exe es /\ proc_maps files st = proc_maps files st1.
Proof.
  intros Hf Ht He Hl Hes. exists (mk_maps_state (Some text) exe). split; [by exists text |].
  unfold proc_maps, mbind, cmd_bind, gets, put_state, mret, cmd_ret.
  rewrite Hf, Ht, He. simpl. rewrite take_ge by lia. by rewrite decide_True by lia.
Qed.

Lemma proc_maps_next files st exe es :
  maps_at st exe es ->
  match es with
  | [] => proc_maps files st = Some (Ret None, mk_maps_state None exe)
  | e :: es => exists st', proc_maps files st = Some (Ret (Some e), st') /\ maps_at st' exe es
  end.
Proof.
  intros (text & -> & Hes).
  pose proof (maps_loop_run (S (length text)) exe text es (Nat.lt_succ_diag_r _) Hes) as Hrun.
  unfold proc_maps, mbind, cmd_bind, gets, gets_opt, mret, cmd_ret.
  cbn [filp]. cbv beta iota. destruct es as [| e es].
  - by rewrite Hrun.
  - destruct Hrun as (rest & _ & Hrun & Hrest). rewrite Hrun. eexists. split; [done |]. by exists rest.
Qed.

(** From an open file, and from a closed one. *)
Lemma maps_yields files exe es st :
  maps_at st exe es -> yields (proc_maps files) st es (mk_maps_state None exe).
Proof.
  revert st. induction es as [| e es IH]; intros st Hat; pose proof (proc_maps_next files st exe _ Hat) as Hnext.
  - by constructor.
  - destruct Hnext as (st' & Hnext & Hat'). eapply yields_entry; [exact Hnext | by apply IH].
Qed.

Lemma length_omap_le {A B} (f : A -> option B) (l : list A) : (length (omap f l) <= length l)%nat.
Proof. induction l as [| x l IH]; [done |]. cbn. destruct (f x); simpl; lia. Qed.

Lemma entries_length fuel exe text es :
  entries fuel exe text = Some es -> (length es <= length text)%nat.
Proof.
  revert text es. induction fuel as [| fuel IH]; intros text es He; [done |].
  destruct (fgets 1024 text) as [[line rest] |] eqn:E.
  - destruct (entries_cons _ _ _ _ _ _ E He) as (e & es' & _ & Hrest & ->).
    apply fgets_shorter in E; [| lia]. apply IH in Hrest. destruct e; simpl; lia.
  - cbn [entries] in He. rewrite E in He. injection He as <-. simpl. lia.
Qed.

(** The kernel shows the mappings [vs], and the link to the program [exe]. *)
Record shown (files : proc_files) (vs : list vma) (exe : cstr) : Prop := {
  sh_text : maps_text files = Some (print_maps vs);
  sh_vmas : Forall vma_ok vs;
  sh_exe : exe_link files = Some exe;
  sh_length : (length exe < 1024)%nat
}.

Lemma shown_yields files vs exe st :
  shown files vs exe -> filp st = None ->
  yields (proc_maps files) st (omap (visible exe) vs) (mk_maps_state None exe).
Proof.
  intros [Ht Hvs He Hl] Hf. pose proof (entries_print exe vs Hvs) as Hes.
  destruct (proc_maps_open files st _ exe _ Hf Ht He Hl Hes) as (st' & Hat & E).
  eapply yields_same; [exact E | by apply maps_yields].
Qed.

(** ** The interface to the tables, on Linux *)

(** Enough iterations: there is a character or more for each entry. *)
Definition maps_fuel (files : proc_files) : nat := S (length (default [] (maps_text files))).

Definition linux_maps (files : proc_files) : ProcMaps := {|
  maps_st := maps_state;
  maps_unused := mk_maps_state None [];
  next_map := proc_maps files;
  walk_fuel := maps_fuel files;
  at_rest st := filp st = None
|}.

Lemma linux_walks files vs exe :
  shown files vs exe -> walks (maps := linux_maps files) (omap (visible exe) vs).
Proof.
  intros Hs. constructor; [done | |].
  - intros st Hf. eexists. split; [by apply shown_yields |]. done.
  - destruct Hs as [Ht Hvs _ _]. cbn [walk_fuel linux_maps]. unfold maps_fuel. rewrite Ht. simpl.
    pose proof (entries_length _ _ _ _ (entries_print exe vs Hvs)). lia.
Qed.

(** The kernel shows the mappings in the order of their addresses. *)
Definition vmas_ordered (vs : list vma) : Prop :=
  StronglySorted (fun v v' => v_end v <= v_start v') vs /\ Forall (fun v => v_start v <= v_end v) vs.

Lemma visible_bounds exe v e :
  visible exe v = Some e -> start e = v_start v /\ end_ e = v_end v /\ v_words v = [path e].
Proof. unfold visible. destruct (v_words v) as [| p [|]]; try done. case_match; [| done]. by intros [= <-]. Qed.

Lemma visible_ordered exe vs : vmas_ordered vs -> entries_ordered (omap (visible exe) vs).
Proof.
  intros [Hs Hle]. apply (entries_ordered_omap v_start v_end); [| done | done].
  intros v e Hv. by destruct (visible_bounds _ _ _ Hv) as (? & ? & _).
Qed.


Definition example_vmas : list vma :=
  [mk_vma 8 4194304 4243456 (lit "r-xp") 8 0 8 1 6 131104 4 [lit "/usr/bin/app"];
   mk_vma 8 6340608 6344704 (lit "rw-p") 8 45056 8 1 6 131104 4 [lit "/usr/bin/app"];
   mk_vma 12 140000000000 140000004096 (lit "r-xp") 8 0 8 1 6 131200 4 [lit "/lib/libc.so.6"];
   mk_vma 12 140000008192 140000012288 (lit "r-xp") 8 0 8 1 6 131201 4 [lit "/opt/my"; lit "plugin.so"];
   mk_vma 12 140000016384 140000020480 (lit "rw-p") 8 0 0 0 1 0 0 []].

Lemma example_vmas_ok : Forall vma_ok example_vmas.
Proof.
  repeat (apply Forall_cons; split); [.. | constructor]; constructor; simpl; try lia;
    try (by apply (bool_decide_unpack _)); try (by repeat constructor).
  all: intros w Hw; simplify_eq/=; lia.
Qed.

Definition example_files : proc_files :=
  mk_proc_files (Some (print_maps example_vmas)) (Some (lit "/usr/bin/app")).

Definition example_entries : list map_entry :=
  [mk_map (lit "/usr/bin/app") 4194304 4243456 true;
   mk_map (lit "/lib/libc.so.6") 140000000000 140000004096 false].

Lemma example_entries_eq : omap (visible (lit "/usr/bin/app")) example_vmas = example_entries.
Proof. reflexivity. Qed.

Lemma example_shown : shown example_files example_vmas (lit "/usr/bin/app").
Proof. constructor; [reflexivity | exact example_vmas_ok | reflexivity | simpl; lia]. Qed.

Lemma example_entries_ordered : entries_ordered example_entries.
Proof. split; repeat constructor; simpl; lia. Qed.


(** ** [proc_tasks] and [proc_task_check]

    The directory is the names in [/proc/pid/task]; [None] is an error. *)

(** [while ((e = readdir(dirp)) != NULL)] of [proc_tasks] *)
Fixpoint next_task (names : list cstr) : option (Z * list cstr) :=
  match names with
  | [] => None
  | n :: names =>
      let task_id := s32 (atoi n) in
      if negb (task_id =? 0) then Some (task_id, names) else next_task names
  end.

(** The state is the static variable [dirp]. *)
Definition proc_tasks (dir : option (list cstr)) : cmd (option (list cstr)) (result Z) :=
  dirp ← get_state;
  match (match dirp with Some d => Some d | None => dir end) with
  | None => mret (Exit 3)
  | Some names =>
      match next_task names with
      | Some (task_id, rest) => put_state (Some rest);; mret (Ret task_id)
      | None => put_state None;; mret (Ret 0)
      end
  end.

Definition proc_task_check (dir : option (list cstr)) (child : Z) : result Z :=
  match dir with
  | None => Exit 3
  | Some names => Ret (if existsb (fun n => s32 (atoi n) =? child) names then 1 else 0)
  end.
