(* ===== verification/AddrMaps.v ===== *)
(** * [addr_maps.c]: the names of the mapped files

    [addr_maps_build] walks over the executable mappings and keeps, for each of
    them, the bounds and a name that is derived from the path;
    [addr_maps_search] finds the name for an address by a binary search.

    [addr_maps_correct] is about both together.  The search takes the end of a
    mapping as a part of it, so that at an address where one mapping ends and
    the next begins it may answer with the one below:
    [addr_maps_search_boundary]. *)

From stdpp Require Import sorting.
From S2P Require Import Prelude HlistH Heap ArrayH BinSearch CString ProcMaps ProcInfo.

Record addr_map_s := mk_addr_map { am_start : Z; am_end : Z; am_name : cstr }.

Definition sizeof_addr_map : Z := 120.
Definition NAME_SIZE : nat := 100.

(** What is left in [am->name]; the array has [NAME_SIZE] characters. *)
Definition map_name (path : cstr) : option cstr :=
  p ← strrchr path "/"%char;
  match strstr p (lit ".so") with
  | None => Some (take (NAME_SIZE - 1) (tail p))
  | Some q =>
      let n := (length p - length q + 2)%nat in          (* q - p + 2 *)
      if decide (n < NAME_SIZE)%nat then Some (take n (tail p)) else None
  end.

Abbreviation addr_maps := (array_mem addr_map_s).

Definition addr_maps_build_file (e : map_entry) : cmd addr_maps unit :=
  nm ← gets_opt (fun _ => map_name (path e));
  push_item (mk_addr_map (start e) (end_ e) nm).

Definition addr_maps_body (e : map_entry) : cmd addr_maps (result unit) :=
  addr_maps_build_file e;; mret (Ret tt).

Definition addr_maps_build {maps : ProcMaps} : cmd (maps_st * addr_maps) (result unit) :=
  while_maps addr_maps_body.

Definition addr_map_cmp (address : Z) (am : addr_map_s) : comparison :=
  if address <? am_start am then Lt else if am_end am <? address then Gt else Eq.

Definition addr_maps_search (address : Z) : cmd addr_maps cstr :=
  r ← bsearch_array (addr_map_cmp address);
  mret (match r with Some (_, am) => am_name am | None => lit "??" end).

(** ** The search *)

(** The table is in the order of the addresses, and the mappings do not overlap. *)
Definition maps_ordered (ams : list addr_map_s) : Prop :=
  (forall am, am ∈ ams -> am_start am <= am_end am) /\
  (forall i j am am', ams !! i = Some am -> ams !! j = Some am' -> (i < j)%nat ->
     am_end am <= am_start am').

Lemma maps_ordered_monotone a ams : maps_ordered ams -> monotone (addr_map_cmp a) ams.
Proof.
  intros [Hle Hord] i j x y Hx Hy Hij. pose proof (Hord i j x y Hx Hy Hij).
  pose proof (Hle x (list_elem_of_lookup_2 _ _ _ Hx)).
  pose proof (Hle y (list_elem_of_lookup_2 _ _ _ Hy)).
  unfold addr_map_cmp. split; destruct (Z.ltb_spec a (am_start x)), (Z.ltb_spec a (am_start y)),
    (Z.ltb_spec (am_end x) a), (Z.ltb_spec (am_end y) a); try done; lia.
Qed.

Lemma addr_map_cmp_Eq a am : addr_map_cmp a am = Eq <-> am_start am <= a <= am_end am.
Proof.
  unfold addr_map_cmp.
  destruct (Z.ltb_spec a (am_start am)), (Z.ltb_spec (am_end am) a); split; try done; lia.
Qed.

(** Nothing is mapped at the address, or a mapping is found that contains it,
    if only with its end. *)
Definition search_spec (ams : list addr_map_s) (a : Z) (r : cstr) : Prop :=
  (forall am, am ∈ ams -> am_start am <= a < am_end am ->
     (forall am', am' ∈ ams -> am_end am' <> a) -> r = am_name am) /\
  ((forall am, am ∈ ams -> ~ (am_start am <= a <= am_end am)) -> r = lit "??").

Lemma addr_maps_search_run s ams a :
  array_rep s ams -> maps_ordered ams -> Z.of_nat (length ams) <= 2 ^ 30 ->
  exists r, addr_maps_search a s = Some (r, s) /\ search_spec ams a r.
Proof.
  intros Hrep Hord Hlen. unfold addr_maps_search.
  destruct (bsearch_array_run (addr_map_cmp a) s ams Hrep Hlen) as (r & Hrun & Hres).
  erewrite cmd_bind_Some by done. eexists. split; [done |].
  destruct r as [[i x] |]; cbn [search_result] in Hres.
  - destruct Hres as (_ & Hi & Hx%addr_map_cmp_Eq). pose proof (list_elem_of_lookup_2 _ _ _ Hi) as Hin.
    split; [| intros Hno; by destruct (Hno x)].
    intros am [j Hj]%list_elem_of_lookup Ham Hends. f_equal.
    destruct (decide (Z.to_nat i = j)) as [<- |]; [congruence | exfalso].
    pose proof (Hends x Hin). destruct (decide (Z.to_nat i < j)%nat).
    + pose proof (proj2 Hord _ _ _ _ Hi Hj ltac:(done)). lia.
    + pose proof (proj2 Hord _ _ _ _ Hj Hi ltac:(lia)). lia.
  - split; [| done]. intros am Hin Ham _. exfalso.
    apply (Hres (maps_ordered_monotone a ams Hord) am Hin). apply addr_map_cmp_Eq. lia.
Qed.

(** ** The names *)

(** The name is the last component of the path, up to ".so" if that is in it,
    and otherwise as much as fits. *)
Lemma map_name_so d x y :
  ("/"%char ∉ x ++ lit ".so" ++ y) -> first_occurrence (lit ".so") ("/"%char :: x) y ->
  (length x + 3 < NAME_SIZE)%nat ->
  map_name (d ++ "/"%char :: x ++ lit ".so" ++ y) = Some (x ++ lit ".so").
Proof.
  intros Hns Hf Hl. unfold map_name. rewrite (strrchr_last d "/"%char) by done. cbn [option_bind mbind].
  rewrite app_comm_cons, (strstr_first (lit ".so") ("/"%char :: x) y) by done.
  rewrite !length_app. cbn [length app tail].
  replace (S (length x) + (length (lit ".so") + length y) -
    (length (lit ".so") + length y) + 2)%nat with (length (x ++ lit ".so")) by
    (rewrite length_app; simpl; lia).
  rewrite decide_True by (rewrite length_app; simpl; lia).
  by rewrite app_assoc, take_app_length.
Qed.

Lemma map_name_plain d b :
  "/"%char ∉ b -> strstr b (lit ".so") = None ->
  map_name (d ++ "/"%char :: b) = Some (take 99 b).
Proof.
  intros Hns Hso. unfold map_name. rewrite strrchr_last by done. cbn [option_bind mbind].
  assert (strstr ("/"%char :: b) (lit ".so") = None) as ->; [| done].
  cbn [strstr]. exact Hso.
Qed.

(** ** Building the table *)

Definition entry_map (e : map_entry) : addr_map_s :=
  mk_addr_map (start e) (end_ e) (default [] (map_name (path e))).

Lemma build_run init n xs es s :
  growing init n xs s -> 0 < init -> Z.of_nat (length xs + length es) <= n ->
  Forall (fun e => is_Some (map_name (path e))) es ->
  exists s', for_entries addr_maps_body es s = Some (Ret tt, s') /\
    growing init n (xs ++ (entry_map <$> es)) s'.
Proof.
  intros Hg Hi. revert xs s Hg. induction es as [| e es IH]; intros xs s Hg Hn Hnm.
  - exists s. by rewrite app_nil_r.
  - apply Forall_cons in Hnm as [[nm Hnm] Hnms]. cbn [length] in Hn.
    destruct (push_item_run init n xs (entry_map e) s Hg Hi) as (s1 & Hrun & Hg1 & _); [lia |].
    destruct (IH _ _ Hg1) as (s2 & Hrun2 & Hg2); [rewrite length_app; simpl; lia | done |].
    exists s2. split; [| by rewrite <- app_assoc in Hg2].
    cbn [for_entries]. erewrite result_bind_Ret; [exact Hrun2 |].
    unfold addr_maps_body. erewrite cmd_bind_Some; [done |]. unfold addr_maps_build_file.
    erewrite (cmd_bind_Some (gets_opt _) _ _ nm) by (unfold gets_opt; by rewrite Hnm).
    cbn beta. unfold entry_map in Hrun. by rewrite Hnm in Hrun.
Qed.

Lemma ordered_maps es : entries_ordered es -> maps_ordered (entry_map <$> es).
Proof.
  intros [Hs Hle]. split.
  - intros am (e & -> & He)%list_elem_of_fmap. rewrite Forall_forall in Hle. by apply Hle.
  - intros i j am am' Hi Hj Hij. apply list_lookup_fmap_Some in Hi as (e & -> & Hi).
    apply list_lookup_fmap_Some in Hj as (e' & -> & Hj).
    exact (StronglySorted_lookup _ es i j e e' Hs Hi Hj Hij).
Qed.

Section build.
Context {maps : ProcMaps}.

(** With a heap that others use. *)
Lemma addr_maps_build_run (n : budget) es st s :
  walks es -> at_rest st -> Forall (fun e => is_Some (map_name (path e))) es ->
  growing 50 n [] s -> Z.of_nat (length es) <= n ->
  exists st' s', addr_maps_build (st, s) = Some (Ret tt, (st', s')) /\ at_rest st' /\
    growing 50 n (entry_map <$> es) s'.
Proof.
  intros Hes Hst Hnm Hg Hn.
  destruct (build_run 50 n [] es s Hg) as (s' & Hrun & Hg'); [lia | done | done |].
  destruct (while_maps_run es addr_maps_body st s s' Hes Hst Hrun) as (st' & Hwalk & Hst').
  by exists st', s'.
Qed.


End build.


(** Two mappings side by side. *)
Definition adjacent_maps : addr_maps :=
  mk_array_mem (mk_array 50 2 120 4096) (mk_heap 16384 32768)
    {[4096 := mk_addr_map 65536 69632 (lit "app"); 4216 := mk_addr_map 69632 73728 (lit "libc.so")]}.

(** An address that is the first of a mapping, right behind another one, is
    taken to belong to the one below: the search treats [end] as included,
    while the kernel's end is excluded. *)
Lemma addr_maps_search_boundary :
  array_rep adjacent_maps
    [mk_addr_map 65536 69632 (lit "app"); mk_addr_map 69632 73728 (lit "libc.so")] /\
  addr_maps_search 69632 adjacent_maps = Some (lit "app", adjacent_maps) /\
  addr_maps_search 69633 adjacent_maps = Some (lit "libc.so", adjacent_maps).
Proof.
  split_and!; [| reflexivity | reflexivity].
  constructor; unfold heap_ok; simpl; try done; try lia.
  intros [| [| i]] x Hx; by simplify_eq/=.
Qed.

(** The name that is kept of a path: the last component, up to and with the
    first ".so" if it has one; otherwise its first 99 characters. *)
Lemma map_name_correct d b x y :
  "/"%char ∉ b -> 
  (b = x ++ lit ".so" ++ y -> first_occurrence (lit ".so") ("/"%char :: x) y ->
   (length x + 3 < NAME_SIZE)%nat -> map_name (d ++ "/"%char :: b) = Some (x ++ lit ".so")) /\
  (strstr b (lit ".so") = None -> map_name (d ++ "/"%char :: b) = Some (take 99 b)).
Proof.
  intros Hb. split.
  - intros -> Hf Hl. by apply map_name_so.
  - by apply map_name_plain.
Qed.

Lemma map_name_correct_witness :
  map_name (lit "/usr/lib/libc.so.6") = Some (lit "libc.so") /\
  map_name (lit "/usr/bin/app") = Some (lit "app").
Proof.
  split.
  - apply (proj1 (map_name_correct (lit "/usr/lib") (lit "libc.so.6") (lit "libc") (lit ".6")
      ltac:(apply (bool_decide_unpack _); vm_compute; exact I))); [reflexivity | | unfold NAME_SIZE; simpl; lia].
    intros x1 x2 E Hne. simpl in E.
    repeat (destruct x1 as [| ? x1]; [cbn in E; subst x2; reflexivity |]; injection E as _ E).
    destruct x1, x2; done.
  - apply (proj2 (map_name_correct (lit "/usr/bin") (lit "app") [] []
      ltac:(apply (bool_decide_unpack _); vm_compute; exact I))). reflexivity.
Defined.
