(* ===== verification/Crc32.v ===== *)
(** * The CRC-32 of [debug_file.c]

    [gnu_debuglink_crc32] goes through a buffer byte by byte, with a table;
    [file_crc32] calls it for the chunks that [read] delivers.  The reference is
    the bitwise definition of the CRC with the polynomial 0xedb88320 (the
    reflected one), [crc32_spec]: [file_crc32_correct] says that the file's
    value is that of its bytes, wherever the chunks are cut. *)

From S2P Require Import Prelude.

Definition crc32_table : list Z :=
  [0x00000000; 0x77073096; 0xee0e612c; 0x990951ba; 0x076dc419;
   0x706af48f; 0xe963a535; 0x9e6495a3; 0x0edb8832; 0x79dcb8a4;
   0xe0d5e91e; 0x97d2d988; 0x09b64c2b; 0x7eb17cbd; 0xe7b82d07;
   0x90bf1d91; 0x1db71064; 0x6ab020f2; 0xf3b97148; 0x84be41de;
   0x1adad47d; 0x6ddde4eb; 0xf4d4b551; 0x83d385c7; 0x136c9856;
   0x646ba8c0; 0xfd62f97a; 0x8a65c9ec; 0x14015c4f; 0x63066cd9;
   0xfa0f3d63; 0x8d080df5; 0x3b6e20c8; 0x4c69105e; 0xd56041e4;
   0xa2677172; 0x3c03e4d1; 0x4b04d447; 0xd20d85fd; 0xa50ab56b;
   0x35b5a8fa; 0x42b2986c; 0xdbbbc9d6; 0xacbcf940; 0x32d86ce3;
   0x45df5c75; 0xdcd60dcf; 0xabd13d59; 0x26d930ac; 0x51de003a;
   0xc8d75180; 0xbfd06116; 0x21b4f4b5; 0x56b3c423; 0xcfba9599;
   0xb8bda50f; 0x2802b89e; 0x5f058808; 0xc60cd9b2; 0xb10be924;
   0x2f6f7c87; 0x58684c11; 0xc1611dab; 0xb6662d3d; 0x76dc4190;
   0x01db7106; 0x98d220bc; 0xefd5102a; 0x71b18589; 0x06b6b51f;
   0x9fbfe4a5; 0xe8b8d433; 0x7807c9a2; 0x0f00f934; 0x9609a88e;
   0xe10e9818; 0x7f6a0dbb; 0x086d3d2d; 0x91646c97; 0xe6635c01;
   0x6b6b51f4; 0x1c6c6162; 0x856530d8; 0xf262004e; 0x6c0695ed;
   0x1b01a57b; 0x8208f4c1; 0xf50fc457; 0x65b0d9c6; 0x12b7e950;
   0x8bbeb8ea; 0xfcb9887c; 0x62dd1ddf; 0x15da2d49; 0x8cd37cf3;
   0xfbd44c65; 0x4db26158; 0x3ab551ce; 0xa3bc0074; 0xd4bb30e2;
   0x4adfa541; 0x3dd895d7; 0xa4d1c46d; 0xd3d6f4fb; 0x4369e96a;
   0x346ed9fc; 0xad678846; 0xda60b8d0; 0x44042d73; 0x33031de5;
   0xaa0a4c5f; 0xdd0d7cc9; 0x5005713c; 0x270241aa; 0xbe0b1010;
   0xc90c2086; 0x5768b525; 0x206f85b3; 0xb966d409; 0xce61e49f;
   0x5edef90e; 0x29d9c998; 0xb0d09822; 0xc7d7a8b4; 0x59b33d17;
   0x2eb40d81; 0xb7bd5c3b; 0xc0ba6cad; 0xedb88320; 0x9abfb3b6;
   0x03b6e20c; 0x74b1d29a; 0xead54739; 0x9dd277af; 0x04db2615;
   0x73dc1683; 0xe3630b12; 0x94643b84; 0x0d6d6a3e; 0x7a6a5aa8;
   0xe40ecf0b; 0x9309ff9d; 0x0a00ae27; 0x7d079eb1; 0xf00f9344;
   0x8708a3d2; 0x1e01f268; 0x6906c2fe; 0xf762575d; 0x806567cb;
   0x196c3671; 0x6e6b06e7; 0xfed41b76; 0x89d32be0; 0x10da7a5a;
   0x67dd4acc; 0xf9b9df6f; 0x8ebeeff9; 0x17b7be43; 0x60b08ed5;
   0xd6d6a3e8; 0xa1d1937e; 0x38d8c2c4; 0x4fdff252; 0xd1bb67f1;
   0xa6bc5767; 0x3fb506dd; 0x48b2364b; 0xd80d2bda; 0xaf0a1b4c;
   0x36034af6; 0x41047a60; 0xdf60efc3; 0xa867df55; 0x316e8eef;
   0x4669be79; 0xcb61b38c; 0xbc66831a; 0x256fd2a0; 0x5268e236;
   0xcc0c7795; 0xbb0b4703; 0x220216b9; 0x5505262f; 0xc5ba3bbe;
   0xb2bd0b28; 0x2bb45a92; 0x5cb36a04; 0xc2d7ffa7; 0xb5d0cf31;
   0x2cd99e8b; 0x5bdeae1d; 0x9b64c2b0; 0xec63f226; 0x756aa39c;
   0x026d930a; 0x9c0906a9; 0xeb0e363f; 0x72076785; 0x05005713;
   0x95bf4a82; 0xe2b87a14; 0x7bb12bae; 0x0cb61b38; 0x92d28e9b;
   0xe5d5be0d; 0x7cdcefb7; 0x0bdbdf21; 0x86d3d2d4; 0xf1d4e242;
   0x68ddb3f8; 0x1fda836e; 0x81be16cd; 0xf6b9265b; 0x6fb077e1;
   0x18b74777; 0x88085ae6; 0xff0f6a70; 0x66063bca; 0x11010b5c;
   0x8f659eff; 0xf862ae69; 0x616bffd3; 0x166ccf45; 0xa00ae278;
   0xd70dd2ee; 0x4e048354; 0x3903b3c2; 0xa7672661; 0xd06016f7;
   0x4969474d; 0x3e6e77db; 0xaed16a4a; 0xd9d65adc; 0x40df0b66;
   0x37d83bf0; 0xa9bcae53; 0xdebb9ec5; 0x47b2cf7f; 0x30b5ffe9;
   0xbdbdf21c; 0xcabac28a; 0x53b39330; 0x24b4a3a6; 0xbad03605;
   0xcdd70693; 0x54de5729; 0x23d967bf; 0xb3667a2e; 0xc4614ab8;
   0x5d681b02; 0x2a6f2b94; 0xb40bbe37; 0xc30c8ea1; 0x5a05df1b;
   0x2d02ef8d].

(** One byte: [crc32_table[(crc ^ *buf) & 0xff] ^ (crc >> 8)] *)
Definition crc_step (crc byte : Z) : option Z :=
  t ← crc32_table !! Z.to_nat (Z.land (Z.lxor crc byte) 255);
  Some (Z.lxor t (Z.shiftr crc 8)).

(** [~crc & 0xffffffff] *)
Definition not32 (crc : Z) : Z := Z.land (Z.lnot crc) 0xffffffff.

Fixpoint crc_loop (crc : Z) (buf : list Z) : option Z :=
  match buf with
  | [] => Some crc
  | b :: buf => crc ← crc_step crc b; crc_loop crc buf
  end.

Definition gnu_debuglink_crc32 (crc : Z) (buf : list Z) : option Z :=
  not32 <$> crc_loop (not32 crc) buf.

(** [while ((rlen = read(fd, buffer, sizeof(buffer))) > 0)]; [chunks] are what
    the successive calls read. *)
Fixpoint crc_chunks (crc : Z) (chunks : list (list Z)) : option Z :=
  match chunks with
  | [] => Some crc
  | c :: chunks =>
      if decide (c = []) then Some crc
      else crc ← gnu_debuglink_crc32 crc c; crc_chunks crc chunks
  end.

(** [read] of a regular file: [size] bytes, or what is left. *)
Fixpoint read_chunks (fuel size : nat) (content : list Z) : list (list Z) :=
  match fuel with
  | O => []
  | S fuel => take size content :: read_chunks fuel size (drop size content)
  end.

Definition file_crc32 (content : list Z) : option Z :=
  crc_chunks 0 (read_chunks (S (length content)) 4096 content).

(** ** The reference *)

Definition poly : Z := 0xedb88320.

(** One bit. *)
Definition bit_step (c : Z) : Z :=
  if Z.odd c then Z.lxor (Z.shiftr c 1) poly else Z.shiftr c 1.

Definition byte_step (crc byte : Z) : Z := Nat.iter 8 bit_step (Z.lxor crc byte).

Definition crc32_spec (bytes : list Z) : Z :=
  Z.lxor (foldl byte_step 0xffffffff bytes) 0xffffffff.

(** *** The table *)

Lemma crc32_table_bits : crc32_table = (Nat.iter 8 bit_step) <$> seqZ 0 256.
Proof. vm_compute. reflexivity. Qed.

Lemma crc32_table_lookup i :
  0 <= i < 256 -> crc32_table !! Z.to_nat i = Some (Nat.iter 8 bit_step i).
Proof.
  intros Hi. rewrite crc32_table_bits, list_lookup_fmap, lookup_seqZ_lt by lia.
  simpl. by rewrite Z2Nat.id by lia.
Qed.

(** The high bits only shift. *)
Lemma bit_step_high l h : bit_step (Z.lxor l (Z.shiftl h 1)) = Z.lxor (bit_step l) h.
Proof.
  unfold bit_step. rewrite <- !Z.bit0_odd, Z.lxor_spec, Z.shiftl_spec_low, xorb_false_r by lia.
  rewrite Z.shiftr_lxor, Z.shiftr_shiftl_l, Z.shiftl_0_r by lia.
  destruct (Z.testbit l 0); [| done].
  by rewrite !Z.lxor_assoc, (Z.lxor_comm h poly).
Qed.

Lemma bit_steps_high n l h :
  Nat.iter n bit_step (Z.lxor l (Z.shiftl h (Z.of_nat n))) = Z.lxor (Nat.iter n bit_step l) h.
Proof.
  revert l h. induction n as [| n IH]; intros l h; [by rewrite Z.shiftl_0_r |].
  rewrite !Nat.iter_succ.
  replace (Z.shiftl h (Z.of_nat (S n))) with (Z.shiftl (Z.shiftl h 1) (Z.of_nat n))
    by (rewrite Z.shiftl_shiftl by lia; f_equal; lia).
  by rewrite IH, bit_step_high.
Qed.

Lemma split_low x n : 0 <= n -> x = Z.lxor (Z.land x (Z.ones n)) (Z.shiftl (Z.shiftr x n) n).
Proof.
  intros Hn. apply Z.bits_inj'. intros i Hi.
  rewrite Z.lxor_spec, Z.land_spec, Z.shiftl_spec, Z.testbit_ones_nonneg by lia.
  destruct (Z.ltb_spec i n).
  - rewrite (Z.testbit_neg_r (Z.shiftr x n) (i - n)) by lia. by rewrite andb_true_r, xorb_false_r.
  - rewrite Z.shiftr_spec by lia. rewrite andb_false_r, xorb_false_l. f_equal. lia.
Qed.

(** The table does a byte of the reference. *)
Lemma crc_step_spec crc byte :
  0 <= byte < 256 -> 0 <= crc -> crc_step crc byte = Some (byte_step crc byte).
Proof.
  intros Hb Hc. unfold crc_step, byte_step.
  assert (0 <= Z.land (Z.lxor crc byte) 255 < 256) as Hlow
    by (change 255 with (Z.ones 8); rewrite Z.land_ones by lia; apply Z.mod_pos_bound; lia).
  rewrite crc32_table_lookup by done. cbn [mbind option_bind]. f_equal.
  rewrite (split_low (Z.lxor crc byte) 8) at 2 by lia.
  change 8 with (Z.of_nat 8) at 3. rewrite bit_steps_high. change (Z.ones 8) with 255. f_equal.
  rewrite Z.shiftr_lxor, (Z.shiftr_div_pow2 byte) by lia.
  rewrite (Z.div_small byte) by lia. by rewrite Z.lxor_0_r.
Qed.

Lemma nonneg_bit_step c : 0 <= c -> 0 <= bit_step c.
Proof.
  intros Hc. unfold bit_step. assert (0 <= Z.shiftr c 1) by (by apply Z.shiftr_nonneg).
  destruct (Z.odd c); [| done]. apply Z.lxor_nonneg. unfold poly. lia.
Qed.

Lemma nonneg_byte_step c b : 0 <= c -> 0 <= b -> 0 <= byte_step c b.
Proof.
  intros Hc Hb. unfold byte_step. generalize 8%nat. intros n.
  induction n as [| n IH]; [by apply Z.lxor_nonneg |].
  rewrite Nat.iter_succ. by apply nonneg_bit_step.
Qed.

Definition is_byte (b : Z) : Prop := 0 <= b < 256.

Lemma crc_loop_spec crc buf :
  Forall is_byte buf -> 0 <= crc -> crc_loop crc buf = Some (foldl byte_step crc buf).
Proof.
  intros Hbuf. revert crc. induction Hbuf as [| b buf Hb _ IH]; intros crc Hc; [done |].
  cbn [crc_loop foldl]. rewrite crc_step_spec by done. cbn [mbind option_bind].
  apply IH. apply nonneg_byte_step; [done | apply Hb].
Qed.

(** *** The values fit in 32 bits *)

Lemma lxor_u32 a b : is_u32 a -> is_u32 b -> is_u32 (Z.lxor a b).
Proof.
  unfold is_u32. intros Ha Hb. rewrite <- (Z.mod_small a (2 ^ 32)), <- (Z.mod_small b (2 ^ 32)) by done.
  rewrite <- !Z.land_ones by lia. split; [apply Z.lxor_nonneg; rewrite !Z.land_nonneg; lia |].
  assert (Z.lxor (Z.land a (Z.ones 32)) (Z.land b (Z.ones 32)) =
    Z.land (Z.lxor a b) (Z.ones 32)) as ->.
  { apply Z.bits_inj'. intros i _. rewrite Z.lxor_spec, !Z.land_spec, Z.lxor_spec.
    by destruct (Z.testbit a i), (Z.testbit b i), (Z.testbit (Z.ones 32) i). }
  rewrite Z.land_ones by lia. apply Z.mod_pos_bound. lia.
Qed.

Lemma bit_step_u32 c : is_u32 c -> is_u32 (bit_step c).
Proof.
  intros Hc. unfold bit_step. assert (is_u32 (Z.shiftr c 1)) as Hs.
  { unfold is_u32 in *. rewrite Z.shiftr_div_pow2 by lia. split; [apply Z.div_pos; lia |].
    apply Z.div_lt_upper_bound; lia. }
  destruct (Z.odd c); [| done]. apply lxor_u32; [done |]. unfold is_u32, poly. lia.
Qed.

Lemma byte_step_u32 c b : is_u32 c -> is_byte b -> is_u32 (byte_step c b).
Proof.
  intros Hc Hb. unfold byte_step. generalize 8%nat. intros n.
  induction n as [| n IH].
  - apply lxor_u32; [done |]. unfold is_byte, is_u32 in *. lia.
  - rewrite Nat.iter_succ. by apply bit_step_u32.
Qed.

Lemma foldl_u32 buf c : Forall is_byte buf -> is_u32 c -> is_u32 (foldl byte_step c buf).
Proof.
  intros Hbuf. revert c. induction Hbuf as [| b buf Hb _ IH]; intros c Hc; [done |].
  cbn [foldl]. by apply IH, byte_step_u32.
Qed.

Lemma not32_lxor c : is_u32 c -> not32 c = Z.lxor c 0xffffffff.
Proof.
  intros Hc. unfold not32. change 0xffffffff with (Z.ones 32). apply Z.bits_inj'. intros i Hi.
  rewrite Z.land_spec, Z.lxor_spec, Z.lnot_spec, Z.testbit_ones_nonneg by lia.
  destruct (Z.ltb_spec i 32); [by destruct (Z.testbit c i) |].
  rewrite andb_false_r, xorb_false_r. symmetry.
  destruct (decide (c = 0)) as [-> |]; [apply Z.testbit_0_l |].
  apply Z.bits_above_log2; [apply Hc |]. unfold is_u32 in Hc.
  assert (Z.log2 c < 32) by (apply Z.log2_lt_pow2; lia). lia.
Qed.

(** *** Buffers and chunks *)

Lemma crc32_buffer bytes c buf :
  Forall is_byte buf -> is_u32 c -> c = Z.lxor (foldl byte_step 0xffffffff bytes) 0xffffffff ->
  Forall is_byte bytes ->
  gnu_debuglink_crc32 c buf = Some (Z.lxor (foldl byte_step 0xffffffff (bytes ++ buf)) 0xffffffff).
Proof.
  intros Hbuf Hc Hcc Hbytes. unfold gnu_debuglink_crc32.
  assert (is_u32 (foldl byte_step 0xffffffff bytes)) as Hf
    by (apply foldl_u32; [done | unfold is_u32; lia]).
  assert (not32 c = foldl byte_step 0xffffffff bytes) as ->.
  { rewrite not32_lxor, Hcc, Z.lxor_assoc, Z.lxor_nilpotent, Z.lxor_0_r by done. done. }
  rewrite crc_loop_spec by (done || apply Hf). cbn [fmap option_fmap option_map].
  rewrite foldl_app. f_equal. apply not32_lxor. by apply foldl_u32.
Qed.

Lemma crc_chunks_spec chunks bytes :
  Forall is_byte bytes -> Forall (Forall is_byte) chunks ->
  exists n, crc_chunks (crc32_spec bytes) chunks = Some (crc32_spec (bytes ++ concat (take n chunks))) /\
    (n = length chunks \/ chunks !! n = Some []).
Proof.
  intros Hb Hc. revert bytes Hb. induction Hc as [| c chunks Hc _ IH]; intros bytes Hb.
  - exists O. simpl. split; [by rewrite app_nil_r | by left].
  - cbn [crc_chunks]. destruct (decide (c = [])) as [-> |].
    + exists O. simpl. split; [by rewrite app_nil_r | by right].
    + assert (is_u32 0xffffffff) as H32 by (unfold is_u32; lia).
      assert (is_u32 (crc32_spec bytes)) as Hu by (apply lxor_u32; [by apply foldl_u32 | done]).
      rewrite (crc32_buffer bytes) by done.
      cbn [mbind option_bind]. destruct (IH (bytes ++ c)) as (k & Hrun & Hk); [by apply Forall_app |].
      exists (S k). cbn [take concat]. unfold crc32_spec in *. rewrite Hrun, <- app_assoc. split; [done |].
      destruct Hk as [-> | Hk]; [by left | by right].
Qed.

Lemma read_chunks_nil fuel size n : concat (take n (read_chunks fuel size [])) = [].
Proof.
  revert n. induction fuel as [| fuel IH]; intros n; [by destruct n |].
  destruct n as [| n]; [done |]. cbn [read_chunks take concat]. by rewrite take_nil, drop_nil, IH.
Qed.

Lemma read_chunks_concat fuel size content n :
  (0 < size)%nat -> (length content < fuel)%nat ->
  n = length (read_chunks fuel size content) \/ read_chunks fuel size content !! n = Some [] ->
  concat (take n (read_chunks fuel size content)) = content.
Proof.
  intros Hs. revert content n. induction fuel as [| fuel IH]; intros content n Hf Hn; [lia |].
  destruct content as [| b content]; [apply read_chunks_nil |]. cbn [read_chunks] in *.
  destruct n as [| n].
  - destruct Hn as [Hn | Hn]; [by simpl in Hn |]. destruct size; [lia | done].
  - cbn [take concat]. rewrite IH; [apply take_drop | rewrite length_drop; simpl in *; lia |].
    destruct Hn as [Hn | Hn]; [left; simpl in Hn; lia | by right].
Qed.

Lemma Forall_chunks fuel size content :
  Forall is_byte content -> Forall (Forall is_byte) (read_chunks fuel size content).
Proof.
  revert content. induction fuel as [| fuel IH]; intros content Hc; constructor.
  - by apply Forall_take.
  - apply IH. by apply Forall_drop.
Qed.

(** C28: [file_crc32] of a file is the CRC-32 of its bytes: the table agrees with
    the polynomial, and the partial results that are carried from one 4096-byte
    chunk to the next make the chunks invisible. *)
Theorem file_crc32_correct content :
  Forall is_byte content -> file_crc32 content = Some (crc32_spec content).
Proof.
  intros Hc. unfold file_crc32.
  destruct (crc_chunks_spec (read_chunks (S (length content)) 4096 content) [])
    as (n & Hrun & Hn); [done | by apply Forall_chunks |].
  change (crc32_spec []) with 0 in Hrun. rewrite Hrun. cbn [app].
  rewrite read_chunks_concat; [done | lia | lia |]. exact Hn.
Qed.

(** "123456789", whose CRC-32 is the known 0xcbf43926. *)
Lemma file_crc32_correct_witness :
  file_crc32 [49; 50; 51; 52; 53; 54; 55; 56; 57] = Some 0xcbf43926.
Proof.
  rewrite (file_crc32_correct [49; 50; 51; 52; 53; 54; 55; 56; 57]); [reflexivity |].
  repeat (apply Forall_cons; split); [.. | constructor]; unfold is_byte; lia.
Defined.
