(* ===== verification/DebugFile.v ===== *)
(** * [debug_file.c]: which files to try for debug information

    For a mapped file, [debug_try_init] notes its build-id and its debug link,
    and each call of [debug_try_get] returns the next file to look into, or
    null when there is none left: the file that the user gave, the file itself,
    and the separate debug files at the usual places, if they are there and
    belong to it.  The function is a switch over a static index, each case
    going on to the next one.

    What libelf finds in a file is a value, [elf_file]; the file system is a
    function from paths.  [debug_try_sequence] says what a caller gets who
    calls [debug_try_get] to the end. *)

From S2P Require Import Prelude HashH CString ProcMaps ProcInfo Crc32.

(** ** Files *)

(** A symbol as [gelf_getsym] delivers it, the name by [elf_strptr]. *)
Record elf_sym := mk_elf_sym {
  st_name : option cstr;
  st_value : Z; st_size : Z; st_shndx : Z; st_info : Z
}.

(** A section; [None] is where libelf returns null. *)
Record elf_section := mk_section {
  sh_name : cstr;
  sh_type : option Z;
  d_data : option (list Z);
  sec_syms : list elf_sym
}.

Record elf_phdr := mk_phdr { p_type : Z; p_vaddr : Z }.

(** [e_type] is [None] when [gelf_getehdr] fails: the file is no ELF file. *)
Record elf_file := mk_elf {
  e_type : option Z; phdrs : list elf_phdr; sections : list elf_section
}.

(** [f_elf] is [None] when [elf_begin] fails. *)
Record file := mk_file { f_content : list Z; f_elf : option elf_file }.

(** ** Sections *)

(** The data of the first section with the name, [None] for -1; a section
    without data is undefined. *)
Fixpoint find_section (name : cstr) (out_size : nat) (secs : list elf_section) :
    option (option (list Z)) :=
  match secs with
  | [] => Some None
  | s :: secs =>
      match sh_type s with
      | None => Some None
      | Some _ =>
          if decide (sh_name s = name) then
            data ← d_data s;
            Some (if decide (out_size < length data)%nat then None else Some data)
          else find_section name out_size secs
      end
  end.

Definition elf_section_data (elf : option elf_file) (name : cstr) (out_size : nat) :
    option (option (list Z)) :=
  match elf with
  | None => Some None
  | Some e =>
      match e_type e with
      | None => Some None
      | Some _ => find_section name out_size (sections e)
      end
  end.

Definition BUFFER_SIZE : nat := 1000.
Definition BUILD_ID_SIZE : nat := 100.

(** A [uint32_t] in the buffer; what the section did not fill is not read. *)
Definition u32_at (data : list Z) (off : nat) : option Z :=
  match take 4 (drop off data) with
  | [b0; b1; b2; b3] => Some (le32 b0 b1 b2 b3)
  | _ => None
  end.

(** The build-id; the empty one for a length of 0.  [memcpy] copies as many
    bytes as the note says: more than the array has, or than the section has,
    is undefined. *)
Definition elf_build_id (elf : option elf_file) : option (list Z) :=
  data ← elf_section_data elf (lit ".note.gnu.build-id") BUFFER_SIZE;
  match data with
  | None => Some []
  | Some data =>
      n ← u32_at data 4;
      let buildid_len := Z.to_nat n in
      if decide (buildid_len <= BUILD_ID_SIZE /\ 16 + buildid_len <= length data)%nat
      then Some (take buildid_len (drop 16 data)) else None
  end.

Definition char_of (b : Z) : ascii := ascii_of_nat (Z.to_nat b).

(** [strcpy] from the buffer; without a null character it is undefined. *)
Fixpoint c_string (data : list Z) : option cstr :=
  match data with
  | [] => None
  | b :: data => if b =? 0 then Some [] else s ← c_string data; Some (char_of b :: s)
  end.

(** The CRC and, when there is the section, the name. *)
Definition elf_debug_link (elf : option elf_file) : option (Z * option cstr) :=
  data ← elf_section_data elf (lit ".gnu_debuglink") BUFFER_SIZE;
  match data with
  | None => Some (0, None)
  | Some data =>
      fname ← c_string data;
      crc ← u32_at data (Z.to_nat (Z.land (Z.of_nat (length fname) + 4) 0xfffffffc));
      Some (crc, Some fname)
  end.

(** ** The static variables *)

Inductive debug_msg :=
  | MsgUnmatchBuildId (debug_path path : cstr)
  | MsgUnmatchCrc32 (debug_path path : cstr)
  | MsgWithoutChecking (debug_path path : cstr)
  | MsgInvalidFile (debug_path : cstr)
  | MsgNoSymbols (path : cstr)             (* printed by [symtab_build] *)
  | MsgNoDebugLine (path : cstr).          (* printed by [debug_line_build] *)

Record debug_state := mk_debug {
  g_path : cstr;
  g_dir : cstr;
  g_index : Z;
  g_exe_self : bool;
  g_build_id : list Z;                     (* g_buildid_len is its length *)
  g_debug_fname : cstr;
  g_debug_crc32 : Z;
  dbg_out : list debug_msg
}.

Section debug.
Context (open_file : cstr -> option file).
Context (opt_debug_info_file : option cstr).

Definition print_debug (m : debug_msg) : cmd debug_state unit := modify (fun s =>
  mk_debug (g_path s) (g_dir s) (g_index s) (g_exe_self s) (g_build_id s) (g_debug_fname s)
    (g_debug_crc32 s) (dbg_out s ++ [m])).

Definition set_index (n : Z) : cmd debug_state unit := modify (fun s =>
  mk_debug (g_path s) (g_dir s) n (g_exe_self s) (g_build_id s) (g_debug_fname s)
    (g_debug_crc32 s) (dbg_out s)).

Definition debug_valid (debug_path : cstr) : cmd debug_state bool :=
  s ← get_state;
  match open_file debug_path with
  | None => mret false
  | Some f =>
      if negb (length (g_build_id s) =? 0)%nat then
        bid ← gets_opt (fun _ => elf_build_id (f_elf f));
        if bool_decide (bid = g_build_id s) then mret true
        else print_debug (MsgUnmatchBuildId debug_path (g_path s));; mret false
      else if negb (g_debug_crc32 s =? 0) then
        crc ← gets_opt (fun _ => file_crc32 (f_content f));
        if crc =? g_debug_crc32 s then mret true
        else print_debug (MsgUnmatchCrc32 debug_path (g_path s));; mret false
      else print_debug (MsgWithoutChecking debug_path (g_path s));; mret true
  end.

Definition PATH_SIZE : nat := 1024.
Definition DEBUG_PATH_SIZE : nat := 2048.

(** [path] has a slash, and fits in [g_path]. *)
Definition debug_try_init (path : cstr) (exe_self : bool) : cmd debug_state unit :=
  p ← gets_opt (fun _ => strrchr path "/"%char);
  let dir := take (length path - length p) path in           (* p - path *)
  let elf := open_file path ≫= f_elf in
  bid ← gets_opt (fun _ => elf_build_id elf);
  '(crc, link) ← gets_opt (fun _ => elf_debug_link elf);
  s ← get_state;
  let fname := if crc =? 0 then tail p ++ lit ".debug" else default (g_debug_fname s) link in
  if decide (length path < PATH_SIZE /\ length fname < PATH_SIZE)%nat then
    put_state (mk_debug path dir 0 exe_self bid fname crc (dbg_out s))
  else undefined.

(** A [sprintf] to [debug_path]. *)
Definition sprintf_path (p : cstr) : cmd debug_state cstr :=
  if decide (length p < DEBUG_PATH_SIZE)%nat then mret p else undefined.

(** One case: the index goes on, the file is returned if it is valid, and
    otherwise the next case follows. *)
Definition try_path (index : Z) (p : debug_state -> cstr)
    (next : cmd debug_state (result (option cstr))) : cmd debug_state (result (option cstr)) :=
  set_index index;;
  debug_path ← gets p;
  debug_path ← sprintf_path debug_path;
  valid ← debug_valid debug_path;
  if valid : bool then mret (Ret (Some debug_path)) else next.

Definition build_id_path (bid : list Z) : cstr :=
  lit "/usr/lib/debug/.build-id/" ++
  match bid with
  | [] => []
  | b :: bid => print_x 2 b ++ "/"%char :: concat (print_x 2 <$> bid)
  end ++ lit ".debug".

Definition dir_path (s : debug_state) : cstr := g_dir s ++ "/"%char :: g_debug_fname s.
Definition dot_debug_path (s : debug_state) : cstr :=
  g_dir s ++ lit "/.debug/" ++ g_debug_fname s.
Definition usr_lib_path (s : debug_state) : cstr :=
  lit "/usr/lib/debug" ++ g_dir s ++ "/"%char :: g_debug_fname s.

Definition case5 : cmd debug_state (result (option cstr)) :=
  try_path 6 usr_lib_path (mret (Ret None)).
Definition case4 := try_path 5 dot_debug_path case5.
Definition case3 := try_path 4 dir_path case4.
Definition case2 : cmd debug_state (result (option cstr)) :=
  set_index 3;;
  s ← get_state;
  if negb (length (g_build_id s) =? 0)%nat then
    debug_path ← sprintf_path (build_id_path (g_build_id s));
    valid ← debug_valid debug_path;
    if valid : bool then mret (Ret (Some debug_path)) else case3
  else case3.
Definition case1 : cmd debug_state (result (option cstr)) :=
  set_index 2;; p ← gets g_path; mret (Ret (Some p)).
Definition case0 : cmd debug_state (result (option cstr)) :=
  set_index 1;;
  self ← gets g_exe_self;
  match opt_debug_info_file with
  | Some f =>
      if self : bool then
        valid ← debug_valid f;
        if valid : bool then mret (Ret (Some f))
        else print_debug (MsgInvalidFile f);; mret (Exit 4)
      else case1
  | None => case1
  end.

Definition debug_try_get : cmd debug_state (result (option cstr)) :=
  i ← gets g_index;
  match i with
  | 0 => case0
  | 1 => case1
  | 2 => case2
  | 3 => case3
  | 4 => case4
  | 5 => case5
  | _ => mret (Ret None)
  end.

(** ** The sequence of the files *)

(** What [debug_valid] returns, as a function. *)
Definition valid (s : debug_state) (p : cstr) : option bool :=
  match open_file p with
  | None => Some false
  | Some f =>
      if negb (length (g_build_id s) =? 0)%nat then
        bid ← elf_build_id (f_elf f); Some (bool_decide (bid = g_build_id s))
      else if negb (g_debug_crc32 s =? 0) then
        crc ← file_crc32 (f_content f); Some (crc =? g_debug_crc32 s)
      else Some true
  end.

Definition is_valid (s : debug_state) (p : cstr) : bool := default false (valid s p).

(** The places for separate files, in order. *)
Definition separate_files (s : debug_state) : list cstr :=
  (if (length (g_build_id s) =? 0)%nat then [] else [build_id_path (g_build_id s)]) ++
  [dir_path s; dot_debug_path s; usr_lib_path s].

(** The user's file, when it is for this one. *)
Definition user_file (s : debug_state) : list cstr :=
  match opt_debug_info_file with Some f => if g_exe_self s then [f] else [] | None => [] end.

Definition valid_files (s : debug_state) (l : list cstr) : list cstr :=
  filter (fun p => is_valid s p = true) l.

Lemma valid_files_cons s p l b :
  valid s p = Some b ->
  valid_files s (p :: l) = if b then p :: valid_files s l else valid_files s l.
Proof.
  intros Hb. assert (is_valid s p = b) as E by (unfold is_valid; by rewrite Hb).
  unfold valid_files. rewrite filter_cons. destruct b; [by rewrite decide_True | by rewrite decide_False by congruence].
Qed.

(** What the calls return from the index [i] on. *)
Definition to_come (s : debug_state) (i : Z) : list cstr :=
  match i with
  | 0 => user_file s ++ g_path s :: valid_files s (separate_files s)
  | 1 => g_path s :: valid_files s (separate_files s)
  | 2 => valid_files s (separate_files s)
  | 3 => valid_files s [dir_path s; dot_debug_path s; usr_lib_path s]
  | 4 => valid_files s [dot_debug_path s; usr_lib_path s]
  | 5 => valid_files s [usr_lib_path s]
  | _ => []
  end.

(** The same file, in a later state of the iteration. *)
Definition same_file (s s' : debug_state) : Prop :=
  g_path s' = g_path s /\ g_dir s' = g_dir s /\ g_exe_self s' = g_exe_self s /\
  g_build_id s' = g_build_id s /\ g_debug_fname s' = g_debug_fname s /\
  g_debug_crc32 s' = g_debug_crc32 s.

(** The files that are there are not malformed, the paths fit, and the user's
    file, if it is for this one, is valid. *)
Record try_ok (s : debug_state) : Prop := {
  to_valid : forall p, p ∈ user_file s ++ separate_files s -> is_Some (valid s p);
  to_length : forall p, p ∈ separate_files s -> (length p < DEBUG_PATH_SIZE)%nat;
  to_user : forall p, p ∈ user_file s -> is_valid s p = true
}.

Lemma same_valid s s' : same_file s s' -> forall p, valid s' p = valid s p.
Proof. intros (_ & _ & _ & E4 & _ & E6) p. unfold valid. by rewrite E4, E6. Qed.

Lemma same_paths s s' :
  same_file s s' -> g_path s' = g_path s /\ dir_path s' = dir_path s /\
    dot_debug_path s' = dot_debug_path s /\ usr_lib_path s' = usr_lib_path s /\
    separate_files s' = separate_files s /\ user_file s' = user_file s.
Proof.
  intros (E1 & E2 & E3 & E4 & E5 & E6). unfold separate_files, user_file, dir_path,
    dot_debug_path, usr_lib_path. by rewrite E1, E2, E3, E4, E5.
Qed.

Lemma same_valid_files s s' l : same_file s s' -> valid_files s' l = valid_files s l.
Proof.
  intros Hs. unfold valid_files, is_valid. apply list_filter_iff. intros p.
  by rewrite (same_valid s s' Hs).
Qed.

Lemma same_to_come s s' i : same_file s s' -> to_come s' i = to_come s i.
Proof.
  intros Hs. destruct (same_paths _ _ Hs) as (E1 & E2 & E3 & E4 & E5 & E6). unfold to_come.
  by rewrite E1, E2, E3, E4, E5, E6, !(same_valid_files s s').
Qed.

Lemma same_file_trans s s' s'' : same_file s s' -> same_file s' s'' -> same_file s s''.
Proof. intros (? & ? & ? & ? & ? & ?) (? & ? & ? & ? & ? & ?). split_and!; congruence. Qed.

Lemma try_ok_same s s' : same_file s s' -> try_ok s -> try_ok s'.
Proof.
  intros Hs []. destruct (same_paths _ _ Hs) as (_ & _ & _ & _ & Es & Eu).
  constructor; rewrite ?Es, ?Eu.
  - intros p Hp. rewrite (same_valid s s' Hs). by apply to_valid0.
  - done.
  - intros p Hp. unfold is_valid. rewrite (same_valid s s' Hs). by apply to_user0.
Qed.

Lemma debug_valid_run s p b :
  valid s p = Some b ->
  exists s', debug_valid p s = Some (b, s') /\ same_file s s' /\ g_index s' = g_index s.
Proof.
  unfold valid, debug_valid. intros Hv. erewrite (cmd_bind_Some get_state) by done. cbn beta.
  destruct (open_file p) as [f |]; [| injection Hv as <-; by exists s].
  destruct (negb (length _ =? 0)%nat).
  - apply bind_Some in Hv as (bid & Hbid & [= <-]).
    erewrite (cmd_bind_Some (gets_opt _) _ _ bid) by (unfold gets_opt; by rewrite Hbid). cbn beta.
    case_bool_decide; [by exists s |]. by eexists.
  - destruct (negb _).
    + apply bind_Some in Hv as (crc & Hcrc & [= <-]).
      erewrite (cmd_bind_Some (gets_opt _) _ _ crc) by (unfold gets_opt; by rewrite Hcrc). cbn beta.
      destruct (crc =? _); [by exists s |]. by eexists.
    + injection Hv as <-. by eexists.
Qed.

(** The next call returns the first of [files], and leaves the rest to come. *)
Definition get_ok (s : debug_state) (m : cmd debug_state (result (option cstr)))
    (files : list cstr) : Prop :=
  exists s', same_file s s' /\ m s = Some (Ret (head files), s') /\
    to_come s (g_index s') = tail files.

(** The index is set first. *)
Lemma set_index_run n s : exists s', set_index n s = Some (tt, s') /\ same_file s s' /\ g_index s' = n.
Proof. by eexists. Qed.

Lemma try_valid_run s s1 p n next rest :
  try_ok s -> same_file s s1 -> g_index s1 = n -> p ∈ separate_files s ->
  to_come s n = valid_files s rest ->
  (forall s', same_file s s' -> g_index s' = n -> get_ok s' next (valid_files s rest)) ->
  get_ok s1 (debug_path ← sprintf_path p;
             v ← debug_valid debug_path;
             if v : bool then mret (Ret (Some debug_path)) else next)
    (valid_files s (p :: rest)).
Proof.
  intros Hok Hs Hn Hp Hcome Hnext.
  destruct (to_valid _ Hok p ltac:(set_solver)) as [b Hb].
  assert (valid s1 p = Some b) as Hb1 by by rewrite (same_valid s s1).
  destruct (debug_valid_run s1 p b Hb1) as (s2 & Hrun & Hs2 & Hi).
  unfold get_ok, sprintf_path. rewrite decide_True by by apply (to_length _ Hok).
  erewrite (cmd_bind_Some (mret p)) by done. cbn beta. erewrite cmd_bind_Some by done.
  rewrite (valid_files_cons s p rest b Hb). destruct b; simpl.
  - exists s2. split_and!; [done | done |]. rewrite Hi, Hn. rewrite <- Hcome. by apply same_to_come.
  - destruct (Hnext s2) as (s3 & Hs3 & Hrun3 & Hcome3);
      [by eapply same_file_trans | by rewrite Hi |].
    exists s3. split; [by eapply same_file_trans |]. split; [done |].
    rewrite <- Hcome3. symmetry. by apply same_to_come.
Qed.

Lemma try_path_run s s1 n p next rest :
  try_ok s -> same_file s s1 -> p s ∈ separate_files s -> p s1 = p s ->
  (forall s', same_file s s' -> p s' = p s) ->
  to_come s n = valid_files s rest ->
  (forall s', same_file s s' -> g_index s' = n -> get_ok s' next (valid_files s rest)) ->
  get_ok s1 (try_path n p next) (valid_files s (p s :: rest)).
Proof.
  intros Hok Hs Hp E1 Hps Hcome Hnext.
  destruct (set_index_run n s1) as (s2 & Hrun & Hs2 & Hn).
  assert (same_file s s2) as Hs' by by eapply same_file_trans.
  destruct (try_valid_run s s2 (p s) n next rest Hok Hs' Hn Hp Hcome Hnext)
    as (s3 & Hs3 & Hrun3 & Hcome3).
  exists s3. split; [by eapply same_file_trans |]. unfold try_path.
  erewrite (cmd_bind_Some (set_index n)) by exact Hrun.
  erewrite (cmd_bind_Some (gets p) _ _ (p s)) by (unfold gets; by rewrite Hps).
  split; [exact Hrun3 |]. rewrite <- Hcome3. symmetry. by apply same_to_come.
Qed.

Ltac in_separate := unfold separate_files; apply elem_of_app; right; set_solver.

Lemma case5_run s s1 :
  try_ok s -> same_file s s1 -> get_ok s1 case5 (valid_files s [usr_lib_path s]).
Proof.
  intros Hok Hs. apply try_path_run; [done | done | in_separate | by apply same_paths | by apply same_paths | done |].
  intros s' Hs' Hi. exists s'. split_and!; [done | done |]. by rewrite Hi.
Qed.

Lemma case4_run s s1 :
  try_ok s -> same_file s s1 -> get_ok s1 case4 (valid_files s [dot_debug_path s; usr_lib_path s]).
Proof.
  intros Hok Hs. apply try_path_run; [done | done | in_separate | by apply same_paths | by apply same_paths | done |].
  intros s' Hs' _. by apply case5_run.
Qed.

Lemma case3_run s s1 :
  try_ok s -> same_file s s1 ->
  get_ok s1 case3 (valid_files s [dir_path s; dot_debug_path s; usr_lib_path s]).
Proof.
  intros Hok Hs. apply try_path_run; [done | done | in_separate | by apply same_paths | by apply same_paths | done |].
  intros s' Hs' _. by apply case4_run.
Qed.

Lemma case2_run s s1 :
  try_ok s -> same_file s s1 -> get_ok s1 case2 (valid_files s (separate_files s)).
Proof.
  intros Hok Hs. destruct (set_index_run 3 s1) as (s2 & Hrun & Hs2 & Hn).
  assert (same_file s s2) as Hs' by by eapply same_file_trans.
  assert (g_build_id s2 = g_build_id s) as Ebid by by apply Hs'.
  assert (get_ok s2 (if negb (length (g_build_id s2) =? 0)%nat then
      debug_path ← sprintf_path (build_id_path (g_build_id s2));
      v ← debug_valid debug_path;
      if v : bool then mret (Ret (Some debug_path)) else case3 else case3)
    (valid_files s (separate_files s))) as (s3 & Hs3 & Hrun3 & Hcome3).
  { rewrite Ebid. unfold separate_files at 1. destruct (length (g_build_id s) =? 0)%nat eqn:E; cbn [negb app].
    - by apply case3_run.
    - apply (try_valid_run s s2 (build_id_path (g_build_id s)) 3); [done | done | done | | done |].
      + unfold separate_files. rewrite E. set_solver.
      + intros s' Hs'' _. by apply case3_run. }
  exists s3. split; [by eapply same_file_trans |]. unfold case2.
  erewrite (cmd_bind_Some (set_index 3)) by exact Hrun.
  erewrite (cmd_bind_Some get_state) by done. split; [exact Hrun3 |].
  rewrite <- Hcome3. symmetry. by apply same_to_come.
Qed.

Lemma case1_run s s1 :
  try_ok s -> same_file s s1 -> get_ok s1 case1 (g_path s :: valid_files s (separate_files s)).
Proof.
  intros Hok Hs. destruct (set_index_run 2 s1) as (s2 & Hrun & Hs2 & Hn).
  exists s2. split; [done |]. unfold case1. erewrite (cmd_bind_Some (set_index 2)) by exact Hrun.
  split; [|rewrite Hn; by rewrite (same_to_come s s1) ].
  assert (g_path s2 = g_path s) as <- by (by apply (same_file_trans s s1 s2)). done.
Qed.

Lemma case0_run s s1 :
  try_ok s -> same_file s s1 ->
  get_ok s1 case0 (user_file s ++ g_path s :: valid_files s (separate_files s)).
Proof.
  intros Hok Hs. destruct (set_index_run 1 s1) as (s2 & Hrun & Hs2 & Hn).
  assert (same_file s s2) as Hs' by by eapply same_file_trans.
  assert (g_exe_self s2 = g_exe_self s) as Eself by by apply Hs'.
  destruct (case1_run s s2 Hok Hs') as (s3 & Hs3 & Hrun3 & Hcome3).
  unfold get_ok, case0. setoid_rewrite (cmd_bind_Some _ _ _ _ _ Hrun).
  setoid_rewrite (cmd_bind_Some (gets g_exe_self) _ s2 (g_exe_self s) s2);
    [| unfold gets; by rewrite Eself].
  assert (to_come s1 (g_index s3) = valid_files s (separate_files s)) as Hcome1
    by (rewrite (same_to_come s s1), <- (same_to_come s s2) by done; exact Hcome3).
  assert (same_file s1 s3) as Hs13 by by eapply same_file_trans.
  unfold user_file. destruct opt_debug_info_file as [f |] eqn:Eopt; [| by exists s3].
  destruct (g_exe_self s) eqn:Es; [| by exists s3].
  assert (f ∈ user_file s) as Hf by (unfold user_file; rewrite Eopt, Es; set_solver).
  pose proof (to_user _ Hok f Hf) as Hv. unfold is_valid in Hv.
  destruct (to_valid _ Hok f ltac:(set_solver)) as [b Hb]. rewrite Hb in Hv. simpl in Hv. subst b.
  destruct (debug_valid_run s2 f true) as (s4 & Hrun4 & Hs4 & Hi4); [by rewrite (same_valid s s2) |].
  exists s4. split; [exact (same_file_trans _ _ _ Hs2 Hs4) |]. erewrite cmd_bind_Some by done.
  split; [done |]. rewrite Hi4, Hn. by rewrite (same_to_come s s1).
Qed.

(** One call, in any state of the iteration. *)
Lemma debug_try_get_run s :
  try_ok s -> get_ok s debug_try_get (to_come s (g_index s)).
Proof.
  intros Hok. assert (same_file s s) as Hs by done.
  assert (forall m fs, get_ok s m fs -> (debug_try_get s = m s) -> get_ok s debug_try_get fs) as Hget.
  { intros m fs (s' & ? & E & ?) Em. exists s'. by rewrite Em. }
  destruct (decide (0 <= g_index s < 6)).
  - assert (g_index s ∈ seqZ 0 6) as Hin by (apply elem_of_seqZ; lia).
    unfold debug_try_get, gets in Hget. unfold mbind, cmd_bind in Hget.
    repeat (apply elem_of_cons in Hin as [E | Hin];
      [rewrite E in *; eapply Hget; [| reflexivity] |]);
      [by apply case0_run | by apply case1_run | by apply case2_run | by apply case3_run |
       by apply case4_run | by apply case5_run | by apply elem_of_nil in Hin].
  - assert (forall i, ~ 0 <= i < 6 -> to_come s i = []) as Hnil.
    { intros i Hi'. unfold to_come. destruct i as [| p | p]; [lia | | done].
      do 3 (destruct p as [p | p |]; try lia; try done). }
    exists s. rewrite Hnil by lia. split_and!; [done | | done].
    unfold debug_try_get, gets, mbind, cmd_bind. simpl.
    repeat (case_match; try lia; try done).
Qed.

(** ** The loops of the callers *)

(** [while ((debugp = debug_try_get()) != NULL) if (build(debugp) > 0) break;] *)
Fixpoint try_files {S} `{Lens S debug_state} (fuel : nat) (build : cstr -> cmd S Z) :
    cmd S (result (option cstr)) :=
  match fuel with
  | O => undefined
  | Datatypes.S fuel =>
      debugp ←! zoom debug_try_get;
      match debugp with
      | None => mret (Ret None)
      | Some p =>
          n ← build p;
          if 0 <? n then mret (Ret (Some p)) else try_files fuel build
      end
  end.

(** There are six cases that may return a file. *)
Definition TRY_FUEL : nat := 7.

Lemma to_come_length s i : (length (to_come s i) < TRY_FUEL)%nat.
Proof.
  assert (forall l, length (valid_files s l) <= length l)%nat as Hv by (intros; apply length_filter).
  pose proof (Hv (separate_files s)) as Hsep.
  assert (length (separate_files s) <= 4)%nat by (unfold separate_files; case_match; simpl; lia).
  assert (length (user_file s) <= 1)%nat by (unfold user_file; repeat case_match; simpl; lia).
  pose proof (Hv [dir_path s; dot_debug_path s; usr_lib_path s]).
  pose proof (Hv [dot_debug_path s; usr_lib_path s]). pose proof (Hv [usr_lib_path s]).
  unfold to_come, TRY_FUEL. repeat case_match; rewrite ?length_app; simpl in *; lia.
Qed.

(** A caller whose state satisfies [P] as long as no file is good, and [Q] when
    a good file ended the loop; [n] is what [build] returns. *)
Lemma try_files_find {B} fuel s (b : B) (build : cstr -> cmd B Z) n (P : B -> Prop) (Q : cstr -> B -> Prop) :
  try_ok s -> (length (to_come s (g_index s)) < fuel)%nat -> P b ->
  let r := List.find (fun p => 0 <? n p) (to_come s (g_index s)) in
  (forall p b, p ∈ to_come s (g_index s) -> n p <= 0 -> P b ->
     exists b', build p b = Some (n p, b') /\ P b') ->
  (forall p b, r = Some p -> P b -> exists b', build p b = Some (n p, b') /\ Q p b') ->
  exists s' b', try_files fuel (fun p => on_snd (build p)) (s, b) = Some (Ret r, (s', b')) /\
    match r with Some p => Q p b' | None => P b' end.
Proof.
  cbv zeta. revert s b. induction fuel as [| fuel IH]; intros s b Hok Hf Hb Hno Hyes; [lia |].
  destruct (debug_try_get_run s Hok) as (s1 & Hs1 & Hrun & Hcome).
  cbn [try_files]. erewrite result_bind_Ret by (apply zoom_Some; exact Hrun).
  destruct (to_come s (g_index s)) as [| p ps] eqn:E; cbn [head tail List.find] in *.
  - by exists s1, b.
  - destruct (Z.ltb_spec 0 (n p)) as [Hp | Hp].
    + destruct (Hyes p b eq_refl Hb) as (b' & Hbuild & HQ). exists s1, b'.
      erewrite cmd_bind_Some by (unfold on_snd; simpl; by rewrite Hbuild).
      by rewrite (proj2 (Z.ltb_lt _ _) Hp).
    + destruct (Hno p b ltac:(set_solver) Hp Hb) as (b' & Hbuild & HP).
      erewrite cmd_bind_Some by (unfold on_snd; simpl; by rewrite Hbuild).
      rewrite (proj2 (Z.ltb_ge _ _) Hp). rewrite <- (same_to_come s s1) in Hcome by done.
      destruct (IH s1 b') as (s2 & b2 & Hrun2 & HPQ); [by eapply try_ok_same | | done | | |];
        rewrite Hcome in *; [simpl in Hf; lia | set_solver | done |].
      by exists s2, b2.
Qed.

(** A caller that records the files and finds none of them good. *)
Definition record_file (p : cstr) : cmd (debug_state * list cstr) Z :=
  modify (fun s => (s.1, s.2 ++ [p]));; mret 0.

Lemma try_files_all fuel s l :
  try_ok s -> (length (to_come s (g_index s)) < fuel)%nat ->
  exists s', same_file s s' /\
    try_files fuel record_file (s, l) = Some (Ret None, (s', l ++ to_come s (g_index s))).
Proof.
  revert s l. induction fuel as [| fuel IH]; intros s l Hok Hf; [lia |].
  destruct (debug_try_get_run s Hok) as (s1 & Hs1 & Hrun & Hcome).
  cbn [try_files]. erewrite result_bind_Ret by (apply zoom_Some; exact Hrun).
  destruct (to_come s (g_index s)) as [| p ps] eqn:E; cbn [head tail] in *.
  - exists s1. split; [done |]. by rewrite app_nil_r.
  - rewrite <- (same_to_come s s1) in Hcome by done.
    destruct (IH s1 (l ++ [p])) as (s2 & Hs2 & Hrun2); [by eapply try_ok_same | |].
    { rewrite Hcome. simpl in Hf. lia. }
    exists s2. split; [by eapply same_file_trans |]. rewrite Hcome, <- app_assoc in Hrun2. exact Hrun2.
Qed.

Lemma debug_try_init_run s path self s1 :
  debug_try_init path self s = Some (tt, s1) -> g_path s1 = path /\ g_exe_self s1 = self /\ g_index s1 = 0.
Proof.
  intros Hrun. unfold debug_try_init in Hrun.
  do 3 (apply cmd_bind_inv in Hrun as (? & ? & _ & Hrun)). case_match.
  apply cmd_bind_inv in Hrun as (? & ? & _ & Hrun).
  destruct (decide (_ /\ _)); [| done]. by injection Hrun as <-.
Qed.

Lemma gets_opt_inv {S A} (f : S -> option A) s a s' :
  gets_opt f s = Some (a, s') -> f s = Some a /\ s' = s.
Proof. unfold gets_opt. destruct (f s); [| done]. by intros [= <- <-]. Qed.

(** The result does not depend on the state before. *)
Lemma debug_try_init_same path self s s1 s' :
  debug_try_init path self s = Some (tt, s1) ->
  exists s1', debug_try_init path self s' = Some (tt, s1') /\ same_file s1 s1' /\ g_index s1' = 0.
Proof.
  unfold debug_try_init. intros Hrun.
  apply cmd_bind_inv in Hrun as (p & s2 & [Ep ->]%gets_opt_inv & Hrun).
  apply cmd_bind_inv in Hrun as (bid & s2 & [Ebid ->]%gets_opt_inv & Hrun).
  apply cmd_bind_inv in Hrun as ([crc link] & s2 & [Elink ->]%gets_opt_inv & Hrun).
  erewrite (cmd_bind_Some (gets_opt _)) by (unfold gets_opt; by rewrite Ep). cbv beta zeta.
  erewrite (cmd_bind_Some (gets_opt _)) by (unfold gets_opt; by rewrite Ebid). cbv beta.
  erewrite (cmd_bind_Some (gets_opt _)) by (unfold gets_opt; by rewrite Elink). cbv beta iota.
  erewrite (cmd_bind_Some get_state) in Hrun |- * by done. cbv beta in Hrun |- *.
  assert ((if crc =? 0 then tail p ++ lit ".debug" else default (g_debug_fname s') link) =
    (if crc =? 0 then tail p ++ lit ".debug" else default (g_debug_fname s) link)) as ->.
  { destruct (Z.eqb_spec crc 0) as [| Hne]; [done |]. destruct link; [done |].
    unfold elf_debug_link in Elink. apply bind_Some in Elink as ([data |] & _ & Elink); [| by simplify_eq].
    apply bind_Some in Elink as (? & _ & Elink). by apply bind_Some in Elink as (? & _ & [= ]). }
  case_decide; [| done]. injection Hrun as <-. by eexists.
Qed.

(** C27: the files that [debug_try_get] proposes for a mapped file, to a caller
    that rejects them all: the user's file, for the program itself; then the
    file itself; then those of the four usual places that are valid, that is,
    have the build-id, or the CRC of the debug link, when the mapped file has
    one.  The loop ends after at most six files. *)
Theorem debug_try_sequence s path self s1 l :
  debug_try_init path self s = Some (tt, s1) -> try_ok s1 ->
  exists s2, try_files TRY_FUEL record_file (s1, l) =
    Some (Ret None, (s2, l ++ user_file s1 ++ path :: valid_files s1 (separate_files s1))).
Proof.
  intros Hinit Hok. destruct (debug_try_init_run _ _ _ _ Hinit) as (Ep & _ & Ei).
  destruct (try_files_all TRY_FUEL s1 l Hok (to_come_length _ _)) as (s2 & _ & Hrun).
  exists s2. rewrite Hrun, Ei. cbn [to_come]. by rewrite Ep.
Qed.

(** When the user's file is for this program, but is not there or does not
    belong to it, the program ends with the status 4. *)
Lemma debug_user_file_invalid s path self s1 f :
  debug_try_init path self s = Some (tt, s1) -> user_file s1 = [f] -> valid s1 f = Some false ->
  exists s2, debug_try_get s1 = Some (Exit 4, s2) /\ last (dbg_out s2) = Some (MsgInvalidFile f).
Proof.
  intros Hinit Huser Hv. destruct (debug_try_init_run _ _ _ _ Hinit) as (_ & _ & Ei).
  unfold user_file in Huser. destruct opt_debug_info_file as [f' |] eqn:Eopt; [| done].
  destruct (g_exe_self s1) eqn:Es; [| done]. injection Huser as ->.
  unfold debug_try_get. erewrite (cmd_bind_Some (gets g_index) _ _ 0) by (unfold gets; by rewrite Ei).
  cbn beta iota. unfold case0. rewrite Eopt.
  destruct (set_index_run 1 s1) as (s2 & Hset & Hs2 & _).
  rewrite (cmd_bind_Some _ _ _ _ _ Hset).
  erewrite (cmd_bind_Some (gets g_exe_self) _ _ true)
    by (unfold gets; by rewrite (proj1 (proj2 (proj2 Hs2))), Es).
  cbn beta iota. destruct (debug_valid_run s2 f false) as (s3 & Hrun & _ & _);
    [by rewrite (same_valid s1 s2) |].
  erewrite cmd_bind_Some by done. cbn beta iota. eexists. split; [done |]. apply last_snoc.
Qed.

End debug.

(** ** The formats of the sections *)

Definition le_bytes (n : Z) : list Z := (fun i => n / 2 ^ (8 * i) mod 2 ^ 8) <$> [0; 1; 2; 3].
Definition name_bytes (name : cstr) : list Z := char_code <$> name.

(** .gnu_debuglink: the name, its null character, zeros up to a multiple of
    four, and the CRC. *)
Definition debug_link_data (name : cstr) (crc : Z) : list Z :=
  name_bytes name ++ 0 :: replicate (3 - length name mod 4) 0 ++ le_bytes crc.

(** .note.gnu.build-id: the sizes of name and descriptor, the type, "GNU" and
    the identifier. *)
Definition build_id_data (id : list Z) : list Z :=
  le_bytes 4 ++ le_bytes (Z.of_nat (length id)) ++ le_bytes 3 ++ [71; 78; 85; 0] ++ id.

Lemma find_section_app name size pre s post :
  Forall (fun s' => is_Some (sh_type s') /\ sh_name s' <> name) pre ->
  is_Some (sh_type s) -> sh_name s = name ->
  find_section name size (pre ++ s :: post) =
  (data ← d_data s; Some (if decide (size < length data)%nat then None else Some data)).
Proof.
  intros Hpre [t Ht] Hn. induction Hpre as [| s' pre [[t' Ht'] Hn'] _ IH]; cbn [app find_section].
  - by rewrite Ht, decide_True.
  - by rewrite Ht', decide_False.
Qed.

(** The file has a section of that name with the data, and no other before it. *)
Definition has_section (elf : option elf_file) (name : cstr) (data : list Z) : Prop :=
  exists e pre s post, elf = Some e /\ is_Some (e_type e) /\ sections e = pre ++ s :: post /\
    Forall (fun s' => is_Some (sh_type s') /\ sh_name s' <> name) pre /\
    is_Some (sh_type s) /\ sh_name s = name /\ d_data s = Some data.

Lemma elf_section_data_run elf name data size :
  has_section elf name data ->
  elf_section_data elf name size = Some (if decide (size < length data)%nat then None else Some data).
Proof.
  intros (e & pre & s & post & -> & [t Ht] & Hsec & Hpre & Hs & Hn & Hd).
  unfold elf_section_data. rewrite Ht, Hsec, find_section_app by done. by rewrite Hd.
Qed.

Lemma char_of_code c : char_of (char_code c) = c.
Proof. unfold char_of, char_code. rewrite Nat2Z.id. apply ascii_nat_embedding. Qed.

Lemma c_string_name name r :
  Forall (fun c => char_code c <> 0) name -> c_string (name_bytes name ++ 0 :: r) = Some name.
Proof.
  intros Hn. induction Hn as [| c name Hc _ IH]; [done |]. cbn [name_bytes fmap list_fmap app c_string].
  rewrite (proj2 (Z.eqb_neq _ _) Hc). unfold name_bytes in IH. rewrite IH. simpl. by rewrite char_of_code.
Qed.

Lemma le32_le_bytes n a b :
  is_u32 n -> length a = b -> u32_at (a ++ le_bytes n) b = Some n.
Proof.
  intros Hn <-. unfold u32_at. rewrite drop_app_length.
  unfold le_bytes. cbn [fmap list_fmap take]. f_equal.
  rewrite (le32_word_bytes n). by apply u32_small.
Qed.

Lemma le32_le_bytes_app n a r b :
  is_u32 n -> length a = b -> u32_at (a ++ le_bytes n ++ r) b = Some n.
Proof.
  intros Hn Hb. rewrite <- (le32_le_bytes n a b Hn Hb). unfold u32_at. subst b.
  rewrite !drop_app_length. unfold le_bytes. done.
Qed.

Lemma align4 n : 0 <= n < 2 ^ 32 -> Z.land n 0xfffffffc = n - n mod 4.
Proof.
  intros Hn. change 0xfffffffc with (Z.shiftl (Z.ones 30) 2).
  assert (Z.land n (Z.shiftl (Z.ones 30) 2) = Z.shiftl (Z.land (Z.shiftr n 2) (Z.ones 30)) 2) as ->.
  { apply Z.bits_inj'. intros i Hi. rewrite Z.land_spec, !Z.shiftl_spec by lia.
    destruct (Z.ltb_spec i 2).
    - rewrite !(Z.testbit_neg_r _ (i - 2)) by lia. by rewrite andb_false_r.
    - rewrite Z.land_spec, Z.shiftr_spec by lia. by replace (i - 2 + 2) with i by lia. }
  rewrite Z.land_ones, Z.shiftr_div_pow2, Z.shiftl_mul_pow2 by lia.
  change (2 ^ 2) with 4. rewrite Z.mod_small.
  - pose proof (Z.div_mod n 4). lia.
  - split; [apply Z.div_pos; lia | apply Z.div_lt_upper_bound; lia].
Qed.

(** What [elf_debug_link] reads of a debug-link section is the name and the
    CRC that were put into it: the CRC is at the next multiple of four behind
    the name. *)
Lemma debug_link_roundtrip elf name crc :
  has_section elf (lit ".gnu_debuglink") (debug_link_data name crc) ->
  Forall (fun c => char_code c <> 0) name -> is_u32 crc ->
  (length (debug_link_data name crc) <= BUFFER_SIZE)%nat ->
  elf_debug_link elf = Some (crc, Some name).
Proof.
  intros Hsec Hname Hcrc Hlen. unfold elf_debug_link. rewrite (elf_section_data_run _ _ _ _ Hsec).
  rewrite decide_False by lia. cbn [mbind option_bind].
  unfold debug_link_data in *. rewrite c_string_name by done. cbn [mbind option_bind].
  assert (length (name_bytes name) = length name) as Hl by apply length_fmap.
  rewrite !length_app in Hlen. cbn [length] in Hlen. rewrite length_app in Hlen.
  unfold BUFFER_SIZE in Hlen.
  assert ((Z.of_nat (length name) + 4) mod 4 = Z.of_nat (length name mod 4)) as Hm.
  { rewrite Nat2Z.inj_mod. replace (Z.of_nat (length name) + 4) with (Z.of_nat (length name) + 1 * 4) by lia.
    by rewrite Z.mod_add by lia. }
  pose proof (Nat.mod_upper_bound (length name) 4 ltac:(lia)).
  rewrite align4, Hm, app_comm_cons, app_assoc by lia.
  rewrite (le32_le_bytes crc); [done | done |].
  rewrite length_app. cbn [length]. rewrite length_replicate, Hl. lia.
Qed.

(** C39: what [elf_build_id] reads of a build-id note is its identifier, if that
    fits in the array; a longer one overflows it. *)
Theorem build_id_roundtrip elf id :
  has_section elf (lit ".note.gnu.build-id") (build_id_data id) ->
  (length (build_id_data id) <= BUFFER_SIZE)%nat ->
  elf_build_id elf = if decide (length id <= BUILD_ID_SIZE)%nat then Some id else None.
Proof.
  intros Hsec Hlen. unfold elf_build_id. rewrite (elf_section_data_run _ _ _ _ Hsec).
  rewrite decide_False by lia. cbn [mbind option_bind].
  assert (length (build_id_data id) = 16 + length id)%nat as Hl.
  { unfold build_id_data. rewrite !length_app. unfold le_bytes. simpl. lia. }
  assert (u32_at (build_id_data id) 4 = Some (Z.of_nat (length id))) as ->.
  { unfold build_id_data. apply le32_le_bytes_app; [| done].
    rewrite Hl in Hlen. unfold BUFFER_SIZE in Hlen. unfold is_u32. lia. }
  cbn [mbind option_bind]. cbv zeta. rewrite Nat2Z.id, Hl.
  destruct (decide (length id <= BUILD_ID_SIZE)%nat).
  - rewrite decide_True by lia. unfold build_id_data. rewrite !app_assoc.
    rewrite drop_app_length' by (rewrite !length_app; unfold le_bytes; done).
    by rewrite take_ge by lia.
  - rewrite decide_False by lia. done.
Qed.

(** ** An example: a program with a build-id, and two candidates for it *)

Definition id_section (id : list Z) : elf_section :=
  mk_section (lit ".note.gnu.build-id") (Some 7) (Some (build_id_data id)) [].
Definition link_section (name : cstr) (crc : Z) : elf_section :=
  mk_section (lit ".gnu_debuglink") (Some 1) (Some (debug_link_data name crc)) [].
Definition elf_with (secs : list elf_section) : file :=
  mk_file [127; 69; 76; 70] (Some (mk_elf (Some 2) [] secs)).

Definition example_disk (p : cstr) : option file :=
  if decide (p = lit "/usr/bin/app") then
    Some (elf_with [id_section [171; 205]; link_section (lit "app.dbg") 305419896])
  else if decide (p = lit "/usr/lib/debug/.build-id/ab/cd.debug") then
    Some (elf_with [id_section [171; 205]])
  else if decide (p = lit "/usr/bin/.debug/app.dbg") then Some (elf_with [id_section [1; 2; 3]])
  else None.

Definition no_debug : debug_state := mk_debug [] [] 0 false [] [] 0 [].

Definition example_debug : debug_state :=
  mk_debug (lit "/usr/bin/app") (lit "/usr/bin") 0 true [171; 205] (lit "app.dbg") 305419896 [].

Lemma example_init_debug :
  debug_try_init example_disk (lit "/usr/bin/app") true no_debug = Some (tt, example_debug).
Proof. vm_compute. reflexivity. Qed.

Lemma example_try_ok : try_ok example_disk None example_debug.
Proof.
  constructor.
  - assert (Forall (fun p => is_Some (valid example_disk example_debug p))
      (user_file None example_debug ++ separate_files example_debug)) as HF
      by (apply (bool_decide_unpack _); vm_compute; exact I).
    by rewrite Forall_forall in HF.
  - assert (Forall (fun p => length p < DEBUG_PATH_SIZE)%nat (separate_files example_debug)) as HF
      by (apply (bool_decide_unpack _); vm_compute; exact I).
    by rewrite Forall_forall in HF.
  - intros p Hp. cbn in Hp. by apply elem_of_nil in Hp.
Qed.

Lemma debug_try_sequence_witness :
  exists s2, try_files example_disk None TRY_FUEL record_file (example_debug, []) =
    Some (Ret None, (s2, [lit "/usr/bin/app"; lit "/usr/lib/debug/.build-id/ab/cd.debug"])).
Proof.
  destruct (debug_try_sequence example_disk None no_debug (lit "/usr/bin/app") true example_debug []
    example_init_debug example_try_ok) as (s2 & Hrun).
  exists s2. rewrite Hrun. vm_compute. reflexivity.
Defined.

Lemma debug_user_file_invalid_witness :
  exists s2, debug_try_get example_disk (Some (lit "/tmp/none")) example_debug = Some (Exit 4, s2) /\
    last (dbg_out s2) = Some (MsgInvalidFile (lit "/tmp/none")).
Proof.
  apply (debug_user_file_invalid example_disk (Some (lit "/tmp/none")) no_debug (lit "/usr/bin/app")
    true example_debug); [apply example_init_debug | reflexivity | reflexivity].
Defined.

Lemma debug_link_roundtrip_witness :
  elf_debug_link (f_elf (elf_with [id_section [171; 205]; link_section (lit "app.dbg") 305419896])) =
  Some (305419896, Some (lit "app.dbg")).
Proof.
  apply debug_link_roundtrip.
  - eexists _, [id_section [171; 205]], _, []. split_and!; [done | by eexists | done | | by eexists | done | done].
    constructor; [split; [by eexists | done] | constructor].
  - apply (bool_decide_unpack _). vm_compute. exact I.
  - unfold is_u32. lia.
  - apply (bool_decide_unpack _). vm_compute. exact I.
Defined.

Lemma build_id_roundtrip_witness :
  elf_build_id (f_elf (elf_with [id_section [171; 205]])) = Some [171; 205] /\
  elf_build_id (f_elf (elf_with [id_section (replicate 101 7)])) = None.
Proof.
  split.
  - rewrite (build_id_roundtrip _ [171; 205]); [reflexivity | |].
    + eexists _, [], _, []. split_and!; [done | by eexists | done | constructor | by eexists | done | done].
    + apply (bool_decide_unpack _). vm_compute. exact I.
  - rewrite (build_id_roundtrip _ (replicate 101 7)); [reflexivity | |].
    + eexists _, [], _, []. split_and!; [done | by eexists | done | constructor | by eexists | done | done].
    + apply (bool_decide_unpack _). vm_compute. exact I.
Defined.
