(* ===== verification/TableBuild.v ===== *)
(** * The loop of [symtab_build] and [debug_line_build]

    Both walk over the executable mappings; for each, they try the files of
    [debug_try_get] until one fills their table, and warn when the program
    itself has none; then they sort the table.  [build_table] is that loop,
    for a function [build_file] that reads a file into the table; its callers
    are in [Symtab] and [DebugLine].

    The laws of a reader are the class [Reader]: what a file has for the table
    ([items]), and that [build_file] appends it and returns its number.
    [build_table_correct] follows from them for any reader. *)

From stdpp Require Import sorting.
From S2P Require Import Prelude HlistH Heap ArrayH CString ProcMaps Crc32 DebugFile.

(** The comparisons of both tables put the smaller key first; that they never
    answer 0 makes no difference to the order. *)
Lemma qsort_key_sorted `{!Qsort} {A} (cmp : A -> A -> Z) (key : A -> Z) xs :
  (forall x y, cmp x y = if key x <? key y then -1 else 1) ->
  StronglySorted (fun x y => key x <= key y) (qsort cmp xs).
Proof.
  intros Hcmp. apply qsort_sorted. intros x y _ _. rewrite Hcmp.
  destruct (Z.ltb_spec (key x) (key y)); lia.
Qed.

Section table.
Context {A : Type}.
Context (open_file : cstr -> option file).
Context (opt_debug_info_file : option cstr).
Context `{!Qsort}.

Abbreviation table := (array_mem A).

Section loop.
Context (build_file : cstr -> Z -> cmd table Z) (warn : cstr -> debug_msg) (cmp : A -> A -> Z).

(** The body of the loop over the mapped files. *)
Definition build_body (e : map_entry) : cmd (debug_state * table) (result unit) :=
  zoom (debug_try_init open_file (path e) (exe_self e));;
  debugp ←! try_files open_file opt_debug_info_file TRY_FUEL
              (fun p => on_snd (build_file p (start e)));
  when (exe_self e && bool_decide (debugp = None)) (zoom (print_debug (warn (path e))));;
  mret (Ret tt).

Definition build_table {maps : ProcMaps} : cmd (maps_st * (debug_state * table)) (result unit) :=
  while_maps build_body;;!
  on_snd (on_snd (array_sort cmp));;
  mret (Ret tt).

End loop.

(** ** A reader of files *)

Class Reader := {
  build_file : cstr -> Z -> cmd table Z;
  (** What a file has, when it is mapped at an address, and the value that
      [build_file] returns. *)
  items : Z -> cstr -> list A;
  count : Z -> cstr -> Z;
  (** The file is well-formed, as far as the function relies on it. *)
  readable : cstr -> Prop;
  build_file_run : forall init n xs p start s,
    growing init n xs s -> 0 < init -> readable p ->
    Z.of_nat (length xs + length (items start p)) <= n ->
    exists s', build_file p start s = Some (count start p, s') /\
      growing init n (xs ++ items start p) s';
  count_items : forall start p, readable p -> count start p <= 0 -> items start p = []
}.

Context {reader : Reader}.

(** The candidates of an entry, and the one that is taken. *)
Definition entry_debug (e : map_entry) : debug_state :=
  match debug_try_init open_file (path e) (exe_self e) (mk_debug [] [] 0 false [] [] 0 []) with
  | Some (_, d) => d
  | None => mk_debug [] [] 0 false [] [] 0 []
  end.

Definition candidates (e : map_entry) : list cstr :=
  to_come open_file opt_debug_info_file (entry_debug e) 0.

Definition chosen_file (e : map_entry) : option cstr :=
  List.find (fun p => 0 <? count (start e) p) (candidates e).

Definition entry_items (e : map_entry) : list A :=
  match chosen_file e with Some p => items (start e) p | None => [] end.

Record entry_ok (e : map_entry) : Prop := {
  eo_init : is_Some (debug_try_init open_file (path e) (exe_self e)
                       (mk_debug [] [] 0 false [] [] 0 []));
  eo_try : try_ok open_file opt_debug_info_file (entry_debug e);
  eo_readable : forall p, p ∈ candidates e -> readable p
}.

Lemma body_run warn init n xs e d s :
  growing init n xs s -> 0 < init -> entry_ok e ->
  Z.of_nat (length xs + length (entry_items e)) <= n ->
  exists d' s', build_body build_file warn e (d, s) = Some (Ret tt, (d', s')) /\
    growing init n (xs ++ entry_items e) s'.
Proof.
  intros Hg Hi [[[[] d1] Hinit] Htry Hread] Hn.
  assert (entry_debug e = d1) as Ed by (unfold entry_debug; by rewrite Hinit).
  destruct (debug_try_init_same open_file _ _ _ _ d Hinit) as (d2 & Hinit2 & Hsame & Hidx).
  unfold candidates in Hread. rewrite Ed in *.
  assert (to_come open_file opt_debug_info_file d2 (g_index d2) = candidates e) as Hcand
    by (rewrite Hidx, (same_to_come _ _ d1 d2) by done; unfold candidates; by rewrite Ed).
  destruct (try_files_find open_file opt_debug_info_file TRY_FUEL d2 s
    (fun p => build_file p (start e)) (count (start e)) (growing init n xs)
    (fun p => growing init n (xs ++ items (start e) p)))
    as (d3 & s3 & Hrun & Hres); rewrite ?Hcand.
  - by eapply try_ok_same.
  - rewrite <- Hcand. apply to_come_length.
  - done.
  - intros p b Hp Hc Hb.
    assert (readable p) as Hr by (apply Hread; unfold candidates in Hp; by rewrite Ed in Hp).
    pose proof (count_items _ _ Hr Hc) as E.
    destruct (build_file_run init n xs p (start e) b Hb Hi Hr) as (b' & Hbuild & Hg');
      [rewrite E; simpl; lia |].
    exists b'. rewrite E, app_nil_r in Hg'. done.
  - intros p b Hp Hb. apply build_file_run; [done | done | |].
    + apply Hread. apply List.find_some in Hp as [Hp _]. apply list_elem_of_In in Hp.
      unfold candidates in Hp. by rewrite Ed in Hp.
    + unfold entry_items, chosen_file in Hn. by rewrite Hp in Hn.
  - rewrite Hcand in *. unfold build_body.
    erewrite cmd_bind_Some by (apply zoom_Some; exact Hinit2).
    erewrite result_bind_Ret by exact Hrun.
    assert (growing init n (xs ++ entry_items e) s3) as Hg3.
    { unfold entry_items, chosen_file. destruct (List.find _ _); [done | by rewrite app_nil_r]. }
    destruct (_ && _); eexists _, s3; (split; [reflexivity | exact Hg3]).
Qed.

Lemma entries_run warn init n xs es d s :
  growing init n xs s -> 0 < init -> Forall entry_ok es ->
  Z.of_nat (length xs + length (concat (entry_items <$> es))) <= n ->
  exists d' s', for_entries (build_body build_file warn) es (d, s) = Some (Ret tt, (d', s')) /\
    growing init n (xs ++ concat (entry_items <$> es)) s'.
Proof.
  intros Hg Hi Hok. revert xs d s Hg. induction Hok as [| e es He _ IH]; intros xs d s Hg Hn.
  - exists d, s. by rewrite app_nil_r.
  - cbn [fmap list_fmap concat] in *. rewrite length_app in Hn.
    destruct (body_run warn init n xs e d s Hg Hi He) as (d1 & s1 & Hrun & Hg1); [lia |].
    destruct (IH _ d1 _ Hg1) as (d2 & s2 & Hrun2 & Hg2); [rewrite length_app; lia |].
    exists d2, s2. cbn [for_entries]. erewrite result_bind_Ret by exact Hrun.
    split; [exact Hrun2 |]. by rewrite <- app_assoc in Hg2.
Qed.

Context {maps : ProcMaps}.

(** The table that is left: sorted, with the items of every mapping's file. *)
Lemma build_table_run warn cmp init (n : budget) es st d s :
  0 < init -> walks es -> at_rest st ->
  let xs := concat (entry_items <$> es) in
  Forall entry_ok es -> growing init n [] s -> Z.of_nat (length xs) <= n ->
  exists st' d' s',
    build_table build_file warn cmp (st, (d, s)) = Some (Ret tt, (st', (d', s'))) /\ at_rest st' /\
    array_rep s' (qsort cmp xs) /\ budget_low n <= brk (am_heap s') /\
    budget_rest n <= heap_end (am_heap s') - brk (am_heap s').
Proof.
  intros Hi Hes Hst xs Hok Hg Hn.
  destruct (entries_run warn init n [] es d s Hg Hi Hok Hn) as (d1 & s1 & Hrun & Hg1).
  destruct (while_maps_run es _ st (d, s) _ Hes Hst Hrun) as (st' & Hwalk & Hst').
  pose proof (growing_room _ _ _ _ Hg1) as Hroom.
  apply growing_rep in Hg1. cbn [app] in Hg1.
  destruct (array_sort_run cmp s1 xs Hg1) as (s2 & Hsort & Hrep & _ & Eh).
  exists st', d1, s2. rewrite Eh. split; [| split; [exact Hst' | split; [exact Hrep | lia]]].
  unfold build_table. erewrite result_bind_Ret by exact Hwalk.
  cbn beta. erewrite cmd_bind_Some; [reflexivity |]. unfold on_snd. simpl. by rewrite Hsort.
Qed.

Lemma build_table_correct warn cmp size init es st d h cells :
  0 < size -> 0 < init -> walks es -> at_rest st ->
  let xs := concat (entry_items <$> es) in
  let n := Z.of_nat (length xs) in
  Forall entry_ok es ->
  heap_ok h -> (size + 15) * (init + 4 * n) <= heap_end h - brk h ->
  size * Z.max init (2 * n) < 2 ^ 31 ->
  exists st' d' s,
    build_table build_file warn cmp (st, (d, mk_array_mem (ARRAY size init) h cells)) =
      Some (Ret tt, (st', (d', s))) /\ at_rest st' /\
    array_rep s (qsort cmp xs).
Proof.
  intros Hs Hi Hes Hst xs n Hok Hh Hroom Hint.
  assert (growing init (alone n) [] (mk_array_mem (ARRAY size init) h cells)) as Hg
    by (unfold heap_ok in Hh; apply growing_start; done || simpl; lia).
  destruct (build_table_run warn cmp init (alone n) es st d _ Hi Hes Hst Hok Hg (Z.le_refl n))
    as (st' & d' & s & Hrun & Hst' & Hrep & _). by exists st', d', s.
Qed.

End table.
Arguments Reader : clear implicits.
