(* ===== verification/Symtab.v ===== *)
(** * [symtab.c]: the symbols of the target

    [symtab_build] walks over the mapped files; of each, the first file of
    [debug_try_get] that has function symbols fills the table, with the
    addresses moved to where the file is mapped.  The table is sorted by
    address.  [symtab_by_address] is a binary search, [symtab_by_name] a scan
    that prefers a strong symbol to a weak one.

    [symtab_build_correct] says what is in the table, [symtab_by_name_correct]
    and [symtab_by_address_correct] what the searches answer;
    [symtab_nested_missed] is a table with nested symbols where an address in
    the outer one is not found. *)

From stdpp Require Import sorting.
From S2P Require Import Prelude HlistH Heap ArrayH BinSearch CString ProcMaps ProcInfo.
From S2P Require Import Crc32 DebugFile TableBuild.

Record symbol_s := mk_symbol {
  sym_address : Z; sym_size : Z; sym_weak : bool; sym_name : cstr
}.

Definition sizeof_symbol : Z := 32.

Abbreviation symbol_table := (array_mem symbol_s).

(** ** Reading a file *)

Definition SHT_SYMTAB : Z := 2.
Definition SHT_DYNSYM : Z := 11.
Definition SHN_UNDEF : Z := 0.
Definition STB_WEAK : Z := 2.
Definition STB_NUM : Z := 3.
Definition STT_FUNC : Z := 2.
Definition ET_DYN : Z := 3.
Definition PT_LOAD : Z := 1.

Definition GELF_ST_BIND (info : Z) : Z := Z.shiftr info 4.
Definition GELF_ST_TYPE (info : Z) : Z := Z.land info 15.

Definition is_function (esym : elf_sym) : bool :=
  negb ((st_value esym =? 0) || (st_size esym =? 0) || (st_shndx esym =? SHN_UNDEF) ||
        (GELF_ST_BIND (st_info esym) =? STB_NUM) || negb (GELF_ST_TYPE (st_info esym) =? STT_FUNC)).

(** [strdup] of a null pointer is undefined. *)
Definition make_symbol (offset base_addr : Z) (esym : elf_sym) : option symbol_s :=
  name ← st_name esym;
  Some (mk_symbol (u64 (st_value esym - base_addr + offset)) (st_size esym)
          (GELF_ST_BIND (st_info esym) =? STB_WEAK) name).

(** The loop over the symbols of a section. *)
Fixpoint build_symbols (offset base_addr : Z) (esyms : list elf_sym) (count : Z) :
    cmd symbol_table Z :=
  match esyms with
  | [] => mret count
  | esym :: esyms =>
      if is_function esym then
        sym ← gets_opt (fun _ => make_symbol offset base_addr esym);
        push_item sym;;
        build_symbols offset base_addr esyms (count + 1)
      else build_symbols offset base_addr esyms count
  end.

Definition symtab_build_section (section : elf_section) (offset base_addr : Z) :
    cmd symbol_table Z :=
  match sh_type section with
  | None => mret 0
  | Some t =>
      if negb (t =? SHT_SYMTAB) && negb (t =? SHT_DYNSYM) then mret 0
      else match d_data section with
           | None | Some [] => mret 0
           | Some _ => build_symbols offset base_addr (sec_syms section) 0
           end
  end.

Definition symtab_elf_base (elf : elf_file) : Z :=
  match List.find (fun h => p_type h =? PT_LOAD) (phdrs elf) with
  | Some h => p_vaddr h
  | None => 0
  end.

Fixpoint build_sections (secs : list elf_section) (offset base_addr count : Z) :
    cmd symbol_table Z :=
  match secs with
  | [] => mret count
  | sec :: secs =>
      n ← symtab_build_section sec offset base_addr;
      build_sections secs offset base_addr (count + n)
  end.

Section symtab.
Context (open_file : cstr -> option file).
Context (opt_debug_info_file : option cstr).
Context `{!Qsort}.

Definition symtab_build_file (path : cstr) (start : Z) : cmd symbol_table Z :=
  match open_file path with
  | None => mret (-1)
  | Some f =>
      match f_elf f with
      | None => mret (-1)
      | Some elf =>
          t ← gets_opt (fun _ => e_type elf);
          if t =? ET_DYN then build_sections (sections elf) start (symtab_elf_base elf) 0
          else build_sections (sections elf) 0 0 0
      end
  end.

Definition symbol_cmp (sa sb : symbol_s) : Z :=
  if sym_address sa <? sym_address sb then -1 else 1.

Definition symtab_build {maps : ProcMaps} : cmd (maps_st * (debug_state * symbol_table)) (result unit) :=
  build_table open_file opt_debug_info_file symtab_build_file MsgNoSymbols symbol_cmp.

(** ** The searches *)

Definition symbol_search_cmp (address : Z) (sym : symbol_s) : comparison :=
  if address <? sym_address sym then Lt
  else if u64 (sym_address sym + sym_size sym) <=? address then Gt
  else Eq.

(** The name, and the value of [*offset]. *)
Definition symtab_by_address (address : Z) : cmd symbol_table (option (cstr * Z)) :=
  r ← bsearch_array (symbol_search_cmp address);
  mret (match r with
        | Some (_, sym) => Some (sym_name sym, s32 (address - sym_address sym))
        | None => None
        end).

(** The loop of [symtab_by_name], with its variables. *)
Fixpoint by_name_from (fuel : nat) (name : cstr) (pos address : Z) : cmd symbol_table Z :=
  match fuel with
  | O => undefined
  | S fuel =>
      a ← gets am_arr;
      if array_out pos a then mret address
      else
        sym ← read_item pos;
        let pos := pos + item_size a in
        if bool_decide (sym_name sym = name) then
          if negb (sym_weak sym) then mret (sym_address sym)
          else by_name_from fuel name pos (if address =? 0 then sym_address sym else address)
        else by_name_from fuel name pos address
  end.

Definition symtab_by_name (name : cstr) : cmd symbol_table Z :=
  a ← gets am_arr;
  by_name_from (S (Z.to_nat (item_num a))) name (data a) 0.

(** *** [symtab_by_name] *)

Definition has_name (name : cstr) (sym : symbol_s) : bool := bool_decide (sym_name sym = name).

(** The first strong symbol of the name, or else the first weak one that is not
    at 0, or else 0. *)
Definition lookup_name (name : cstr) (address : Z) (syms : list symbol_s) : Z :=
  match List.find (fun s => has_name name s && negb (sym_weak s)) syms with
  | Some s => sym_address s
  | None =>
      if address =? 0 then
        match List.find (fun s => has_name name s && negb (sym_address s =? 0)) syms with
        | Some s => sym_address s
        | None => 0
        end
      else address
  end.

Lemma by_name_run s syms name fuel i address :
  array_rep s syms -> (i <= length syms)%nat -> (length syms - i < fuel)%nat ->
  by_name_from fuel name (item_addr (am_arr s) (Z.of_nat i)) address s =
  Some (lookup_name name address (drop i syms), s).
Proof.
  intros Hrep. pose proof Hrep as []. revert i address.
  induction fuel as [| fuel IH]; intros i address Hi Hf; [lia |]. cbn [by_name_from].
  erewrite (cmd_bind_Some (gets am_arr) _ _ (am_arr s)) by done. cbn beta.
  unfold array_out, item_addr. destruct (decide (i = length syms)) as [-> | Hne].
  - rewrite (proj2 (Z.leb_le _ _)) by (rewrite ar_num; lia). rewrite drop_all.
    unfold lookup_name. simpl. by destruct (Z.eqb_spec address 0) as [-> |].
  - rewrite (proj2 (Z.leb_gt _ _)) by (rewrite ar_num; nia).
    destruct (lookup_lt_is_Some_2 syms i) as [sym Hsym]; [lia |].
    erewrite (cmd_bind_Some (read_item _) _ _ sym)
      by (unfold read_item, gets_opt; fold (item_addr (am_arr s) (Z.of_nat i)); by rewrite (ar_items i sym Hsym)).
    cbv beta zeta.
    replace (data (am_arr s) + item_size (am_arr s) * Z.of_nat i + item_size (am_arr s))
      with (item_addr (am_arr s) (Z.of_nat (S i))) by (unfold item_addr; lia).
    rewrite (drop_S syms sym i) by done.
    unfold lookup_name. cbn [List.find]. unfold has_name at 1 3.
    destruct (bool_decide (sym_name sym = name)); cbn [andb]; [| by rewrite IH by lia].
    destruct (sym_weak sym); cbn [negb]; [| done]. rewrite IH by lia. unfold lookup_name.
    destruct (List.find _ (drop (S i) syms)) as [s' |]; [done |].
    destruct (Z.eqb_spec address 0) as [-> | Ha]; [| by rewrite (proj2 (Z.eqb_neq _ _) Ha)].
    destruct (Z.eqb_spec (sym_address sym) 0) as [E | E]; cbn [negb]; [| done].
    by rewrite ?E.
Qed.

(** *** [symtab_by_address] *)

Definition contains (address : Z) (sym : symbol_s) : Prop :=
  sym_address sym <= address < sym_address sym + sym_size sym.

(** No symbol reaches the end of the address space. *)
Definition symbols_fit (syms : list symbol_s) : Prop :=
  Forall (fun sym => 0 <= sym_address sym /\ 0 < sym_size sym /\
            sym_address sym + sym_size sym < 2 ^ 64) syms.

(** In the order of the addresses, and no symbol reaches into a later one. *)
Definition symbols_apart (syms : list symbol_s) : Prop :=
  forall i j sym sym', syms !! i = Some sym -> syms !! j = Some sym' -> (i < j)%nat ->
    sym_address sym + sym_size sym <= sym_address sym'.

(** In the order of the addresses, and of the ends: a symbol is not inside
    another, but one that two sections of a file list is there twice. *)
Definition symbols_unnested (syms : list symbol_s) : Prop :=
  forall i j sym sym', syms !! i = Some sym -> syms !! j = Some sym' -> (i < j)%nat ->
    sym_address sym <= sym_address sym' /\
    sym_address sym + sym_size sym <= sym_address sym' + sym_size sym'.

Lemma symbol_search_Eq address syms sym :
  symbols_fit syms -> sym ∈ syms -> symbol_search_cmp address sym = Eq <-> contains address sym.
Proof.
  unfold symbols_fit. rewrite Forall_forall. intros Hf Hin. destruct (Hf sym Hin) as (? & ? & ?).
  unfold symbol_search_cmp, contains. rewrite u64_small by (unfold is_u64; lia).
  destruct (Z.ltb_spec address (sym_address sym)), (Z.leb_spec (sym_address sym + sym_size sym) address);
    split; try done; lia.
Qed.

Lemma symbols_monotone address syms :
  symbols_fit syms -> symbols_unnested syms -> monotone (symbol_search_cmp address) syms.
Proof.
  unfold symbols_fit. rewrite Forall_forall. intros Hf Ha i j x y Hx Hy Hij.
  pose proof (Ha i j x y Hx Hy Hij).
  destruct (Hf x (list_elem_of_lookup_2 _ _ _ Hx)) as (? & ? & ?).
  destruct (Hf y (list_elem_of_lookup_2 _ _ _ Hy)) as (? & ? & ?).
  unfold symbol_search_cmp. rewrite !u64_small by (unfold is_u64; lia).
  split; repeat case_match; try done; lia.
Qed.

Lemma symbols_apart_unnested syms :
  symbols_fit syms -> symbols_apart syms -> symbols_unnested syms.
Proof.
  unfold symbols_fit. rewrite Forall_forall. intros Hf Ha i j x y Hx Hy Hij.
  pose proof (Ha i j x y Hx Hy Hij).
  destruct (Hf x (list_elem_of_lookup_2 _ _ _ Hx)) as (? & ? & ?).
  destruct (Hf y (list_elem_of_lookup_2 _ _ _ Hy)) as (? & ? & ?). lia.
Qed.

(** Two symbols of a table without overlaps that contain an address are one. *)
Lemma contains_unique address syms i j x y :
  symbols_apart syms -> syms !! i = Some x -> syms !! j = Some y ->
  contains address x -> contains address y -> x = y.
Proof.
  unfold contains. intros Ha Hx Hy Hcx Hcy. destruct (decide (i = j)) as [<- |]; [by simplify_eq |].
  destruct (decide (i < j)%nat).
  - pose proof (Ha _ _ _ _ Hx Hy ltac:(done)). lia.
  - pose proof (Ha _ _ _ _ Hy Hx ltac:(lia)). lia.
Qed.

(** ** What a file has *)

Definition section_symbols (offset base_addr : Z) (sec : elf_section) : list symbol_s :=
  match sh_type sec, d_data sec with
  | Some t, Some (_ :: _) =>
      if (t =? SHT_SYMTAB) || (t =? SHT_DYNSYM)
      then omap (make_symbol offset base_addr) (filter (fun s => is_function s = true) (sec_syms sec))
      else []
  | _, _ => []
  end.

Definition elf_symbols (start : Z) (elf : elf_file) : list symbol_s :=
  let dyn := bool_decide (e_type elf = Some ET_DYN) in
  concat (section_symbols (if dyn then start else 0) (if dyn then symtab_elf_base elf else 0) <$>
          sections elf).

(** The file's function symbols have names. *)
Definition elf_named (elf : elf_file) : Prop :=
  is_Some (e_type elf) /\
  Forall (fun sec => Forall (fun s => is_function s = true -> is_Some (st_name s)) (sec_syms sec))
    (sections elf).

Lemma omap_cons_Some {A B} (f : A -> option B) x y l :
  f x = Some y -> omap f (x :: l) = y :: omap f l.
Proof. intros E. cbn. by rewrite E. Qed.

Lemma build_symbols_run init n xs offset base esyms count s :
  growing init n xs s -> 0 < init ->
  Forall (fun s => is_function s = true -> is_Some (st_name s)) esyms ->
  let ys := omap (make_symbol offset base) (filter (fun s => is_function s = true) esyms) in
  Z.of_nat (length xs + length ys) <= n ->
  exists s', build_symbols offset base esyms count s = Some (count + Z.of_nat (length ys), s') /\
    growing init n (xs ++ ys) s'.
Proof.
  cbv zeta. intros Hg Hi Hnm. revert xs s count Hg. induction Hnm as [| e esyms He _ IH];
    intros xs s count Hg Hn; cbn [build_symbols].
  - exists s. rewrite app_nil_r. simpl. by rewrite Z.add_0_r.
  - rewrite filter_cons in *. destruct (is_function e) eqn:Ef.
    2: { rewrite decide_False in * by congruence. by apply IH. }
    rewrite decide_True in * by done. destruct (He eq_refl) as [nm Hname].
    set (sym := mk_symbol (u64 (st_value e - base + offset)) (st_size e)
      (GELF_ST_BIND (st_info e) =? STB_WEAK) nm).
    assert (make_symbol offset base e = Some sym) as Hsym by (unfold make_symbol; by rewrite Hname).
    rewrite (omap_cons_Some _ _ _ _ Hsym) in *. cbn [length] in *.
    destruct (push_item_run init n xs sym s Hg Hi) as (s1 & Hrun & Hg1 & _); [lia |].
    destruct (IH _ _ (count + 1) Hg1) as (s2 & Hrun2 & Hg2); [rewrite length_app; simpl; lia |].
    exists s2. erewrite (cmd_bind_Some (gets_opt _)) by (unfold gets_opt; by rewrite Hsym). cbn beta.
    erewrite cmd_bind_Some by done. rewrite Hrun2.
    rewrite <- app_assoc in Hg2. split; [| exact Hg2]. do 2 f_equal. lia.
Qed.

Lemma build_section_run init n xs offset base sec s :
  growing init n xs s -> 0 < init ->
  Forall (fun s => is_function s = true -> is_Some (st_name s)) (sec_syms sec) ->
  let ys := section_symbols offset base sec in
  Z.of_nat (length xs + length ys) <= n ->
  exists s', symtab_build_section sec offset base s = Some (Z.of_nat (length ys), s') /\
    growing init n (xs ++ ys) s'.
Proof.
  cbv zeta. intros Hg Hi Hnm. unfold symtab_build_section, section_symbols.
  assert (growing init n (xs ++ []) s) as Hg0 by by rewrite app_nil_r.
  destruct (sh_type sec) as [t |]; [| intros _; by exists s].
  rewrite <- negb_orb. destruct (d_data sec) as [[| b d] |].
  - intros _. exists s. by destruct (negb _).
  - destruct (_ || _); cbn [negb]; [| intros _; by exists s].
    intros Hn. by apply (build_symbols_run init n xs offset base (sec_syms sec) 0 s).
  - intros _. exists s. by destruct (negb _).
Qed.

Lemma build_sections_run init n xs offset base secs count s :
  growing init n xs s -> 0 < init ->
  Forall (fun sec => Forall (fun s => is_function s = true -> is_Some (st_name s)) (sec_syms sec)) secs ->
  let ys := concat (section_symbols offset base <$> secs) in
  Z.of_nat (length xs + length ys) <= n ->
  exists s', build_sections secs offset base count s = Some (count + Z.of_nat (length ys), s') /\
    growing init n (xs ++ ys) s'.
Proof.
  cbv zeta. intros Hg Hi Hnm. revert xs s count Hg. induction Hnm as [| sec secs Hsec _ IH];
    intros xs s count Hg Hn; cbn [build_sections fmap list_fmap concat].
  - exists s. rewrite app_nil_r. simpl. by rewrite Z.add_0_r.
  - cbn [fmap list_fmap concat] in Hn. rewrite length_app in Hn.
    destruct (build_section_run init n xs offset base sec s Hg Hi Hsec) as (s1 & Hrun & Hg1); [lia |].
    set (m := length (section_symbols offset base sec)) in *.
    destruct (IH _ _ (count + Z.of_nat m) Hg1) as (s2 & Hrun2 & Hg2); [rewrite length_app; lia |].
    exists s2. erewrite cmd_bind_Some by done. rewrite Hrun2, <- app_assoc in *.
    split; [| exact Hg2]. rewrite length_app. do 2 f_equal. lia.
Qed.

(** ** Building the table *)

Definition file_symbols (start : Z) (p : cstr) : list symbol_s :=
  match open_file p ≫= f_elf with Some elf => elf_symbols start elf | None => [] end.

(** What [symtab_build_file] returns. *)
Definition file_count (start : Z) (p : cstr) : Z :=
  match open_file p ≫= f_elf with
  | Some elf => Z.of_nat (length (elf_symbols start elf))
  | None => -1
  end.

Definition file_named (p : cstr) : Prop :=
  forall elf, open_file p ≫= f_elf = Some elf -> elf_named elf.

Lemma symtab_file_run init n xs p start s :
  growing init n xs s -> 0 < init -> file_named p ->
  Z.of_nat (length xs + length (file_symbols start p)) <= n ->
  exists s', symtab_build_file p start s = Some (file_count start p, s') /\
    growing init n (xs ++ file_symbols start p) s'.
Proof.
  intros Hg Hi Hnm Hn. unfold symtab_build_file, file_count, file_symbols, file_named in *.
  destruct (open_file p) as [f |]; simpl in *; [| exists s; by rewrite app_nil_r].
  destruct (f_elf f) as [elf |]; simpl in *; [| exists s; by rewrite app_nil_r].
  destruct (Hnm elf eq_refl) as [[t Ht] Hsec]. unfold elf_symbols in *.
  erewrite (cmd_bind_Some (gets_opt _)) by (unfold gets_opt; by rewrite Ht). cbv beta.
  rewrite Ht in *. destruct (Z.eqb_spec t ET_DYN) as [-> | Hne].
  - rewrite bool_decide_true in * by done.
    by apply (build_sections_run init n xs start (symtab_elf_base elf) (sections elf) 0 s).
  - rewrite bool_decide_false in * by congruence.
    by apply (build_sections_run init n xs 0 0 (sections elf) 0 s).
Qed.

Lemma file_count_symbols start p : file_named p -> file_count start p <= 0 -> file_symbols start p = [].
Proof.
  intros _. unfold file_count, file_symbols. destruct (open_file p ≫= f_elf) as [elf |]; [| done].
  destruct (elf_symbols start elf); [done | simpl; lia].
Qed.

#[export] Instance symbol_reader : Reader symbol_s := {
  build_file := symtab_build_file;
  items := file_symbols;
  count := file_count;
  readable := file_named;
  build_file_run := symtab_file_run;
  count_items := file_count_symbols
}.


End symtab.

Lemma symtab_by_name_run s syms name :
  array_rep s syms -> symtab_by_name name s = Some (lookup_name name 0 syms, s).
Proof.
  intros Hrep. unfold symtab_by_name.
  erewrite (cmd_bind_Some (gets am_arr) _ _ (am_arr s)) by done. cbn beta.
  rewrite (ar_num _ _ Hrep), Nat2Z.id.
  pose proof (by_name_run s syms name (S (length syms)) 0 0 Hrep) as E.
  unfold item_addr in E. rewrite Z.mul_0_r, Z.add_0_r, drop_0 in E. apply E; lia.
Qed.

Lemma symtab_by_address_run s syms address :
  array_rep s syms -> symbols_fit syms -> Z.of_nat (length syms) <= 2 ^ 30 ->
  exists r, symtab_by_address address s = Some (r, s) /\
    (forall name off, r = Some (name, off) ->
       exists sym, sym ∈ syms /\ contains address sym /\ name = sym_name sym /\
         off = s32 (address - sym_address sym)) /\
    (symbols_unnested syms -> forall sym, sym ∈ syms -> contains address sym -> r <> None) /\
    (symbols_apart syms -> forall sym, sym ∈ syms -> contains address sym ->
       r = Some (sym_name sym, s32 (address - sym_address sym))).
Proof.
  intros Hrep Hfit Hlen. unfold symtab_by_address.
  destruct (bsearch_array_run (symbol_search_cmp address) s syms Hrep Hlen) as (r & Hrun & Hres).
  erewrite cmd_bind_Some by done. eexists. split; [done |].
  destruct r as [[i x] |]; cbn [search_result] in Hres.
  - destruct Hres as (_ & Hi & Hcmp). pose proof (list_elem_of_lookup_2 _ _ _ Hi) as Hin.
    apply symbol_search_Eq with (syms := syms) in Hcmp; [| done..]. split_and!.
    + intros name off [= <- <-]. by exists x.
    + done.
    + intros Hap sym [j Hj]%list_elem_of_lookup Hc.
      by rewrite (contains_unique address syms j (Z.to_nat i) sym x).
  - assert (symbols_unnested syms -> forall sym, sym ∈ syms -> contains address sym -> False) as Hno.
    { intros Hun sym Hin Hc. apply (Hres (symbols_monotone address syms Hfit Hun) sym Hin).
      by apply symbol_search_Eq with (syms := syms). }
    split_and!; [done | by intros Hun sym Hin Hc; destruct (Hno Hun sym Hin Hc) |].
    intros Hap sym Hin Hc. by destruct (Hno (symbols_apart_unnested syms Hfit Hap) sym Hin Hc).
Qed.

(** [symtab_by_name] is defined and answers with the first strong symbol of
    the name in the order of the table, or else with the first weak one, or
    else with 0; it is a scan of the whole table, that may be empty. *)
Lemma symtab_by_name_correct s syms name :
  array_rep s syms -> symtab_by_name name s = Some (lookup_name name 0 syms, s).
Proof. apply symtab_by_name_run. Qed.

(** C31: [symtab_by_address] is defined, for a table of at most 2^30 symbols; a
    symbol that it answers with contains the address, and the offset is the
    distance from its beginning; when no symbol is nested in another, it finds
    one if there is one that contains the address, and when they do not overlap
    at all, the one that does. *)
Theorem symtab_by_address_correct s syms address :
  array_rep s syms -> symbols_fit syms -> Z.of_nat (length syms) <= 2 ^ 30 ->
  exists r, symtab_by_address address s = Some (r, s) /\
    (forall name off, r = Some (name, off) ->
       exists sym, sym ∈ syms /\ contains address sym /\ name = sym_name sym /\
         off = s32 (address - sym_address sym)) /\
    (symbols_unnested syms -> forall sym, sym ∈ syms -> contains address sym -> r <> None) /\
    (symbols_apart syms -> forall sym, sym ∈ syms -> contains address sym ->
       r = Some (sym_name sym, s32 (address - sym_address sym))).
Proof. apply symtab_by_address_run. Qed.

(** A function with two small ones inside it, as the table has them. *)
Definition nested_symbols : list symbol_s :=
  [mk_symbol 4096 4096 false (lit "outer"); mk_symbol 4112 16 false (lit "inner");
   mk_symbol 4144 16 false (lit "last")].

Definition nested_table : symbol_table :=
  mk_array_mem (mk_array 1000 3 32 65536) (mk_heap 131072 262144)
    {[65536 := mk_symbol 4096 4096 false (lit "outer");
      65568 := mk_symbol 4112 16 false (lit "inner");
      65600 := mk_symbol 4144 16 false (lit "last")]}.

Lemma nested_table_rep : array_rep nested_table nested_symbols.
Proof.
  constructor; unfold heap_ok; simpl; try done; try lia.
  intros [| [| [| i]]] x Hx; by simplify_eq/=.
Qed.

(** In a table with nested symbols, which [symtab_build] does not exclude,
    [symtab_by_address] may not find the symbol that contains the address. *)
Lemma symtab_nested_missed :
  array_rep nested_table nested_symbols /\
  contains 6000 (mk_symbol 4096 4096 false (lit "outer")) /\
  symtab_by_address 6000 nested_table = Some (None, nested_table).
Proof.
  split_and!; [exact nested_table_rep | unfold contains; simpl; lia.. | reflexivity].
Qed.

Lemma symtab_by_name_correct_witness :
  symtab_by_name (lit "inner") nested_table = Some (4112, nested_table).
Proof.
  rewrite (symtab_by_name_correct nested_table nested_symbols (lit "inner") nested_table_rep).
  reflexivity.
Defined.

Lemma symtab_by_address_correct_witness :
  exists r, symtab_by_address 4150 nested_table = Some (r, nested_table) /\
    (forall name off, r = Some (name, off) ->
       exists sym, sym ∈ nested_symbols /\ contains 4150 sym /\ name = sym_name sym /\
         off = s32 (4150 - sym_address sym)).
Proof.
  destruct (symtab_by_address_correct nested_table nested_symbols 4150 nested_table_rep)
    as (r & Hrun & Hsound & _).
  - repeat (apply Forall_cons; split); [.. | constructor]; simpl; lia.
  - simpl. lia.
  - by exists r.
Defined.

(** ** A program and a library *)

Definition symtab_section (t : Z) (syms : list elf_sym) : elf_section :=
  mk_section (lit ".symtab") (Some t) (Some [0]) syms.

Definition symbols_disk (p : cstr) : option file :=
  if decide (p = lit "/usr/bin/app") then
    Some (mk_file [] (Some (mk_elf (Some 2) [mk_phdr 1 4194304]
      [symtab_section 2 [mk_elf_sym None 0 0 0 0; mk_elf_sym (Some (lit "main")) 4198400 64 12 18]])))
  else if decide (p = lit "/lib/libc.so.6") then
    Some (mk_file [] (Some (mk_elf (Some 3) [mk_phdr 6 64; mk_phdr 1 0]
      [symtab_section 11 [mk_elf_sym (Some (lit "malloc")) 1024 512 14 18;
                          mk_elf_sym (Some (lit "free")) 2048 256 14 34]])))
  else None.

Lemma symbols_named p : file_named symbols_disk p.
Proof.
  intros elf. unfold symbols_disk. repeat (case_decide; simpl; [intros [= <-] |]); [.. | done];
    (split; [by eexists |]); repeat constructor; simpl; intros; (done || by eexists).
Qed.

(** Without build-id and debug link, any file that is there is valid. *)
Lemma unchecked_ok disk d :
  g_build_id d = [] -> g_debug_crc32 d = 0 ->
  Forall (fun p => length p < DEBUG_PATH_SIZE)%nat (separate_files d) -> try_ok disk None d.
Proof.
  intros Hb Hc Hl. constructor.
  - intros p _. unfold valid. rewrite Hb, Hc. simpl. destruct (disk p); by eexists.
  - by rewrite Forall_forall in Hl.
  - intros p Hp. by apply elem_of_nil in Hp.
Qed.

Lemma symbols_entries_ok :
  Forall (entry_ok (reader := symbol_reader symbols_disk) symbols_disk None) example_entries.
Proof.
  unfold example_entries.
  apply List.Forall_cons; [| apply List.Forall_cons; [| apply List.Forall_nil]];
    (split; [| apply unchecked_ok; [vm_compute; reflexivity.. |] | intros; apply symbols_named]);
    apply (bool_decide_unpack _); vm_compute; exact I.
Qed.

