(* ===== verification/DebugLine.v ===== *)
(** * [debug_line.c]: the source lines of the target

    The file has two versions of its core, for libdw and for libdwarf; each
    builds a table with an item per compilation unit: the addresses of its
    first and last row, and the rows themselves, which stay in the library.
    [debug_line_search] finds the unit by a binary search of the table, and the
    row by a binary search in the unit, where an address belongs to a row when
    it is between it and the next.

    What the libraries find in a file is a value, a list of [dwarf_cu]. *)

From stdpp Require Import sorting.
From S2P Require Import Prelude HlistH Heap ArrayH BinSearch CString ProcMaps ProcInfo.
From S2P Require Import Crc32 DebugFile TableBuild Symtab.

(** A row of the line table: [dwarf_lineaddr], [dwarf_lineno], [dwarf_linesrc]. *)
Record dw_line := mk_line { l_addr : Z; l_no : Z; l_src : cstr }.

Record dwarf_die_s := mk_die {
  d_start : Z; d_end : Z;
  d_offset : Z;
  dw_lines : list dw_line;                 (* dw_line_nr is its length *)
  comp_dir_len : nat
}.

Definition sizeof_die : Z := 48.

Abbreviation die_table := (array_mem dwarf_die_s).

(** The item for the rows of a unit. *)
Definition make_die (offset : Z) (len : nat) (lines : list dw_line) : option dwarf_die_s :=
  first ← head lines;
  last ← last lines;
  Some (mk_die (u64 (l_addr first + offset)) (u64 (l_addr last + offset)) offset lines len).

(** ** With libdw *)

Module Libdw.

(** [dwarf_offdie] may return null; the rows are those of [dwarf_getsrclines]. *)
Record dwarf_cu := mk_cu { cu_die : bool; cu_lines : list dw_line }.

(** The loop over the units. *)
Fixpoint build_units (offset : Z) (cus : list dwarf_cu) (count : Z) : cmd die_table Z :=
  match cus with
  | [] => mret count
  | cu :: cus =>
      if negb (cu_die cu) then build_units offset cus count
      else if (length (cu_lines cu) =? 0)%nat then build_units offset cus count
      else
        dd ← gets_opt (fun _ => make_die offset 0 (cu_lines cu));
        push_item dd;;
        build_units offset cus (count + 1)
  end.

(** [None] is where [dwarf_begin] fails. *)
Definition debug_line_build_dwarf (dbg : option (list dwarf_cu)) (offset : Z) : cmd die_table Z :=
  match dbg with
  | None => mret (-1)
  | Some cus => build_units offset cus 0
  end.

Definition line_result (dd : dwarf_die_s) (line : dw_line) : option (cstr * Z) :=
  Some (l_src line, s32 (l_no line)).

End Libdw.

(** ** With libdwarf *)

Module Libdwarf.

Inductive srclines := LinesError | LinesNoEntry | LinesOk (lines : list dw_line).

(** [dwarf_siblingof], [dwarf_srclines] and the attribute [DW_AT_comp_dir]. *)
Record dwarf_cu := mk_cu { cu_sibling : bool; cu_lines : srclines; cu_comp_dir : option cstr }.

Fixpoint build_units (offset : Z) (cus : list dwarf_cu) (count : Z) : cmd die_table Z :=
  match cus with
  | [] => mret count
  | cu :: cus =>
      if negb (cu_sibling cu) then mret (-1)
      else match cu_lines cu with
      | LinesError => mret (-1)
      | LinesNoEntry => build_units offset cus count
      | LinesOk lines =>
          if (length lines =? 0)%nat then build_units offset cus count
          else
            let len := match cu_comp_dir cu with Some dir => S (length dir) | None => O end in
            dd ← gets_opt (fun _ => make_die offset len lines);
            push_item dd;;
            build_units offset cus (count + 1)
      end
  end.

Definition debug_line_build_dwarf (dbg : option (list dwarf_cu)) (offset : Z) : cmd die_table Z :=
  match dbg with
  | None => mret (-1)
  | Some cus => build_units offset cus 0
  end.

(** [filename + dd->comp_dir_len]; behind the null character it is undefined. *)
Definition line_result (dd : dwarf_die_s) (line : dw_line) : option (cstr * Z) :=
  if decide (comp_dir_len dd <= length (l_src line))%nat
  then Some (drop (comp_dir_len dd) (l_src line), s32 (l_no line)) else None.

End Libdwarf.

(** ** The searches *)

(** Two rows, one after the other. *)
Definition get_rows (dd : dwarf_die_s) (mid : Z) : cmd die_table (dw_line * dw_line) :=
  gets_opt (fun _ =>
    line1 ← dw_lines dd !! Z.to_nat mid;
    line2 ← dw_lines dd !! Z.to_nat (mid + 1);
    Some (line1, line2)).

Definition rows_cmp (offset address : Z) (rows : dw_line * dw_line) : comparison :=
  let addr1 := u64 (l_addr rows.1 + offset) in
  let addr2 := u64 (l_addr rows.2 + offset) in
  if address <? addr1 then Lt else if addr2 <? address then Gt else Eq.

Section search.
(** The result for a row, in one version or the other. *)
Context (line_result : dwarf_die_s -> dw_line -> option (cstr * Z)).

(** [None] is the null pointer. *)
Definition debug_line_search_dwdie (dd : dwarf_die_s) (address : Z) :
    cmd die_table (option (cstr * Z)) :=
  let max := s32 (Z.of_nat (length (dw_lines dd)) - 2) in
  r ← bsearch (get_rows dd) (rows_cmp (d_offset dd) address) (S (length (dw_lines dd))) 0 max;
  match r with
  | Some (_, (line1, _)) => x ← gets_opt (fun _ => line_result dd line1); mret (Some x)
  | None => mret None
  end.

Definition die_cmp (address : Z) (dd : dwarf_die_s) : comparison :=
  if address <? d_start dd then Lt else if d_end dd <? address then Gt else Eq.

Definition debug_line_search (address : Z) : cmd die_table (option (cstr * Z)) :=
  r ← bsearch_array (die_cmp address);
  match r with
  | None => mret None
  | Some (_, dd) => debug_line_search_dwdie dd address
  end.

(** *** In a unit *)

(** The rows of a unit, in the order of their addresses, which do not wrap. *)
Record die_ok (dd : dwarf_die_s) : Prop := {
  do_make : exists len, make_die (d_offset dd) len (dw_lines dd) = Some dd;
  do_fit : Forall (fun l => 0 <= l_addr l + d_offset dd < 2 ^ 64) (dw_lines dd);
  do_sorted : StronglySorted (fun l l' => l_addr l <= l_addr l') (dw_lines dd);
  do_length : Z.of_nat (length (dw_lines dd)) <= 2 ^ 30
}.

(** [line] is a row, [next] the one behind it. *)
Definition rows_of (dd : dwarf_die_s) (line next : dw_line) : Prop :=
  exists k, dw_lines dd !! k = Some line /\ dw_lines dd !! S k = Some next.

(** The pairs that the search goes through. *)
Definition row_pairs (dd : dwarf_die_s) : list (dw_line * dw_line) :=
  zip (dw_lines dd) (tail (dw_lines dd)).

Lemma row_pairs_lookup dd i p :
  row_pairs dd !! i = Some p <->
  dw_lines dd !! i = Some p.1 /\ dw_lines dd !! S i = Some p.2.
Proof.
  destruct p as [l l']. unfold row_pairs. by rewrite lookup_zip_Some, lookup_tail.
Qed.

Lemma row_pairs_length dd : length (row_pairs dd) = (length (dw_lines dd) - 1)%nat.
Proof. unfold row_pairs. rewrite length_zip_with. destruct (dw_lines dd); cbn [tail length]; lia. Qed.

Lemma sorted_lookup (ls : list dw_line) i j l l' :
  StronglySorted (fun l l' => l_addr l <= l_addr l') ls ->
  ls !! i = Some l -> ls !! j = Some l' -> (i <= j)%nat -> l_addr l <= l_addr l'.
Proof.
  intros Hs. revert i j. induction Hs as [| x ls Hs IH Hx]; intros i j Hi Hj Hij; [done |].
  destruct i as [| i], j as [| j]; simplify_eq/=; [done | | lia |].
  - rewrite Forall_forall in Hx. by apply Hx, list_elem_of_lookup_2 with j.
  - apply (IH i j); [done | done | lia].
Qed.

Lemma rows_cmp_Eq dd address line next :
  die_ok dd -> line ∈ dw_lines dd -> next ∈ dw_lines dd ->
  rows_cmp (d_offset dd) address (line, next) = Eq <->
  l_addr line + d_offset dd <= address <= l_addr next + d_offset dd.
Proof.
  intros [] H1 H2. rewrite Forall_forall in do_fit0. unfold rows_cmp. simpl.
  rewrite !u64_small by by apply do_fit0.
  repeat case_match; split; try done; lia.
Qed.

Lemma rows_monotone dd address :
  die_ok dd -> monotone (rows_cmp (d_offset dd) address) (row_pairs dd).
Proof.
  intros [] i j [l1 l2] [l3 l4] [Hi1 Hi2]%row_pairs_lookup [Hj1 Hj2]%row_pairs_lookup Hij. simpl in *.
  rewrite Forall_forall in do_fit0.
  pose proof (sorted_lookup _ _ _ _ _ do_sorted0 Hi1 Hj1 ltac:(lia)).
  pose proof (sorted_lookup _ _ _ _ _ do_sorted0 Hi2 Hj2 ltac:(lia)).
  pose proof (sorted_lookup _ _ _ _ _ do_sorted0 Hi1 Hi2 ltac:(lia)).
  unfold rows_cmp. simpl. rewrite !u64_small by (apply do_fit0; by eapply list_elem_of_lookup_2).
  split; repeat case_match; try done; lia.
Qed.

(** What a search in a unit may answer: the result of a row whose addresses are
    around the address; and if they are strictly around it, that one. *)
Lemma search_dwdie_run dd address s :
  die_ok dd -> (forall l, l ∈ dw_lines dd -> is_Some (line_result dd l)) ->
  exists r, debug_line_search_dwdie dd address s = Some (r, s) /\
    (forall x, r = Some x -> exists line next, rows_of dd line next /\
       l_addr line + d_offset dd <= address <= l_addr next + d_offset dd /\
       line_result dd line = Some x) /\
    (forall line next, rows_of dd line next ->
       l_addr line + d_offset dd < address < l_addr next + d_offset dd ->
       r = line_result dd line /\ r <> None).
Proof.
  intros Hok Hres. unfold debug_line_search_dwdie. cbv zeta.
  pose proof (do_length _ Hok) as Hlen. pose proof (row_pairs_length dd) as Hpl.
  assert (0 < length (dw_lines dd))%nat as Hpos.
  { destruct (do_make _ Hok) as [len Hm]. unfold make_die in Hm. by destruct (dw_lines dd); simpl; [| lia]. }
  rewrite s32_small by (unfold is_s32; lia).
  assert (reads (get_rows dd) s (row_pairs dd)) as Hreads.
  { intros i [l1 l2] [Hi1 Hi2]%row_pairs_lookup. unfold get_rows, gets_opt.
    rewrite Nat2Z.id. replace (Z.to_nat (Z.of_nat i + 1)) with (S i) by lia.
    simpl in *. by rewrite Hi1, Hi2. }
  destruct (bsearch_run (get_rows dd) (rows_cmp (d_offset dd) address) (S (length (dw_lines dd))) s
    (row_pairs dd) 0 (Z.of_nat (length (dw_lines dd)) - 2)) as (r & Hrun & Hr); [done | lia.. | |].
  { intros _ i x Hx Hi. apply lookup_lt_Some in Hx. lia. }
  erewrite cmd_bind_Some by done. destruct r as [[i [l1 l2]] |]; cbn [search_result] in Hr.
  - destruct Hr as (_ & Hi & Hcmp). apply row_pairs_lookup in Hi as [Hi1 Hi2]. simpl in *.
    assert (rows_of dd l1 l2) as Hrows by by exists (Z.to_nat i).
    apply rows_cmp_Eq in Hcmp; [| done | by eapply list_elem_of_lookup_2..].
    destruct (Hres l1 ltac:(by eapply list_elem_of_lookup_2)) as [x Hx].
    erewrite (cmd_bind_Some (gets_opt _) _ _ x) by (unfold gets_opt; by rewrite Hx).
    exists (Some x). split; [done |]. split.
    + intros y [= <-]. by exists l1, l2.
    + intros line next (k & Hk1 & Hk2) Ha. split; [| done]. rewrite <- Hx. f_equal.
      pose proof (do_sorted _ Hok) as Hs. destruct (decide (Z.to_nat i = k)) as [<- |]; [congruence | exfalso].
      destruct (decide (Z.to_nat i < k)%nat).
      * pose proof (sorted_lookup _ _ _ _ _ Hs Hi2 Hk1 ltac:(lia)). lia.
      * pose proof (sorted_lookup _ _ _ _ _ Hs Hk2 Hi1 ltac:(lia)). lia.
  - exists None. split; [done |]. split; [done |]. intros line next (k & Hk1 & Hk2) Ha. exfalso.
    assert (row_pairs dd !! k = Some (line, next)) as Hk by by apply row_pairs_lookup.
    apply (Hr (rows_monotone dd address Hok) (line, next) (list_elem_of_lookup_2 _ _ _ Hk)).
    apply rows_cmp_Eq; [done | by eapply list_elem_of_lookup_2.. | lia].
Qed.

(** *** In the table *)

(** In the order of the addresses; the units do not overlap. *)
Definition dies_apart (dies : list dwarf_die_s) : Prop :=
  forall i j dd dd', dies !! i = Some dd -> dies !! j = Some dd' -> (i < j)%nat ->
    d_end dd <= d_start dd'.

Lemma last_lookup {A} (l : list A) x : last l = Some x <-> l !! (length l - 1)%nat = Some x.
Proof. rewrite last_lookup. by rewrite Nat.sub_1_r. Qed.

Lemma die_bounds dd l :
  die_ok dd -> l ∈ dw_lines dd -> d_start dd <= l_addr l + d_offset dd <= d_end dd.
Proof.
  intros [] [k Hk]%list_elem_of_lookup. destruct do_make0 as [len Hm]. unfold make_die in Hm.
  destruct (head (dw_lines dd)) as [f |] eqn:Ef; [| done].
  destruct (last (dw_lines dd)) as [la |] eqn:El; [| done]. simpl in Hm.
  injection Hm as Hm. assert (d_start dd = u64 (l_addr f + d_offset dd)) as -> by (by rewrite <- Hm at 1).
  assert (d_end dd = u64 (l_addr la + d_offset dd)) as -> by (by rewrite <- Hm at 1).
  rewrite head_lookup in Ef. apply last_lookup in El.
  rewrite Forall_forall in do_fit0.
  rewrite !u64_small by (apply do_fit0; by eapply list_elem_of_lookup_2).
  pose proof (lookup_lt_Some _ _ _ Hk).
  pose proof (sorted_lookup _ _ _ _ _ do_sorted0 Ef Hk ltac:(lia)).
  pose proof (sorted_lookup _ _ _ _ _ do_sorted0 Hk El ltac:(lia)). lia.
Qed.

Lemma die_cmp_Eq address dd : die_cmp address dd = Eq <-> d_start dd <= address <= d_end dd.
Proof. unfold die_cmp. repeat case_match; split; try done; lia. Qed.

Lemma dies_monotone address dies :
  Forall die_ok dies -> dies_apart dies -> monotone (die_cmp address) dies.
Proof.
  rewrite Forall_forall. intros Hok Hap i j x y Hx Hy Hij. pose proof (Hap i j x y Hx Hy Hij).
  assert (forall d, d ∈ dies -> d_start d <= d_end d) as Hle.
  { intros d Hd. specialize (Hok d Hd). destruct (do_make _ Hok) as [len Hm]. unfold make_die in Hm.
    destruct (dw_lines d) as [| l ls] eqn:E; [done |].
    pose proof (die_bounds d l Hok ltac:(rewrite E; set_solver)). lia. }
  pose proof (Hle x (list_elem_of_lookup_2 _ _ _ Hx)). pose proof (Hle y (list_elem_of_lookup_2 _ _ _ Hy)).
  unfold die_cmp. split; repeat case_match; try done; lia.
Qed.

Lemma debug_line_search_run s dies address :
  array_rep s dies -> Forall die_ok dies -> Z.of_nat (length dies) <= 2 ^ 30 ->
  (forall dd l, dd ∈ dies -> l ∈ dw_lines dd -> is_Some (line_result dd l)) ->
  exists r, debug_line_search address s = Some (r, s) /\
    (forall x, r = Some x -> exists dd line next, dd ∈ dies /\ rows_of dd line next /\
       l_addr line + d_offset dd <= address <= l_addr next + d_offset dd /\
       line_result dd line = Some x) /\
    (dies_apart dies -> forall dd line next, dd ∈ dies -> rows_of dd line next ->
       l_addr line + d_offset dd < address < l_addr next + d_offset dd ->
       r = line_result dd line /\ r <> None).
Proof.
  intros Hrep Hok Hlen Hres. pose proof Hok as Hok'. rewrite Forall_forall in Hok'.
  unfold debug_line_search.
  destruct (bsearch_array_run (die_cmp address) s dies Hrep Hlen) as (r & Hrun & Hr).
  erewrite cmd_bind_Some by done. destruct r as [[i dd] |]; cbn [search_result] in Hr.
  - destruct Hr as (_ & Hi & Hcmp%die_cmp_Eq). pose proof (list_elem_of_lookup_2 _ _ _ Hi) as Hin.
    destruct (search_dwdie_run dd address s (Hok' dd Hin) (fun l => Hres dd l Hin))
      as (r & Hrun2 & Hsound & Hcomp).
    exists r. split; [done |]. split.
    + intros x Hx. destruct (Hsound x Hx) as (line & next & ? & ? & ?). by exists dd, line, next.
    + intros Hap dd' line next Hin' Hrows Ha. apply list_elem_of_lookup in Hin' as Hj. destruct Hj as [j Hj].
      assert (dd' = dd) as ->; [| by eapply Hcomp].
      destruct Hrows as (k & Hk1 & Hk2).
      pose proof (die_bounds dd' line (Hok' dd' Hin') ltac:(by eapply list_elem_of_lookup_2)).
      pose proof (die_bounds dd' next (Hok' dd' Hin') ltac:(by eapply list_elem_of_lookup_2)).
      destruct (decide (Z.to_nat i = j)) as [<- |]; [congruence | exfalso].
      destruct (decide (Z.to_nat i < j)%nat).
      * pose proof (Hap _ _ _ _ Hi Hj ltac:(done)). lia.
      * pose proof (Hap _ _ _ _ Hj Hi ltac:(lia)). lia.
  - exists None. split; [done |]. split; [done |]. intros Hap dd line next Hin (k & Hk1 & Hk2) Ha. exfalso.
    pose proof (die_bounds dd line (Hok' dd Hin) ltac:(by eapply list_elem_of_lookup_2)).
    pose proof (die_bounds dd next (Hok' dd Hin) ltac:(by eapply list_elem_of_lookup_2)).
    apply (Hr (dies_monotone address dies Hok Hap) dd Hin). apply die_cmp_Eq. lia.
Qed.

End search.

(** ** Building the table *)

Lemma build_unit_run init n xs dd (k : cmd die_table Z) (c : Z) ys s :
  growing init n xs s -> 0 < init -> Z.of_nat (length xs + S (length ys)) <= n ->
  (forall s', growing init n (xs ++ [dd]) s' ->
     exists s2, k s' = Some (c, s2) /\ growing init n ((xs ++ [dd]) ++ ys) s2) ->
  exists s2, (push_item dd;; k) s = Some (c, s2) /\ growing init n (xs ++ dd :: ys) s2.
Proof.
  intros Hg Hi Hn Hk. destruct (push_item_run init n xs dd s Hg Hi) as (s1 & Hrun & Hg1 & _); [lia |].
  destruct (Hk s1 Hg1) as (s2 & Hrun2 & Hg2). exists s2.
  erewrite cmd_bind_Some by done. by rewrite <- app_assoc in Hg2.
Qed.

(** What the rest of the file relies on in a version: the items of the units,
    and that [build_dwarf] appends them and returns their number. *)
Class DwarfLib := {
  dwarf_cu : Type;
  build_dwarf : option (list dwarf_cu) -> Z -> cmd die_table Z;
  line_result : dwarf_die_s -> dw_line -> option (cstr * Z);
  unit_item : Z -> dwarf_cu -> option dwarf_die_s;
  units_ok : list dwarf_cu -> Prop;
  build_dwarf_None : forall offset s, build_dwarf None offset s = Some (-1, s);
  build_dwarf_run : forall init n xs offset cus s,
    growing init n xs s -> 0 < init -> units_ok cus ->
    Z.of_nat (length xs + length (omap (unit_item offset) cus)) <= n ->
    exists s', build_dwarf (Some cus) offset s =
        Some (Z.of_nat (length (omap (unit_item offset) cus)), s') /\
      growing init n (xs ++ omap (unit_item offset) cus) s';
  unit_item_make : forall offset cu dd, unit_item offset cu = Some dd ->
    exists len lines, make_die offset len lines = Some dd
}.

Lemma make_die_None offset len lines : make_die offset len lines = None <-> lines = [].
Proof.
  unfold make_die. destruct lines as [| l ls]; [done |]. cbn [head].
  destruct (last (l :: ls)) eqn:E; [done |]. by apply last_None in E.
Qed.

Module LibdwRun.

Definition unit_item (offset : Z) (cu : Libdw.dwarf_cu) : option dwarf_die_s :=
  if Libdw.cu_die cu then make_die offset 0 (Libdw.cu_lines cu) else None.

Lemma libdw_units_run init n xs offset cus count s :
  growing init n xs s -> 0 < init ->
  let ys := omap (unit_item offset) cus in
  Z.of_nat (length xs + length ys) <= n ->
  exists s', Libdw.build_units offset cus count s = Some (count + Z.of_nat (length ys), s') /\
    growing init n (xs ++ ys) s'.
Proof.
  cbv zeta. intros Hg Hi. revert xs s count Hg. induction cus as [| cu cus IH]; intros xs s count Hg Hn;
    cbn [Libdw.build_units].
  - exists s. rewrite app_nil_r. simpl. by rewrite Z.add_0_r.
  - cbn [omap list_omap] in *. destruct (unit_item offset cu) as [dd |] eqn:E; unfold unit_item in E.
    + destruct (Libdw.cu_die cu); [| done]. cbn [negb].
      destruct (Nat.eqb_spec (length (Libdw.cu_lines cu)) 0) as [E0%nil_length_inv | _];
        [by rewrite E0 in E |].
      erewrite (cmd_bind_Some (gets_opt _) _ _ dd) by (unfold gets_opt; by rewrite E).
      cbn [length] in Hn. apply build_unit_run; [done | done | lia |].
      intros s' Hg'. destruct (IH _ _ (count + 1) Hg') as (s2 & Hrun & Hg2);
        [rewrite length_app; simpl; lia |].
      exists s2. split; [| done]. rewrite Hrun. cbn [length]. do 2 f_equal. lia.
    + destruct (Libdw.cu_die cu); cbn [negb]; [| by apply IH].
      apply make_die_None in E. rewrite E. by apply IH.
Qed.

End LibdwRun.

#[export, refine] Instance libdw : DwarfLib := {
  dwarf_cu := Libdw.dwarf_cu;
  build_dwarf := Libdw.debug_line_build_dwarf;
  line_result := Libdw.line_result;
  unit_item := LibdwRun.unit_item;
  units_ok _ := True
}.
Proof.
  - done.
  - intros init n xs offset cus s Hg Hi _ Hn. by apply (LibdwRun.libdw_units_run init n xs offset cus 0 s).
  - intros offset cu dd. unfold LibdwRun.unit_item. case_match; [by eexists _, _ | done].
Defined.

Module LibdwarfRun.

Definition comp_len (cu : Libdwarf.dwarf_cu) : nat :=
  match Libdwarf.cu_comp_dir cu with Some dir => S (length dir) | None => O end.

Definition unit_item (offset : Z) (cu : Libdwarf.dwarf_cu) : option dwarf_die_s :=
  match Libdwarf.cu_lines cu with
  | Libdwarf.LinesOk lines => make_die offset (comp_len cu) lines
  | _ => None
  end.

(** No error on the way: it would leave the items before it in the table. *)
Definition unit_ok (cu : Libdwarf.dwarf_cu) : Prop :=
  Libdwarf.cu_sibling cu = true /\ Libdwarf.cu_lines cu <> Libdwarf.LinesError.

Lemma libdwarf_units_run init n xs offset cus count s :
  growing init n xs s -> 0 < init -> Forall unit_ok cus ->
  let ys := omap (unit_item offset) cus in
  Z.of_nat (length xs + length ys) <= n ->
  exists s', Libdwarf.build_units offset cus count s = Some (count + Z.of_nat (length ys), s') /\
    growing init n (xs ++ ys) s'.
Proof.
  cbv zeta. intros Hg Hi Hok. revert xs s count Hg.
  induction Hok as [| cu cus [Hsib Herr] _ IH]; intros xs s count Hg Hn; cbn [Libdwarf.build_units].
  - exists s. rewrite app_nil_r. simpl. by rewrite Z.add_0_r.
  - cbn [omap list_omap] in *. rewrite Hsib. cbn [negb].
    destruct (unit_item offset cu) as [dd |] eqn:E; unfold unit_item in E;
      destruct (Libdwarf.cu_lines cu) as [| | lines]; try done; try by apply IH.
    + destruct (Nat.eqb_spec (length lines) 0) as [E0%nil_length_inv | _]; [by rewrite E0 in E |].
      fold (comp_len cu).
      erewrite (cmd_bind_Some (gets_opt _) _ _ dd) by (unfold gets_opt; by rewrite E).
      cbn [length] in Hn. apply build_unit_run; [done | done | lia |].
      intros s' Hg'. destruct (IH _ _ (count + 1) Hg') as (s2 & Hrun & Hg2);
        [rewrite length_app; simpl; lia |].
      exists s2. split; [| done]. rewrite Hrun. cbn [length]. do 2 f_equal. lia.
    + apply make_die_None in E. rewrite E. by apply IH.
Qed.

End LibdwarfRun.

#[export, refine] Instance libdwarf : DwarfLib := {
  dwarf_cu := Libdwarf.dwarf_cu;
  build_dwarf := Libdwarf.debug_line_build_dwarf;
  line_result := Libdwarf.line_result;
  unit_item := LibdwarfRun.unit_item;
  units_ok := Forall LibdwarfRun.unit_ok
}.
Proof.
  - done.
  - intros init n xs offset cus s Hg Hi Hok Hn. by apply (LibdwarfRun.libdwarf_units_run init n xs offset cus 0 s).
  - intros offset cu dd. unfold LibdwarfRun.unit_item. case_match; [done.. | by eexists _, _].
Defined.

Definition ET_EXEC : Z := 2.

Section build.
Context {lib : DwarfLib}.
Context (open_file : cstr -> option file).
Context (opt_debug_info_file : option cstr).
(** The units that the library finds in a file; [None] when it fails. *)
Context (dwarf_begin : cstr -> option (list dwarf_cu)).
Context `{!Qsort}.

Definition debug_line_build_file (path : cstr) (start : Z) : cmd die_table Z :=
  match open_file path with
  | None => mret (-1)
  | Some f =>
      match f_elf f with
      | None => mret (-1)
      | Some elf =>
          t ← gets_opt (fun _ => e_type elf);
          build_dwarf (dwarf_begin path) (if t =? ET_EXEC then 0 else start)
      end
  end.

Definition dwarf_die_cmp (dda ddb : dwarf_die_s) : Z :=
  if d_start dda <? d_start ddb then -1 else 1.

Definition debug_line_build {maps : ProcMaps} : cmd (maps_st * (debug_state * die_table)) (result unit) :=
  build_table open_file opt_debug_info_file debug_line_build_file MsgNoDebugLine dwarf_die_cmp.

(** *** What a file has *)

Definition file_units (p : cstr) : option (Z * list dwarf_cu) :=
  f ← open_file p;
  elf ← f_elf f;
  t ← e_type elf;
  cus ← dwarf_begin p;
  Some (t, cus).

Definition file_dies (start : Z) (p : cstr) : list dwarf_die_s :=
  match file_units p with
  | Some (t, cus) => omap (unit_item (if t =? ET_EXEC then 0 else start)) cus
  | None => []
  end.

Definition dies_count (start : Z) (p : cstr) : Z :=
  match file_units p with
  | Some _ => Z.of_nat (length (file_dies start p))
  | None => -1
  end.

Definition file_dwarf_ok (p : cstr) : Prop :=
  (forall elf, open_file p ≫= f_elf = Some elf -> is_Some (e_type elf)) /\
  (forall cus, dwarf_begin p = Some cus -> units_ok cus).

Lemma debug_line_file_run init n xs p start s :
  growing init n xs s -> 0 < init -> file_dwarf_ok p ->
  Z.of_nat (length xs + length (file_dies start p)) <= n ->
  exists s', debug_line_build_file p start s = Some (dies_count start p, s') /\
    growing init n (xs ++ file_dies start p) s'.
Proof.
  intros Hg Hi [Helf Hcus]. unfold debug_line_build_file, dies_count, file_dies, file_units.
  destruct (open_file p) as [f |]; simpl in *; [| exists s; by rewrite app_nil_r].
  destruct (f_elf f) as [elf |]; simpl in *; [| exists s; by rewrite app_nil_r].
  destruct (Helf elf eq_refl) as [t Ht]. rewrite Ht in *. simpl.
  erewrite (cmd_bind_Some (gets_opt _) _ _ t) by done. cbv beta.
  destruct (dwarf_begin p) as [cus |]; simpl.
  - intros Hn. apply build_dwarf_run; [done | done | by apply Hcus | done].
  - exists s. by rewrite build_dwarf_None, app_nil_r.
Qed.

Lemma dies_count_dies start p :
  file_dwarf_ok p -> dies_count start p <= 0 -> file_dies start p = [].
Proof.
  intros _. unfold dies_count, file_dies. destruct (file_units p) as [[t cus] |]; [| done].
  destruct (omap _ cus); [done | simpl; lia].
Qed.

#[export] Instance die_reader : Reader dwarf_die_s := {
  build_file := debug_line_build_file;
  items := file_dies;
  count := dies_count;
  readable := file_dwarf_ok;
  build_file_run := debug_line_file_run;
  count_items := dies_count_dies
}.


End build.


(** With libdwarf, the answer's file name is the row's name behind the compile
    directory, for a file in that directory; for a name that is not longer than
    the directory, it is behind the end of the name.  That the file is in the
    directory is not checked. *)
Lemma libdwarf_file_name dd line dir :
  comp_dir_len dd = S (length dir) ->
  (forall rest, l_src line = dir ++ "/"%char :: rest ->
     Libdwarf.line_result dd line = Some (rest, s32 (l_no line))) /\
  ((length (l_src line) <= length dir)%nat -> Libdwarf.line_result dd line = None).
Proof.
  intros Hlen. unfold Libdwarf.line_result. rewrite Hlen. split.
  - intros rest ->. rewrite decide_True by (rewrite length_app; simpl; lia).
    replace (S (length dir)) with (length dir + 1)%nat by lia.
    by rewrite <- drop_drop, drop_app_length.
  - intros Hs. by rewrite decide_False by lia.
Qed.

(** ** An example: a program of one unit, a library of two *)

Definition app_lines : list dw_line :=
  [mk_line 4198400 3 (lit "/src/app/main.c"); mk_line 4198410 4 (lit "/src/app/main.c");
   mk_line 4198430 5 (lit "/src/app/main.c")].

Definition lines_a : list dw_line :=
  [mk_line 512 7 (lit "/src/lib/a.c"); mk_line 520 9 (lit "/src/lib/a.c")].

Definition lines_b : list dw_line :=
  [mk_line 256 1 (lit "/src/lib/b.c"); mk_line 264 2 (lit "/src/lib/b.c")].

Definition dwarf_disk (p : cstr) : option (list Libdw.dwarf_cu) :=
  if decide (p = lit "/usr/bin/app") then Some [Libdw.mk_cu false []; Libdw.mk_cu true app_lines]
  else if decide (p = lit "/lib/libc.so.6") then
    Some [Libdw.mk_cu true lines_a; Libdw.mk_cu true []; Libdw.mk_cu true lines_b]
  else None.

Lemma dwarf_disk_ok p : file_dwarf_ok (lib := libdw) symbols_disk dwarf_disk p.
Proof.
  split; [| done]. intros elf. unfold symbols_disk.
  repeat (case_decide; simpl; [intros [= <-]; by eexists |]). done.
Qed.

Lemma dwarf_entries_ok :
  Forall (entry_ok (reader := die_reader (lib := libdw) symbols_disk dwarf_disk) symbols_disk None)
    example_entries.
Proof.
  unfold example_entries.
  apply List.Forall_cons; [| apply List.Forall_cons; [| apply List.Forall_nil]];
    (split; [| apply unchecked_ok; [vm_compute; reflexivity.. |] | intros; apply dwarf_disk_ok]);
    apply (bool_decide_unpack _); vm_compute; exact I.
Qed.


Definition one_die : dwarf_die_s := mk_die 4198400 4198430 0 app_lines 9.

Definition one_table : die_table :=
  mk_array_mem (mk_array 1000 1 48 65536) (mk_heap 131072 262144)
    {[65536 := mk_die 4198400 4198430 0 app_lines 9]}.

Lemma one_table_rep : array_rep one_table [one_die].
Proof.
  constructor; unfold heap_ok; simpl; try done; try lia.
  intros [| i] x Hx; by simplify_eq/=.
Qed.

Lemma one_die_ok : die_ok one_die.
Proof.
  constructor.
  - by exists 9%nat.
  - repeat (apply List.Forall_cons; [simpl; lia |]). apply List.Forall_nil.
  - repeat (apply SSorted_cons || apply SSorted_nil || apply List.Forall_cons || apply List.Forall_nil);
      simpl; lia.
  - simpl. lia.
Qed.


Lemma libdwarf_file_name_witness :
  Libdwarf.line_result one_die (mk_line 0 6 (lit "/src/app/main.c")) = Some (lit "main.c", 6) /\
  Libdwarf.line_result one_die (mk_line 0 6 (lit "/gen/x.h")) = None.
Proof.
  split.
  - destruct (libdwarf_file_name one_die (mk_line 0 6 (lit "/src/app/main.c")) (lit "/src/app") eq_refl)
      as [E _]. exact (E (lit "main.c") eq_refl).
  - destruct (libdwarf_file_name one_die (mk_line 0 6 (lit "/gen/x.h")) (lit "/src/app") eq_refl)
      as [_ E]. apply E. simpl. lia.
Defined.
