(* ===== verification/Callstack.v ===== *)
(** * [callstack.c]: call stacks and their statistics

    A [struct callstack_s] is an object at an address, with the node of the
    hash table at [cs + 56] and the array [ips] right behind it, at [cs + 72];
    [ips] is the key of the table, so it is kept as the bytes of the table's
    memory.  [callstack_current] is at the pointer level: it calls the models of
    [hash.h] and of [ptr_backtrace]. *)

From S2P Require Import Prelude Path ListH HlistH HashH PtrBacktrace Heap.

Definition BACKTRACE_MAX : Z := 50.

(** The scalar members, in the order of the structure. *)
Record callstack_s := mk_callstack {
  id : Z;
  alloc_count : Z; free_count : Z;
  expired_count : Z; free_expired_count : Z;
  alloc_size : Z; free_size : Z;
  expired_size : Z; free_expired_size : Z;
  free_min : Z; free_max : Z; free_total : Z;
  unfree_max : Z;
  ip_num : Z
}.

Definition zero_callstack : callstack_s := mk_callstack 0 0 0 0 0 0 0 0 0 0 0 0 0 0.

(** Assignment to one member. *)
Definition set_id v c := mk_callstack v (alloc_count c) (free_count c) (expired_count c)
  (free_expired_count c) (alloc_size c) (free_size c) (expired_size c) (free_expired_size c)
  (free_min c) (free_max c) (free_total c) (unfree_max c) (ip_num c).
Definition set_alloc n sz c := mk_callstack (id c) n (free_count c) (expired_count c)
  (free_expired_count c) sz (free_size c) (expired_size c) (free_expired_size c)
  (free_min c) (free_max c) (free_total c) (unfree_max c) (ip_num c).
Definition set_free n sz c := mk_callstack (id c) (alloc_count c) n (expired_count c)
  (free_expired_count c) (alloc_size c) sz (expired_size c) (free_expired_size c)
  (free_min c) (free_max c) (free_total c) (unfree_max c) (ip_num c).
Definition set_expired n sz c := mk_callstack (id c) (alloc_count c) (free_count c) n
  (free_expired_count c) (alloc_size c) (free_size c) sz (free_expired_size c)
  (free_min c) (free_max c) (free_total c) (unfree_max c) (ip_num c).
Definition set_free_expired n sz c := mk_callstack (id c) (alloc_count c) (free_count c)
  (expired_count c) n (alloc_size c) (free_size c) (expired_size c) sz
  (free_min c) (free_max c) (free_total c) (unfree_max c) (ip_num c).
Definition set_free_times mn mx tot c := mk_callstack (id c) (alloc_count c) (free_count c)
  (expired_count c) (free_expired_count c) (alloc_size c) (free_size c) (expired_size c)
  (free_expired_size c) mn mx tot (unfree_max c) (ip_num c).
Definition set_unfree_max v c := mk_callstack (id c) (alloc_count c) (free_count c)
  (expired_count c) (free_expired_count c) (alloc_size c) (free_size c) (expired_size c)
  (free_expired_size c) (free_min c) (free_max c) (free_total c) v (ip_num c).
Definition set_ip_num v c := mk_callstack (id c) (alloc_count c) (free_count c)
  (expired_count c) (free_expired_count c) (alloc_size c) (free_size c) (expired_size c)
  (free_expired_size c) (free_min c) (free_max c) (free_total c) (unfree_max c) v.

Definition sizeof_callstack : Z := 72.
Definition offset_hash_node : Z := 56.
Definition offset_ips : Z := 72.

Section callstack.
Context {uspace_t upt_t : Type}.
Context (unw_create_addr_space : uspace_t) (UPT_create : Z -> upt_t).
Context `{!Symbolizer}.
(** The addresses of the static variables. *)
Context (space_head spaces g_callstack_hash : Z).
Context (opt_backtrace_limit : Z).

Record cs_world := mk_cs_world {
  cs_heap : heap;
  cs_bt : bt_state (uspace_t := uspace_t) (upt_t := upt_t);
  cs_hash : hash_mem;
  cs_objs : gmap Z callstack_s;
  cs_out : list msg
}.

#[export, refine] Instance cs_heap_lens : Lens cs_world heap := {
  view := cs_heap;
  update h s := mk_cs_world h (cs_bt s) (cs_hash s) (cs_objs s) (cs_out s)
}.
Proof. all: by try intros []. Defined.

#[export, refine] Instance cs_bt_lens : Lens cs_world (bt_state (uspace_t := uspace_t) (upt_t := upt_t)) := {
  view := cs_bt;
  update b s := mk_cs_world (cs_heap s) b (cs_hash s) (cs_objs s) (cs_out s)
}.
Proof. all: by try intros []. Defined.

#[export, refine] Instance cs_hash_lens : Lens cs_world hash_mem := {
  view := cs_hash;
  update h s := mk_cs_world (cs_heap s) (cs_bt s) h (cs_objs s) (cs_out s)
}.
Proof. all: by try intros []. Defined.

Definition printf (m : msg) : cmd cs_world unit := modify (fun s =>
  mk_cs_world (cs_heap s) (cs_bt s) (cs_hash s) (cs_objs s) (cs_out s ++ [m])).

Definition get_cs (cs : Z) : cmd cs_world callstack_s :=
  gets_opt (fun s => cs_objs s !! cs).

(** A write to members of [*cs]. *)
Definition modify_cs (cs : Z) (f : callstack_s -> callstack_s) : cmd cs_world unit :=
  fun s =>
  match cs_objs s !! cs with
  | Some c => Some (tt, mk_cs_world (cs_heap s) (cs_bt s) (cs_hash s)
                          (<[cs := f c]> (cs_objs s)) (cs_out s))
  | None => None
  end.

(** The allocated structure, zeroed by [bzero], its [ips] copied by [memcpy];
    [hash_node] is part of what [bzero] clears. *)
Definition init_callstack (cs : Z) (ips : list Z) : cmd cs_world unit := modify (fun s =>
  let node := cs + offset_hash_node in
  let c := chains (cs_hash s) in
  mk_cs_world (cs_heap s) (cs_bt s)
    (mk_hash_mem
      (mk_hmem (<[node := NULL]> (cell c)) (<[node := NULL]> (pprev c)))
      (write_bytes (bytes (cs_hash s)) (cs + offset_ips) (key_bytes ips)))
    (<[cs := set_ip_num (Z.of_nat (length ips)) zero_callstack]> (cs_objs s)) (cs_out s)).

Definition callstack_current (e : env uspace_t upt_t) : cmd cs_world Z :=
  bt ← zoom (ptr_backtrace unw_create_addr_space UPT_create space_head spaces
               (frames e) (g_current_thread e) (opt_backtrace_limit - 1));
  let ips := g_current_entry e :: bt in
  let ip_num := Z.of_nat (length ips) in
  if BACKTRACE_MAX <? ip_num then undefined  (* past the end of the array ips *)
  else
    p ← zoom (hash_search g_callstack_hash (key_bytes ips) (8 * ip_num));
    if negb (p =? NULL) then mret (list_entry p offset_hash_node)
    else
      cs ← zoom (malloc (sizeof_callstack + 8 * ip_num));
      if cs =? NULL then mret NULL
      else
        init_callstack cs ips;;
        zoom (hash_add g_callstack_hash (cs + offset_hash_node) (8 * ip_num));;
        mret cs.

(** A 64-bit word of the array [ips]. *)
Definition read_ip (cs i : Z) : cmd cs_world Z :=
  gets_opt (fun s =>
    bs ← read_bytes (bytes (cs_hash s)) (cs + offset_ips + 8 * i) 8;
    match bs with
    | [b0; b1; b2; b3; b4; b5; b6; b7] =>
        Some (le32 b0 b1 b2 b3 + 2 ^ 32 * le32 b4 b5 b6 b7)
    | _ => None
    end).

Definition frame_msg (address : Z) : msg :=
  MsgFrame address (addr_maps_search address) (symtab_by_address address)
    (debug_line_search (u64 (address - 1))).

(** The loop of [callstack_print], from index [i], [count] entries to go. *)
Fixpoint print_frames (cs i : Z) (count : nat) : cmd cs_world unit :=
  match count with
  | O => mret tt
  | S count =>
      address ← read_ip cs i;
      if address =? 0 then mret tt
      else
        printf (frame_msg address);;
        match symtab_by_address address with
        | Some (name, _) =>
            if decide (name = "main"%string) then mret tt
            else print_frames cs (i + 1) count
        | None => print_frames cs (i + 1) count
        end
  end.

Definition callstack_print (cs : Z) : cmd cs_world unit :=
  c ← get_cs cs;
  print_frames cs 0 (Z.to_nat (ip_num c)).

End callstack.
