(* ===== verification/Memblock.v ===== *)
(** * [memblock.c]: the live memory blocks of the target

    A [struct memblock_s] is an object at an address: its list node is at
    [mb + 0], its hash node at [mb + 16], and the member [pointer], which is the
    key of the table, at [mb + 32]; [pointer] is kept as the bytes of the
    table's memory.  The operations are at the pointer level: they call the
    models of [list.h], [hash.h] and [callstack.c]. *)

From S2P Require Import Prelude Path ListH HlistH HashH PtrBacktrace Heap.
From S2P Require Import Callstack.

Record memblock_s := mk_memblock {
  size : Z;
  create : Z;
  expired : Z;
  callstack : Z
}.

Definition sizeof_memblock : Z := 72.
Definition offset_list_node : Z := 0.
Definition offset_mb_hash_node : Z := 16.
Definition offset_pointer : Z := 32.
Definition sizeof_uintptr : Z := 8.
Definition DONOT_SHOW_AFTER_FREE_EXPIRES : Z := 3.

Section memblock.
Context {uspace_t upt_t : Type}.
Context (unw_create_addr_space : uspace_t) (UPT_create : Z -> upt_t).
Context `{!Symbolizer}.
(** The addresses of the static variables. *)
Context (space_head spaces g_callstack_hash : Z).
Context (g_memblock_hash g_memblock_active g_memblock_expire : Z).
Context (opt_backtrace_limit : Z).

Record mb_world := mk_mb_world {
  mb_cs : cs_world (uspace_t := uspace_t) (upt_t := upt_t);
  mb_lists : lmem;
  mb_hash : hash_mem;
  mb_objs : gmap Z memblock_s;
  mb_callstack_id : Z                     (* the static variable callstack_id *)
}.

#[export, refine] Instance mb_cs_lens :
    Lens mb_world (cs_world (uspace_t := uspace_t) (upt_t := upt_t)) := {
  view := mb_cs;
  update c s := mk_mb_world c (mb_lists s) (mb_hash s) (mb_objs s) (mb_callstack_id s)
}.
Proof. all: by try intros []. Defined.

#[export, refine] Instance mb_lists_lens : Lens mb_world lmem := {
  view := mb_lists;
  update l s := mk_mb_world (mb_cs s) l (mb_hash s) (mb_objs s) (mb_callstack_id s)
}.
Proof. all: by try intros []. Defined.

#[export, refine] Instance mb_hash_lens : Lens mb_world hash_mem := {
  view := mb_hash;
  update h s := mk_mb_world (mb_cs s) (mb_lists s) h (mb_objs s) (mb_callstack_id s)
}.
Proof. all: by try intros []. Defined.

Definition malloc_mb (sz : Z) : cmd mb_world Z := fun s =>
  match malloc sz (cs_heap (mb_cs s)) with
  | Some (p, h) =>
      let c := mb_cs s in
      Some (p, mk_mb_world (mk_cs_world h (cs_bt c) (cs_hash c) (cs_objs c) (cs_out c))
                 (mb_lists s) (mb_hash s) (mb_objs s) (mb_callstack_id s))
  | None => None
  end.

(** The members of a fresh structure: every one of them is written before it is
    read, so that their first values do not matter. *)
Definition new_memblock (mb : Z) : cmd mb_world unit := modify (fun s =>
  let l := mb_lists s in
  let c := chains (mb_hash s) in
  let node := mb + offset_mb_hash_node in
  mk_mb_world (mb_cs s)
    (mk_lmem (<[mb + offset_list_node := NULL]> (nxt l))
             (<[mb + offset_list_node := NULL]> (prv l)))
    (mk_hash_mem (mk_hmem (<[node := NULL]> (cell c)) (<[node := NULL]> (pprev c)))
       (write_bytes (bytes (mb_hash s)) (mb + offset_pointer) (word_bytes 0)))
    (<[mb := mk_memblock 0 0 0 0]> (mb_objs s)) (mb_callstack_id s)).

Definition free_memblock (mb : Z) : cmd mb_world unit := modify (fun s =>
  let l := mb_lists s in
  let c := chains (mb_hash s) in
  let node := mb + offset_mb_hash_node in
  mk_mb_world (mb_cs s)
    (mk_lmem (delete (mb + offset_list_node) (nxt l)) (delete (mb + offset_list_node) (prv l)))
    (mk_hash_mem (mk_hmem (delete node (cell c)) (delete node (pprev c)))
       (bytes (mb_hash s)))
    (delete mb (mb_objs s)) (mb_callstack_id s)).

Definition get_mb (mb : Z) : cmd mb_world memblock_s := gets_opt (fun s => mb_objs s !! mb).

Definition modify_mb (mb : Z) (f : memblock_s -> memblock_s) : cmd mb_world unit := fun s =>
  match mb_objs s !! mb with
  | Some b => Some (tt, mk_mb_world (mb_cs s) (mb_lists s) (mb_hash s)
                          (<[mb := f b]> (mb_objs s)) (mb_callstack_id s))
  | None => None
  end.

Definition set_pointer (mb pointer : Z) : cmd mb_world unit := fun s =>
  match mb_objs s !! mb with
  | Some _ =>
      Some (tt, mk_mb_world (mb_cs s) (mb_lists s)
        (mk_hash_mem (chains (mb_hash s))
           (write_bytes (bytes (mb_hash s)) (mb + offset_pointer) (word_bytes pointer)))
        (mb_objs s) (mb_callstack_id s))
  | None => None
  end.

Definition set_callstack_id (n : Z) : cmd mb_world unit := modify (fun s =>
  mk_mb_world (mb_cs s) (mb_lists s) (mb_hash s) (mb_objs s) n).

Definition printf_mb (m : msg) : cmd mb_world unit := zoom (printf m).

Definition callstack_current_mb (e : env uspace_t upt_t) : cmd mb_world Z :=
  zoom (callstack_current unw_create_addr_space UPT_create space_head spaces
          g_callstack_hash opt_backtrace_limit e).

(** ** The operations *)

(** [alloc_size += size]: an [int] plus a [size_t], converted to [int]. *)
Definition on_alloc (sz : Z) (c : callstack_s) : callstack_s :=
  set_alloc (s32 (alloc_count c + 1)) (s32 (alloc_size c + sz)) c.

Definition memblock_new (e : env uspace_t upt_t) (pointer sz : Z) : cmd mb_world Z :=
  if pointer =? 0 then
    printf_mb MsgAllocNull;;
    cs ← callstack_current_mb e;
    zoom (callstack_print cs);;
    mret 0
  else
    mb ← malloc_mb sizeof_memblock;
    if mb =? NULL then mret (-1)
    else
      new_memblock mb;;
      cs ← callstack_current_mb e;
      modify_mb mb (fun b => mk_memblock (size b) (create b) (expired b) cs);;
      if cs =? NULL then mret (-1)
      else
        set_pointer mb pointer;;
        modify_mb mb (fun b => mk_memblock sz (now e) 0 (callstack b));;
        zoom (hash_add g_memblock_hash (mb + offset_mb_hash_node) sizeof_uintptr);;
        zoom (list_add_tail (mb + offset_list_node) g_memblock_active);;
        zoom (modify_cs cs (on_alloc sz));;
        mret 0.

(** The messages of [memblock_delete] for an expired block, given the count
    after the increment. *)
Definition print_free_expired (c : callstack_s) (free_time : Z) : cmd mb_world unit :=
  when (free_expired_count c <=? DONOT_SHOW_AFTER_FREE_EXPIRES)
    (printf_mb (MsgExpiredFree (id c) free_time));;
  when (free_expired_count c =? DONOT_SHOW_AFTER_FREE_EXPIRES)
    (printf_mb (MsgTooManyExpiredFree (id c))).

Definition on_free_expired (sz : Z) (c : callstack_s) : callstack_s :=
  set_free_expired (s32 (free_expired_count c + 1)) (s32 (free_expired_size c + sz)) c.

Definition on_free (sz free_time : Z) (c : callstack_s) : callstack_s :=
  let c := set_free (s32 (free_count c + 1)) (s32 (free_size c + sz)) c in
  let total := s32 (free_total c + free_time) in
  let mx := if free_max c <? free_time then s32 free_time else free_max c in
  let mn := if (free_min c =? 0) || (free_time <? free_min c)
            then s32 free_time else free_min c in
  set_free_times mn mx total c.

Definition memblock_delete (e : env uspace_t upt_t) (mb : Z) : cmd mb_world unit :=
  if mb =? NULL then mret tt
  else
    b ← get_mb mb;
    let free_time := now e - create b in
    let cs := callstack b in
    when (negb (expired b =? 0)) (
      zoom (modify_cs cs (on_free_expired (size b)));;
      c ← zoom (get_cs cs);
      print_free_expired c free_time);;
    zoom (modify_cs cs (on_free (size b) free_time));;
    zoom (hash_delete (mb + offset_mb_hash_node));;
    zoom (list_del (mb + offset_list_node));;
    free_memblock mb.

(** [alloc_size -= mb->size; alloc_size += size;] *)
Definition on_update_size (old sz : Z) (c : callstack_s) : callstack_s :=
  set_alloc (alloc_count c) (s32 (s32 (alloc_size c - old) + sz)) c.

Definition memblock_update_size (mb sz : Z) : cmd mb_world unit :=
  if negb (mb =? NULL) then
    b ← get_mb mb;
    zoom (modify_cs (callstack b) (on_update_size (size b) sz));;
    modify_mb mb (fun b => mk_memblock sz (create b) (expired b) (callstack b))
  else mret tt.

Definition memblock_search (pointer : Z) : cmd mb_world Z :=
  p ← zoom (hash_search g_memblock_hash (word_bytes pointer) sizeof_uintptr);
  if p =? NULL then mret NULL
  else mret (list_entry p offset_mb_hash_node).

Definition on_expire (sz : Z) (c : callstack_s) : callstack_s :=
  set_expired (s32 (expired_count c + 1)) (s32 (expired_size c + sz)) c.

Definition memblock_expire_one (mb : Z) : cmd mb_world unit :=
  modify_mb mb (fun b => mk_memblock (size b) (create b) 1 (callstack b));;
  zoom (list_del (mb + offset_list_node));;
  zoom (list_add_tail (mb + offset_list_node) g_memblock_expire);;
  b ← get_mb mb;
  let cs := callstack b in
  zoom (modify_cs cs (on_expire (size b)));;
  c ← zoom (get_cs cs);
  if id c =? 0 then
    n ← gets mb_callstack_id;
    zoom (modify_cs cs (set_id n));;
    set_callstack_id (s32 (n + 1));;
    printf_mb (MsgExpire n (size b));;
    zoom (callstack_print cs)
  else
    when (free_expired_count c <? DONOT_SHOW_AFTER_FREE_EXPIRES)
      (printf_mb (MsgExpireAgain (id c) (size b) (expired_count c))).

(** The body of the loop of [memblock_expire]. *)
Definition expire_body (t expire memblock_limit callstack_limit p : Z) :
    cmd mb_world (option Z) :=
  let mb := list_entry p offset_list_node in
  b ← get_mb mb;
  if t - create b <? expire then mret (Some (s32 (expire - (t - create b) + 1)))
  else
    memblock_expire_one mb;;
    b ← get_mb mb;
    c ← zoom (get_cs (callstack b));
    if s32 (callstack_limit + 1) <=? id c then
      printf_mb (MsgTooManyCallstacks callstack_limit);;
      mret (Some (-1))
    else if memblock_limit <=? expired_count c then
      printf_mb (MsgTooManyBlocks memblock_limit (id c));;
      mret (Some (-1))
    else mret None.

Definition memblock_expire (e : env uspace_t upt_t)
    (expire memblock_limit callstack_limit : Z) : cmd mb_world Z :=
  fuel ← gets (fun s => list_fuel (mb_lists s));
  r ← list_for_each_safe fuel
        (expire_body (now e) expire memblock_limit callstack_limit) g_memblock_active;
  mret (default 0 r).

Definition on_count (t : Z) (b : memblock_s) (c : callstack_s) : callstack_s :=
  if unfree_max c =? 0 then set_unfree_max (s32 (t - create b)) c else c.

Definition count_body (t p : Z) : cmd mb_world (option unit) :=
  let mb := list_entry p offset_list_node in
  b ← get_mb mb;
  zoom (modify_cs (callstack b) (on_count t b));;
  mret None.

Definition memblock_count (e : env uspace_t upt_t) : cmd mb_world unit :=
  fuel ← gets (fun s => list_fuel (mb_lists s));
  list_for_each fuel (count_body (now e)) g_memblock_expire;;
  list_for_each fuel (count_body (now e)) g_memblock_active;;
  mret tt.

End memblock.
