(* ===== verification/Tracker.v ===== *)
(** * The abstract specification of the block tracker

    A [tracker] is what [memblock.c] and [callstack.c] keep, without the
    pointer structures: the two lists and the two tables are sequences of
    addresses (a table's nodes with the newest first), a block's [pointer] and a
    call stack's [ips] are values.  Each operation is a pure function; [None] is
    the undefined behaviour that is left: a comparison with a call stack that is
    shorter than the key that is searched, a null call stack that is printed.

    [CallstackRefine] and [MemblockRefine] prove that the operations of [Memblock] and [Callstack], on the
    pointer structures, do what these functions say. *)

From S2P Require Import Prelude ListH HlistH HashH PtrBacktrace Heap Callstack.
From S2P Require Import Memblock.

Record tracker := mk_tracker {
  t_heap : heap;
  t_cs : gmap Z callstack_s;
  t_ips : gmap Z (list Z);
  t_cs_order : list Z;
  t_mb : gmap Z memblock_s;
  t_ptr : gmap Z Z;
  t_order : list Z;
  t_active : list Z;
  t_expire : list Z;
  t_next_id : Z;
  t_out : list msg
}.

(** Updates of some of the components. *)
Definition t_print (ms : list msg) (t : tracker) : tracker :=
  mk_tracker (t_heap t) (t_cs t) (t_ips t) (t_cs_order t) (t_mb t) (t_ptr t) (t_order t)
    (t_active t) (t_expire t) (t_next_id t) (t_out t ++ ms).
Definition t_set_heap (h : heap) (t : tracker) : tracker :=
  mk_tracker h (t_cs t) (t_ips t) (t_cs_order t) (t_mb t) (t_ptr t) (t_order t)
    (t_active t) (t_expire t) (t_next_id t) (t_out t).
Definition t_set_cs (cs : Z) (c : callstack_s) (t : tracker) : tracker :=
  mk_tracker (t_heap t) (<[cs := c]> (t_cs t)) (t_ips t) (t_cs_order t) (t_mb t) (t_ptr t)
    (t_order t) (t_active t) (t_expire t) (t_next_id t) (t_out t).
Definition t_set_mb (mb : Z) (b : memblock_s) (t : tracker) : tracker :=
  mk_tracker (t_heap t) (t_cs t) (t_ips t) (t_cs_order t) (<[mb := b]> (t_mb t)) (t_ptr t)
    (t_order t) (t_active t) (t_expire t) (t_next_id t) (t_out t).
Definition t_set_lists (active expire : list Z) (t : tracker) : tracker :=
  mk_tracker (t_heap t) (t_cs t) (t_ips t) (t_cs_order t) (t_mb t) (t_ptr t)
    (t_order t) active expire (t_next_id t) (t_out t).
Definition t_set_next_id (n : Z) (t : tracker) : tracker :=
  mk_tracker (t_heap t) (t_cs t) (t_ips t) (t_cs_order t) (t_mb t) (t_ptr t)
    (t_order t) (t_active t) (t_expire t) n (t_out t).

(** A write to members of a call stack. *)
Definition t_modify_cs (cs : Z) (f : callstack_s -> callstack_s) (t : tracker) : option tracker :=
  c ← t_cs t !! cs; Some (t_set_cs cs (f c) t).

(** ** Call stacks *)

Section spec.
Context `{!Symbolizer}.
Context {uspace_t upt_t : Type}.
Context (unw_create_addr_space : uspace_t) (UPT_create : Z -> upt_t).
Context (opt_backtrace_limit : Z).
Implicit Types (e : env uspace_t upt_t) (t : tracker).

(** The call stack of an event: the API entry, then the frames. *)
Definition event_ips e : list Z :=
  g_current_entry e ::
    call_result unw_create_addr_space UPT_create
      (frames e, g_current_thread e, opt_backtrace_limit - 1).

(** The call stacks of the key's slot are compared on the key's length. *)
Fixpoint spec_scan (t : tracker) (ips : list Z) (order : list Z) : option Z :=
  match order with
  | [] => Some NULL
  | p :: order =>
      s ← t_ips t !! p;
      if decide (slot_of_words s = slot_of_words ips) then
        if decide (length s < length ips)%nat then None
        else if decide (take (length ips) s = ips) then Some p
        else spec_scan t ips order
      else spec_scan t ips order
  end.

Definition spec_new_callstack (cs : Z) (ips : list Z) (h : heap) (t : tracker) : tracker :=
  mk_tracker h
    (<[cs := set_ip_num (Z.of_nat (length ips)) zero_callstack]> (t_cs t))
    (<[cs := ips]> (t_ips t)) (cs :: t_cs_order t)
    (t_mb t) (t_ptr t) (t_order t) (t_active t) (t_expire t) (t_next_id t) (t_out t).

Definition spec_callstack_current e t : option (Z * tracker) :=
  let ips := event_ips e in
  if BACKTRACE_MAX <? Z.of_nat (length ips) then None
  else
    p ← spec_scan t ips (t_cs_order t);
    if negb (p =? NULL) then Some (p, t)
    else
      '(cs, h) ← malloc (sizeof_callstack + 8 * Z.of_nat (length ips)) (t_heap t);
      if cs =? NULL then Some (NULL, t) else Some (cs, spec_new_callstack cs ips h t).

(** The lines of a backtrace: to the first null address, or to [main]. *)
Fixpoint backtrace_msgs (ips : list Z) : list msg :=
  match ips with
  | [] => []
  | address :: ips =>
      if address =? 0 then []
      else frame_msg address ::
        match symtab_by_address address with
        | Some (name, _) =>
            if decide (name = "main"%string) then [] else backtrace_msgs ips
        | None => backtrace_msgs ips
        end
  end.

Definition spec_print (cs : Z) (t : tracker) : option tracker :=
  ips ← t_ips t !! cs; Some (t_print (backtrace_msgs ips) t).

(** ** Memory blocks *)

Definition spec_add_block (mb : Z) (b : memblock_s) (pointer : Z) (t : tracker) : tracker :=
  mk_tracker (t_heap t) (t_cs t) (t_ips t) (t_cs_order t)
    (<[mb := b]> (t_mb t)) (<[mb := pointer]> (t_ptr t)) (mb :: t_order t)
    (t_active t ++ [mb]) (t_expire t) (t_next_id t) (t_out t).

Definition spec_memblock_new e (pointer sz : Z) t : option (Z * tracker) :=
  if pointer =? 0 then
    '(cs, t) ← spec_callstack_current e (t_print [MsgAllocNull] t);
    t ← spec_print cs t;
    Some (0, t)
  else
    '(mb, h) ← malloc sizeof_memblock (t_heap t);
    if mb =? NULL then Some (-1, t)
    else
      '(cs, t) ← spec_callstack_current e (t_set_heap h t);
      if cs =? NULL then Some (-1, t)
      else
        t ← t_modify_cs cs (on_alloc sz) (spec_add_block mb (mk_memblock sz (now e) 0 cs) pointer t);
        Some (0, t).

Definition free_expired_msgs (c : callstack_s) (free_time : Z) : list msg :=
  (if free_expired_count c <=? DONOT_SHOW_AFTER_FREE_EXPIRES
   then [MsgExpiredFree (id c) free_time] else []) ++
  (if free_expired_count c =? DONOT_SHOW_AFTER_FREE_EXPIRES
   then [MsgTooManyExpiredFree (id c)] else []).

Definition spec_remove_block (mb : Z) (t : tracker) : tracker :=
  mk_tracker (t_heap t) (t_cs t) (t_ips t) (t_cs_order t)
    (delete mb (t_mb t)) (delete mb (t_ptr t))
    (filter (fun p => p <> mb) (t_order t)) (filter (fun p => p <> mb) (t_active t))
    (filter (fun p => p <> mb) (t_expire t)) (t_next_id t) (t_out t).

(** The statistics of a freed block, and what is printed. *)
Definition freed_callstack (b : memblock_s) (free_time : Z) (c : callstack_s) : callstack_s :=
  on_free (size b) free_time (if expired b =? 0 then c else on_free_expired (size b) c).

Definition spec_memblock_delete e (mb : Z) t : option tracker :=
  if mb =? NULL then Some t
  else
    b ← t_mb t !! mb;
    c ← t_cs t !! callstack b;
    let free_time := now e - create b in
    let ms := if expired b =? 0 then []
              else free_expired_msgs (on_free_expired (size b) c) free_time in
    Some (spec_remove_block mb (t_print ms
            (t_set_cs (callstack b) (freed_callstack b free_time c) t))).

Definition spec_memblock_update_size (mb sz : Z) t : option tracker :=
  if mb =? NULL then Some t
  else
    b ← t_mb t !! mb;
    c ← t_cs t !! callstack b;
    Some (t_set_mb mb (mk_memblock sz (create b) (expired b) (callstack b))
            (t_set_cs (callstack b) (on_update_size (size b) sz c) t)).

(** The newest block with the pointer. *)
Definition spec_memblock_search (pointer : Z) t : Z :=
  default NULL (head (filter (fun p => t_ptr t !! p = Some pointer) (t_order t))).

(** ** Expiration *)

Definition spec_expire_one (mb : Z) t : option tracker :=
  b ← t_mb t !! mb;
  let t := t_set_mb mb (mk_memblock (size b) (create b) 1 (callstack b)) t in
  let t := t_set_lists (filter (fun p => p <> mb) (t_active t)) (t_expire t ++ [mb]) t in
  c ← t_cs t !! callstack b;
  let c := on_expire (size b) c in
  if id c =? 0 then
    let n := t_next_id t in
    let t := t_set_next_id (s32 (n + 1)) (t_set_cs (callstack b) (set_id n c) t) in
    spec_print (callstack b) (t_print [MsgExpire n (size b)] t)
  else
    let ms := if free_expired_count c <? DONOT_SHOW_AFTER_FREE_EXPIRES
              then [MsgExpireAgain (id c) (size b) (expired_count c)] else [] in
    Some (t_print ms (t_set_cs (callstack b) c t)).

(** One iteration; [Some r] is a return of [r]. *)
Definition spec_expire_body (tm expire memblock_limit callstack_limit mb : Z) t :
    option (option Z * tracker) :=
  b ← t_mb t !! mb;
  if tm - create b <? expire then Some (Some (s32 (expire - (tm - create b) + 1)), t)
  else
    t ← spec_expire_one mb t;
    c ← t_cs t !! callstack b;
    if s32 (callstack_limit + 1) <=? id c then
      Some (Some (-1), t_print [MsgTooManyCallstacks callstack_limit] t)
    else if memblock_limit <=? expired_count c then
      Some (Some (-1), t_print [MsgTooManyBlocks memblock_limit (id c)] t)
    else Some (None, t).

Fixpoint spec_expire_loop (tm expire memblock_limit callstack_limit : Z) (mbs : list Z) t :
    option (Z * tracker) :=
  match mbs with
  | [] => Some (0, t)
  | mb :: mbs =>
      '(r, t) ← spec_expire_body tm expire memblock_limit callstack_limit mb t;
      match r with
      | Some r => Some (r, t)
      | None => spec_expire_loop tm expire memblock_limit callstack_limit mbs t
      end
  end.

Definition spec_memblock_expire e (expire memblock_limit callstack_limit : Z) t :
    option (Z * tracker) :=
  spec_expire_loop (now e) expire memblock_limit callstack_limit (t_active t) t.

(** ** Counting at the end *)

Definition spec_count_one (tm : Z) (t : option tracker) (mb : Z) : option tracker :=
  t ← t; b ← t_mb t !! mb; t_modify_cs (callstack b) (on_count tm b) t.

Definition spec_memblock_count e t : option tracker :=
  foldl (spec_count_one (now e)) (Some t) (t_expire t ++ t_active t).

Lemma spec_scan_in t ips order p :
  spec_scan t ips order = Some p -> p = NULL \/ p ∈ order.
Proof.
  induction order as [| q order IH]; simpl; [intros [= <-]; by left |].
  destruct (t_ips t !! q); simpl; [| done].
  repeat case_decide; try done; try (intros ?%IH; set_solver).
  intros [= <-]. set_solver.
Qed.

(** The outcomes of [callstack_current]: an old call stack, or a new one. *)
Lemma spec_current_cases e t p t' :
  spec_callstack_current e t = Some (p, t') ->
  (t' = t /\ (p = NULL \/ p ∈ t_cs_order t)) \/
  (exists h, malloc (sizeof_callstack + 8 * Z.of_nat (length (event_ips e))) (t_heap t) =
      Some (p, h) /\ p <> NULL /\ t' = spec_new_callstack p (event_ips e) h t).
Proof.
  unfold spec_callstack_current. destruct (_ <? _); [done |].
  intros (q & Hscan & Hspec)%bind_Some. destruct (Z.eqb_spec q NULL) as [-> | Hq]; simpl in Hspec.
  - apply bind_Some in Hspec as ([cs h] & Hm & Hspec).
    destruct (Z.eqb_spec cs NULL) as [-> | Hnz]; simplify_eq; [by eauto |].
    right. by exists h.
  - simplify_eq. left. split; [done |]. by eapply spec_scan_in.
Qed.

End spec.

(** ** Well-formedness *)

Section wf.
Context {heap_start : Z}.

(** The sequences and the objects of a tracker agree with each other. *)
Record tracker_wf (t : tracker) : Prop := {
  wf_perm : t_active t ++ t_expire t ≡ₚ t_order t;
  wf_nodup : NoDup (t_order t);
  wf_mb : forall p, p ∈ t_order t <-> is_Some (t_mb t !! p);
  wf_ptr : forall p, p ∈ t_order t <-> is_Some (t_ptr t !! p);
  wf_block : forall p b, t_mb t !! p = Some b ->
    heap_start <= p /\ p + sizeof_memblock <= brk (t_heap t) /\
    is_Some (t_cs t !! callstack b);
  wf_word : forall p a, t_ptr t !! p = Some a -> is_u64 a
}.

(** Two states with the same blocks; the heap and the call stacks may grow. *)
Record same_blocks (t t' : tracker) : Prop := {
  sb_mb : t_mb t' = t_mb t;
  sb_ptr : t_ptr t' = t_ptr t;
  sb_order : t_order t' = t_order t;
  sb_active : t_active t' = t_active t;
  sb_expire : t_expire t' = t_expire t;
  sb_next_id : t_next_id t' = t_next_id t;
  sb_brk : brk (t_heap t) <= brk (t_heap t');
  sb_cs : forall p, is_Some (t_cs t !! p) -> is_Some (t_cs t' !! p)
}.

#[export] Instance same_blocks_preorder : PreOrder same_blocks.
Proof.
  split.
  - intros t. by constructor.
  - intros t1 t2 t3 [] []. constructor; try congruence; [lia | auto].
Qed.

Lemma same_blocks_wf t t' : same_blocks t t' -> tracker_wf t -> tracker_wf t'.
Proof.
  intros [Em Ep Eo Ea Ee _ Hb Hc] [].
  constructor; rewrite ?Em, ?Ep, ?Eo, ?Ea, ?Ee; try done.
  intros p b Hp. destruct (wf_block0 p b Hp) as (? & ? & ?). split_and!; [done | lia | auto].
Qed.

Lemma wf_order_block t p :
  tracker_wf t -> p ∈ t_order t -> heap_start <= p /\ p + sizeof_memblock <= brk (t_heap t).
Proof.
  intros Hwf Hp. apply (wf_mb _ Hwf) in Hp as [b Hb].
  destruct (wf_block _ Hwf _ _ Hb) as (? & ? & _). done.
Qed.

Lemma remove_wf t mb : tracker_wf t -> tracker_wf (spec_remove_block mb t).
Proof.
  intros []. constructor; simpl.
  - rewrite <- filter_app. by apply filter_Permutation.
  - by apply NoDup_filter.
  - intros p. rewrite list_elem_of_filter, wf_mb0, lookup_delete.
    case_decide; [| naive_solver]. split; [naive_solver | by intros [? ?]].
  - intros p. rewrite list_elem_of_filter, wf_ptr0, lookup_delete.
    case_decide; [| naive_solver]. split; [naive_solver | by intros [? ?]].
  - intros p b [_ Hb]%lookup_delete_Some. by apply wf_block0.
  - intros p a [_ Ha]%lookup_delete_Some. by eapply wf_word.
Qed.

Lemma add_wf t mb b pointer :
  tracker_wf t -> heap_start <= mb -> mb + sizeof_memblock <= brk (t_heap t) ->
  mb ∉ t_order t -> is_Some (t_cs t !! callstack b) -> is_u64 pointer ->
  tracker_wf (spec_add_block mb b pointer t).
Proof.
  intros [] Hlo Hhi Hn Hcs Hu. constructor; simpl.
  - rewrite <- wf_perm0, <- app_assoc. simpl. symmetry. apply Permutation_middle.
  - by apply NoDup_cons.
  - intros p. rewrite elem_of_cons, wf_mb0, lookup_insert. case_decide; naive_solver.
  - intros p. rewrite elem_of_cons, wf_ptr0, lookup_insert. case_decide; naive_solver.
  - intros p b'. rewrite lookup_insert. case_decide; [| apply wf_block0]. naive_solver.
  - intros p a. rewrite lookup_insert. case_decide; [naive_solver | apply wf_word0].
Qed.

Lemma filter_delete_perm (mb : Z) (l : list Z) :
  NoDup l -> mb ∈ l -> l ≡ₚ mb :: filter (fun p => p <> mb) l.
Proof.
  intros Hnd Hin. apply list_elem_of_split in Hin as (l1 & l2 & ->).
  rewrite filter_ne_middle by done. by rewrite Permutation_middle.
Qed.

Lemma move_wf t mb :
  tracker_wf t -> mb ∈ t_active t ->
  tracker_wf (t_set_lists (filter (fun p => p <> mb) (t_active t)) (t_expire t ++ [mb]) t).
Proof.
  intros [] Hin. constructor; simpl; try done. rewrite <- wf_perm0.
  assert (NoDup (t_active t)) as Hnd.
  { rewrite <- wf_perm0 in wf_nodup0. by apply NoDup_app in wf_nodup0 as (? & _). }
  rewrite (filter_delete_perm mb (t_active t)) at 2 by done.
  rewrite app_assoc, (Permutation_app_comm _ [mb]). done.
Qed.

End wf.
Arguments tracker_wf : clear implicits.
