(* ===== verification/CallstackRefine.v ===== *)
(** * The call stacks' structures implement the specification

    [Rcs w t] relates the memory of [callstack.c] to a [tracker]: the table
    holds the nodes of the sequence, the keys are in memory, and every object
    lies inside the part of the heap that was handed out.  For each operation:
    when the specification is defined, the operation is, with the same result,
    and the relation holds again. *)

From S2P Require Import Prelude Path ListH HlistH HashH PtrBacktrace Heap.
From S2P Require Import Callstack Memblock Tracker.

Section callstack_refine.
Context {uspace_t upt_t : Type}.
Context (unw_create_addr_space : uspace_t) (UPT_create : Z -> upt_t).
Context `{!Symbolizer}.
Context (space_head spaces g_callstack_hash : Z).
Context (g_memblock_hash g_memblock_active g_memblock_expire : Z).
Context (opt_backtrace_limit : Z).
Context (heap_start : Z).

(** Static storage is below the heap and its objects do not overlap. *)
Definition statics_ok : Prop :=
  layout_ok space_head spaces /\
  0 < g_callstack_hash /\ g_callstack_hash + 8 * HASH_SIZE <= heap_start /\
  0 < g_memblock_hash /\ g_memblock_hash + 8 * HASH_SIZE <= heap_start /\
  g_memblock_active <> g_memblock_expire /\
  g_memblock_active < heap_start /\ g_memblock_expire < heap_start /\ 0 < heap_start.

Context (Hstat : statics_ok).

(** What an event supplies: a thread, and 64-bit instruction pointers. *)
Definition env_ok (e : env uspace_t upt_t) : Prop :=
  g_current_thread e <> 0 /\
  Forall is_u64 (event_ips unw_create_addr_space UPT_create opt_backtrace_limit e).

Abbreviation cs_world := (cs_world (uspace_t := uspace_t) (upt_t := upt_t)).
Abbreviation current := (callstack_current unw_create_addr_space UPT_create space_head spaces
  g_callstack_hash opt_backtrace_limit).
Abbreviation spec_current := (spec_callstack_current unw_create_addr_space UPT_create
  opt_backtrace_limit).
Abbreviation ips_of e := (event_ips unw_create_addr_space UPT_create opt_backtrace_limit e).

Definition bt_ready (s : bt_state (uspace_t := uspace_t) (upt_t := upt_t)) : Prop :=
  bt_initial space_head spaces s \/
  exists ids, bt_rep unw_create_addr_space UPT_create space_head spaces s ids.

(** The node of a call stack in the table, and the length of its key. *)
Definition cs_node (cs : Z) : Z := cs + offset_hash_node.

Definition cs_key_len (ips : gmap Z (list Z)) (n : Z) : Z :=
  8 * Z.of_nat (length (default [] (ips !! (n - offset_hash_node)))).

Record cs_obj_ok (h : heap) (m : hash_mem) (c : callstack_s) (p : Z) (ips : list Z) : Prop := {
  co_low : heap_start <= p;
  co_high : p + sizeof_callstack + 8 * Z.of_nat (length ips) <= brk h;
  co_words : Forall is_u64 ips;
  co_max : Z.of_nat (length ips) <= BACKTRACE_MAX;
  co_key : read_bytes (bytes m) (p + offset_ips) (8 * length ips) = Some (key_bytes ips);
  co_num : ip_num c = Z.of_nat (length ips)
}.

Record Rcs (w : cs_world) (t : tracker) : Prop := {
  rc_heap : cs_heap w = t_heap t;
  rc_heap_ok : heap_ok (t_heap t) /\ heap_start <= brk (t_heap t);
  rc_bt : bt_ready (cs_bt w);
  rc_objs : cs_objs w = t_cs t;
  rc_out : cs_out w = t_out t;
  rc_table : hash_rep g_callstack_hash (cs_key_len (t_ips t)) (bytes (cs_hash w))
               (cs_hash w) (cs_node <$> t_cs_order t);
  rc_order : forall p, p ∈ t_cs_order t <-> is_Some (t_ips t !! p);
  rc_dom : forall p, is_Some (t_ips t !! p) <-> is_Some (t_cs t !! p);
  rc_ok : forall p c ips, t_cs t !! p = Some c -> t_ips t !! p = Some ips ->
            cs_obj_ok (t_heap t) (cs_hash w) c p ips
}.

Lemma cs_key_len_lookup ips p s :
  ips !! p = Some s -> cs_key_len ips (cs_node p) = 8 * Z.of_nat (length s).
Proof.
  intros Hs. unfold cs_key_len, cs_node.
  replace (p + offset_hash_node - offset_hash_node) with p by lia. by rewrite Hs.
Qed.

Lemma node_key_ips m p s :
  read_bytes m (p + offset_ips) (8 * length s) = Some (key_bytes s) ->
  node_key m (cs_node p) (8 * Z.of_nat (length s)) = Some (key_bytes s).
Proof.
  intros Hs. unfold node_key, cs_node.
  replace (p + offset_hash_node + sizeof_hlist_node) with (p + offset_ips)
    by (unfold offset_hash_node, sizeof_hlist_node, offset_ips; lia).
  by replace (Z.to_nat (8 * Z.of_nat (length s))) with (8 * length s)%nat by lia.
Qed.

Lemma small_len (s : list Z) :
  Z.of_nat (length s) <= BACKTRACE_MAX -> 8 * Z.of_nat (length s) < 2 ^ 64.
Proof. unfold BACKTRACE_MAX. lia. Qed.

Lemma Rcs_obj w t p s :
  Rcs w t -> t_ips t !! p = Some s ->
  exists c, t_cs t !! p = Some c /\ cs_obj_ok (t_heap t) (cs_hash w) c p s.
Proof.
  intros HR Hs. destruct (proj1 (rc_dom _ _ HR p)) as [c Hc]; [by eexists |].
  exists c. split; [done |]. by eapply rc_ok.
Qed.

Lemma Rcs_slot w t p s :
  Rcs w t -> t_ips t !! p = Some s ->
  slot_at (cs_key_len (t_ips t)) (bytes (cs_hash w)) (cs_node p) = Some (slot_of_words s).
Proof.
  intros HR Hs. destruct (Rcs_obj _ _ _ _ HR Hs) as (c & _ & Hok).
  unfold slot_at. erewrite cs_key_len_lookup by done.
  rewrite node_key_ips by apply Hok. apply hash_slot_words, small_len, Hok.
Qed.

(** The node's first bytes, when the key that is searched is not longer. *)
Lemma Rcs_prefix w t p s (ips : list Z) :
  Rcs w t -> t_ips t !! p = Some s -> (length ips <= length s)%nat ->
  node_key (bytes (cs_hash w)) (cs_node p) (8 * Z.of_nat (length ips)) =
    Some (key_bytes (take (length ips) s)).
Proof.
  intros HR Hs Hle. destruct (Rcs_obj _ _ _ _ HR Hs) as (c & _ & Hok).
  rewrite <- (length_take_le s (length ips)) at 1 by lia. apply node_key_ips.
  pose proof (co_key _ _ _ _ _ Hok) as Hk.
  rewrite <- length_key_bytes in Hk. rewrite <- length_key_bytes.
  rewrite <- (take_drop (length ips) s), key_bytes_app in Hk at 1 2.
  by apply read_bytes_app in Hk as [Hk _].
Qed.

Lemma search_scan w t ips order p :
  Rcs w t -> Forall is_u64 ips -> (forall q, q ∈ order -> q ∈ t_cs_order t) ->
  spec_scan t ips order = Some p ->
  search_chain (fun n => node_key (bytes (cs_hash w)) n (8 * Z.of_nat (length ips)))
    (key_bytes ips)
    (table_of (cs_key_len (t_ips t)) (bytes (cs_hash w)) (cs_node <$> order) (slot_of_words ips))
  = Some (if p =? NULL then NULL else cs_node p) /\ (p = NULL \/ p ∈ order).
Proof.
  intros HR Hips. induction order as [| q order IH]; intros Hin Hscan; simpl in Hscan.
  - simplify_eq. auto.
  - destruct (t_ips t !! q) as [s |] eqn:Hs; simpl in Hscan; [| done].
    pose proof (Rcs_slot _ _ _ _ HR Hs) as Hslot.
    unfold table_of. rewrite fmap_cons, filter_cons, Hslot.
    case_decide as Heq.
    + rewrite decide_True by congruence. case_decide as Hlen; [done |]. simpl.
      erewrite Rcs_prefix by (done || lia). simpl.
      destruct (Rcs_obj _ _ _ _ HR Hs) as (c & _ & Hok).
      case_decide as Htake.
      * simplify_eq. rewrite decide_True by congruence. split; [| right; set_solver].
        pose proof (co_low _ _ _ _ _ Hok). destruct Hstat as (_ & _ & _ & _ & _ & _ & _ & _ & ?).
        destruct (Z.eqb_spec p NULL); [unfold NULL in *; lia | done].
      * rewrite decide_False.
        { destruct IH as [IH1 IH2]; [set_solver | done |]. split; [exact IH1 | set_solver]. }
        intros Hk. apply Htake. apply key_bytes_inj; [| done | done].
        apply Forall_take, Hok.
    + rewrite decide_False by congruence.
      destruct IH as [IH1 IH2]; [set_solver | done |]. split; [exact IH1 | set_solver].
Qed.

(** ** [callstack_current] *)

Lemma bt_step s fr current size :
  bt_ready s -> current <> 0 ->
  exists s', ptr_backtrace unw_create_addr_space UPT_create space_head spaces fr current size s
      = Some (call_result unw_create_addr_space UPT_create (fr, current, size), s') /\
    bt_ready s'.
Proof.
  pose proof (proj1 Hstat) as Hl. rewrite <- call_result_unwind. intros [Hi | [ids Hrep]] Hc.
  - destruct (ptr_backtrace_first_run unw_create_addr_space UPT_create space_head spaces
      s fr current size Hl Hi Hc) as (s' & Hrun & Hrep').
    exists s'. split; [| right; by eexists]. rewrite Hrun. by destruct (fr _ _).
  - destruct (ptr_backtrace_run unw_create_addr_space UPT_create space_head spaces
      s ids fr current size Hl Hrep Hc) as (s' & Hrun & Hrep').
    exists s'. split; [| right; by eexists]. rewrite Hrun. by destruct (fr _ _).
Qed.

Definition with_bt (w : cs_world) b : cs_world :=
  mk_cs_world (cs_heap w) b (cs_hash w) (cs_objs w) (cs_out w).

Lemma Rcs_with_bt w t b : Rcs w t -> bt_ready b -> Rcs (with_bt w b) t.
Proof. intros HR Hb. destruct HR. by constructor. Qed.

Lemma Rcs_addr w t p :
  Rcs w t -> p ∈ t_cs_order t -> list_entry (cs_node p) offset_hash_node = p.
Proof.
  intros HR Hp. apply (rc_order _ _ HR) in Hp as [s Hs].
  destruct (Rcs_obj _ _ _ _ HR Hs) as (c & _ & Hok).
  destruct (rc_heap_ok _ _ HR) as [[? ?] ?]. destruct Hok.
  destruct Hstat as (_ & _ & _ & _ & _ & _ & _ & _ & ?).
  unfold list_entry, cs_node. rewrite u64_small; [lia |].
  unfold is_u64, sizeof_callstack in *. lia.
Qed.

Lemma hash_search_callstack w t ips p :
  Rcs w t -> Forall is_u64 ips -> Z.of_nat (length ips) <= BACKTRACE_MAX ->
  spec_scan t ips (t_cs_order t) = Some p ->
  hash_search g_callstack_hash (key_bytes ips) (8 * Z.of_nat (length ips)) (cs_hash w) =
    Some (if p =? NULL then NULL else cs_node p, cs_hash w) /\
  (p = NULL \/ p ∈ t_cs_order t).
Proof.
  intros HR Hips Hmax Hscan.
  destruct (search_scan w t ips _ p HR Hips ltac:(done) Hscan) as [Hs Hp].
  split; [| done].
  erewrite hash_rep_search; [| apply (rc_table _ _ HR) | by apply hash_slot_words, small_len].
  rewrite take_ge by (rewrite length_key_bytes; lia). by rewrite Hs.
Qed.

(** A fresh object lies above every object of the relation. *)
Lemma Rcs_fresh w t p s :
  Rcs w t -> t_ips t !! p = Some s -> p + 72 + 8 * Z.of_nat (length s) <= brk (t_heap t).
Proof.
  intros HR Hs. destruct (Rcs_obj _ _ _ _ HR Hs) as (c & _ & Hok). apply Hok.
Qed.

Definition with_new_callstack (w : cs_world) h cs ips : cs_world :=
  let node := cs + offset_hash_node in
  let c := chains (cs_hash w) in
  mk_cs_world h (cs_bt w)
    (mk_hash_mem
      (mk_hmem (<[node := NULL]> (cell c)) (<[node := NULL]> (pprev c)))
      (write_bytes (bytes (cs_hash w)) (cs + offset_ips) (key_bytes ips)))
    (<[cs := set_ip_num (Z.of_nat (length ips)) zero_callstack]> (cs_objs w)) (cs_out w).

Lemma new_callstack_table w t h cs ips :
  Rcs w t -> cs = brk (t_heap t) ->
  hash_rep g_callstack_hash (cs_key_len (<[cs := ips]> (t_ips t)))
    (bytes (cs_hash (with_new_callstack w h cs ips)))
    (cs_hash (with_new_callstack w h cs ips)) (cs_node <$> t_cs_order t).
Proof.
  intros HR Hcs. destruct (rc_heap_ok _ _ HR) as [_ Hlow].
  assert (forall q s, t_ips t !! q = Some s ->
    q <> cs /\ q + 72 + 8 * Z.of_nat (length s) <= cs) as Hq.
  { intros q s Hs. pose proof (Rcs_fresh _ _ _ _ HR Hs). split; lia. }
  eapply hash_rep_ext; [apply (rc_table _ _ HR) | |]; simpl.
  - intros a Ha. enough (a <> cs + offset_hash_node) by (by rewrite !lookup_insert_ne).
    destruct Ha as [(q & -> & Hin)%list_elem_of_fmap | (i & Hi & ->)].
    + apply (rc_order _ _ HR) in Hin as [s Hs]. apply Hq in Hs. unfold cs_node. lia.
    + destruct Hstat as (_ & _ & ? & _). unfold bucket, sizeof_hlist_head, is_slot,
        offset_hash_node in *. lia.
  - intros n (q & -> & Hin)%list_elem_of_fmap.
    apply (rc_order _ _ HR) in Hin as [s Hs]. destruct (Hq _ _ Hs) as [Hne Hle].
    erewrite (Rcs_slot w t q s) by done.
    unfold slot_at. erewrite (cs_key_len_lookup _ q s) by by rewrite lookup_insert_ne.
    destruct (Rcs_obj _ _ _ _ HR Hs) as (c & _ & Hok).
    rewrite node_key_ips; [apply hash_slot_words, small_len, Hok |].
    rewrite read_write_bytes_ne; [apply Hok |].
    unfold offset_ips. lia.
Qed.

Lemma new_node_ok w t h cs ips :
  Rcs w t -> cs = brk (t_heap t) -> Z.of_nat (length ips) <= BACKTRACE_MAX ->
  node_ok g_callstack_hash (cs_key_len (<[cs := ips]> (t_ips t)))
    (bytes (cs_hash (with_new_callstack w h cs ips)))
    (chains (cs_hash (with_new_callstack w h cs ips))) (cs_node cs).
Proof.
  intros HR Hcs Hmax. destruct (rc_heap_ok _ _ HR) as [_ Hlow].
  destruct Hstat as (_ & ? & ? & _ & _ & _ & _ & _ & ?).
  split; [| split].
  - split; [unfold NULL, cs_node, offset_hash_node; lia |].
    split; apply insert_cell_self.
  - exists (slot_of_words ips). unfold slot_at.
    rewrite (cs_key_len_lookup _ cs ips) by apply lookup_insert_eq.
    rewrite node_key_ips; [by apply hash_slot_words, small_len |].
    cbn [with_new_callstack cs_hash bytes]. rewrite <- length_key_bytes. apply read_write_bytes.
  - intros j Hj. unfold bucket, sizeof_hlist_head, is_slot, cs_node, offset_hash_node in *. lia.
Qed.

Lemma Rcs_new_callstack w t h cs ips m' :
  Rcs w t -> cs = brk (t_heap t) -> Z.of_nat (length ips) <= BACKTRACE_MAX ->
  Forall is_u64 ips -> heap_ok h -> cs + (72 + 8 * Z.of_nat (length ips)) <= brk h ->
  bytes m' = bytes (cs_hash (with_new_callstack w h cs ips)) ->
  hash_rep g_callstack_hash (cs_key_len (<[cs := ips]> (t_ips t))) (bytes m') m'
    (cs_node <$> cs :: t_cs_order t) ->
  Rcs (mk_cs_world h (cs_bt w) m'
         (<[cs := set_ip_num (Z.of_nat (length ips)) zero_callstack]> (cs_objs w)) (cs_out w))
    (spec_new_callstack cs ips h t).
Proof.
  intros HR Hcs Hmax Hips Hh Hbrk Hb Hrep. destruct (rc_heap_ok _ _ HR) as [_ Hlow].
  constructor; cbn [spec_new_callstack t_heap t_ips t_cs t_cs_order t_out
    cs_heap cs_bt cs_hash cs_objs cs_out].
  - done.
  - split; [done |]. lia.
  - apply (rc_bt _ _ HR).
  - by rewrite (rc_objs _ _ HR).
  - apply (rc_out _ _ HR).
  - exact Hrep.
  - intros p. rewrite elem_of_cons, (rc_order _ _ HR), lookup_insert.
    case_decide; naive_solver.
  - intros p. rewrite !lookup_insert. case_decide; [naive_solver | apply (rc_dom _ _ HR)].
  - intros p c s. rewrite !lookup_insert. case_decide as E.
    + subst p. intros [= <-] [= <-]. constructor; try done; [lia | unfold sizeof_callstack; lia |].
      rewrite Hb. cbn [with_new_callstack cs_hash bytes].
      rewrite <- length_key_bytes. apply read_write_bytes.
    + intros Hc Hs. pose proof (rc_ok _ _ HR _ _ _ Hc Hs) as [? ? ? ? Hk ?].
      constructor; try done; [lia |]. rewrite Hb. cbn [with_new_callstack cs_hash bytes].
      rewrite read_write_bytes_ne; [done |]. unfold offset_ips, sizeof_callstack in *. lia.
Qed.

(** The rest of [callstack_current] when the backtrace is new. *)
Lemma new_callstack_run w t ips p t' :
  Rcs w t -> Forall is_u64 ips -> Z.of_nat (length ips) <= BACKTRACE_MAX ->
  ('(cs, h) ← malloc (sizeof_callstack + 8 * Z.of_nat (length ips)) (t_heap t);
   if cs =? NULL then Some (NULL, t) else Some (cs, spec_new_callstack cs ips h t)) = Some (p, t') ->
  exists w', (
    cs ← zoom (malloc (sizeof_callstack + 8 * Z.of_nat (length ips)));
    if cs =? NULL then mret NULL
    else
      init_callstack cs ips;;
      zoom (hash_add g_callstack_hash (cs + offset_hash_node) (8 * Z.of_nat (length ips)));;
      mret cs) w = Some (p, w') /\ Rcs w' t'.
Proof.
  intros HR Hips Hmax Hspec. destruct (rc_heap_ok _ _ HR) as [Hheap Hlow].
  destruct (malloc_cases (sizeof_callstack + 8 * Z.of_nat (length ips)) (t_heap t) Hheap)
    as [[Hm _] | (h & Hm & Hh & Hbrk & _ & Hnz)]; [unfold sizeof_callstack; lia | |];
    rewrite Hm in Hspec; simpl in Hspec;
    (erewrite cmd_bind_Some by (apply zoom_Some; simpl; rewrite (rc_heap _ _ HR); exact Hm)); cbn beta iota.
  { simplify_eq. exists w. split; [| done]. simpl. rewrite <- (rc_heap _ _ HR). by destruct w. }
  rewrite (proj2 (Z.eqb_neq _ _) Hnz) in Hspec |- *. simplify_eq. set (cs := brk (t_heap t)) in *.
  pose proof (new_callstack_table w t h cs ips HR eq_refl) as Htab.
  pose proof (new_node_ok w t h cs ips HR eq_refl Hmax) as Hnode.
  set (w1 := with_new_callstack w h cs ips) in *.
  destruct (run_hash_op_refines _ _ _ _ _ (cs_node <$> cs :: t_cs_order t)
    (HashAdd (cs_node cs)) Htab) as (m' & Hrun & Hrep & _); [| exact Hnode |].
  { simpl. rewrite decide_False; [done |]. intros (q & Hq & Hin)%list_elem_of_fmap.
    unfold cs_node in Hq. apply (rc_order _ _ HR) in Hin as [s Hs].
    pose proof (Rcs_fresh _ _ _ _ HR Hs). lia. }
  cbn [run_hash_op] in Hrun. rewrite (cs_key_len_lookup _ cs ips) in Hrun by apply lookup_insert_eq.
  eexists. split.
  { erewrite (cmd_bind_Some (init_callstack cs ips) _ _ tt w1) by done.
    cbn beta. erewrite cmd_bind_Some by (apply zoom_Some; exact Hrun). reflexivity. }
  assert (bytes m' = bytes (cs_hash w1)) as Hbm by apply Hrep.
  apply (Rcs_new_callstack w); try done. rewrite Hbm. exact Hrep.
Qed.

(** A call stack of the table is not null, nor is its node. *)
Lemma Rcs_order_nonnull w t q : Rcs w t -> q ∈ t_cs_order t -> q <> NULL /\ cs_node q <> NULL.
Proof.
  intros HR Hq. apply (rc_order _ _ HR) in Hq as [s Hs]. destruct (Rcs_obj _ _ _ _ HR Hs) as (c & _ & Hok).
  pose proof (co_low _ _ _ _ _ Hok). destruct Hstat as (_ & _ & _ & _ & _ & _ & _ & _ & ?).
  unfold cs_node, offset_hash_node, NULL. lia.
Qed.

Lemma current_refines w t e p t' :
  Rcs w t -> env_ok e -> spec_current e t = Some (p, t') ->
  exists w', current e w = Some (p, w') /\ Rcs w' t'.
Proof.
  intros HR [Hth Hips] Hspec. unfold spec_callstack_current in Hspec.
  destruct (Z.ltb_spec BACKTRACE_MAX (Z.of_nat (length (ips_of e)))) as [| Hmax]; [done |].
  apply bind_Some in Hspec as (q & Hscan & Hspec).
  destruct (bt_step (cs_bt w) (frames e) (g_current_thread e) (opt_backtrace_limit - 1)
    (rc_bt _ _ HR) Hth) as (b & Hbt & Hb).
  pose proof (Rcs_with_bt _ _ b HR Hb) as HR1.
  destruct (hash_search_callstack _ _ _ _ HR1 Hips Hmax Hscan) as [Hsearch Hq].
  unfold callstack_current. erewrite cmd_bind_Some by (apply zoom_Some; exact Hbt).
  cbn beta zeta. fold (ips_of e).
  rewrite (proj2 (Z.ltb_ge _ _) Hmax).
  erewrite cmd_bind_Some by (apply zoom_Some; exact Hsearch). cbn beta.
  change (update (cs_hash (with_bt w b)) _) with (with_bt w b).
  destruct Hq as [-> | Hq].
  - cbn [NULL Z.eqb negb] in *. by apply (new_callstack_run (with_bt w b) t).
  - destruct (Rcs_order_nonnull _ _ _ HR Hq) as [Hnz Hnz2]. pose proof (Rcs_addr _ _ _ HR Hq) as Haddr.
    rewrite (proj2 (Z.eqb_neq _ _) Hnz) in Hspec |- *. simpl in Hspec. simplify_eq.
    rewrite (proj2 (Z.eqb_neq _ _) Hnz2). simpl. rewrite Haddr. by exists (with_bt w b).
Qed.

(** The heap may grow. *)
Lemma Rcs_heap w t h :
  Rcs w t -> heap_ok h -> brk (t_heap t) <= brk h ->
  Rcs (mk_cs_world h (cs_bt w) (cs_hash w) (cs_objs w) (cs_out w)) (t_set_heap h t).
Proof.
  intros HR Hh Hb. pose proof (rc_heap_ok _ _ HR) as [_ ?].
  destruct HR. constructor; simpl; try done; [split; [done | lia] |].
  intros p c s Hc Hs. destruct (rc_ok0 p c s Hc Hs). constructor; try done. lia.
Qed.

(** ** [callstack_print] *)

Definition with_out (ms : list msg) (w : cs_world) : cs_world :=
  mk_cs_world (cs_heap w) (cs_bt w) (cs_hash w) (cs_objs w) (cs_out w ++ ms).

Lemma with_out_nil w : with_out [] w = w.
Proof. destruct w. unfold with_out. simpl. by rewrite app_nil_r. Qed.

Lemma with_out_app ms ms' w : with_out ms' (with_out ms w) = with_out (ms ++ ms') w.
Proof. unfold with_out. simpl. by rewrite <- app_assoc. Qed.

Lemma Rcs_out w t ms : Rcs w t -> Rcs (with_out ms w) (t_print ms t).
Proof.
  intros HR. pose proof HR as [].
  constructor; simpl; try done. by rewrite (rc_out _ _ HR).
Qed.

Lemma read_ip_run w t cs pre a post :
  Rcs w t -> t_ips t !! cs = Some (pre ++ a :: post) ->
  read_ip cs (Z.of_nat (length pre)) w = Some (a, w).
Proof.
  intros HR Hs. destruct (Rcs_obj _ _ _ _ HR Hs) as (c & _ & Hok).
  pose proof (co_key _ _ _ _ _ Hok) as Hk. pose proof (co_words _ _ _ _ _ Hok) as Hw.
  rewrite <- length_key_bytes in Hk. rewrite key_bytes_app in Hk.
  apply read_bytes_app in Hk as [_ Hk].
  change (key_bytes (a :: post)) with (word_bytes a ++ key_bytes post) in Hk.
  apply read_bytes_app in Hk as [Hk _]. rewrite length_key_bytes in Hk.
  unfold read_ip, gets_opt.
  replace (cs + offset_ips + 8 * Z.of_nat (length pre))
    with (cs + offset_ips + Z.of_nat (8 * length pre)) by lia.
  change 8%nat with (length (word_bytes a)) at 2.
  rewrite Hk. cbn [mbind option_bind word_bytes fmap list_fmap].
  rewrite le32_word_bytes, le32_word_bytes_high.
  apply Forall_app in Hw as [_ Hw]. apply Forall_cons in Hw as [Ha _]. unfold is_u64 in Ha.
  rewrite (Z.mod_small (a / _)) by
    (split; [apply Z.div_pos | apply Z.div_lt_upper_bound]; lia).
  do 2 f_equal. pose proof (Z.div_mod a (2 ^ 32) ltac:(lia)). lia.
Qed.

Lemma print_frames_run w t cs pre post :
  Rcs w t -> t_ips t !! cs = Some (pre ++ post) ->
  print_frames cs (Z.of_nat (length pre)) (length post) w =
    Some (tt, with_out (backtrace_msgs post) w).
Proof.
  revert w t pre. induction post as [| a post IH]; intros w t pre HR Hs;
    cbn [print_frames length backtrace_msgs]; [by rewrite with_out_nil |].
  erewrite cmd_bind_Some by by eapply read_ip_run.
  cbn beta. destruct (a =? 0); [by rewrite with_out_nil |].
  erewrite (cmd_bind_Some _ _ _ tt (with_out [frame_msg a] w)) by done.
  cbn beta. replace (Z.of_nat (length pre) + 1) with (Z.of_nat (length (pre ++ [a])))
    by (rewrite length_app; simpl; lia).
  assert (print_frames cs (Z.of_nat (length (pre ++ [a]))) (length post)
    (with_out [frame_msg a] w) = Some (tt, with_out (frame_msg a :: backtrace_msgs post) w))
    as Hrest.
  { erewrite IH; [by rewrite with_out_app | by apply Rcs_out |].
    simpl. by rewrite <- app_assoc. }
  destruct (symtab_by_address a) as [[name ?] |]; [| exact Hrest].
  destruct (decide (name = "main"%string)); [done | exact Hrest].
Qed.

Lemma print_run w t cs ips :
  Rcs w t -> t_ips t !! cs = Some ips ->
  callstack_print cs w = Some (tt, with_out (backtrace_msgs ips) w).
Proof.
  intros HR Hs. destruct (Rcs_obj _ _ _ _ HR Hs) as (c & Hc & Hok).
  unfold callstack_print. erewrite (cmd_bind_Some (get_cs cs) _ _ c w).
  - cbn beta. rewrite (co_num _ _ _ _ _ Hok), Nat2Z.id.
    by apply (print_frames_run w t cs [] ips).
  - unfold get_cs, gets_opt. by rewrite (rc_objs _ _ HR), Hc.
Qed.

Lemma print_refines w t cs t' :
  Rcs w t -> spec_print cs t = Some t' ->
  exists w', callstack_print cs w = Some (tt, w') /\ Rcs w' t'.
Proof.
  intros HR Hspec. apply bind_Some in Hspec as (ips & Hs & [= <-]).
  exists (with_out (backtrace_msgs ips) w). split; [by eapply print_run | by apply Rcs_out].
Qed.

(** A write to the statistics. *)
Lemma modify_cs_refines w t cs f t' :
  Rcs w t -> (forall c, ip_num (f c) = ip_num c) -> t_modify_cs cs f t = Some t' ->
  exists w', modify_cs cs f w = Some (tt, w') /\ Rcs w' t'.
Proof.
  intros HR Hf Hspec. apply bind_Some in Hspec as (c & Hc & [= <-]).
  unfold modify_cs. rewrite (rc_objs _ _ HR), Hc. eexists. split; [done |].
  pose proof HR as []. constructor; simpl; try done.
  - intros p. rewrite (rc_dom _ _ HR), lookup_insert. case_decide; naive_solver.
  - intros p c' s. rewrite lookup_insert. case_decide as E; [| by apply (rc_ok _ _ HR)].
    subst p. intros [= <-] Hs. destruct (rc_ok _ _ HR _ _ _ Hc Hs).
    constructor; try done. by rewrite Hf.
Qed.

Lemma get_cs_refines w t cs c : Rcs w t -> t_cs t !! cs = Some c -> get_cs cs w = Some (c, w).
Proof. intros HR Hc. unfold get_cs, gets_opt. by rewrite (rc_objs _ _ HR), Hc. Qed.

End callstack_refine.
