(* ===== verification/MemblockRefine.v ===== *)
(** * The memory blocks' structures implement the specification

    [R w t] relates the whole memory of [memblock.c] and [callstack.c] to a
    [tracker]: [CallstackRefine.Rcs], and for the blocks the two lists, the
    table, the keys in memory and the objects.  The operations of [Memblock]
    are refined one by one, then in any order ([tracker_refines]). *)

From S2P Require Import Prelude Path ListH HlistH HashH PtrBacktrace Heap.
From S2P Require Import Callstack Memblock Tracker CallstackRefine.

(** ** The two lists *)

Section two_lists.
Context (h1 h2 : Z).

Definition two_lists (m : lmem) (xs ys : list Z) : Prop :=
  dll m h1 xs /\ dll m h2 ys /\ NoDup (h1 :: h2 :: xs ++ ys).

Lemma two_lists_ext m m' xs ys :
  (forall a, a ∈ h1 :: h2 :: xs ++ ys -> nxt m' !! a = nxt m !! a /\ prv m' !! a = prv m !! a) ->
  two_lists m xs ys -> two_lists m' xs ys.
Proof.
  intros Hsame (H1 & H2 & Hnd). split_and!; [| | done];
    (eapply dll_ext; [| done]); intros a Ha; apply Hsame; set_solver.
Qed.

Lemma two_lists_swap_NoDup xs ys : NoDup (h1 :: h2 :: xs ++ ys) -> NoDup (h2 :: h1 :: ys ++ xs).
Proof. by rewrite (Permutation_swap h1 h2), (Permutation_app_comm xs ys). Qed.

Lemma two_lists_apart m xs ys a :
  two_lists m xs ys -> a ∈ h2 :: ys -> a ∉ h1 :: xs.
Proof.
  intros (_ & _ & Hnd) Ha. apply NoDup_cons in Hnd as [Hn1 Hnd].
  apply NoDup_cons in Hnd as [Hn2 Hnd]. apply NoDup_app in Hnd as (_ & Hdis & _). set_solver.
Qed.

Lemma two_lists_add_first m xs ys n :
  two_lists m xs ys -> n ∉ h1 :: h2 :: xs ++ ys -> alloc m n ->
  exists m', list_add_tail n h1 m = Some (tt, m') /\ two_lists m' (xs ++ [n]) ys /\
    (forall a, alloc m a -> alloc m' a).
Proof.
  intros HL Hn Ha. pose proof HL as (H1 & H2 & Hnd).
  destruct (list_add_tail_spec m h1 xs n H1) as (m' & Hrun & Hd & Hch); [set_solver | done |].
  exists m'. split_and!; [done | | apply Hch]. split_and!; [done | |].
  - eapply dll_changes_only; [exact Hch | | done].
    intros a Hin Hc. pose proof (two_lists_apart _ _ _ _ HL Hin).
    pose proof (before_elem h1 xs). set_solver.
  - assert (h1 :: h2 :: (xs ++ [n]) ++ ys ≡ₚ n :: h1 :: h2 :: xs ++ ys) as ->.
    { rewrite <- app_assoc. symmetry. apply (Permutation_middle (h1 :: h2 :: xs)). }
    by apply NoDup_cons.
Qed.

Lemma two_lists_del_first m xs1 n xs2 ys :
  two_lists m (xs1 ++ n :: xs2) ys ->
  exists m', list_del n m = Some (tt, m') /\ two_lists m' (xs1 ++ xs2) ys /\
    (forall a, alloc m a -> alloc m' a).
Proof.
  intros HL. pose proof HL as (H1 & H2 & Hnd).
  destruct (list_del_spec m h1 xs1 n xs2 H1) as (m' & Hrun & Hd & _ & _ & Hch).
  exists m'. split_and!; [done | | apply Hch]. split_and!; [done | |].
  - eapply dll_changes_only; [exact Hch | | done].
    intros a Hin Hc. pose proof (two_lists_apart _ _ _ _ HL Hin).
    pose proof (before_elem h1 xs1). pose proof (after_elem h1 xs2). set_solver.
  - rewrite <- app_assoc in Hnd |- *.
    change (h1 :: h2 :: xs1 ++ xs2 ++ ys) with (h1 :: (h2 :: xs1) ++ xs2 ++ ys).
    change (h1 :: h2 :: xs1 ++ (n :: xs2) ++ ys)
      with (h1 :: (h2 :: xs1) ++ n :: xs2 ++ ys) in Hnd.
    by apply NoDup_middle in Hnd as [_ ?].
Qed.

End two_lists.

Lemma two_lists_sym h1 h2 m xs ys : two_lists h1 h2 m xs ys -> two_lists h2 h1 m ys xs.
Proof. intros (H1 & H2 & Hnd). split_and!; [done.. |]. by apply two_lists_swap_NoDup. Qed.

Lemma filter_notin (n : Z) (xs : list Z) : n ∉ xs -> filter (fun p => p <> n) xs = xs.
Proof. intros Hn. apply filter_all. intros x Hx ->. done. Qed.

(** Deletion from the list that the node is on. *)
Lemma two_lists_del h1 h2 m xs ys n :
  two_lists h1 h2 m xs ys -> n ∈ xs ++ ys ->
  exists m', list_del n m = Some (tt, m') /\
    two_lists h1 h2 m' (filter (fun p => p <> n) xs) (filter (fun p => p <> n) ys) /\
    (forall a, alloc m a -> alloc m' a).
Proof.
  intros HL Hn. pose proof HL as (H1 & H2 & Hnd).
  apply NoDup_cons in Hnd as [_ Hnd]. apply NoDup_cons in Hnd as [_ Hnd].
  apply NoDup_app in Hnd as (_ & Hdis & _).
  apply elem_of_app in Hn as [Hn | Hn].
  - rewrite (filter_notin n ys) by by apply Hdis.
    apply list_elem_of_split in Hn as (xs1 & xs2 & ->).
    rewrite filter_ne_middle by by eapply dll_NoDup. by apply two_lists_del_first.
  - rewrite (filter_notin n xs) by (intros Hn'; by apply (Hdis n)).
    apply list_elem_of_split in Hn as (ys1 & ys2 & ->).
    rewrite filter_ne_middle by by eapply dll_NoDup.
    destruct (two_lists_del_first h2 h1 m ys1 n ys2 xs) as (m' & Hrun & HL' & Hal);
      [by apply two_lists_sym |].
    exists m'. split_and!; [done | by apply two_lists_sym | done].
Qed.

Section memblock_refine.
Context {uspace_t upt_t : Type}.
Context (unw_create_addr_space : uspace_t) (UPT_create : Z -> upt_t).
Context `{!Symbolizer}.
Context (space_head spaces g_callstack_hash : Z).
Context (g_memblock_hash g_memblock_active g_memblock_expire : Z).
Context (opt_backtrace_limit : Z).
Context (heap_start : Z).
Context (Hstat : statics_ok space_head spaces g_callstack_hash g_memblock_hash
  g_memblock_active g_memblock_expire heap_start).

Abbreviation mb_world := (mb_world (uspace_t := uspace_t) (upt_t := upt_t)).
Abbreviation Rcs := (Rcs unw_create_addr_space UPT_create space_head spaces
  g_callstack_hash heap_start).
Abbreviation env_ok := (env_ok unw_create_addr_space UPT_create opt_backtrace_limit).
Abbreviation spec_current := (spec_callstack_current unw_create_addr_space UPT_create
  opt_backtrace_limit).
Abbreviation tracker_wf := (tracker_wf heap_start).
Abbreviation two_lists := (two_lists g_memblock_active g_memblock_expire).

Definition mb_node (mb : Z) : Z := mb + offset_mb_hash_node.

Record Rmb (w : mb_world) (t : tracker) : Prop := {
  rm_wf : tracker_wf t;
  rm_objs : t_mb t ⊆ mb_objs w;
  rm_lists : two_lists (mb_lists w) (t_active t) (t_expire t);
  rm_table : hash_rep g_memblock_hash (fun _ => sizeof_uintptr) (bytes (mb_hash w))
    (mb_hash w) (mb_node <$> t_order t);
  rm_nodes : forall p, p ∈ t_order t -> hnode (chains (mb_hash w)) (mb_node p);
  rm_key : forall p a, t_ptr t !! p = Some a ->
    read_bytes (bytes (mb_hash w)) (p + offset_pointer) 8 = Some (word_bytes a);
  rm_id : mb_callstack_id w = t_next_id t
}.

Definition R (w : mb_world) (t : tracker) : Prop := Rcs (mb_cs w) t /\ Rmb w t.

Definition with_cs c (w : mb_world) : mb_world :=
  mk_mb_world c (mb_lists w) (mb_hash w) (mb_objs w) (mb_callstack_id w).

Lemma Rmb_same_blocks w t t' c : same_blocks t t' -> Rmb w t -> Rmb (with_cs c w) t'.
Proof.
  intros Hs []. pose proof Hs as [Em Ep Eo Ea Ee En _ _].
  constructor; simpl; rewrite ?Em, ?Ep, ?Eo, ?Ea, ?Ee, ?En; try done.
  by eapply same_blocks_wf.
Qed.

Lemma with_cs_with_cs c c' w : with_cs c (with_cs c' w) = with_cs c w.
Proof. done. Qed.

Lemma with_cs_self w : with_cs (mb_cs w) w = w.
Proof. by destruct w. Qed.

(** [Rcs] is about the heap, the call stacks and the output. *)
Lemma Rcs_frame w t t' :
  Rcs w t -> t_heap t' = t_heap t -> t_cs t' = t_cs t -> t_ips t' = t_ips t ->
  t_cs_order t' = t_cs_order t -> t_out t' = t_out t -> Rcs w t'.
Proof. intros [] E1 E2 E3 E4 E5. constructor; rewrite ?E1, ?E2, ?E3, ?E4, ?E5; done. Qed.

(** An operation on the call stacks, as an operation on the whole memory. *)
Lemma lift_cs {A} (m : cmd _ A) w t t' a c :
  R w t -> same_blocks t t' -> m (mb_cs w) = Some (a, c) -> Rcs c t' ->
  zoom m w = Some (a, with_cs c w) /\ R (with_cs c w) t'.
Proof.
  intros [_ HM] Hs Hrun HR. split; [unfold zoom; simpl; by rewrite Hrun |].
  split; [done | by eapply Rmb_same_blocks].
Qed.

(** What [callstack_current] does to a tracker. *)
Lemma spec_current_same_blocks c t e p t' :
  Rcs c t -> spec_current e t = Some (p, t') ->
  same_blocks t t' /\ (p = NULL \/ is_Some (t_cs t' !! p)).
Proof.
  intros HR [[-> Hp] | (h & Hm & Hnz & ->)]%spec_current_cases.
  - split; [reflexivity |]. destruct Hp as [-> | Hin]; [by left | right].
    apply (rc_dom _ _ _ _ _ _ _ _ HR). by apply (rc_order _ _ _ _ _ _ _ _ HR).
  - split; [| right; simpl; rewrite lookup_insert_eq; by eexists].
    destruct (rc_heap_ok _ _ _ _ _ _ _ _ HR) as [Hheap _].
    destruct (malloc_grows _ _ _ _ Hheap Hm) as (_ & Hb & _); [unfold sizeof_callstack; lia |].
    constructor; simpl; try done.
    intros a Ha. rewrite lookup_insert. case_decide; [by eexists | done].
Qed.

(** ** Steps that all operations share *)

Lemma t_set_cs_same_blocks cs c t : same_blocks t (t_set_cs cs c t).
Proof.
  constructor; simpl; try done. intros p Hp. rewrite lookup_insert. by case_decide.
Qed.

Lemma t_print_same_blocks ms t : same_blocks t (t_print ms t).
Proof. by constructor. Qed.

Lemma modify_cs_R w t cs f t' :
  R w t -> (forall c, ip_num (f c) = ip_num c) -> t_modify_cs cs f t = Some t' ->
  exists w', zoom (modify_cs cs f) w = Some (tt, w') /\ R w' t'.
Proof.
  intros HR Hf Hspec. pose proof HR as [HC _].
  destruct (modify_cs_refines _ _ _ _ _ _ _ _ _ _ _ HC Hf Hspec) as (c & Hrun & HC').
  apply bind_Some in Hspec as (c0 & _ & [= <-]).
  eexists. eapply lift_cs; [done | apply t_set_cs_same_blocks | done | done].
Qed.

Lemma printf_R w t m : R w t -> exists w', printf_mb m w = Some (tt, w') /\ R w' (t_print [m] t).
Proof.
  intros HR. pose proof HR as [HC _]. eexists.
  eapply lift_cs; [done | apply t_print_same_blocks | done | by apply Rcs_out].
Qed.

Lemma t_print_nil t : t_print [] t = t.
Proof. destruct t. unfold t_print. simpl. by rewrite app_nil_r. Qed.

Lemma t_print_app ms ms' t : t_print ms' (t_print ms t) = t_print (ms ++ ms') t.
Proof. unfold t_print. simpl. by rewrite <- app_assoc. Qed.

Lemma when_printf_R w t b m :
  R w t -> exists w', when b (printf_mb m) w = Some (tt, w') /\
    R w' (t_print (if b then [m] else []) t).
Proof.
  intros HR. destruct b; [by apply printf_R |]. exists w. by rewrite t_print_nil.
Qed.

Lemma print_R w t cs t' :
  R w t -> spec_print cs t = Some t' ->
  exists w', zoom (callstack_print cs) w = Some (tt, w') /\ R w' t'.
Proof.
  intros HR Hspec. pose proof HR as [HC _].
  destruct (print_refines _ _ _ _ _ _ _ _ _ _ HC Hspec) as (c & Hrun & HC').
  apply bind_Some in Hspec as (ips & _ & [= <-]).
  eexists. eapply lift_cs; [done | apply t_print_same_blocks | done | done].
Qed.

Lemma current_R w t e p t' :
  R w t -> env_ok e -> spec_current e t = Some (p, t') ->
  exists w', zoom (callstack_current unw_create_addr_space UPT_create space_head spaces
      g_callstack_hash opt_backtrace_limit e) w = Some (p, w') /\ R w' t' /\
    w' = with_cs (mb_cs w') w.
Proof.
  intros HR He Hspec. pose proof HR as [HC _].
  destruct (current_refines _ _ _ _ _ _ _ _ _ _ Hstat _ _ _ _ _ HC He Hspec) as (c & Hrun & HC').
  destruct (spec_current_same_blocks _ _ _ _ _ HC Hspec) as [Hs _].
  destruct (lift_cs _ _ _ _ _ _ HR Hs Hrun HC') as [Hrun' HR']. by exists (with_cs c w).
Qed.

Lemma get_mb_R w t mb b : R w t -> t_mb t !! mb = Some b -> get_mb mb w = Some (b, w).
Proof.
  intros [_ HM] Hb. unfold get_mb, gets_opt.
  by rewrite (lookup_weaken _ _ _ _ Hb (rm_objs _ _ HM)).
Qed.

Lemma get_cs_R w t cs c : R w t -> t_cs t !! cs = Some c -> zoom (get_cs cs) w = Some (c, w).
Proof.
  intros [HC _] Hc. unfold zoom. cbn [view mb_cs_lens].
  rewrite (get_cs_refines _ _ _ _ _ _ _ _ _ _ HC Hc). by destruct w.
Qed.

Lemma modify_mb_R w t mb f b :
  R w t -> t_mb t !! mb = Some b -> callstack (f b) = callstack b ->
  exists w', modify_mb mb f w = Some (tt, w') /\ R w' (t_set_mb mb (f b) t).
Proof.
  intros [HC HM] Hb Hf. unfold modify_mb.
  rewrite (lookup_weaken _ _ _ _ Hb (rm_objs _ _ HM)).
  eexists. split; [done |]. split; [by eapply Rcs_frame |].
  destruct HM as [[] ? ? ? ? ? ?]. constructor; simpl; try done; [| by apply insert_mono].
  constructor; simpl; try done.
  - intros p. rewrite wf_mb, lookup_insert. case_decide; naive_solver.
  - intros p b'. rewrite lookup_insert. case_decide as E; [| by apply wf_block].
    intros [= <-]. subst p. rewrite Hf. by apply wf_block.
Qed.

(** The call stack of a block exists. *)
Lemma block_callstack w t mb b :
  R w t -> t_mb t !! mb = Some b -> exists c, t_cs t !! callstack b = Some c.
Proof. intros [_ HM] Hb. apply (wf_block _ (rm_wf _ _ HM) _ _ Hb). Qed.

Lemma update_size_refines w t mb sz t' :
  R w t -> spec_memblock_update_size mb sz t = Some t' ->
  exists w', memblock_update_size mb sz w = Some (tt, w') /\ R w' t'.
Proof.
  intros HR Hspec. unfold spec_memblock_update_size, memblock_update_size in *.
  destruct (mb =? NULL); [simplify_eq; by exists w |]. cbn [negb].
  apply bind_Some in Hspec as (b & Hb & Hspec). apply bind_Some in Hspec as (c & Hc & [= <-]).
  erewrite cmd_bind_Some by by eapply get_mb_R. cbn beta.
  destruct (modify_cs_R w t (callstack b) (on_update_size (size b) sz)
    (t_set_cs (callstack b) (on_update_size (size b) sz c) t)) as (w1 & Hrun1 & HR1);
    [done | done | unfold t_modify_cs; by rewrite Hc |].
  erewrite cmd_bind_Some by exact Hrun1. cbn beta.
  by apply (modify_mb_R w1 _ mb
    (fun b => mk_memblock sz (create b) (expired b) (callstack b)) b).
Qed.

(** ** Deletion and search *)

Lemma node_key_word m p a :
  read_bytes m (p + offset_pointer) 8 = Some (word_bytes a) ->
  node_key m (mb_node p) sizeof_uintptr = Some (word_bytes a).
Proof.
  intros Hr. unfold node_key, mb_node.
  by replace (p + offset_mb_hash_node + sizeof_hlist_node) with (p + offset_pointer)
    by (unfold offset_mb_hash_node, sizeof_hlist_node, offset_pointer; lia).
Qed.

Lemma hash_slot_word a : hash_slot (word_bytes a) sizeof_uintptr = Some (slot_of_words [a]).
Proof. by apply (hash_slot_words [a]). Qed.

Lemma not_bucket p j : heap_start <= p -> is_slot j -> mb_node p <> bucket g_memblock_hash j.
Proof.
  intros Hp Hj. destruct Hstat as (_ & _ & _ & _ & ? & _).
  unfold mb_node, bucket, offset_mb_hash_node, sizeof_hlist_head, is_slot in *. lia.
Qed.

Lemma Rmb_slot w t p a :
  Rmb w t -> t_ptr t !! p = Some a ->
  slot_at (fun _ => sizeof_uintptr) (bytes (mb_hash w)) (mb_node p) = Some (slot_of_words [a]).
Proof.
  intros HM Ha. unfold slot_at. rewrite (node_key_word _ _ a) by by apply (rm_key _ _ HM).
  apply hash_slot_word.
Qed.

Lemma Rmb_node_ok w t p :
  Rmb w t -> p ∈ t_order t ->
  node_ok g_memblock_hash (fun _ => sizeof_uintptr) (bytes (mb_hash w))
    (chains (mb_hash w)) (mb_node p).
Proof.
  intros HM Hp. pose proof (rm_wf _ _ HM) as Hwf. split_and!.
  - by apply (rm_nodes _ _ HM).
  - apply (wf_ptr _ Hwf) in Hp as [a Ha]. eexists. by eapply Rmb_slot.
  - intros j. apply not_bucket. by destruct (wf_order_block t p Hwf Hp).
Qed.

Lemma mb_node_inj p q : mb_node p = mb_node q -> p = q.
Proof. unfold mb_node. lia. Qed.

Lemma filter_mb_node mb (l : list Z) :
  filter (fun x => x <> mb_node mb) (mb_node <$> l) = mb_node <$> filter (fun p => p <> mb) l.
Proof.
  induction l as [| p l IH]; [done |]. rewrite fmap_cons, !filter_cons, IH.
  repeat case_decide; try done.
  - exfalso. naive_solver.
  - exfalso. pose proof (mb_node_inj p mb). tauto.
Qed.

Lemma remove_R w t mb :
  R w t -> mb ∈ t_order t ->
  exists w', (zoom (hash_delete (mb + offset_mb_hash_node));;
      zoom (list_del (mb + offset_list_node));; free_memblock mb) w = Some (tt, w') /\
    R w' (spec_remove_block mb t).
Proof.
  intros [HC HM] Hmb. pose proof (rm_wf _ _ HM) as Hwf.
  destruct (run_hash_op_refines _ _ _ _ _ (mb_node <$> filter (fun p => p <> mb) (t_order t))
    (HashDelete (mb_node mb)) (rm_table _ _ HM)) as (h' & Hrun1 & Hrep & Hok).
  { cbn [abs_hash_op]. rewrite decide_True by by apply list_elem_of_fmap_2.
    by rewrite filter_mb_node. }
  { by apply (Rmb_node_ok w t). }
  destruct (two_lists_del _ _ _ _ _ mb (rm_lists _ _ HM)) as (l' & Hrun2 & HL & Hal).
  { by rewrite (wf_perm _ Hwf). }
  eexists. split.
  { erewrite cmd_bind_Some by (apply zoom_Some; exact Hrun1).
    erewrite cmd_bind_Some by (apply zoom_Some; unfold offset_list_node; rewrite Z.add_0_r;
      exact Hrun2). reflexivity. }
  assert (bytes h' = bytes (mb_hash w)) as Hbytes by apply Hrep.
  split; [by eapply Rcs_frame |]. constructor; simpl.
  - by apply remove_wf.
  - apply delete_mono, (rm_objs _ _ HM).
  - unfold offset_list_node. rewrite Z.add_0_r. eapply two_lists_ext; [| exact HL].
    intros a Ha. assert (a <> mb); [| simpl; by rewrite !lookup_delete_ne].
    intros ->. destruct HL as (_ & _ & Hnd). apply (wf_order_block _ _ Hwf) in Hmb.
    destruct Hstat as (_ & _ & _ & _ & _ & _ & ? & ? & _).
    apply elem_of_cons in Ha as [-> | Ha]; [lia |].
    apply elem_of_cons in Ha as [-> | Ha]; [lia |].
    apply elem_of_app in Ha as [Ha | Ha]; apply list_elem_of_filter in Ha; tauto.
  - refine (hash_rep_ext _ _ (bytes (mb_hash w)) _ h' (mk_hash_mem _ (bytes h')) _ Hrep _ _);
      simpl.
    + intros a Ha. assert (a <> mb + offset_mb_hash_node); [| by rewrite !lookup_delete_ne].
      destruct Ha as [(p & -> & Hp)%list_elem_of_fmap | (i & Hi & ->)].
      * apply list_elem_of_filter in Hp as [Hp _]. unfold mb_node. lia.
      * pose proof (wf_order_block _ _ Hwf Hmb) as [Hl _].
        pose proof (not_bucket _ _ Hl Hi). unfold mb_node in *. congruence.
    + intros n _. by rewrite Hbytes.
  - intros p [Hp Hin]%list_elem_of_filter.
    destruct (Hok _ (Rmb_node_ok _ _ _ HM Hin)) as [(Hn & Hc & Hpp) _].
    assert (mb_node p <> mb + offset_mb_hash_node) by (unfold mb_node; lia).
    split_and!; simpl; [done | by rewrite lookup_delete_ne..].
  - intros p a [_ Ha]%lookup_delete_Some. rewrite Hbytes. by apply (rm_key _ _ HM).
  - apply (rm_id _ _ HM).
Qed.

Lemma t_set_cs_twice cs c c' ms t :
  t_set_cs cs c' (t_print ms (t_set_cs cs c t)) = t_print ms (t_set_cs cs c' t).
Proof. unfold t_set_cs, t_print. simpl. by rewrite insert_insert_eq. Qed.

(** A write to a call stack whose members are known. *)
Lemma modify_known_cs w t cs f c :
  R w t -> (forall c, ip_num (f c) = ip_num c) -> t_cs t !! cs = Some c ->
  exists w', zoom (modify_cs cs f) w = Some (tt, w') /\ R w' (t_set_cs cs (f c) t).
Proof. intros HR Hf Hc. apply (modify_cs_R w t); [done.. |]. unfold t_modify_cs. by rewrite Hc. Qed.

Lemma print_free_expired_R w t c time :
  R w t -> exists w', print_free_expired c time w = Some (tt, w') /\
    R w' (t_print (free_expired_msgs c time) t).
Proof.
  intros HR. unfold print_free_expired, free_expired_msgs.
  destruct (when_printf_R w t (free_expired_count c <=? DONOT_SHOW_AFTER_FREE_EXPIRES)
    (MsgExpiredFree (id c) time) HR) as (w1 & Hrun1 & HR1).
  erewrite cmd_bind_Some by exact Hrun1. rewrite <- t_print_app. by apply when_printf_R.
Qed.

(** The part of [memblock_delete] that is for expired blocks only. *)
Lemma delete_expired_R w t b c time :
  R w t -> t_cs t !! callstack b = Some c ->
  exists w', (when (negb (expired b =? 0)) (
      zoom (modify_cs (callstack b) (on_free_expired (size b)));;
      c ← zoom (get_cs (callstack b));
      print_free_expired c time)) w = Some (tt, w') /\
    R w' (t_print (if expired b =? 0 then []
                   else free_expired_msgs (on_free_expired (size b) c) time)
           (t_set_cs (callstack b) (if expired b =? 0 then c
                                    else on_free_expired (size b) c) t)).
Proof.
  intros HR Hc. destruct (expired b =? 0); cbn [negb when].
  - exists w. split; [done |]. rewrite t_print_nil.
    assert (t_set_cs (callstack b) c t = t) as ->; [| done].
    destruct t. unfold t_set_cs. simpl in *. by rewrite insert_id.
  - destruct (modify_known_cs w t (callstack b) (on_free_expired (size b)) c)
      as (w1 & Hrun1 & HR1); [done.. |].
    erewrite cmd_bind_Some by exact Hrun1. cbn beta.
    erewrite cmd_bind_Some by (eapply get_cs_R; [exact HR1 | apply lookup_insert_eq]).
    by apply print_free_expired_R.
Qed.

Lemma delete_refines w t e mb t' :
  R w t -> spec_memblock_delete e mb t = Some t' ->
  exists w', memblock_delete (uspace_t := uspace_t) (upt_t := upt_t) e mb w = Some (tt, w') /\
    R w' t'.
Proof.
  intros HR Hspec. unfold spec_memblock_delete, memblock_delete in *.
  destruct (mb =? NULL); [simplify_eq; by exists w |].
  apply bind_Some in Hspec as (b & Hb & Hspec). apply bind_Some in Hspec as (c & Hc & [= <-]).
  erewrite cmd_bind_Some by by eapply get_mb_R. cbn beta zeta.
  destruct (delete_expired_R w t b c (now e - create b) HR Hc) as (w1 & Hrun1 & HR1).
  erewrite cmd_bind_Some by exact Hrun1. cbn beta.
  eapply modify_known_cs in HR1 as (w2 & Hrun2 & HR2); [| | apply lookup_insert_eq].
  - erewrite cmd_bind_Some by exact Hrun2. cbn beta.
    rewrite t_set_cs_twice in HR2. apply remove_R; [exact HR2 |].
    apply (wf_mb _ (rm_wf _ _ (proj2 HR))). by eexists.
  - intros c'. reflexivity.
Qed.

Lemma find_newest_mb w t pointer :
  Rmb w t -> is_u64 pointer ->
  find_newest (bytes (mb_hash w)) sizeof_uintptr (word_bytes pointer) (mb_node <$> t_order t) =
    (let p := spec_memblock_search pointer t in if p =? NULL then NULL else mb_node p).
Proof.
  intros HM Hu. pose proof (rm_wf _ _ HM) as Hwf.
  unfold find_newest, spec_memblock_search.
  assert (forall p, p ∈ t_order t -> t_ptr t !! p = Some pointer <->
    node_key (bytes (mb_hash w)) (mb_node p) sizeof_uintptr = Some (word_bytes pointer)) as Hkey.
  { intros p (a & Ha)%(wf_ptr _ Hwf).
    rewrite (node_key_word _ _ a) by by apply (rm_key _ _ HM). rewrite Ha.
    split; [intros E; by simplify_eq | intros E].
    apply (inj Some), word_bytes_inj in E; [by subst | by eapply (wf_word _ Hwf) | done]. }
  assert (forall p, p ∈ t_order t -> p <> NULL) as Hnz.
  { intros p Hp. pose proof (wf_order_block _ _ Hwf Hp) as [? _].
    destruct Hstat as (_ & _ & _ & _ & _ & _ & _ & _ & ?). unfold NULL. lia. }
  induction (t_order t) as [| p l IH]; [done |].
  rewrite fmap_cons, !filter_cons. pose proof (Hkey p ltac:(set_solver)).
  repeat case_decide; try tauto.
  - simpl. by rewrite (proj2 (Z.eqb_neq _ _) (Hnz p ltac:(set_solver))).
  - apply IH; intros; [apply Hkey | apply Hnz]; set_solver.
Qed.

Lemma search_refines w t pointer :
  R w t -> is_u64 pointer ->
  memblock_search g_memblock_hash pointer w = Some (spec_memblock_search pointer t, w).
Proof.
  intros [HC HM] Hu. pose proof (rm_wf _ _ HM) as Hwf. unfold memblock_search.
  erewrite cmd_bind_Some by (apply zoom_Some; eapply hash_rep_search_newest;
    [apply (rm_table _ _ HM) | done | apply hash_slot_word]).
  rewrite update_view. cbn beta. rewrite (find_newest_mb w t) by done. cbv zeta.
  destruct (Z.eqb_spec (spec_memblock_search pointer t) NULL) as [-> | Hne]; [done |].
  assert (spec_memblock_search pointer t ∈ t_order t) as Hin.
  { unfold spec_memblock_search in *. destruct (filter _ _) eqn:E; [done |].
    assert (z ∈ filter (fun p => t_ptr t !! p = Some pointer) (t_order t)) as Hz
      by (rewrite E; set_solver). by apply list_elem_of_filter in Hz as [_ ?]. }
  pose proof (wf_order_block _ _ Hwf Hin) as [Hlo Hhi].
  destruct (rc_heap_ok _ _ _ _ _ _ _ _ HC) as [[? ?] ?].
  destruct Hstat as (_ & _ & _ & _ & _ & _ & _ & _ & ?).
  rewrite (proj2 (Z.eqb_neq (mb_node _) NULL)).
  - unfold list_entry, mb_node. rewrite u64_small; [unfold mret, cmd_ret; do 2 f_equal; lia |].
    unfold is_u64, offset_mb_hash_node, sizeof_memblock in *. lia.
  - unfold mb_node, offset_mb_hash_node, NULL. lia.
Qed.

(** ** Insertion *)

Lemma malloc_R w t sz mb h :
  R w t -> 0 <= sz -> malloc sz (t_heap t) = Some (mb, h) ->
  exists w', malloc_mb sz w = Some (mb, w') /\ R w' (t_set_heap h t) /\
    (mb = NULL -> t_set_heap h t = t) /\
    (mb <> NULL -> mb = brk (t_heap t) /\ mb + sz <= brk h /\ heap_start <= mb).
Proof.
  intros [HC HM] Hsz Hm. destruct (rc_heap_ok _ _ _ _ _ _ _ _ HC) as [Hheap Hlow].
  unfold malloc_mb. rewrite (rc_heap _ _ _ _ _ _ _ _ HC), Hm.
  assert (heap_ok h /\ brk (t_heap t) <= brk h) as [Hh Hb].
  { destruct (malloc_cases sz _ Hheap Hsz) as [[E _] | (h' & E & ? & ? & _)];
      rewrite E in Hm; simplify_eq; [done |]. split; [done | lia]. }
  eexists. split; [done |]. split; [split |].
  - by apply Rcs_heap.
  - eapply (Rmb_same_blocks w t); [| done]. constructor; by simpl.
  - destruct (malloc_cases sz _ Hheap Hsz) as [[E _] | (h' & E & ? & ? & _ & ?)];
      rewrite E in Hm; simplify_eq.
    + split; [by destruct t | done].
    + split; [done | intros _]. split_and!; [done | lia | lia].
Qed.

(** A block that is allocated, and is not part of the tracker. *)
Definition loose (w : mb_world) (t : tracker) (mb : Z) : Prop :=
  alloc (mb_lists w) mb /\ hnode (chains (mb_hash w)) (mb_node mb) /\
  is_Some (mb_objs w !! mb) /\ heap_start <= mb /\ mb + sizeof_memblock <= brk (t_heap t) /\
  (forall p, p ∈ t_order t -> p + sizeof_memblock <= mb).

Lemma fresh_notin t mb :
  (forall p, p ∈ t_order t -> p + sizeof_memblock <= mb) -> mb ∉ t_order t.
Proof. intros Hf Hin. apply Hf in Hin. unfold sizeof_memblock in Hin. lia. Qed.

Lemma fresh_lists t mb :
  tracker_wf t -> heap_start <= mb -> mb ∉ t_order t ->
  mb ∉ g_memblock_active :: g_memblock_expire :: t_active t ++ t_expire t.
Proof.
  intros Hwf Hlo Hn. destruct Hstat as (_ & _ & _ & _ & _ & _ & ? & ? & _).
  rewrite !not_elem_of_cons, (wf_perm _ Hwf). split_and!; [lia | lia | done].
Qed.

(** Memory of the table that is written at a fresh block only. *)
Lemma fresh_table w t mb m :
  Rmb w t -> heap_start <= mb -> (forall p, p ∈ t_order t -> p + sizeof_memblock <= mb) ->
  (forall a, a <> mb_node mb -> cell (chains m) !! a = cell (chains (mb_hash w)) !! a /\
     pprev (chains m) !! a = pprev (chains (mb_hash w)) !! a) ->
  (forall a, a < mb -> bytes m !! a = bytes (mb_hash w) !! a) ->
  hash_rep g_memblock_hash (fun _ => sizeof_uintptr) (bytes m) m (mb_node <$> t_order t) /\
  (forall p, p ∈ t_order t -> hnode (chains m) (mb_node p)) /\
  (forall p a, t_ptr t !! p = Some a ->
     read_bytes (bytes m) (p + offset_pointer) 8 = Some (word_bytes a)).
Proof.
  intros HM Hlo Hf Hc Hb. pose proof (rm_wf _ _ HM) as Hwf.
  assert (forall p, p ∈ t_order t -> mb_node p <> mb_node mb) as Hne.
  { intros p Hp E%mb_node_inj. subst p. by eapply fresh_notin. }
  assert (forall p a, t_ptr t !! p = Some a ->
    read_bytes (bytes m) (p + offset_pointer) 8 = Some (word_bytes a)) as Hkey.
  { intros p a Ha. rewrite <- (rm_key _ _ HM p a Ha). apply read_bytes_ext.
    intros x Hx. apply Hb. assert (p ∈ t_order t) as Hp%Hf by (apply (wf_ptr _ Hwf); by eexists).
    unfold offset_pointer, sizeof_memblock in *. lia. }
  split_and!; [| | exact Hkey].
  - eapply hash_rep_ext; [apply (rm_table _ _ HM) | |].
    + intros a Ha. apply Hc. destruct Ha as [(p & -> & Hp)%list_elem_of_fmap | (i & Hi & ->)].
      * by apply Hne.
      * intros E. by apply (not_bucket _ _ Hlo Hi).
    + intros n (p & -> & Hp)%list_elem_of_fmap. apply (wf_ptr _ Hwf) in Hp as [a Ha].
      rewrite (Rmb_slot _ _ _ _ HM Ha). unfold slot_at.
      rewrite (node_key_word _ _ a) by by apply Hkey. apply hash_slot_word.
  - intros p Hp. unfold hnode. destruct (Hc _ (Hne _ Hp)) as [-> ->]. by apply (rm_nodes _ _ HM).
Qed.

Lemma new_memblock_R w t mb :
  R w t -> heap_start <= mb -> mb + sizeof_memblock <= brk (t_heap t) ->
  (forall p, p ∈ t_order t -> p + sizeof_memblock <= mb) ->
  exists w', new_memblock mb w = Some (tt, w') /\ R w' t /\ loose w' t mb.
Proof.
  intros [HC HM] Hlo Hhi Hf. pose proof (fresh_notin _ _ Hf) as Hn.
  pose proof (rm_wf _ _ HM) as Hwf. eexists. split; [done |]. split; [split; [done |] |].
  - destruct (fresh_table w t mb
      (mk_hash_mem (mk_hmem (<[mb_node mb := NULL]> (cell (chains (mb_hash w))))
                            (<[mb_node mb := NULL]> (pprev (chains (mb_hash w)))))
        (write_bytes (bytes (mb_hash w)) (mb + offset_pointer) (word_bytes 0))) HM Hlo Hf)
      as (H1 & H2 & H3).
    { intros a Ha. simpl. by rewrite !lookup_insert_ne. }
    { intros a Ha. apply write_bytes_ne. unfold offset_pointer. lia. }
    constructor; try done; [| | apply (rm_id _ _ HM)]; simpl.
    + apply insert_subseteq_r; [| apply (rm_objs _ _ HM)].
      apply eq_None_not_Some. by rewrite <- (wf_mb _ Hwf).
    + unfold offset_list_node. rewrite Z.add_0_r.
      eapply two_lists_ext; [| apply (rm_lists _ _ HM)]. intros a Ha. simpl.
      assert (a <> mb) by (intros ->; by apply (fresh_lists t mb Hwf Hlo Hn)).
      by rewrite !lookup_insert_ne.
  - unfold loose, alloc, hnode. simpl. unfold offset_list_node, mb_node. rewrite Z.add_0_r.
    rewrite !lookup_insert_eq. destruct Hstat as (_ & _ & _ & _ & _ & _ & _ & _ & ?).
    split_and!; first [eexists; reflexivity | assumption | unfold NULL, offset_mb_hash_node; lia].
Qed.

Lemma loose_with_cs w t t' mb c :
  same_blocks t t' -> loose w t mb -> loose (with_cs c w) t' mb.
Proof.
  intros Hs (H1 & H2 & H3 & H4 & H5 & H6). split_and!; try done.
  - pose proof (sb_brk _ _ Hs). lia.
  - intros p. rewrite (sb_order _ _ Hs). apply H6.
Qed.

(** A write to a member of the loose block. *)
Lemma modify_loose w t mb f :
  R w t -> loose w t mb ->
  exists w' b, modify_mb mb f w = Some (tt, w') /\ R w' t /\ loose w' t mb /\
    mb_objs w !! mb = Some b /\ mb_objs w' !! mb = Some (f b) /\ mb_hash w' = mb_hash w.
Proof.
  intros [HC HM] (H1 & H2 & [b Hb] & H4 & H5 & H6). unfold modify_mb. rewrite Hb.
  pose proof (fresh_notin _ _ H6) as Hn. pose proof (rm_wf _ _ HM) as Hwf.
  eexists _, b. split; [done |]. split_and!; [split; [done |] | | done | | done].
  - destruct HM. constructor; try done. simpl.
    apply insert_subseteq_r; [| done]. apply eq_None_not_Some. by rewrite <- (wf_mb _ Hwf).
  - split_and!; try done. simpl. rewrite lookup_insert_eq. by eexists.
  - simpl. by rewrite lookup_insert_eq.
Qed.

Lemma set_pointer_loose w t mb pointer :
  R w t -> loose w t mb ->
  exists w', set_pointer mb pointer w = Some (tt, w') /\ R w' t /\ loose w' t mb /\
    mb_objs w' = mb_objs w /\
    read_bytes (bytes (mb_hash w')) (mb + offset_pointer) 8 = Some (word_bytes pointer).
Proof.
  intros [HC HM] (H1 & H2 & [b Hb] & H4 & H5 & H6). unfold set_pointer. rewrite Hb.
  eexists. split; [done |]. split_and!; [split; [done |] | | done |].
  - destruct (fresh_table w t mb (mk_hash_mem (chains (mb_hash w))
      (write_bytes (bytes (mb_hash w)) (mb + offset_pointer) (word_bytes pointer))) HM H4 H6)
      as (T1 & T2 & T3); [done | |].
    { intros a Ha. apply write_bytes_ne. unfold offset_pointer. lia. }
    destruct HM. by constructor.
  - by split_and!.
  - apply (read_write_bytes _ _ (word_bytes pointer)).
Qed.

(** [hash_add] and [list_add_tail] in [memblock_new]. *)
Lemma add_R w t mb b pointer :
  R w t -> loose w t mb -> mb_objs w !! mb = Some b ->
  read_bytes (bytes (mb_hash w)) (mb + offset_pointer) 8 = Some (word_bytes pointer) ->
  is_Some (t_cs t !! callstack b) -> is_u64 pointer ->
  exists w1 w2, zoom (hash_add g_memblock_hash (mb + offset_mb_hash_node) sizeof_uintptr) w =
      Some (tt, w1) /\
    zoom (list_add_tail (mb + offset_list_node) g_memblock_active) w1 = Some (tt, w2) /\
    R w2 (spec_add_block mb b pointer t).
Proof.
  intros [HC HM] (H1 & H2 & _ & H4 & H5 & H6) Hb Hkey Hcs Hu.
  pose proof (fresh_notin _ _ H6) as Hn. pose proof (rm_wf _ _ HM) as Hwf.
  assert (node_ok g_memblock_hash (fun _ => sizeof_uintptr) (bytes (mb_hash w))
    (chains (mb_hash w)) (mb_node mb)) as Hnode.
  { split_and!; [done | | intros j; by apply not_bucket].
    eexists. unfold slot_at. rewrite (node_key_word _ _ pointer) by done. apply hash_slot_word. }
  destruct (run_hash_op_refines _ _ _ _ _ (mb_node <$> mb :: t_order t)
    (HashAdd (mb_node mb)) (rm_table _ _ HM)) as (h' & Hrun1 & Hrep & Hok).
  { cbn [abs_hash_op]. rewrite decide_False; [done |].
    intros (p & <-%mb_node_inj & Hp)%list_elem_of_fmap. done. }
  { exact Hnode. }
  assert (bytes h' = bytes (mb_hash w)) as Hbytes by apply Hrep.
  destruct (two_lists_add_first _ _ _ _ _ mb (rm_lists _ _ HM)) as (l' & Hrun2 & HL & Hal);
    [by apply fresh_lists | done |].
  eexists _, _. split_and!.
  { apply zoom_Some. exact Hrun1. }
  { apply zoom_Some. unfold offset_list_node. rewrite Z.add_0_r. exact Hrun2. }
  split; [by eapply Rcs_frame |].
  constructor; simpl; rewrite ?Hbytes.
  - by apply add_wf.
  - by apply insert_subseteq_l, (rm_objs _ _ HM).
  - exact HL.
  - exact Hrep.
  - intros p [-> | Hp]%elem_of_cons.
    + by apply Hok.
    + apply Hok. by apply (Rmb_node_ok w t).
  - intros p a. rewrite lookup_insert. case_decide as E; [| by apply (rm_key _ _ HM)].
    intros [= <-]. by subst p.
  - apply (rm_id _ _ HM).
Qed.

(** The steps from the allocation of a block to the test of its call stack. *)
Lemma new_block_R w t e mb h cs t' :
  R w t -> env_ok e -> malloc sizeof_memblock (t_heap t) = Some (mb, h) -> mb <> NULL ->
  spec_current e (t_set_heap h t) = Some (cs, t') ->
  exists w1 w2 w3 w4 b, malloc_mb sizeof_memblock w = Some (mb, w1) /\
    new_memblock mb w1 = Some (tt, w2) /\
    zoom (callstack_current unw_create_addr_space UPT_create space_head spaces
      g_callstack_hash opt_backtrace_limit e) w2 = Some (cs, w3) /\
    modify_mb mb (fun b => mk_memblock (size b) (create b) (expired b) cs) w3 = Some (tt, w4) /\
    R w4 t' /\ loose w4 t' mb /\ mb_objs w4 !! mb = Some b /\ callstack b = cs /\
    (cs = NULL \/ is_Some (t_cs t' !! cs)).
Proof.
  intros HR He Hm Hnz Hspec.
  destruct (malloc_R w t sizeof_memblock mb h HR ltac:(done) Hm) as (w1 & Hrun1 & HR1 & _ & Hmb).
  destruct (Hmb Hnz) as (Hbrk & Hhi & Hlo).
  destruct (new_memblock_R w1 (t_set_heap h t) mb) as (w2 & Hrun2 & HR2 & HL2); [done.. | |].
  { simpl. intros p Hp. rewrite Hbrk.
    by apply (wf_order_block _ _ (rm_wf _ _ (proj2 HR))). }
  destruct (current_R w2 _ e cs t' HR2 He Hspec) as (w3 & Hrun3 & HR3 & Hw3).
  destruct (spec_current_same_blocks _ _ _ _ _ (proj1 HR2) Hspec) as (Hs & Hcs).
  assert (loose w3 t' mb) as HL3 by (rewrite Hw3; by eapply loose_with_cs).
  destruct (modify_loose w3 t' mb (fun b => mk_memblock (size b) (create b) (expired b) cs))
    as (w4 & b & Hrun4 & HR4 & HL4 & _ & Hb & _); [done.. |].
  by eexists _, _, _, _, _.
Qed.

Lemma new_refines w t e pointer sz r t' :
  R w t -> env_ok e -> is_u64 pointer ->
  spec_memblock_new unw_create_addr_space UPT_create opt_backtrace_limit e pointer sz t =
    Some (r, t') ->
  exists w', memblock_new unw_create_addr_space UPT_create space_head spaces g_callstack_hash
      g_memblock_hash g_memblock_active opt_backtrace_limit e pointer sz w = Some (r, w') /\
    R w' t'.
Proof.
  intros HR He Hu Hspec. unfold spec_memblock_new, memblock_new in *.
  destruct (pointer =? 0).
  - apply bind_Some in Hspec as ([cs t1] & Hcur & Hspec).
    apply bind_Some in Hspec as (t2 & Hpr & [= <- <-]).
    destruct (printf_R w t MsgAllocNull HR) as (w1 & Hrun1 & HR1).
    destruct (current_R w1 _ e cs t1 HR1 He Hcur) as (w2 & Hrun2 & HR2 & _).
    destruct (print_R w2 t1 cs t2 HR2 Hpr) as (w3 & Hrun3 & HR3).
    exists w3. split; [| done].
    erewrite cmd_bind_Some by exact Hrun1. erewrite cmd_bind_Some by exact Hrun2.
    by erewrite cmd_bind_Some by exact Hrun3.
  - apply bind_Some in Hspec as ([mb h] & Hm & Hspec).
    destruct (Z.eqb_spec mb NULL) as [-> | Hnz].
    + simplify_eq. destruct (malloc_R w t' sizeof_memblock NULL h HR ltac:(done) Hm)
        as (w1 & Hrun1 & HR1 & Ht & _).
      rewrite Ht in HR1 by done. exists w1. split; [| done].
      by erewrite cmd_bind_Some by exact Hrun1.
    + apply bind_Some in Hspec as ([cs t1] & Hcur & Hspec).
      destruct (new_block_R w t e mb h cs t1 HR He Hm Hnz Hcur)
        as (w1 & w2 & w3 & w4 & b & Hrun1 & Hrun2 & Hrun3 & Hrun4 & HR4 & HL4 & Hb & Hbc & Hcs).
      erewrite cmd_bind_Some by exact Hrun1. cbn beta. rewrite (proj2 (Z.eqb_neq _ _) Hnz).
      erewrite cmd_bind_Some by exact Hrun2. erewrite cmd_bind_Some by exact Hrun3.
      erewrite cmd_bind_Some by exact Hrun4. cbn beta.
      destruct (Z.eqb_spec cs NULL) as [-> | Hcnz]; [simplify_eq; by exists w4 |].
      destruct Hcs as [-> | Hcs]; [done |]. apply bind_Some in Hspec as (t2 & Hmod & [= <- <-]).
      destruct (set_pointer_loose w4 t1 mb pointer HR4 HL4)
        as (w5 & Hrun5 & HR5 & HL5 & Hobj5 & Hkey5).
      destruct (modify_loose w5 t1 mb (fun b => mk_memblock sz (now e) 0 (callstack b)))
        as (w6 & b' & Hrun6 & HR6 & HL6 & Hb5 & Hb6 & Hhash6); [done.. |].
      rewrite Hobj5, Hb in Hb5. simplify_eq.
      destruct (add_R w6 t1 mb _ pointer HR6 HL6 Hb6) as (w7 & w8 & Hrun7 & Hrun8 & HR8);
        [by rewrite Hhash6 | done | done |].
      destruct (modify_cs_R w8 _ (callstack b') (on_alloc sz) t2 HR8) as (w9 & Hrun9 & HR9);
        [done | exact Hmod |].
      exists w9. split; [| done].
      erewrite cmd_bind_Some by exact Hrun5. erewrite cmd_bind_Some by exact Hrun6.
      erewrite cmd_bind_Some by exact Hrun7. erewrite cmd_bind_Some by exact Hrun8.
      by erewrite cmd_bind_Some by exact Hrun9.
Qed.

(** ** Expiration *)

(** [list_del] and [list_add_tail] in [memblock_expire_one]. *)
Lemma move_R w t mb :
  R w t -> mb ∈ t_active t ->
  exists w1 w2, zoom (list_del (mb + offset_list_node)) w = Some (tt, w1) /\
    zoom (list_add_tail (mb + offset_list_node) g_memblock_expire) w1 = Some (tt, w2) /\
    R w2 (t_set_lists (filter (fun p => p <> mb) (t_active t)) (t_expire t ++ [mb]) t).
Proof.
  intros [HC HM] Hin. pose proof (rm_wf _ _ HM) as Hwf.
  assert (mb ∈ t_order t) as Ho by (rewrite <- (wf_perm _ Hwf); set_solver).
  pose proof (wf_order_block _ _ Hwf Ho) as [Hlo _].
  pose proof (rm_lists _ _ HM) as HL. pose proof HL as (HL1 & _ & Hnd).
  assert (mb ∉ t_expire t) as Hne.
  { apply NoDup_cons in Hnd as [_ Hnd]. apply NoDup_cons in Hnd as [_ Hnd].
    apply NoDup_app in Hnd as (_ & Hdis & _). by apply Hdis. }
  destruct (two_lists_del _ _ _ _ _ mb HL) as (l1 & Hrun1 & HL1' & Hal); [set_solver |].
  rewrite (filter_notin mb (t_expire t)) in HL1' by done.
  apply two_lists_sym in HL1'.
  destruct (two_lists_add_first _ _ _ _ _ mb HL1') as (l2 & Hrun2 & HL2 & _).
  { destruct Hstat as (_ & _ & _ & _ & _ & _ & ? & ? & _).
    rewrite !not_elem_of_cons, not_elem_of_app, list_elem_of_filter.
    split_and!; [lia | lia | done | tauto]. }
  { apply Hal. eapply dll_alloc; [exact HL1 | set_solver]. }
  apply two_lists_sym in HL2.
  eexists _, _. split_and!.
  { apply zoom_Some. unfold offset_list_node. rewrite Z.add_0_r. exact Hrun1. }
  { apply zoom_Some. unfold offset_list_node. rewrite Z.add_0_r. exact Hrun2. }
  split; [by eapply Rcs_frame |].
  pose proof (move_wf t mb Hwf Hin). destruct HM. by constructor.
Qed.

Lemma set_callstack_id_R w t n :
  R w t -> exists w', set_callstack_id n w = Some (tt, w') /\ R w' (t_set_next_id n t).
Proof.
  intros [HC HM]. eexists. split; [done |]. split; [by eapply Rcs_frame |].
  destruct HM as [[] ? ? ? ? ? ?]. by constructor.
Qed.

Lemma expire_one_R w t mb t' :
  R w t -> mb ∈ t_active t -> spec_expire_one mb t = Some t' ->
  exists w', memblock_expire_one g_memblock_expire mb w = Some (tt, w') /\ R w' t' /\
    t_active t' = filter (fun p => p <> mb) (t_active t).
Proof.
  intros HR Hin Hspec. unfold spec_expire_one, memblock_expire_one in *.
  apply bind_Some in Hspec as (b & Hb & Hspec). cbv zeta in Hspec.
  apply bind_Some in Hspec as (c & Hc & Hspec). simpl in Hc.
  destruct (modify_mb_R w t mb (fun b => mk_memblock (size b) (create b) 1 (callstack b)) b)
    as (w1 & Hrun1 & HR1); [done.. |].
  destruct (move_R w1 _ mb HR1 Hin) as (w2 & w3 & Hrun2 & Hrun3 & HR3).
  destruct (modify_known_cs w3 _ (callstack b) (on_expire (size b)) c HR3)
    as (w4 & Hrun4 & HR4); [done | done |].
  erewrite cmd_bind_Some by exact Hrun1. erewrite cmd_bind_Some by exact Hrun2.
  erewrite cmd_bind_Some by exact Hrun3.
  erewrite cmd_bind_Some by (eapply get_mb_R; [exact HR3 | apply lookup_insert_eq]).
  cbn beta zeta. cbn [callstack size].
  erewrite cmd_bind_Some by exact Hrun4.
  erewrite cmd_bind_Some by (eapply get_cs_R; [exact HR4 | apply lookup_insert_eq]). cbn beta.
  destruct (id (on_expire (size b) c) =? 0).
  - assert (mb_callstack_id w4 = t_next_id t) as Hid by apply (rm_id _ _ (proj2 HR4)).
    erewrite (cmd_bind_Some (gets _) _ _ _ w4) by done. rewrite Hid.
    destruct (modify_known_cs w4 _ (callstack b) (set_id (t_next_id t))
      (on_expire (size b) c) HR4) as (w5 & Hrun5 & HR5); [done | apply lookup_insert_eq |].
    destruct (set_callstack_id_R w5 _ (s32 (t_next_id t + 1)) HR5) as (w6 & Hrun6 & HR6).
    destruct (printf_R w6 _ (MsgExpire (t_next_id t) (size b)) HR6) as (w7 & Hrun7 & HR7).
    erewrite cmd_bind_Some by exact Hrun5. erewrite cmd_bind_Some by exact Hrun6.
    erewrite cmd_bind_Some by exact Hrun7.
    unfold t_set_cs in HR7. cbn [t_cs t_set_lists] in HR7. simpl in HR7, Hspec.
    rewrite insert_insert_eq in HR7.
    destruct (print_R w7 _ (callstack b) t' HR7) as (w8 & Hrun8 & HR8).
    { exact Hspec. }
    exists w8. split_and!; [done | done |].
    by apply bind_Some in Hspec as (ips & _ & [= <-]).
  - simplify_eq. destruct (when_printf_R w4 _
      (free_expired_count (on_expire (size b) c) <? DONOT_SHOW_AFTER_FREE_EXPIRES)
      (MsgExpireAgain (id (on_expire (size b) c)) (size b) (expired_count (on_expire (size b) c)))
      HR4) as (w5 & Hrun5 & HR5).
    exists w5. split_and!; [done | exact HR5 | done].
Qed.

(** A node of a list is the address of its block. *)
Lemma list_entry_block w t p :
  R w t -> p ∈ t_order t -> list_entry p offset_list_node = p.
Proof.
  intros [HC HM] Hp. pose proof (wf_order_block _ _ (rm_wf _ _ HM) Hp) as [Hlo Hhi].
  destruct (rc_heap_ok _ _ _ _ _ _ _ _ HC) as [[? ?] ?].
  destruct Hstat as (_ & _ & _ & _ & _ & _ & _ & _ & ?).
  unfold list_entry, offset_list_node. rewrite Z.sub_0_r. apply u64_small.
  unfold is_u64, sizeof_memblock in *. lia.
Qed.

Lemma active_order w t p : R w t -> p ∈ t_active t -> p ∈ t_order t.
Proof. intros [_ HM] Hp. rewrite <- (wf_perm _ (rm_wf _ _ HM)). set_solver. Qed.

Lemma spec_expire_one_block mb t t' :
  spec_expire_one mb t = Some t' -> exists b c, t_mb t' !! mb = Some b /\ t_cs t' !! callstack b = Some c.
Proof.
  unfold spec_expire_one. intros (b & Hb & Hspec)%bind_Some. cbv zeta in Hspec.
  apply bind_Some in Hspec as (c & Hc & Hspec). exists (mk_memblock (size b) (create b) 1 (callstack b)).
  destruct (id (on_expire (size b) c) =? 0).
  - apply bind_Some in Hspec as (ips & _ & [= <-]). eexists. simpl. by rewrite !lookup_insert_eq.
  - simplify_eq. eexists. simpl. by rewrite !lookup_insert_eq.
Qed.

Lemma expire_body_R w t tm ex ml cl mb r t' :
  R w t -> mb ∈ t_active t -> spec_expire_body tm ex ml cl mb t = Some (r, t') ->
  exists w', expire_body g_memblock_expire tm ex ml cl mb w = Some (r, w') /\ R w' t' /\
    (r = None -> t_active t' = filter (fun p => p <> mb) (t_active t)).
Proof.
  intros HR Hin Hspec. unfold spec_expire_body, expire_body in *. cbv zeta.
  rewrite (list_entry_block w t) by (eauto using active_order).
  apply bind_Some in Hspec as (b & Hb & Hspec).
  erewrite cmd_bind_Some by by eapply get_mb_R. cbn beta.
  destruct (tm - create b <? ex); [simplify_eq; by exists w |].
  apply bind_Some in Hspec as (t1 & Hone & Hspec).
  destruct (expire_one_R w t mb t1 HR Hin Hone) as (w1 & Hrun1 & HR1 & Hact).
  erewrite cmd_bind_Some by exact Hrun1. cbn beta.
  destruct (spec_expire_one_block _ _ _ Hone) as (b1 & c1 & Hb1 & Hc1).
  assert (callstack b1 = callstack b) as Hcb.
  { unfold spec_expire_one in Hone. rewrite Hb in Hone. cbn in Hone.
    apply bind_Some in Hone as (c & _ & Hone). destruct (_ =? 0).
    - apply bind_Some in Hone as (ips & _ & [= <-]). simpl in Hb1.
      rewrite lookup_insert_eq in Hb1. by simplify_eq.
    - simplify_eq. simpl in Hb1. rewrite lookup_insert_eq in Hb1. by simplify_eq. }
  erewrite cmd_bind_Some by by eapply get_mb_R. cbn beta.
  erewrite cmd_bind_Some by by eapply get_cs_R. cbn beta.
  rewrite <- Hcb, Hc1 in Hspec. simpl in Hspec.
  destruct (s32 (cl + 1) <=? id c1).
  - simplify_eq. destruct (printf_R w1 t1 (MsgTooManyCallstacks cl) HR1) as (w2 & Hrun2 & HR2).
    exists w2. split; [by erewrite cmd_bind_Some by exact Hrun2 | done].
  - destruct (ml <=? expired_count c1); simplify_eq.
    + destruct (printf_R w1 t1 (MsgTooManyBlocks ml (id c1)) HR1) as (w2 & Hrun2 & HR2).
      exists w2. split; [by erewrite cmd_bind_Some by exact Hrun2 | done].
    + by exists w1.
Qed.

(** The loop: its nodes are the active blocks that are left. *)
Lemma expire_loop_R w t tm ex ml cl todo r t' :
  R w t -> t_active t = todo -> spec_expire_loop tm ex ml cl todo t = Some (r, t') ->
  exists r' w', run_list (expire_body g_memblock_expire tm ex ml cl) todo w = Some (r', w') /\
    r = default 0 r' /\ R w' t'.
Proof.
  revert w t. induction todo as [| mb todo IH]; intros w t HR Hact Hspec; simpl in *.
  - simplify_eq. by exists None, w.
  - apply bind_Some in Hspec as ([r1 t1] & Hbody & Hspec).
    destruct (expire_body_R w t tm ex ml cl mb r1 t1 HR) as (w1 & Hrun1 & HR1 & Hact1);
      [rewrite Hact; set_solver | done |].
    unfold mbind, cmd_bind. rewrite Hrun1. destruct r1 as [r1 |].
    + simplify_eq. by exists (Some r), w1.
    + apply (IH w1 t1); [done | | done]. rewrite Hact1, Hact by done.
      pose proof (rm_lists _ _ (proj2 HR)) as (Hd & _). apply dll_NoDup in Hd.
      rewrite Hact in Hd. apply (filter_ne_middle [] todo mb Hd).
Qed.

(** What the loop macro needs of its body. *)
Definition expire_inv tm ex ml cl (todo : list Z) (w : mb_world) : Prop :=
  exists t, R w t /\ t_active t = todo /\ is_Some (spec_expire_loop tm ex ml cl todo t).

Lemma expire_keeps_rest tm ex ml cl :
  keeps_rest (expire_inv tm ex ml cl) (expire_body g_memblock_expire tm ex ml cl)
    g_memblock_active.
Proof.
  split.
  - intros todo w (t & [_ HM] & Hact & _).
    pose proof (rm_lists _ _ HM) as ((_ & Hn & _) & _). rewrite Hact in Hn.
    split; [apply path_head in Hn; by eexists |]. destruct todo; [done |]. by destruct Hn.
  - intros mb todo w w' (t & HR & Hact & [[r tr] Hloop]) Hrun. simpl in Hloop.
    apply bind_Some in Hloop as ([r1 t1] & Hbody & Hloop).
    destruct (expire_body_R w t tm ex ml cl mb r1 t1 HR) as (w1 & Hrun1 & HR1 & Hact1);
      [rewrite Hact; set_solver | done |].
    rewrite Hrun in Hrun1. simplify_eq. exists t1. split_and!; [done | | by eexists].
    rewrite Hact1, Hact by done.
    pose proof (rm_lists _ _ (proj2 HR)) as (Hd & _). apply dll_NoDup in Hd.
    rewrite Hact in Hd. apply (filter_ne_middle [] todo mb Hd).
Qed.

Lemma expire_refines w t e ex ml cl r t' :
  R w t -> spec_memblock_expire (uspace_t := uspace_t) (upt_t := upt_t) e ex ml cl t =
    Some (r, t') ->
  exists w', memblock_expire g_memblock_active g_memblock_expire e ex ml cl w = Some (r, w') /\
    R w' t'.
Proof.
  intros HR Hspec. unfold memblock_expire, spec_memblock_expire in *.
  pose proof (rm_lists _ _ (proj2 HR)) as (Hd & _).
  destruct (expire_loop_R w t _ _ _ _ _ r t' HR eq_refl Hspec) as (r' & w' & Hrun & -> & HR').
  exists w'. split; [| done].
  erewrite (cmd_bind_Some (gets _) _ _ _ w) by done. cbn beta.
  erewrite cmd_bind_Some; [done |]. rewrite <- Hrun.
  eapply (list_for_each_safe_run _ _ _ (t_active t)); [apply expire_keeps_rest | exact Hd | |].
  - by eapply dll_fuel.
  - exists t. split_and!; [done | done | by eexists].
Qed.

(** ** Counting *)

Definition same_lists (t t' : tracker) : Prop :=
  t_active t' = t_active t /\ t_expire t' = t_expire t.

Lemma count_body_R w t tm p :
  R w t -> p ∈ t_active t ++ t_expire t ->
  exists w' t', count_body tm p w = Some (None, w') /\ R w' t' /\
    spec_count_one tm (Some t) p = Some t' /\ same_lists t t'.
Proof.
  intros HR Hp. pose proof (rm_wf _ _ (proj2 HR)) as Hwf. rewrite (wf_perm _ Hwf) in Hp.
  pose proof (list_entry_block w t p HR Hp) as Hentry.
  apply (wf_mb _ Hwf) in Hp as [b Hb].
  destruct (block_callstack w t p b HR Hb) as [c Hc].
  assert (forall c, ip_num (on_count tm b c) = ip_num c) as Hn.
  { intros c'. unfold on_count. by destruct (_ =? 0). }
  destruct (modify_known_cs w t (callstack b) (on_count tm b) c HR Hn Hc) as (w' & Hrun & HR').
  eexists w', _. split_and!; [| exact HR' | | done].
  - unfold count_body. rewrite Hentry. erewrite cmd_bind_Some by by eapply get_mb_R. cbn beta.
    by erewrite cmd_bind_Some by exact Hrun.
  - cbn. rewrite Hb. cbn. unfold t_modify_cs. by rewrite Hc.
Qed.

Lemma run_count_body w t tm ps :
  R w t -> (forall p, p ∈ ps -> p ∈ t_active t ++ t_expire t) ->
  exists w' t', run_list (count_body tm) ps w = Some (None, w') /\ R w' t' /\
    foldl (spec_count_one tm) (Some t) ps = Some t' /\ same_lists t t'.
Proof.
  revert w t. induction ps as [| p ps IH]; intros w t HR Hin; [by exists w, t |].
  destruct (count_body_R w t tm p HR) as (w1 & t1 & Hrun1 & HR1 & Hs1 & [Ha He]);
    [set_solver |].
  destruct (IH w1 t1 HR1) as (w' & t' & Hrun & HR' & Hs & [Ha' He']).
  { rewrite Ha, He. set_solver. }
  exists w', t'. split_and!; [| done | | split; congruence].
  - cbn [run_list]. by erewrite cmd_bind_Some by exact Hrun1.
  - cbn [foldl]. by rewrite Hs1.
Qed.

Lemma count_loop_R w t tm fuel h xs :
  R w t -> (h, xs) ∈ [(g_memblock_active, t_active t); (g_memblock_expire, t_expire t)] ->
  (length xs < fuel)%nat ->
  exists w' t', list_for_each fuel (count_body tm) h w = Some (None, w') /\ R w' t' /\
    foldl (spec_count_one tm) (Some t) xs = Some t' /\ same_lists t t'.
Proof.
  intros HR Hin Hf.
  assert (forall p, p ∈ xs -> p ∈ t_active t ++ t_expire t) as Hsub.
  { intros p Hp. rewrite !elem_of_cons in Hin. set_solver. }
  destruct (run_count_body w t tm xs HR Hsub) as (w' & t' & Hrun & Hrest).
  exists w', t'. split; [| done]. rewrite <- Hrun.
  apply (list_for_each_run (fun w => exists t', R w t' /\ same_lists t t')); [| done |];
    [| exists t; split; [done | by split]].
  split.
  - intros w1 (t1 & [_ HM] & [Ha He]). pose proof (rm_lists _ _ HM) as (H1 & H2 & _).
    rewrite !elem_of_cons in Hin. rewrite Ha in H1. rewrite He in H2.
    destruct Hin as [[= -> ->] | [[= -> ->] | []%elem_of_nil]]; done.
  - intros p w1 r w2 Hp (t1 & HR1 & [Ha He]) Hb.
    destruct (count_body_R w1 t1 tm p HR1) as (w3 & t3 & Hrun3 & HR3 & _ & [Ha3 He3]).
    { rewrite Ha, He. by apply Hsub. }
    rewrite Hb in Hrun3. simplify_eq. exists t3. split; [done |]. split; congruence.
Qed.

(** Counting is defined whenever the structures are in order. *)
Lemma count_refines w t e :
  R w t ->
  exists w' t', memblock_count g_memblock_active g_memblock_expire e w = Some (tt, w') /\
    spec_memblock_count (uspace_t := uspace_t) (upt_t := upt_t) e t = Some t' /\ R w' t'.
Proof.
  intros HR. pose proof (rm_lists _ _ (proj2 HR)) as (H1 & H2 & _).
  apply dll_fuel in H1, H2.
  destruct (count_loop_R w t (now e) (list_fuel (mb_lists w)) g_memblock_expire (t_expire t) HR)
    as (w1 & t1 & Hrun1 & HR1 & Hs1 & [Ha1 He1]); [set_solver | done |].
  destruct (count_loop_R w1 t1 (now e) (list_fuel (mb_lists w)) g_memblock_active (t_active t1)
    HR1) as (w2 & t2 & Hrun2 & HR2 & Hs2 & _); [set_solver | by rewrite Ha1 |].
  exists w2, t2. split_and!; [| | done].
  - unfold memblock_count. erewrite (cmd_bind_Some (gets _) _ _ _ w) by done.
    erewrite cmd_bind_Some by exact Hrun1. by erewrite cmd_bind_Some by exact Hrun2.
  - unfold spec_memblock_count. by rewrite foldl_app, Hs1, <- Ha1.
Qed.

End memblock_refine.
