(* ===== verification/Handlers.v ===== *)
(** * The handlers of the breakpoints ([breakpoint.c]), and sequences of events

    [bph_*] are the handlers of the four functions of the allocation API; they
    are called when the function returns, with what it returned and with its
    first two arguments.  An [event] of the tracker is such a call, a scan for
    expired blocks, or the count at the end.

    [tracker_refines]: any sequence of events does, on the pointer structures,
    what the specification says. *)

From S2P Require Import Prelude Path ListH HlistH HashH PtrBacktrace Heap.
From S2P Require Import Callstack Memblock Tracker CallstackRefine MemblockRefine.

(** The entries of [g_breakpoints], in order. *)
Inductive api := Malloc | Free | Realloc | Calloc.

Inductive event :=
  | Return (a : api) (ret arg1 arg2 : Z)
  | Expire (expire memblock_limit callstack_limit : Z)
  | Count.

Definition event_ok (ev : event) : Prop :=
  match ev with
  | Return _ ret arg1 arg2 => is_u64 ret /\ is_u64 arg1 /\ is_u64 arg2
  | _ => True
  end.

Section handlers.
Context {uspace_t upt_t : Type}.
Context (unw_create_addr_space : uspace_t) (UPT_create : Z -> upt_t).
Context `{!Symbolizer}.
Context (space_head spaces g_callstack_hash : Z).
Context (g_memblock_hash g_memblock_active g_memblock_expire : Z).
Context (opt_backtrace_limit : Z).
Context (heap_start : Z).

Abbreviation mb_world := (mb_world (uspace_t := uspace_t) (upt_t := upt_t)).
Abbreviation env := (env uspace_t upt_t).
Abbreviation R := (R unw_create_addr_space UPT_create space_head spaces g_callstack_hash
  g_memblock_hash g_memblock_active g_memblock_expire heap_start).

(** The call stack is built by the handlers only. *)
Definition event_env_ok (e : env) (ev : event) : Prop :=
  match ev with
  | Return _ _ _ _ => env_ok unw_create_addr_space UPT_create opt_backtrace_limit e
  | _ => True
  end.
Abbreviation statics_ok := (statics_ok space_head spaces g_callstack_hash g_memblock_hash
  g_memblock_active g_memblock_expire heap_start).
Abbreviation ips_of e := (event_ips unw_create_addr_space UPT_create opt_backtrace_limit e).
Abbreviation memblock_new := (memblock_new unw_create_addr_space UPT_create space_head spaces
  g_callstack_hash g_memblock_hash g_memblock_active opt_backtrace_limit).
Abbreviation memblock_search := (memblock_search g_memblock_hash).
Abbreviation spec_memblock_new := (spec_memblock_new unw_create_addr_space UPT_create
  opt_backtrace_limit).

(** ** The handlers *)

Definition bph_malloc (e : env) (pointer size none : Z) : cmd mb_world Z :=
  memblock_new e pointer size.

Definition bph_free (e : env) (none1 pointer none2 : Z) : cmd mb_world Z :=
  mb ← memblock_search pointer;
  memblock_delete e mb;;
  mret 0.

Definition bph_realloc (e : env) (new_pointer old_pointer size : Z) : cmd mb_world Z :=
  if new_pointer =? old_pointer then
    mb ← memblock_search old_pointer;
    memblock_update_size mb size;;
    mret 0
  else
    mb ← memblock_search old_pointer;
    memblock_delete e mb;;
    memblock_new e new_pointer size.

Definition bph_calloc (e : env) (pointer nmemb size : Z) : cmd mb_world Z :=
  memblock_new e pointer (u64 (nmemb * size)).

Definition handler (a : api) : env -> Z -> Z -> Z -> cmd mb_world Z :=
  match a with
  | Malloc => bph_malloc
  | Free => bph_free
  | Realloc => bph_realloc
  | Calloc => bph_calloc
  end.

Definition run_event (e : env) (ev : event) : cmd mb_world Z :=
  match ev with
  | Return a ret arg1 arg2 => handler a e ret arg1 arg2
  | Expire ex ml cl => memblock_expire g_memblock_active g_memblock_expire e ex ml cl
  | Count => memblock_count g_memblock_active g_memblock_expire e;; mret 0
  end.

Fixpoint run_events (evs : list (env * event)) : cmd mb_world (list Z) :=
  match evs with
  | [] => mret []
  | (e, ev) :: evs => r ← run_event e ev; rs ← run_events evs; mret (r :: rs)
  end.

(** ** The specification of an event *)

Definition spec_free (e : env) (pointer : Z) (t : tracker) : option tracker :=
  spec_memblock_delete e (spec_memblock_search pointer t) t.

Definition spec_event (e : env) (ev : event) (t : tracker) : option (Z * tracker) :=
  match ev with
  | Return Malloc pointer size _ => spec_memblock_new e pointer size t
  | Return Free _ pointer _ => t ← spec_free e pointer t; Some (0, t)
  | Return Realloc new_pointer old_pointer size =>
      if new_pointer =? old_pointer then
        t ← spec_memblock_update_size (spec_memblock_search old_pointer t) size t; Some (0, t)
      else
        t ← spec_free e old_pointer t; spec_memblock_new e new_pointer size t
  | Return Calloc pointer nmemb size => spec_memblock_new e pointer (u64 (nmemb * size)) t
  | Expire ex ml cl => spec_memblock_expire e ex ml cl t
  | Count => t ← spec_memblock_count e t; Some (0, t)
  end.

Fixpoint spec_events (evs : list (env * event)) (t : tracker) : option (list Z * tracker) :=
  match evs with
  | [] => Some ([], t)
  | (e, ev) :: evs => '(r, t) ← spec_event e ev t; '(rs, t) ← spec_events evs t; Some (r :: rs, t)
  end.

Lemma spec_events_app evs1 evs2 t :
  spec_events (evs1 ++ evs2) t =
  ('(rs1, t1) ← spec_events evs1 t; '(rs2, t2) ← spec_events evs2 t1; Some (rs1 ++ rs2, t2)).
Proof.
  revert t. induction evs1 as [| [e ev] evs1 IH]; intros t; cbn [app spec_events].
  - simpl. by destruct (spec_events evs2 t) as [[? ?] |].
  - destruct (spec_event e ev t) as [[r t1] |]; [| done]. simpl. rewrite IH.
    destruct (spec_events evs1 t1) as [[rs1 t2] |]; [| done]. simpl.
    by destruct (spec_events evs2 t2) as [[? ?] |].
Qed.

Lemma search_delete_R w t e pointer t' :
  statics_ok -> R w t -> is_u64 pointer -> spec_free e pointer t = Some t' ->
  exists mb w', memblock_search pointer w = Some (mb, w) /\
    memblock_delete e mb w = Some (tt, w') /\ R w' t'.
Proof.
  intros Hst HR Hp Hspec. eapply delete_refines in Hspec as (w' & Hrun & HR'); [| done..].
  exists (spec_memblock_search pointer t), w'. split; [by eapply search_refines | done].
Qed.

Lemma run_event_refines w t e ev r t' :
  statics_ok -> R w t -> event_env_ok e ev -> event_ok ev -> spec_event e ev t = Some (r, t') ->
  exists w', run_event e ev w = Some (r, w') /\ R w' t'.
Proof.
  intros Hst HR He Hok Hspec. destruct ev as [[] ret arg1 arg2 | ex ml cl |]; simpl in *;
    try (destruct Hok as (Hu0 & Hu1 & Hu2)).
  - by eapply new_refines.
  - apply bind_Some in Hspec as (t1 & Hspec & [= <- <-]).
    destruct (search_delete_R w t e arg1 t1) as (mb & w' & Hrun1 & Hrun2 & HR'); [done.. |].
    exists w'. split; [| done]. unfold bph_free. erewrite cmd_bind_Some by exact Hrun1.
    by erewrite cmd_bind_Some by exact Hrun2.
  - unfold bph_realloc. destruct (ret =? arg1); apply bind_Some in Hspec as (t1 & Hspec1 & Hspec).
    + erewrite cmd_bind_Some by by eapply search_refines. cbn beta. simplify_eq.
      eapply update_size_refines in Hspec1 as (w' & Hrun & HR'); [| done..].
      exists w'. split; [| done]. by erewrite cmd_bind_Some by exact Hrun.
    + destruct (search_delete_R w t e arg1 t1) as (mb & w1 & Hrun1 & Hrun2 & HR1); [done.. |].
      erewrite cmd_bind_Some by exact Hrun1. erewrite cmd_bind_Some by exact Hrun2.
      by eapply new_refines.
  - by eapply new_refines.
  - by eapply expire_refines.
  - apply bind_Some in Hspec as (t1 & Hspec & [= <- <-]).
    eapply count_refines in HR as (w' & t2 & Hrun & Hspec' & HR'); [| done].
    rewrite Hspec in Hspec'. simplify_eq. exists w'. split; [| done].
    by erewrite cmd_bind_Some by exact Hrun.
Qed.

Lemma run_events_refines w t evs rs t' :
  statics_ok -> R w t -> Forall (fun '(e, ev) => event_env_ok e ev /\ event_ok ev) evs ->
  spec_events evs t = Some (rs, t') ->
  exists w', run_events evs w = Some (rs, w') /\ R w' t'.
Proof.
  intros Hst. revert w t rs. induction evs as [| [e ev] evs IH]; intros w t rs HR Hevs Hspec;
    simpl in *.
  - simplify_eq. by exists w.
  - apply Forall_cons in Hevs as [[He Hp] Hevs].
    apply bind_Some in Hspec as ([r t1] & Hspec1 & Hspec).
    apply bind_Some in Hspec as ([rs1 t2] & Hspec2 & [= <- <-]).
    destruct (run_event_refines w t e ev r t1 Hst HR He Hp Hspec1) as (w1 & Hrun1 & HR1).
    destruct (IH w1 t1 rs1 HR1 Hevs Hspec2) as (w' & Hrun & HR').
    exists w'. split; [| done].
    erewrite cmd_bind_Some by exact Hrun1. by erewrite cmd_bind_Some by exact Hrun.
Qed.

(** C3: whatever the sequence of events, when the specification is defined the
    code is: its lists, its tables and its heap do what the specification says,
    with the same results, and the memory represents the specification's
    tracker afterwards. *)
Theorem tracker_refines w t evs rs t' :
  statics_ok -> R w t -> Forall (fun '(e, ev) => event_env_ok e ev /\ event_ok ev) evs ->
  spec_events evs t = Some (rs, t') ->
  exists w', run_events evs w = Some (rs, w') /\ R w' t'.
Proof. apply run_events_refines. Qed.

(** ** Before the first event *)

Definition empty_tracker (h : heap) : tracker := mk_tracker h ∅ ∅ [] ∅ ∅ [] [] [] 1 [].

Definition empty_table (hash : Z) : hash_mem := mk_hash_mem (mk_hmem (empty_heads hash ∪ ∅) ∅) ∅.

Definition initial_world (bt : bt_state (uspace_t := uspace_t) (upt_t := upt_t))
    (lists : lmem) (h : heap) : mb_world :=
  mk_mb_world (mk_cs_world h bt (empty_table g_callstack_hash) ∅ [])
    lists (empty_table g_memblock_hash) ∅ 1.

Lemma empty_table_rep hash len_of :
  0 < hash -> hash_rep hash len_of (bytes (empty_table hash)) (empty_table hash) [].
Proof.
  intros Hh. split_and!; [exists (fun _ => []); split | done | constructor].
  - by apply empty_htable.
  - done.
Qed.

(** Static storage before the first event: no space is used, the lists are
    empty; and the heap. *)
Definition start_ok (bt : bt_state (uspace_t := uspace_t) (upt_t := upt_t)) (lists : lmem)
    (h : heap) : Prop :=
  bt_initial space_head spaces bt /\
  two_lists g_memblock_active g_memblock_expire lists [] [] /\
  heap_ok h /\ heap_start <= brk h.

Lemma initial_R bt lists h :
  statics_ok -> start_ok bt lists h -> R (initial_world bt lists h) (empty_tracker h).
Proof.
  intros (_ & Hc & _ & Hm & _) (Hbt & HL & Hh & Hb). split.
  - constructor; try done; [by left | by apply empty_table_rep | |];
      intros p; simpl; rewrite ?lookup_empty; [split; [by intros ?%elem_of_nil | by intros [? ?]] | done].
  - constructor; try done; [| by apply empty_table_rep | by intros p ?%elem_of_nil].
    constructor; try done; [constructor | |];
      (intros p; simpl; rewrite lookup_empty; split; [by intros ?%elem_of_nil | by intros [? ?]]).
Qed.

Lemma run_from_start bt lists h evs rs t' :
  statics_ok -> start_ok bt lists h -> Forall (fun '(e, ev) => event_env_ok e ev /\ event_ok ev) evs ->
  spec_events evs (empty_tracker h) = Some (rs, t') ->
  exists w', run_events evs (initial_world bt lists h) = Some (rs, w') /\ R w' t'.
Proof.
  intros Hst Hs Hevs Hspec. eapply run_events_refines; [done | by apply initial_R | done..].
Qed.

End handlers.

(** A run at concrete addresses: two blocks are allocated and grow old, one of
    them is expired and freed; the other is found by the scan at the end. *)
Module Example.

#[export] Instance symbolizer : Symbolizer := {
  addr_maps_search a := if a <? 4096 then "/bin/target"%string else "libc.so"%string;
  symtab_by_address a := if a =? 100 then Some ("main"%string, 4) else None;
  debug_line_search a := None
}.

Definition static_lists : lmem :=
  mk_lmem {[600 := 600; 632 := 632]} {[600 := 600; 632 := 632]}.

Definition env_at (t entry : Z) : env unit Z := mk_env t entry 7 (fun _ _ => (200, [100; 50])).

Definition world := initial_world 1048576 2097152 example_bt_state static_lists
  (mk_heap 16777216 33554432).

Definition events : list (env unit Z * event) :=
  [(env_at 1000 300, Return Malloc 4096 16 0);
   (env_at 1001 300, Return Malloc 8192 32 0);
   (env_at 1015 300, Expire 10 100 100);
   (env_at 1016 400, Return Free 0 4096 0);
   (env_at 1017 400, Return Realloc 8192 8192 64);
   (env_at 1018 400, Count)].

Definition tracker_after : tracker :=
  match spec_events tt (fun t => t) 3 events (empty_tracker (mk_heap 16777216 33554432)) with
  | Some (_, t) => t
  | None => empty_tracker (mk_heap 0 0)
  end.

Lemma statics : statics_ok 64 128 1048576 2097152 600 632 16777216.
Proof. split; [apply example_layout_ok |]. unfold HASH_SIZE. lia. Qed.

Lemma lists_empty : two_lists 600 632 static_lists [] [].
Proof.
  split_and!; [| | by apply (bool_decide_unpack _)];
    (split_and!; [apply NoDup_singleton | reflexivity | reflexivity]).
Qed.

Lemma start : start_ok 64 128 600 632 16777216 example_bt_state static_lists
  (mk_heap 16777216 33554432).
Proof.
  split_and!; [apply example_bt_initial | apply lists_empty | | simpl; lia].
  unfold heap_ok. simpl. lia.
Qed.

Lemma related :
  R tt (fun t => t) 64 128 1048576 2097152 600 632 16777216 world
    (empty_tracker (mk_heap 16777216 33554432)).
Proof. apply initial_R; [apply statics | apply start]. Qed.

Lemma events_ok : Forall (fun '(e, ev) => event_env_ok tt (fun t => t) 3 e ev /\ event_ok ev) events.
Proof.
  repeat (apply Forall_cons; split); [.. | constructor];
    (split; [first [exact I | split; [done | repeat constructor; done]] | try done]);
    unfold event_ok, is_u64; lia.
Qed.

End Example.
Import Example.

Lemma tracker_refines_witness :
  exists w', run_events tt (fun t => t) 64 128 1048576 2097152 600 632 3 Example.events
      Example.world = Some ([0; 0; 0; 0; 0; 0], w') /\
    R tt (fun t => t) 64 128 1048576 2097152 600 632 16777216 w' Example.tracker_after.
Proof.
  apply (tracker_refines tt (fun t => t) 64 128 1048576 2097152 600 632 3 16777216
    Example.world (empty_tracker (mk_heap 16777216 33554432))).
  - exact Example.statics.
  - exact Example.related.
  - exact Example.events_ok.
  - vm_compute. reflexivity.
Defined.
