(* ===== verification/TrackerSteps.v ===== *)
(** * The tracker as a state machine

    [tstep tm ex] is the step relation of the tracker during an event at time
    [tm]: a constructor per change of the state.  [spec_event_steps] says that
    an event is a sequence of steps; so an invariant of the steps is one of the
    events, and by [Handlers.tracker_refines] one of the code.

    The invariants here are about the states themselves: [tracker_ok]
    (agreement of the sequences and the objects) and [flags_ok] (a block is on
    the list that its [expired] member says).  [Accounting] has more. *)

From stdpp Require Import relations.
From S2P Require Import Prelude ListH HlistH HashH PtrBacktrace Heap Callstack.
From S2P Require Import Memblock Tracker CallstackRefine MemblockRefine Handlers.

Section steps.
Context (heap_start : Z).
Abbreviation tracker_wf := (tracker_wf heap_start).

(** The state in which a block was moved to the list of expired blocks. *)
Definition expire_block (mb : Z) (b : memblock_s) (c : callstack_s) (t : tracker) : tracker :=
  let n := t_next_id t in
  t_set_next_id (if id c =? 0 then s32 (n + 1) else n)
    (t_set_cs (callstack b) (set_id (if id c =? 0 then n else id c) (on_expire (size b) c))
      (t_set_lists (filter (fun p => p <> mb) (t_active t)) (t_expire t ++ [mb])
        (t_set_mb mb (mk_memblock (size b) (create b) 1 (callstack b)) t))).

Definition free_block (mb : Z) (b : memblock_s) (c : callstack_s) (tm : Z) (t : tracker) : tracker :=
  spec_remove_block mb (t_set_cs (callstack b) (freed_callstack b (tm - create b) c) t).

Definition resize_block (mb : Z) (b : memblock_s) (c : callstack_s) (sz : Z) (t : tracker) : tracker :=
  t_set_mb mb (mk_memblock sz (create b) (expired b) (callstack b))
    (t_set_cs (callstack b) (on_update_size (size b) sz c) t).

Definition alloc_block (mb : Z) (b : memblock_s) (c : callstack_s) (pointer : Z) (t : tracker) : tracker :=
  t_set_cs (callstack b) (on_alloc (size b) c) (spec_add_block mb b pointer t).

Inductive tstep (tm ex : Z) : tracker -> tracker -> Prop :=
  | step_print ms t : tstep tm ex t (t_print ms t)
  | step_heap p sz h t :
      0 <= sz -> malloc sz (t_heap t) = Some (p, h) -> tstep tm ex t (t_set_heap h t)
  | step_callstack cs (ips : list Z) h t :
      malloc (sizeof_callstack + 8 * Z.of_nat (length ips)) (t_heap t) = Some (cs, h) ->
      cs <> NULL -> tstep tm ex t (spec_new_callstack cs ips h t)
  | step_alloc mb b c pointer t :
      heap_start <= mb -> mb + sizeof_memblock <= brk (t_heap t) -> mb ∉ t_order t ->
      is_u64 pointer -> t_cs t !! callstack b = Some c -> expired b = 0 -> create b = tm ->
      tstep tm ex t (alloc_block mb b c pointer t)
  | step_free mb b c t :
      t_mb t !! mb = Some b -> t_cs t !! callstack b = Some c ->
      tstep tm ex t (free_block mb b c tm t)
  | step_resize mb b c sz t :
      t_mb t !! mb = Some b -> t_cs t !! callstack b = Some c ->
      tstep tm ex t (resize_block mb b c sz t)
  | step_expire mb b c t :
      mb ∈ t_active t -> t_mb t !! mb = Some b -> t_cs t !! callstack b = Some c ->
      ex <= tm - create b -> tstep tm ex t (expire_block mb b c t)
  | step_count b c t :
      t_cs t !! callstack b = Some c ->
      tstep tm ex t (t_set_cs (callstack b) (on_count tm b c) t).

(** ** Agreement *)

Record tracker_ok (t : tracker) : Prop := {
  ok_wf : tracker_wf t;
  ok_heap : heap_ok (t_heap t);
  ok_low : heap_start <= brk (t_heap t);
  ok_cs : forall p, is_Some (t_cs t !! p) -> p < brk (t_heap t);
  ok_ips : forall p, is_Some (t_ips t !! p) <-> is_Some (t_cs t !! p);
  ok_order : forall p, p ∈ t_cs_order t <-> is_Some (t_ips t !! p)
}.

Lemma lookup_insert_some {A} (m : gmap Z A) i x y p :
  m !! i = Some y -> is_Some (<[i := x]> m !! p) <-> is_Some (m !! p).
Proof. intros Hi. rewrite lookup_insert. case_decide; [subst; rewrite Hi |]; naive_solver. Qed.

Lemma t_set_cs_ok cs c c' t : t_cs t !! cs = Some c -> tracker_ok t -> tracker_ok (t_set_cs cs c' t).
Proof.
  intros Hc []. destruct ok_wf0. constructor; simpl; try done.
  - constructor; try done. intros p b Hp. destruct (wf_block p b Hp) as (? & ? & ?).
    split_and!; [done.. |]. simpl. by erewrite lookup_insert_some.
  - intros p. erewrite lookup_insert_some by done. apply ok_cs0.
  - intros p. erewrite (lookup_insert_some (t_cs t)) by done. apply ok_ips0.
Qed.

Lemma wf_ok_frame t t' :
  tracker_ok t -> tracker_wf t' -> t_heap t' = t_heap t -> t_cs t' = t_cs t ->
  t_ips t' = t_ips t -> t_cs_order t' = t_cs_order t -> tracker_ok t'.
Proof. intros [] Hwf E1 E2 E3 E4. constructor; rewrite ?E1, ?E2, ?E3, ?E4; done. Qed.

Lemma t_set_mb_wf mb b b' t :
  t_mb t !! mb = Some b -> callstack b' = callstack b -> tracker_wf t ->
  tracker_wf (t_set_mb mb b' t).
Proof.
  intros Hb Hcs []. constructor; simpl; try done.
  - intros p. by erewrite lookup_insert_some.
  - intros p b1. rewrite lookup_insert. case_decide; [| apply wf_block].
    intros [= <-]. subst. rewrite Hcs. by apply wf_block.
Qed.

Lemma t_set_next_id_wf n t : tracker_wf t -> tracker_wf (t_set_next_id n t).
Proof. intros []. by constructor. Qed.

Lemma callstack_ok cs (ips : list Z) h t :
  malloc (sizeof_callstack + 8 * Z.of_nat (length ips)) (t_heap t) = Some (cs, h) ->
  cs <> NULL -> tracker_ok t -> tracker_ok (spec_new_callstack cs ips h t).
Proof.
  intros Hm Hnz []. destruct (malloc_grows _ _ _ _ ok_heap0 Hm ltac:(unfold sizeof_callstack; lia))
    as (Hh & Hb & Hcs). destruct (Hcs Hnz) as [E Hhi]. unfold sizeof_callstack in Hhi.
  constructor; simpl; try done; [| lia | | |].
  - eapply same_blocks_wf; [| done]. constructor; simpl; try done.
    intros q Hq. rewrite lookup_insert. by case_decide.
  - intros q. rewrite lookup_insert. case_decide; [intros _; subst; lia |]. intros Hq%ok_cs0. lia.
  - intros q. rewrite !lookup_insert. case_decide; [naive_solver | apply ok_ips0].
  - intros q. rewrite elem_of_cons, ok_order0, lookup_insert. case_decide; naive_solver.
Qed.

Lemma heap_ok_step p sz h t :
  0 <= sz -> malloc sz (t_heap t) = Some (p, h) -> tracker_ok t -> tracker_ok (t_set_heap h t).
Proof.
  intros Hsz Hm []. destruct (malloc_grows _ _ _ _ ok_heap0 Hm Hsz) as (Hh & Hb & _).
  constructor; simpl; try done; [| lia |].
  - eapply same_blocks_wf; [| done]. by constructor.
  - intros q Hq. specialize (ok_cs0 q Hq). lia.
Qed.

Lemma tstep_ok tm ex t t' : tstep tm ex t t' -> tracker_ok t -> tracker_ok t'.
Proof.
  intros Hstep Hok. pose proof (ok_wf _ Hok) as Hwf. destruct Hstep as
    [ms t | p sz h t Hsz Hm | cs ips h t Hm Hnz | mb b c pointer t Hlo Hhi Hn Hu Hc He Ht
    | mb b c t Hb Hc | mb b c sz t Hb Hc | mb b c t Hin Hb Hc Hage | b c t Hc].
  - apply (wf_ok_frame t); try done. eapply same_blocks_wf; [| done]. by constructor.
  - by eapply heap_ok_step.
  - by apply callstack_ok.
  - eapply t_set_cs_ok; [simpl; done |]. apply (wf_ok_frame t); try done. by apply add_wf.
  - assert (tracker_ok (t_set_cs (callstack b) (freed_callstack b (tm - create b) c) t)) as Hok'
      by by eapply t_set_cs_ok.
    apply (wf_ok_frame _ _ Hok'); try done. apply remove_wf, Hok'.
  - assert (tracker_ok (t_set_cs (callstack b) (on_update_size (size b) sz c) t)) as Hok'
      by by eapply t_set_cs_ok.
    apply (wf_ok_frame _ _ Hok'); try done. eapply t_set_mb_wf; [done.. | apply Hok'].
  - unfold expire_block. set (c' := set_id _ _).
    set (t1 := t_set_lists _ _ _).
    assert (tracker_ok t1) as Hok1.
    { apply (wf_ok_frame t); try done. refine (move_wf (t_set_mb mb _ t) mb _ Hin).
      by eapply t_set_mb_wf. }
    assert (tracker_ok (t_set_cs (callstack b) c' t1)) as Hok2 by by eapply t_set_cs_ok.
    apply (wf_ok_frame _ _ Hok2); try done. apply t_set_next_id_wf, Hok2.
  - by eapply t_set_cs_ok.
Qed.

Lemma rtc_ok tm ex t t' : rtc (tstep tm ex) t t' -> tracker_ok t -> tracker_ok t'.
Proof. intros Hs. induction Hs; eauto using tstep_ok. Qed.

End steps.

(** ** Events are sequences of steps *)

Section event_steps.
Context {uspace_t upt_t : Type}.
Context (unw_create_addr_space : uspace_t) (UPT_create : Z -> upt_t).
Context `{!Symbolizer}.
Context (opt_backtrace_limit heap_start : Z).

Abbreviation env := (env uspace_t upt_t).
Abbreviation tracker_ok := (tracker_ok heap_start).
Abbreviation tstep := (tstep heap_start).
Abbreviation spec_current := (spec_callstack_current unw_create_addr_space UPT_create
  opt_backtrace_limit).
Abbreviation spec_event := (spec_event unw_create_addr_space UPT_create opt_backtrace_limit).

Lemma R_tracker_ok space_head spaces g_callstack_hash g_memblock_hash g_memblock_active
    g_memblock_expire w t :
  R unw_create_addr_space UPT_create space_head spaces g_callstack_hash g_memblock_hash
    g_memblock_active g_memblock_expire heap_start w t -> tracker_ok t.
Proof.
  intros [HC HM]. destruct (rc_heap_ok _ _ _ _ _ _ _ _ HC) as [Hh Hlow]. constructor; try done.
  - apply (rm_wf _ _ _ _ _ _ HM).
  - intros p Hp. apply (rc_dom _ _ _ _ _ _ _ _ HC) in Hp as [s Hs].
    pose proof (Rcs_fresh _ _ _ _ _ _ _ _ _ _ HC Hs). lia.
  - apply (rc_dom _ _ _ _ _ _ _ _ HC).
  - apply (rc_order _ _ _ _ _ _ _ _ HC).
Qed.

Section events.
Context (ex : Z).

Lemma print_steps tm cs t t' : spec_print cs t = Some t' -> rtc (tstep tm ex) t t'.
Proof. intros (ips & _ & [= <-])%bind_Some. apply rtc_once. constructor. Qed.

Lemma current_steps tm e p t t' :
  tracker_ok t -> spec_current e t = Some (p, t') ->
  rtc (tstep tm ex) t t' /\ (p = NULL \/ is_Some (t_cs t' !! p)) /\
  brk (t_heap t) <= brk (t_heap t') /\ t_order t' = t_order t.
Proof.
  intros Hok [[-> Hp] | (h & Hm & Hnz & ->)]%spec_current_cases.
  - split_and!; [done | | done | done]. destruct Hp as [-> | Hin]; [by left | right].
    by apply (ok_ips _ _ Hok), (ok_order _ _ Hok).
  - destruct (malloc_grows _ _ _ _ (ok_heap _ _ Hok) Hm) as (_ & Hb & _);
      [unfold sizeof_callstack; lia |].
    split_and!; [| right; simpl; rewrite lookup_insert_eq; by eexists | done | done].
    apply rtc_once. by eapply step_callstack.
Qed.

Lemma new_steps e pointer sz t r t' :
  tracker_ok t -> is_u64 pointer ->
  spec_memblock_new unw_create_addr_space UPT_create opt_backtrace_limit e pointer sz t =
    Some (r, t') ->
  rtc (tstep (now e) ex) t t'.
Proof.
  intros Hok Hu Hspec. unfold spec_memblock_new in Hspec. destruct (pointer =? 0).
  - apply bind_Some in Hspec as ([cs t1] & Hcur & Hspec).
    apply bind_Some in Hspec as (t2 & Hpr & [= <- <-]).
    assert (tstep (now e) ex t (t_print [MsgAllocNull] t)) as H1 by constructor.
    eapply rtc_l; [exact H1 |]. eapply current_steps in Hcur as (Hs & _); [| by eapply tstep_ok].
    etrans; [exact Hs |]. by eapply print_steps.
  - apply bind_Some in Hspec as ([mb h] & Hm & Hspec).
    destruct (Z.eqb_spec mb NULL); [by simplify_eq |].
    apply bind_Some in Hspec as ([cs t1] & Hcur & Hspec).
    destruct (malloc_grows _ _ _ _ (ok_heap _ _ Hok) Hm ltac:(done)) as (_ & _ & Hmb).
    destruct (Hmb ltac:(done)) as [-> Hhi].
    assert (tstep (now e) ex t (t_set_heap h t)) as H1 by (by eapply step_heap; [| done]).
    pose proof (tstep_ok _ _ _ _ _ H1 Hok) as Hok1.
    destruct (current_steps (now e) e cs _ t1 Hok1 Hcur) as (Hs & Hcs & Hb & Ho).
    eapply rtc_l; [exact H1 |]. etrans; [exact Hs |].
    destruct (Z.eqb_spec cs NULL) as [-> | Hcnz]; [by simplify_eq |].
    destruct Hcs as [-> | [c Hc]]; [done |].
    unfold t_modify_cs in Hspec. cbn [spec_add_block t_cs] in Hspec. rewrite Hc in Hspec.
    simpl in Hspec. simplify_eq. apply rtc_once.
    apply (step_alloc _ (now e) ex (brk (t_heap t)) (mk_memblock sz (now e) 0 cs)); try done.
    + apply (ok_low _ _ Hok).
    + simpl in Hb. lia.
    + rewrite Ho. simpl. intros Hin.
      pose proof (wf_order_block _ _ (ok_wf _ _ Hok) Hin) as [_ ?]. unfold sizeof_memblock in *. lia.
Qed.

Lemma t_print_free_block mb b c tm ms t :
  spec_remove_block mb (t_print ms (t_set_cs (callstack b) (freed_callstack b (tm - create b) c) t)) =
  t_print ms (free_block mb b c tm t).
Proof. done. Qed.

Lemma delete_steps (e : env) mb t t' :
  spec_memblock_delete e mb t = Some t' -> rtc (tstep (now e) ex) t t'.
Proof.
  unfold spec_memblock_delete. destruct (mb =? NULL); [by intros [= <-] |].
  intros (b & Hb & Hspec)%bind_Some. apply bind_Some in Hspec as (c & Hc & Hspec).
  cbv zeta in Hspec. rewrite t_print_free_block in Hspec. simplify_eq.
  eapply rtc_l; [by eapply step_free |]. apply rtc_once. constructor.
Qed.

Lemma update_size_steps tm mb sz t t' :
  spec_memblock_update_size mb sz t = Some t' -> rtc (tstep tm ex) t t'.
Proof.
  unfold spec_memblock_update_size. destruct (mb =? NULL); [by intros [= <-] |].
  intros (b & Hb & Hspec)%bind_Some. apply bind_Some in Hspec as (c & Hc & [= <-]).
  apply rtc_once. by eapply step_resize.
Qed.

Lemma count_one_steps tm t t' mb :
  spec_count_one tm (Some t) mb = Some t' -> rtc (tstep tm ex) t t'.
Proof.
  cbn. intros (b & Hb & Hspec)%bind_Some. apply bind_Some in Hspec as (c & Hc & [= <-]).
  apply rtc_once. by eapply step_count.
Qed.

Lemma count_steps tm t t' mbs :
  foldl (spec_count_one tm) (Some t) mbs = Some t' -> rtc (tstep tm ex) t t'.
Proof.
  revert t. induction mbs as [| mb mbs IH]; intros t; cbn [foldl]; [by intros [= <-] |].
  destruct (spec_count_one tm (Some t) mb) as [t1 |] eqn:E.
  - intros Hs. etrans; [by eapply count_one_steps |]. by apply IH.
  - clear. intros Hs. exfalso. revert Hs. by induction mbs as [| ? ? IH]; [| exact IH].
Qed.

Lemma expire_one_steps tm mb b t t' :
  mb ∈ t_active t -> t_mb t !! mb = Some b -> ex <= tm - create b ->
  spec_expire_one mb t = Some t' -> rtc (tstep tm ex) t t'.
Proof.
  intros Hin Hb Hage Hspec. unfold spec_expire_one in Hspec. rewrite Hb in Hspec.
  cbn [mbind option_bind] in Hspec. cbv zeta in Hspec.
  apply bind_Some in Hspec as (c & Hc & Hspec). simpl in Hc.
  eapply rtc_l; [by eapply step_expire |]. unfold expire_block.
  change (id (on_expire (size b) c)) with (id c) in Hspec. destruct (id c =? 0) eqn:E.
  - eapply rtc_l; [apply (step_print _ tm ex [MsgExpire (t_next_id t) (size b)]) |].
    eapply print_steps. exact Hspec.
  - simplify_eq. apply rtc_once.
    match goal with |- tstep _ _ ?t1 (t_print ?ms ?t2) => assert (t1 = t2) as -> end;
      [by destruct t, c | constructor].
Qed.

(** What one block's expiration does to the lists and to the blocks. *)
Lemma expire_one_effect mb b t t' :
  t_mb t !! mb = Some b -> spec_expire_one mb t = Some t' ->
  t_active t' = filter (fun p => p <> mb) (t_active t) /\ t_expire t' = t_expire t ++ [mb] /\
  t_mb t' = <[mb := mk_memblock (size b) (create b) 1 (callstack b)]> (t_mb t) /\
  t_ptr t' = t_ptr t /\ t_order t' = t_order t.
Proof.
  intros Hb Hspec. unfold spec_expire_one in Hspec. rewrite Hb in Hspec.
  cbn [mbind option_bind] in Hspec. cbv zeta in Hspec.
  apply bind_Some in Hspec as (c & Hc & Hspec). destruct (_ =? 0).
  - by apply bind_Some in Hspec as (ips & _ & [= <-]).
  - by simplify_eq.
Qed.

(** A limit was reached by the call stack [c]. *)
Definition over_limit (ml cl : Z) (c : callstack_s) : Prop :=
  s32 (cl + 1) <= id c \/ ml <= expired_count c.

(** How the scan ends: it went through the list, it stopped at a block that is
    too young, or at a limit. *)
Inductive scan_result (tm ml cl : Z) (t t' : tracker) : list Z -> Z -> Prop :=
  | scan_all : scan_result tm ml cl t t' [] 0
  | scan_young mb b rest :
      t_mb t !! mb = Some b -> tm - create b < ex ->
      scan_result tm ml cl t t' (mb :: rest) (s32 (ex - (tm - create b) + 1))
  | scan_limit cs c rest :
      t_cs t' !! cs = Some c -> over_limit ml cl c -> scan_result tm ml cl t t' rest (-1).

Lemma expire_body_cases tm ml cl mb b t r t' :
  t_mb t !! mb = Some b -> spec_expire_body tm ex ml cl mb t = Some (r, t') ->
  (tm - create b < ex /\ r = Some (s32 (ex - (tm - create b) + 1)) /\ t' = t) \/
  (ex <= tm - create b /\ exists t1 c ms, spec_expire_one mb t = Some t1 /\
     t_cs t1 !! callstack b = Some c /\ t' = t_print ms t1 /\
     (r = None /\ ~ over_limit ml cl c \/ r = Some (-1) /\ over_limit ml cl c)).
Proof.
  intros Hb Hspec. unfold spec_expire_body in Hspec. rewrite Hb in Hspec.
  cbn [mbind option_bind] in Hspec.
  destruct (Z.ltb_spec (tm - create b) ex); [left; by simplify_eq | right]. split; [done |].
  apply bind_Some in Hspec as (t1 & Hone & Hspec). apply bind_Some in Hspec as (c & Hc & Hspec).
  unfold over_limit. exists t1, c.
  destruct (Z.leb_spec (s32 (cl + 1)) (id c)); [| destruct (Z.leb_spec ml (expired_count c))];
    simplify_eq; eexists; (split_and!; [done | done | try done | ]).
  - right. split; [done | by left].
  - right. split; [done | by right].
  - by rewrite t_print_nil.
  - left. split; [done |]. lia.
Qed.

Lemma expire_loop_effect tm ml cl todo t r t' :
  t_active t = todo -> NoDup todo -> spec_expire_loop tm ex ml cl todo t = Some (r, t') ->
  rtc (tstep tm ex) t t' /\ exists old rest, todo = old ++ rest /\ t_active t' = rest /\
    t_expire t' = t_expire t ++ old /\ scan_result tm ml cl t t' rest r /\
    (forall p, p ∈ old -> exists b, t_mb t !! p = Some b /\ ex <= tm - create b) /\
    (forall p, p ∉ old -> t_mb t' !! p = t_mb t !! p).
Proof.
  revert t. induction todo as [| mb todo IH]; intros t Hact Hnd Hspec; simpl in Hspec.
  - simplify_eq. split; [done |]. exists [], [].
    split_and!; [done | done | by rewrite app_nil_r | constructor | set_solver | done].
  - apply bind_Some in Hspec as ([r1 t1] & Hbody & Hspec).
    pose proof Hbody as Hb'. unfold spec_expire_body in Hb'.
    apply bind_Some in Hb' as (b & Hb & _).
    destruct (expire_body_cases _ _ _ _ _ _ _ _ Hb Hbody)
      as [(Hage & -> & ->) | (Hage & t2 & c & ms & Hone & Hc & -> & Hr)].
    + simplify_eq. split; [done |]. exists [], (mb :: todo).
      split_and!; [done | done | by rewrite app_nil_r | by constructor | set_solver | done].
    + destruct (expire_one_effect _ _ _ _ Hb Hone) as (Ha2 & He2 & Hm2 & _).
      rewrite Hact in Ha2. pose proof (filter_ne_middle [] todo mb Hnd) as E. simpl in E.
      rewrite E in Ha2. clear E.
      assert (rtc (tstep tm ex) t (t_print ms t2)) as Hs.
      { etrans; [eapply (expire_one_steps tm mb b); [rewrite Hact; set_solver | done..] |].
        apply rtc_once. constructor. }
      apply NoDup_cons in Hnd as [Hn Hnd].
      destruct Hr as [[-> _] | [-> Hover]].
      * destruct (IH (t_print ms t2) Ha2 Hnd Hspec) as (Hs' & old & rest & Htodo & Hact' & Hexp' & Hres & Hold & Hkeep).
        simpl in Hexp'. rewrite He2, <- app_assoc in Hexp'.
        split; [by etrans |]. exists (mb :: old), rest. split_and!; [by rewrite Htodo | done | done | | |].
        -- destruct Hres as [| mb' b' rest Hb' Hy |]; [constructor | | by econstructor].
           constructor; [| done]. simpl in Hb'. rewrite Hm2, lookup_insert_ne in Hb'; [done |].
           intros ->. apply Hn. rewrite Htodo. set_solver.
        -- intros p [-> | Hp]%elem_of_cons; [by exists b |].
           destruct (Hold p Hp) as (b' & Hb' & Hage'). exists b'. split; [| done].
           simpl in Hb'. rewrite Hm2, lookup_insert_ne in Hb'; [done |].
           intros ->. apply Hn. rewrite Htodo. set_solver.
        -- intros p [Hp1 Hp2]%not_elem_of_cons. rewrite Hkeep by done. simpl.
           by rewrite Hm2, lookup_insert_ne.
      * simplify_eq. split; [done |]. exists [mb], (t_active t2).
        split_and!; [done | done | done | by econstructor | |].
        -- intros p ->%list_elem_of_singleton. by exists b.
        -- intros p Hp%not_elem_of_cons. simpl. rewrite Hm2, lookup_insert_ne; naive_solver.
Qed.

End events.

(** The scan of an [Expire] event decides what [ex] is in a step. *)
Definition event_expire (ev : event) : Z :=
  match ev with Expire ex _ _ => ex | _ => 0 end.

Lemma active_NoDup t : tracker_ok t -> NoDup (t_active t).
Proof.
  intros Hok. pose proof (wf_nodup _ (ok_wf _ _ Hok)) as Hnd.
  rewrite <- (wf_perm _ (ok_wf _ _ Hok)) in Hnd. by apply NoDup_app in Hnd as [? _].
Qed.

Lemma spec_event_steps (e : env) ev t r t' :
  tracker_ok t -> event_ok ev -> spec_event e ev t = Some (r, t') ->
  rtc (tstep (now e) (event_expire ev)) t t'.
Proof.
  intros Hok Hev Hspec. destruct ev as [[] ret arg1 arg2 | ex ml cl |]; simpl in *.
  - eapply new_steps; [done | | done]. tauto.
  - apply bind_Some in Hspec as (t1 & Hspec & [= <- <-]). by eapply delete_steps.
  - destruct (ret =? arg1); apply bind_Some in Hspec as (t1 & Hspec1 & Hspec).
    + simplify_eq. by eapply update_size_steps.
    + pose proof (delete_steps 0 _ _ _ _ Hspec1) as Hs1. etrans; [exact Hs1 |].
      eapply new_steps; [| | exact Hspec]; [| tauto]. by eapply rtc_ok.
  - eapply new_steps; [done | | done]. tauto.
  - eapply expire_loop_effect; [done | by apply active_NoDup | done].
  - apply bind_Some in Hspec as (t1 & Hspec & [= <- <-]). by eapply count_steps.
Qed.

End event_steps.
