(* ===== verification/Accounting.v ===== *)
(** * The statistics of the call stacks agree with the live blocks

    A call stack counts what was allocated, freed, expired, and freed after it
    expired.  [accounted]: the differences are the numbers, and the sizes, of
    the blocks that are live now, as the integers of the report are compared:
    modulo [2 ^ 32].  It is an invariant of the steps of the tracker, and
    [reported_counts_correct] states it of the memory of the code. *)

From stdpp Require Import relations fin_maps.
From S2P Require Import Prelude ListH HlistH HashH PtrBacktrace Heap Callstack.
From S2P Require Import Memblock Tracker CallstackRefine MemblockRefine Handlers TrackerSteps.

(** ** Sums over the blocks *)

Section sums.
Context (f : memblock_s -> Z).

Definition msum (m : gmap Z memblock_s) : Z := map_fold (fun _ b acc => f b + acc) 0 m.

Lemma msum_empty : msum ∅ = 0.
Proof. unfold msum. by rewrite map_fold_empty. Qed.

Lemma msum_insert m i b : m !! i = None -> msum (<[i := b]> m) = f b + msum m.
Proof.
  intros Hi. unfold msum.
  rewrite (map_fold_insert_L (fun _ b acc => f b + acc)); [done | | done].
  intros j1 j2 z1 z2 y _ _ _. lia.
Qed.

Lemma msum_delete m i b : m !! i = Some b -> msum (delete i m) = msum m - f b.
Proof.
  intros Hi. rewrite <- (insert_delete_id m i b) at 2 by done.
  rewrite msum_insert by apply lookup_delete_eq. lia.
Qed.

Lemma msum_update m i b b' : m !! i = Some b -> msum (<[i := b']> m) = msum m - f b + f b'.
Proof.
  intros Hi. rewrite <- insert_delete_eq, msum_insert by apply lookup_delete_eq.
  rewrite (msum_delete _ _ b) by done. lia.
Qed.

(** The sum over a sequence of blocks, in some memory. *)
Fixpoint lsum (m : gmap Z memblock_s) (ps : list Z) : Z :=
  match ps with
  | [] => 0
  | p :: ps => match m !! p with Some b => f b | None => 0 end + lsum m ps
  end.

Lemma lsum_ext m m' ps : (forall p, p ∈ ps -> m' !! p = m !! p) -> lsum m' ps = lsum m ps.
Proof.
  induction ps as [| p ps IH]; intros Hext; simpl; [done |].
  rewrite Hext, IH by set_solver. done.
Qed.

Lemma msum_lsum m ps :
  NoDup ps -> (forall p, p ∈ ps <-> is_Some (m !! p)) -> msum m = lsum m ps.
Proof.
  revert m. induction ps as [| p ps IH]; intros m Hnd Hdom; simpl.
  - assert (m = ∅) as ->; [| apply msum_empty].
    apply map_empty. intros i. apply eq_None_not_Some. rewrite <- Hdom. by intros ?%elem_of_nil.
  - apply NoDup_cons in Hnd as [Hn Hnd]. destruct (proj1 (Hdom p)) as [b Hb]; [set_solver |].
    rewrite Hb, <- (lsum_ext m (delete p m)).
    + rewrite <- IH, (msum_delete _ _ b) by (done || intros q; rewrite lookup_delete_is_Some,
        <- Hdom, elem_of_cons; naive_solver). lia.
    + intros q Hq. apply lookup_delete_ne. naive_solver.
Qed.

Lemma msum_zero m : (forall p b, m !! p = Some b -> f b = 0) -> msum m = 0.
Proof.
  induction m as [| p b m Hp IH] using map_ind; intros Hz; [apply msum_empty |].
  rewrite msum_insert, (Hz p b) by (done || apply lookup_insert_eq).
  rewrite IH; [done |]. intros q b' Hq. apply (Hz q). rewrite lookup_insert_ne; [done |]. congruence.
Qed.

End sums.

(** What a block adds to the statistics of the call stack [cs]. *)
Definition one_at (cs : Z) (b : memblock_s) : Z := if decide (callstack b = cs) then 1 else 0.
Definition size_at (cs : Z) (b : memblock_s) : Z :=
  if decide (callstack b = cs) then size b else 0.
Definition expired_at (cs : Z) (b : memblock_s) : Z :=
  if decide (callstack b = cs) then (if expired b =? 0 then 0 else 1) else 0.

Record cs_accounted (m : gmap Z memblock_s) (cs : Z) (c : callstack_s) : Prop := {
  ac_count : eqm32 (alloc_count c - free_count c) (msum (one_at cs) m);
  ac_size : eqm32 (alloc_size c - free_size c) (msum (size_at cs) m);
  ac_expired : eqm32 (expired_count c - free_expired_count c) (msum (expired_at cs) m)
}.

Definition accounted (t : tracker) : Prop :=
  forall cs c, t_cs t !! cs = Some c -> cs_accounted (t_mb t) cs c.

(** A block is on the list that its member [expired] says. *)
Definition flags_ok (t : tracker) : Prop :=
  forall p b, t_mb t !! p = Some b ->
    (p ∈ t_active t -> expired b = 0) /\ (p ∈ t_expire t -> expired b = 1).

Lemma eqm32_shift x y x' y' d : eqm32 x y -> x' = x + d -> y' = y + d -> eqm32 x' y'.
Proof. intros H -> ->. by rewrite H. Qed.

Section invariants.
Context (heap_start : Z).
Abbreviation tstep := (tstep heap_start).
Abbreviation tracker_ok := (tracker_ok heap_start).

Lemma tstep_flags tm ex t t' : tstep tm ex t t' -> tracker_ok t -> flags_ok t -> flags_ok t'.
Proof.
  intros Hstep Hok Hfl. pose proof (ok_wf _ _ Hok) as Hwf. destruct Hstep as
    [ms t | p sz h t Hsz Hm | cs ips h t Hm Hnz | mb b c pointer t Hlo Hhi Hn Hu Hc He Ht
    | mb b c t Hb Hc | mb b c sz t Hb Hc | mb b c t Hin Hb Hc Hage | b c t Hc]; try exact Hfl;
    intros q b'; simpl.
  - assert (mb ∉ t_active t ++ t_expire t) as Hn' by by rewrite (wf_perm _ Hwf).
    rewrite lookup_insert. case_decide as E.
    + intros [= <-]. subst q. split; [done | set_solver].
    + intros Hb. destruct (Hfl q b' Hb). split; [| done]. set_solver.
  - rewrite lookup_delete_Some, !list_elem_of_filter. intros [Hne Hb'].
    destruct (Hfl q b' Hb'). tauto.
  - rewrite lookup_insert. case_decide as E; [| apply Hfl].
    intros [= <-]. subst q. apply (Hfl mb b Hb).
  - rewrite lookup_insert, list_elem_of_filter, elem_of_app, list_elem_of_singleton.
    case_decide as E.
    + intros [= <-]. subst q. tauto.
    + intros Hb'. destruct (Hfl q b' Hb'). naive_solver.
Qed.

(** A change of one call stack, and of the blocks that are at it. *)
Lemma accounted_change t m' cs c c' :
  accounted t -> t_cs t !! cs = Some c ->
  (forall cs', cs' <> cs -> msum (one_at cs') m' = msum (one_at cs') (t_mb t) /\
     msum (size_at cs') m' = msum (size_at cs') (t_mb t) /\
     msum (expired_at cs') m' = msum (expired_at cs') (t_mb t)) ->
  (cs_accounted (t_mb t) cs c -> cs_accounted m' cs c') ->
  forall cs' c1, <[cs := c']> (t_cs t) !! cs' = Some c1 -> cs_accounted m' cs' c1.
Proof.
  intros Hac Hc Hother Hthis cs' c1. rewrite lookup_insert. case_decide as E.
  - intros [= <-]. subst cs'. by apply Hthis, Hac.
  - intros Hc1. destruct (Hother cs') as (E1 & E2 & E3); [done |].
    destruct (Hac _ _ Hc1). constructor; by rewrite ?E1, ?E2, ?E3.
Qed.

(** The terms of a block at its own call stack, and at another. *)
Lemma at_this b :
  one_at (callstack b) b = 1 /\ size_at (callstack b) b = size b /\
  expired_at (callstack b) b = if expired b =? 0 then 0 else 1.
Proof. unfold one_at, size_at, expired_at. by rewrite !decide_True. Qed.

Lemma at_other b cs :
  cs <> callstack b -> one_at cs b = 0 /\ size_at cs b = 0 /\ expired_at cs b = 0.
Proof. intros Hne. unfold one_at, size_at, expired_at. by rewrite !decide_False. Qed.

Lemma update_other m mb b b' cs :
  m !! mb = Some b -> callstack b' = callstack b -> cs <> callstack b ->
  msum (one_at cs) (<[mb := b']> m) = msum (one_at cs) m /\
  msum (size_at cs) (<[mb := b']> m) = msum (size_at cs) m /\
  msum (expired_at cs) (<[mb := b']> m) = msum (expired_at cs) m.
Proof.
  intros Hb Hcs Hne. destruct (at_other b cs Hne) as (E1 & E2 & E3).
  destruct (at_other b' cs) as (E1' & E2' & E3'); [by rewrite Hcs |].
  rewrite !(msum_update _ m mb b b'), E1, E2, E3, E1', E2', E3' by done. lia.
Qed.

Lemma new_callstack_accounted cs ips h t :
  tracker_ok t -> cs = brk (t_heap t) -> accounted t -> accounted (spec_new_callstack cs ips h t).
Proof.
  intros Hok Hcs Hac cs1 c. simpl. rewrite lookup_insert. case_decide as E; [| apply Hac].
  intros [= <-]. subst cs1 cs.
  assert (forall p b, t_mb t !! p = Some b -> brk (t_heap t) <> callstack b) as Hne.
  { intros p b Hb E. destruct (wf_block _ (ok_wf _ _ Hok) p b Hb) as (_ & _ & Hcs).
    apply (ok_cs _ _ Hok) in Hcs. lia. }
  constructor; (rewrite msum_zero; [reflexivity |]);
    intros p b Hb; by destruct (at_other b _ (Hne p b Hb)) as (? & ? & ?).
Qed.

Lemma alloc_accounted mb b c pointer t :
  t_mb t !! mb = None -> t_cs t !! callstack b = Some c -> expired b = 0 ->
  accounted t -> accounted (alloc_block mb b c pointer t).
Proof.
  intros Hn Hc He Hac. refine (accounted_change t _ (callstack b) c _ Hac Hc _ _); simpl.
  - intros cs Hne. destruct (at_other b cs Hne) as (E1 & E2 & E3).
    by rewrite !msum_insert, E1, E2, E3 by done.
  - destruct (at_this b) as (E1 & E2 & E3). rewrite He in E3.
    intros []. constructor; rewrite msum_insert, ?E1, ?E2, ?E3 by done; simpl; rewrite ?eqm32_s32.
    + eapply (eqm32_shift _ _ _ _ 1 ac_count0); lia.
    + eapply (eqm32_shift _ _ _ _ (size b) ac_size0); lia.
    + by rewrite Z.add_0_l.
Qed.

Lemma free_accounted mb b c tm t :
  t_mb t !! mb = Some b -> t_cs t !! callstack b = Some c ->
  accounted t -> accounted (free_block mb b c tm t).
Proof.
  intros Hb Hc Hac. refine (accounted_change t _ (callstack b) c _ Hac Hc _ _); simpl.
  - intros cs Hne. destruct (at_other b cs Hne) as (E1 & E2 & E3).
    rewrite !(msum_delete _ _ _ b), E1, E2, E3 by done. lia.
  - destruct (at_this b) as (E1 & E2 & E3).
    intros []. constructor; rewrite (msum_delete _ _ _ b), ?E1, ?E2, ?E3 by done;
      unfold freed_callstack; destruct (expired b =? 0); simpl; rewrite ?eqm32_s32.
    1, 2: by eapply (eqm32_shift _ _ _ _ (-1) ac_count0); lia.
    1, 2: by eapply (eqm32_shift _ _ _ _ (- size b) ac_size0); lia.
    + by rewrite Z.sub_0_r.
    + eapply (eqm32_shift _ _ _ _ (-1) ac_expired0); lia.
Qed.

Lemma resize_accounted mb b c sz t :
  t_mb t !! mb = Some b -> t_cs t !! callstack b = Some c ->
  accounted t -> accounted (resize_block mb b c sz t).
Proof.
  intros Hb Hc Hac. refine (accounted_change t _ (callstack b) c _ Hac Hc _ _); simpl.
  - intros cs Hne. by apply (update_other _ _ b).
  - set (b' := mk_memblock _ _ _ _).
    destruct (at_this b) as (E1 & E2 & E3), (at_this b') as (E1' & E2' & E3').
    simpl in E1', E2', E3'. intros [].
    constructor; rewrite (msum_update _ _ _ b), ?E1, ?E2, ?E3, ?E1', ?E2', ?E3' by done;
      simpl; rewrite ?eqm32_s32.
    + eapply (eqm32_shift _ _ _ _ 0 ac_count0); lia.
    + eapply (eqm32_shift _ _ _ _ (sz - size b) ac_size0); lia.
    + eapply (eqm32_shift _ _ _ _ 0 ac_expired0); lia.
Qed.

Lemma expire_accounted mb b c t :
  t_mb t !! mb = Some b -> t_cs t !! callstack b = Some c -> expired b = 0 ->
  accounted t -> accounted (expire_block mb b c t).
Proof.
  intros Hb Hc He Hac. refine (accounted_change t _ (callstack b) c _ Hac Hc _ _); simpl.
  - intros cs Hne. by apply (update_other _ _ b).
  - set (b' := mk_memblock _ _ _ _).
    destruct (at_this b) as (E1 & E2 & E3), (at_this b') as (E1' & E2' & E3').
    simpl in E1', E2', E3'. rewrite He in E3. intros [].
    constructor; rewrite (msum_update _ _ _ b), ?E1, ?E2, ?E3, ?E1', ?E2', ?E3' by done;
      simpl; rewrite ?eqm32_s32.
    + eapply (eqm32_shift _ _ _ _ 0 ac_count0); lia.
    + eapply (eqm32_shift _ _ _ _ 0 ac_size0); lia.
    + eapply (eqm32_shift _ _ _ _ 1 ac_expired0); lia.
Qed.

Lemma tstep_accounted tm ex t t' :
  tstep tm ex t t' -> tracker_ok t -> flags_ok t -> accounted t -> accounted t'.
Proof.
  intros Hstep Hok Hfl Hac. pose proof (ok_wf _ _ Hok) as Hwf. destruct Hstep as
    [ms t | p sz h t Hsz Hm | cs ips h t Hm Hnz | mb b c pointer t Hlo Hhi Hn Hu Hc He Ht
    | mb b c t Hb Hc | mb b c sz t Hb Hc | mb b c t Hin Hb Hc Hage | b c t Hc]; try exact Hac.
  - apply new_callstack_accounted; [done | | done].
    eapply malloc_grows; [apply (ok_heap _ _ Hok) | exact Hm | unfold sizeof_callstack; lia | done].
  - apply alloc_accounted; try done. apply eq_None_not_Some. by rewrite <- (wf_mb _ Hwf).
  - by apply free_accounted.
  - by apply resize_accounted.
  - apply expire_accounted; try done. by apply (Hfl mb b Hb).
  - refine (accounted_change t _ (callstack b) c _ Hac Hc _ _); [done |]. simpl. intros [].
    unfold on_count. destruct (unfree_max c =? 0); by constructor.
Qed.

(** The invariants hold together along the steps. *)
Record tracker_inv (t : tracker) : Prop := {
  inv_ok : tracker_ok t;
  inv_flags : flags_ok t;
  inv_accounted : accounted t
}.

Lemma rtc_inv tm ex t t' : rtc (tstep tm ex) t t' -> tracker_inv t -> tracker_inv t'.
Proof.
  intros Hs. induction Hs as [| t t1 t' Hstep _ IH]; [done |]. intros []. apply IH.
  constructor; eauto using tstep_ok, tstep_flags, tstep_accounted.
Qed.

Lemma empty_inv h : heap_ok h -> heap_start <= brk h -> tracker_inv (empty_tracker h).
Proof.
  intros Hh Hb. constructor; [| intros p b; simpl; by rewrite lookup_empty | intros cs c; simpl; by rewrite lookup_empty].
  assert (forall A p, p ∈ [] <-> is_Some ((∅ : gmap Z A) !! p)) as Hempty.
  { intros A p. rewrite lookup_empty. split; [by intros ?%elem_of_nil | by intros [? ?]]. }
  constructor; simpl; try done; [| intros p; rewrite lookup_empty; by intros [? ?] |].
  - constructor; simpl; first [done | constructor | intros p b; by rewrite lookup_empty].
  - intros p. by rewrite !lookup_empty.
Qed.

End invariants.

(** ** The statistics of the code *)

Section code.
Context {uspace_t upt_t : Type}.
Context (unw_create_addr_space : uspace_t) (UPT_create : Z -> upt_t).
Context `{!Symbolizer}.
Context (space_head spaces g_callstack_hash : Z).
Context (g_memblock_hash g_memblock_active g_memblock_expire : Z).
Context (opt_backtrace_limit : Z).
Context (heap_start : Z).

Abbreviation mb_world := (mb_world (uspace_t := uspace_t) (upt_t := upt_t)).
Abbreviation R := (R unw_create_addr_space UPT_create space_head spaces g_callstack_hash
  g_memblock_hash g_memblock_active g_memblock_expire heap_start).
Abbreviation env_ok := (event_env_ok unw_create_addr_space UPT_create opt_backtrace_limit).
Abbreviation statics_ok := (statics_ok space_head spaces g_callstack_hash g_memblock_hash
  g_memblock_active g_memblock_expire heap_start).
Abbreviation run_events := (run_events unw_create_addr_space UPT_create space_head spaces
  g_callstack_hash g_memblock_hash g_memblock_active g_memblock_expire opt_backtrace_limit).
Abbreviation spec_events := (spec_events unw_create_addr_space UPT_create opt_backtrace_limit).
Abbreviation tracker_inv := (tracker_inv heap_start).

(** In the memory of the code: the statistics of a call stack are those of the
    blocks on the two lists that were allocated at it. *)
Definition statistics_match (w : mb_world) : Prop :=
  exists active expire, dll (mb_lists w) g_memblock_active active /\
    dll (mb_lists w) g_memblock_expire expire /\
    forall cs c, cs_objs (mb_cs w) !! cs = Some c ->
      eqm32 (alloc_count c - free_count c) (lsum (one_at cs) (mb_objs w) (active ++ expire)) /\
      eqm32 (alloc_size c - free_size c) (lsum (size_at cs) (mb_objs w) (active ++ expire)) /\
      eqm32 (expired_count c - free_expired_count c) (lsum (one_at cs) (mb_objs w) expire).

(** An invariant of the steps is one of the events. *)
Lemma spec_events_keep (P : tracker -> Prop) evs t rs t' :
  (forall t, P t -> tracker_ok heap_start t) ->
  (forall tm ex t t', tstep heap_start tm ex t t' -> P t -> P t') ->
  P t -> Forall (fun '(e, ev) => event_ok ev) evs -> spec_events evs t = Some (rs, t') -> P t'.
Proof.
  intros Hok Hstep. revert t rs. induction evs as [| [e ev] evs IH]; intros t rs HP Hevs Hspec; simpl in *.
  - by simplify_eq.
  - apply Forall_cons in Hevs as [Hev Hevs].
    apply bind_Some in Hspec as ([r t1] & Hspec1 & Hspec).
    apply bind_Some in Hspec as ([rs1 t2] & Hspec2 & [= <- <-]).
    eapply IH; [| done | exact Hspec2].
    eapply spec_event_steps in Hspec1; [| by apply Hok | done]. clear -Hspec1 HP Hstep.
    induction Hspec1; eauto.
Qed.

Lemma spec_events_inv evs t rs t' :
  tracker_inv t -> Forall (fun '(e, ev) => event_ok ev) evs ->
  spec_events evs t = Some (rs, t') -> tracker_inv t'.
Proof.
  apply spec_events_keep; [apply inv_ok |]. intros tm ex t1 t2 Hstep.
  eapply rtc_inv. by apply rtc_once.
Qed.

Lemma lsum_app f m ps qs : lsum f m (ps ++ qs) = lsum f m ps + lsum f m qs.
Proof. induction ps; simpl; lia. Qed.

(** The expired blocks are those on the second list. *)
Lemma lsum_expired t cs :
  flags_ok t ->
  lsum (expired_at cs) (t_mb t) (t_active t ++ t_expire t) =
    lsum (one_at cs) (t_mb t) (t_expire t).
Proof.
  intros Hfl. rewrite lsum_app.
  assert (forall ps, (forall p, p ∈ ps -> p ∈ t_active t) ->
    lsum (expired_at cs) (t_mb t) ps = 0) as Ha.
  { induction ps as [| p ps IH]; intros Hin; simpl; [done |]. rewrite IH by set_solver.
    destruct (t_mb t !! p) as [b |] eqn:Hb; [| done]. unfold expired_at.
    rewrite (proj1 (Hfl p b Hb)) by set_solver. by case_decide. }
  assert (forall ps, (forall p, p ∈ ps -> p ∈ t_expire t) ->
    lsum (expired_at cs) (t_mb t) ps = lsum (one_at cs) (t_mb t) ps) as He.
  { induction ps as [| p ps IH]; intros Hin; simpl; [done |]. rewrite IH by set_solver.
    destruct (t_mb t !! p) as [b |] eqn:Hb; [| done]. unfold expired_at, one_at.
    by rewrite (proj2 (Hfl p b Hb)) by set_solver. }
  rewrite Ha, He by done. lia.
Qed.

Lemma inv_statistics w t : R w t -> tracker_inv t -> statistics_match w.
Proof.
  intros [HC HM] [Hok Hfl Hac]. pose proof (rm_wf _ _ _ _ _ _ HM) as Hwf.
  destruct (rm_lists _ _ _ _ _ _ HM) as (HA & HE & _).
  exists (t_active t), (t_expire t). split_and!; [done.. |]. intros cs c Hc.
  rewrite (rc_objs _ _ _ _ _ _ _ _ HC) in Hc. destruct (Hac cs c Hc) as [H1 H2 H3].
  assert (forall f ps, (forall p, p ∈ ps -> p ∈ t_active t ++ t_expire t) ->
    lsum f (mb_objs w) ps = lsum f (t_mb t) ps) as Hobjs.
  { intros f ps Hps. apply lsum_ext. intros p Hp%Hps. rewrite (wf_perm _ Hwf) in Hp.
    apply (wf_mb _ Hwf) in Hp as [b Hb]. rewrite Hb.
    by apply (lookup_weaken _ _ _ _ Hb (rm_objs _ _ _ _ _ _ HM)). }
  assert (forall f, msum f (t_mb t) = lsum f (t_mb t) (t_active t ++ t_expire t)) as Hsum.
  { intros f. apply msum_lsum.
    - rewrite (wf_perm _ Hwf). apply (wf_nodup _ Hwf).
    - intros p. rewrite (wf_perm _ Hwf). apply (wf_mb _ Hwf). }
  rewrite !Hobjs by set_solver. rewrite !Hsum in *. rewrite lsum_expired in H3 by done.
  done.
Qed.

(** C6: whatever the program does with its memory, the counts and the sizes
    that the report prints (allocated minus freed, expired minus expired and
    freed) are, as 32-bit integers, those of the blocks that are live: the ones
    on the two lists, and on the list of expired blocks. *)
Theorem reported_counts_correct bt lists h evs rs t' :
  statics_ok -> start_ok space_head spaces g_memblock_active g_memblock_expire heap_start
    bt lists h ->
  Forall (fun '(e, ev) => env_ok e ev /\ event_ok ev) evs ->
  spec_events evs (empty_tracker h) = Some (rs, t') ->
  exists w', run_events evs (initial_world g_callstack_hash g_memblock_hash bt lists h) =
      Some (rs, w') /\ statistics_match w'.
Proof.
  intros Hst Hstart Hevs Hspec.
  destruct (run_from_start _ _ _ _ _ _ _ _ _ _ _ _ _ _ _ _ Hst Hstart Hevs Hspec)
    as (w' & Hrun & HR).
  exists w'. split; [done |]. eapply inv_statistics; [done |].
  eapply spec_events_inv; [by apply empty_inv; apply Hstart | | done].
  eapply Forall_impl; [exact Hevs |]. by intros [e ev] [_ ?].
Qed.

End code.

Import Example.

Lemma reported_counts_correct_witness :
  exists w', run_events tt (fun t => t) 64 128 1048576 2097152 600 632 3 Example.events
      Example.world = Some ([0; 0; 0; 0; 0; 0], w') /\ statistics_match 600 632 w'.
Proof.
  apply (reported_counts_correct tt (fun t => t) 64 128 1048576 2097152 600 632 3 16777216
    example_bt_state Example.static_lists (mk_heap 16777216 33554432) Example.events _
    Example.tracker_after).
  - exact Example.statics.
  - exact Example.start.
  - exact Example.events_ok.
  - vm_compute. reflexivity.
Defined.
