(* ===== verification/Expiry.v ===== *)
(** * The scan for old blocks is complete

    [memblock_expire] stops at the first active block that is young enough.
    Blocks are appended to the list when they are allocated, so that with a
    clock that does not go back the list is sorted by age ([clock_inv]) and the
    scan misses nothing ([expire_scan_complete]). *)

From stdpp Require Import relations sorting.
From S2P Require Import Prelude ListH HlistH HashH PtrBacktrace Heap Callstack.
From S2P Require Import Memblock Tracker CallstackRefine MemblockRefine Handlers TrackerSteps Accounting.

(** ** The order of the active blocks *)

Definition create_of (m : gmap Z memblock_s) (p : Z) : Z :=
  match m !! p with Some b => create b | None => 0 end.

Definition older (m : gmap Z memblock_s) (p q : Z) : Prop := create_of m p <= create_of m q.

Record clock_inv (tm : Z) (t : tracker) : Prop := {
  ci_sorted : StronglySorted (older (t_mb t)) (t_active t);
  ci_past : forall p b, t_mb t !! p = Some b -> create b <= tm
}.

Lemma StronglySorted_filter_list {A} (P : A -> A -> Prop) (f : A -> Prop)
    `{!forall x, Decision (f x)} (l : list A) :
  StronglySorted P l -> StronglySorted P (filter f l).
Proof.
  induction 1 as [| x l Hs IH Hx]; [constructor |]. rewrite filter_cons.
  case_decide; [| done]. constructor; [done |].
  rewrite !Forall_forall in *. intros y (_ & Hy)%list_elem_of_filter. by apply Hx.
Qed.

Lemma StronglySorted_snoc {A} (P : A -> A -> Prop) (l : list A) x :
  StronglySorted P l -> (forall y, y ∈ l -> P y x) -> StronglySorted P (l ++ [x]).
Proof.
  induction 1 as [| y l Hs IH Hy]; intros Hx; simpl.
  - constructor; [constructor | constructor].
  - constructor; [apply IH; set_solver |]. apply Forall_app. split; [done |].
    constructor; [apply Hx; set_solver | constructor].
Qed.

Section clock.
Context (heap_start : Z).
Abbreviation tstep := (tstep heap_start).
Abbreviation tracker_ok := (tracker_ok heap_start).

Lemma active_block t p :
  tracker_ok t -> p ∈ t_active t -> is_Some (t_mb t !! p).
Proof.
  intros Hok Hp. apply (wf_mb _ (ok_wf _ _ Hok)). rewrite <- (wf_perm _ (ok_wf _ _ Hok)). set_solver.
Qed.

(** A write to a block that keeps when it was created. *)
Lemma clock_update tm t mb b b' m active :
  clock_inv tm t -> t_mb t !! mb = Some b -> create b' = create b ->
  m = <[mb := b']> (t_mb t) -> StronglySorted (older (t_mb t)) active ->
  StronglySorted (older m) active /\ (forall p b, m !! p = Some b -> create b <= tm).
Proof.
  intros [Hs Hp] Hb Hc -> Ha. split.
  - eapply StronglySorted_impl; [| exact Ha]. intros x y _ _. unfold older, create_of.
    rewrite !lookup_insert. repeat case_decide; subst; rewrite ?Hb, ?Hc; done.
  - intros p b1. rewrite lookup_insert. case_decide; [| apply Hp].
    intros [= <-]. rewrite Hc. by apply (Hp mb).
Qed.

Lemma tstep_clock tm ex t t' : tstep tm ex t t' -> tracker_ok t -> clock_inv tm t -> clock_inv tm t'.
Proof.
  intros Hstep Hok Hci. pose proof (ok_wf _ _ Hok) as Hwf. destruct Hstep as
    [ms t | p sz h t Hsz Hm | cs ips h t Hm Hnz | mb b c pointer t Hlo Hhi Hn Hu Hc He Ht
    | mb b c t Hb Hc | mb b c sz t Hb Hc | mb b c t Hin Hb Hc Hage | b c t Hc];
    try (destruct Hci; by constructor).
  - destruct Hci as [Hs Hp].
    assert (mb ∉ t_active t) as Hna.
    { intros Hin. apply Hn. rewrite <- (wf_perm _ Hwf). set_solver. }
    constructor; simpl.
    + apply StronglySorted_snoc.
      * eapply StronglySorted_impl; [| exact Hs]. intros x y Hx Hy. unfold older, create_of.
        rewrite !lookup_insert_ne by naive_solver. done.
      * intros y Hy. unfold older, create_of. rewrite lookup_insert_eq, lookup_insert_ne by naive_solver.
        destruct (active_block t y Hok Hy) as [by_ Hy']. rewrite Hy', Ht. by apply (Hp y).
    + intros p b'. rewrite lookup_insert. case_decide; [| apply Hp]. intros [= <-]. lia.
  - destruct Hci as [Hs Hp]. constructor; simpl.
    + eapply StronglySorted_impl; [| by apply StronglySorted_filter_list].
      intros x y [Hx _]%list_elem_of_filter [Hy _]%list_elem_of_filter. unfold older, create_of.
      by rewrite !lookup_delete_ne by congruence.
    + intros p b' [_ Hp']%lookup_delete_Some. by apply (Hp p).
  - destruct (clock_update tm t mb b (mk_memblock sz (create b) (expired b) (callstack b))
      _ (t_active t) Hci Hb eq_refl eq_refl (ci_sorted _ _ Hci)). by constructor.
  - destruct (clock_update tm t mb b (mk_memblock (size b) (create b) 1 (callstack b))
      _ (filter (fun p => p <> mb) (t_active t)) Hci Hb eq_refl eq_refl) as [H1 H2];
      [by apply StronglySorted_filter_list, Hci | by constructor].
Qed.

Lemma clock_later tm tm' t : tm <= tm' -> clock_inv tm t -> clock_inv tm' t.
Proof. intros Htm [Hs Hp]. constructor; [done |]. intros p b Hb%Hp. lia. Qed.

Lemma rtc_clock tm ex t t' :
  rtc (tstep tm ex) t t' -> tracker_ok t -> clock_inv tm t -> clock_inv tm t'.
Proof. intros Hs. induction Hs; eauto using tstep_ok, tstep_clock. Qed.

End clock.

(** ** The limits *)

Section limits.
Context `{!Symbolizer}.

Definition within_limits (ml cl : Z) (t : tracker) : Prop :=
  forall cs c, t_cs t !! cs = Some c -> ~ over_limit ml cl c.

Lemma expire_one_callstack mb b t t' :
  t_mb t !! mb = Some b -> spec_expire_one mb t = Some t' ->
  exists c, t_cs t' = <[callstack b := c]> (t_cs t).
Proof.
  intros Hb Hspec. unfold spec_expire_one in Hspec. rewrite Hb in Hspec.
  cbn [mbind option_bind] in Hspec. cbv zeta in Hspec.
  apply bind_Some in Hspec as (c & Hc & Hspec). destruct (_ =? 0).
  - apply bind_Some in Hspec as (ips & _ & [= <-]). by eexists.
  - simplify_eq. by eexists.
Qed.

Lemma expire_loop_limits tm ex ml cl todo t r t' :
  within_limits ml cl t -> spec_expire_loop tm ex ml cl todo t = Some (r, t') ->
  within_limits ml cl t' \/ (r = -1 /\ exists cs c, t_cs t' !! cs = Some c /\ over_limit ml cl c).
Proof.
  revert t. induction todo as [| mb todo IH]; intros t Hw Hspec; simpl in Hspec.
  - simplify_eq. by left.
  - apply bind_Some in Hspec as ([r1 t1] & Hbody & Hspec).
    pose proof Hbody as Hb'. unfold spec_expire_body in Hb'.
    apply bind_Some in Hb' as (b & Hb & _).
    destruct (expire_body_cases _ _ _ _ _ _ _ _ _ Hb Hbody)
      as [(_ & -> & ->) | (_ & t2 & c & ms & Hone & Hc & -> & [[-> Hn] | [-> Hover]])].
    + simplify_eq. by left.
    + apply (IH (t_print ms t2)); [| done]. intros cs c1 Hc1. simpl in Hc1.
      destruct (expire_one_callstack _ _ _ _ Hb Hone) as [c' Hcs].
      rewrite Hcs, lookup_insert_eq in Hc. simplify_eq.
      rewrite Hcs, lookup_insert in Hc1. case_decide; [by simplify_eq | by apply (Hw cs)].
    + simplify_eq. right. split; [done |]. by exists (callstack b), c.
Qed.

End limits.

(** ** The scan in the code *)

Section code.
Context {uspace_t upt_t : Type}.
Context (unw_create_addr_space : uspace_t) (UPT_create : Z -> upt_t).
Context `{!Symbolizer}.
Context (space_head spaces g_callstack_hash : Z).
Context (g_memblock_hash g_memblock_active g_memblock_expire : Z).
Context (opt_backtrace_limit : Z).
Context (heap_start : Z).

Abbreviation mb_world := (mb_world (uspace_t := uspace_t) (upt_t := upt_t)).
Abbreviation env := (env uspace_t upt_t).
Abbreviation R := (R unw_create_addr_space UPT_create space_head spaces g_callstack_hash
  g_memblock_hash g_memblock_active g_memblock_expire heap_start).
Abbreviation env_ok := (event_env_ok unw_create_addr_space UPT_create opt_backtrace_limit).
Abbreviation statics_ok := (statics_ok space_head spaces g_callstack_hash g_memblock_hash
  g_memblock_active g_memblock_expire heap_start).
Abbreviation run_events := (run_events unw_create_addr_space UPT_create space_head spaces
  g_callstack_hash g_memblock_hash g_memblock_active g_memblock_expire opt_backtrace_limit).
Abbreviation spec_event := (spec_event unw_create_addr_space UPT_create opt_backtrace_limit).
Abbreviation spec_events := (spec_events unw_create_addr_space UPT_create opt_backtrace_limit).
Abbreviation tracker_inv := (tracker_inv heap_start).

(** The times of the events, from [tm] on, do not go back. *)
Fixpoint clock_monotone (tm : Z) (evs : list (env * event)) : Prop :=
  match evs with
  | [] => True
  | (e, _) :: evs => tm <= now e /\ clock_monotone (now e) evs
  end.

Definition event_good (ev : env * event) : Prop := env_ok ev.1 ev.2 /\ event_ok ev.2.

(** Both invariants, along a sequence of events. *)
Lemma spec_events_clock evs tm t rs t' :
  tracker_inv t -> clock_inv tm t -> clock_monotone tm evs -> Forall event_good evs ->
  spec_events evs t = Some (rs, t') ->
  tracker_inv t' /\ exists tm', clock_inv tm' t' /\
    forall e ev, clock_monotone tm (evs ++ [(e, ev)]) -> tm' <= now e.
Proof.
  revert tm t rs. induction evs as [| [e ev] evs IH]; intros tm t rs Hinv Hci Hm Hg Hspec;
    simpl in *.
  - simplify_eq. split; [done |]. exists tm. split; [done |]. by intros e ev [? _].
  - apply Forall_cons in Hg as [[He Hev] Hg]. destruct Hm as [Htm Hm].
    apply bind_Some in Hspec as ([r t1] & Hspec1 & Hspec).
    apply bind_Some in Hspec as ([rs1 t2] & Hspec2 & [= <- <-]).
    pose proof (spec_event_steps _ _ _ _ _ _ _ _ _ (inv_ok _ _ Hinv) Hev Hspec1) as Hs.
    destruct (IH (now e) t1 rs1) as (Hinv' & tm' & Hci' & Hlast); try done.
    + by eapply rtc_inv.
    + eapply rtc_clock; [done | apply (inv_ok _ _ Hinv) |]. by eapply clock_later.
    + split; [done |]. exists tm'. split; [done |]. intros e' ev' [_ Hm']. by eapply Hlast.
Qed.

Lemma spec_events_snoc evs e ev t rs t' :
  spec_events (evs ++ [(e, ev)]) t = Some (rs, t') ->
  exists rs0 t0 r, spec_events evs t = Some (rs0, t0) /\ spec_event e ev t0 = Some (r, t') /\
    rs = rs0 ++ [r].
Proof.
  revert t rs. induction evs as [| [e1 ev1] evs IH]; intros t rs Hspec; simpl in *.
  - apply bind_Some in Hspec as ([r t1] & Hspec & [= <- <-]). by exists [], t, r.
  - apply bind_Some in Hspec as ([r t1] & Hspec1 & Hspec).
    apply bind_Some in Hspec as ([rs1 t2] & Hspec2 & [= <- <-]).
    destruct (IH _ _ Hspec2) as (rs0 & t0 & r0 & H1 & H2 & ->).
    exists (r :: rs0), t0, r0. split_and!; [| done | done]. by rewrite Hspec1; simpl; rewrite H1.
Qed.

(** After a scan that did not stop at a limit, how the list and the result
    agree: the next scan is due when the oldest block is. *)
Lemma scan_sorted tm ex ml cl t t' r rest :
  clock_inv tm t' -> t_active t' = rest -> 0 <= ex < 2 ^ 31 - 1 -> r <> -1 ->
  (forall p b, t_mb t !! p = Some b -> p ∈ rest -> t_mb t' !! p = Some b) ->
  scan_result ex tm ml cl t t' rest r ->
  (r = 0 /\ rest = []) \/
  (2 <= r /\ (exists p rest' b, rest = p :: rest' /\ t_mb t' !! p = Some b /\
     tm - create b + r = ex + 1) /\
   forall p b, p ∈ rest -> t_mb t' !! p = Some b -> tm - create b + r <= ex + 1).
Proof.
  intros [Hs Hp] Hact Hex Hr Hkeep Hres. destruct Hres as [| mb b rest' Hb Hy |];
    [by left | right | done].
  pose proof (Hkeep mb b Hb ltac:(set_solver)) as Hb'. pose proof (Hp mb b Hb') as Hpast.
  rewrite s32_small in Hr |- * by (unfold is_s32; lia).
  split_and!; [lia | exists mb, rest', b; split_and!; [done | done | lia] |].
  intros p b1 Hin Hb1. rewrite Hact in Hs. apply StronglySorted_inv in Hs as [_ Hs].
  apply elem_of_cons in Hin as [-> | Hin]; [simplify_eq; lia |].
  rewrite Forall_forall in Hs. specialize (Hs p Hin). unfold older, create_of in Hs.
  rewrite Hb', Hb1 in Hs. lia.
Qed.

(** What a scan says of the lists: [r] is its result, [active] and [expire] the
    lists that it leaves. *)
Definition scan_complete (w : mb_world) (tm ex r : Z) (active expire : list Z) : Prop :=
  (forall p, p ∈ expire -> exists b, mb_objs w !! p = Some b /\ expired b = 1) /\
  (forall p, p ∈ active -> exists b, mb_objs w !! p = Some b /\ expired b = 0) /\
  (r <> -1 ->
   (r = 0 /\ active = []) \/
   (2 <= r /\ (exists p rest b, active = p :: rest /\ mb_objs w !! p = Some b /\
      tm - create b + r = ex + 1) /\
    forall p b, p ∈ active -> mb_objs w !! p = Some b -> tm - create b + r <= ex + 1)).

Lemma R_mb_objs w t p b :
  R w t -> p ∈ t_active t ++ t_expire t -> mb_objs w !! p = Some b <-> t_mb t !! p = Some b.
Proof.
  intros [_ HM] Hp. pose proof (rm_wf _ _ _ _ _ _ HM) as Hwf.
  rewrite (wf_perm _ Hwf) in Hp. apply (wf_mb _ Hwf) in Hp as [b' Hb'].
  pose proof (lookup_weaken _ _ _ _ Hb' (rm_objs _ _ _ _ _ _ HM)). split; congruence.
Qed.

Lemma scan_complete_R w t tm ex r :
  R w t -> tracker_inv t ->
  (r <> -1 -> (r = 0 /\ t_active t = []) \/
    (2 <= r /\ (exists p rest b, t_active t = p :: rest /\ t_mb t !! p = Some b /\
       tm - create b + r = ex + 1) /\
     forall p b, p ∈ t_active t -> t_mb t !! p = Some b -> tm - create b + r <= ex + 1)) ->
  scan_complete w tm ex r (t_active t) (t_expire t).
Proof.
  intros HR [Hok Hfl _] Hscan. pose proof (ok_wf _ _ Hok) as Hwf.
  assert (forall p, p ∈ t_active t ++ t_expire t -> exists b, t_mb t !! p = Some b) as Hmb.
  { intros p Hp. rewrite (wf_perm _ Hwf) in Hp. by apply (wf_mb _ Hwf) in Hp. }
  split_and!.
  - intros p Hp. destruct (Hmb p) as [b Hb]; [set_solver |]. exists b.
    rewrite (R_mb_objs w t) by (done || set_solver). split; [done |]. by apply (Hfl p b Hb).
  - intros p Hp. destruct (Hmb p) as [b Hb]; [set_solver |]. exists b.
    rewrite (R_mb_objs w t) by (done || set_solver). split; [done |]. by apply (Hfl p b Hb).
  - intros Hr. destruct (Hscan Hr) as [? | (H2 & (p & rest & b & Hact & Hb & Hage) & Hall)];
      [by left | right].
    split_and!; [done | exists p, rest, b; split_and!; [done | | done] |].
    + rewrite (R_mb_objs w t); [done | done | rewrite Hact; set_solver].
    + intros q b' Hq Hb'. rewrite (R_mb_objs w t) in Hb' by (done || set_solver). eauto.
Qed.

Lemma clock_monotone_app tm evs evs' :
  clock_monotone tm (evs ++ evs') -> clock_monotone tm evs.
Proof.
  revert tm. induction evs as [| [e ev] evs IH]; intros tm; [done |].
  simpl. intros [? ?]. split; [done | by apply IH].
Qed.

(** The last event, a scan, on the specification. *)
Lemma spec_scan_complete t e ex ml cl r t' :
  tracker_inv t -> clock_inv (now e) t -> 0 <= ex < 2 ^ 31 - 1 ->
  spec_event e (Expire ex ml cl) t = Some (r, t') ->
  tracker_inv t' /\
  (r <> -1 -> (r = 0 /\ t_active t' = []) \/
    (2 <= r /\ (exists p rest b, t_active t' = p :: rest /\ t_mb t' !! p = Some b /\
       now e - create b + r = ex + 1) /\
     forall p b, p ∈ t_active t' -> t_mb t' !! p = Some b -> now e - create b + r <= ex + 1)).
Proof.
  intros Hinv Hci Hex Hspec. pose proof (active_NoDup _ _ (inv_ok _ _ Hinv)) as Hnd.
  destruct (expire_loop_effect UPT_create heap_start ex (now e) ml cl (t_active t) t r t')
    as (Hs & old & rest & Hold & Hact & _ & Hres & _ & Hkeep); [done | done | exact Hspec |].
  split; [by eapply rtc_inv |]. intros Hr. rewrite Hact.
  eapply (scan_sorted (now e) ex ml cl t); try done.
  - eapply rtc_clock; [done | apply (inv_ok _ _ Hinv) | done].
  - intros p b Hb Hp. rewrite Hkeep; [done |]. rewrite Hold in Hnd.
    apply NoDup_app in Hnd as (_ & Hdis & _). intros Hp'. by apply (Hdis p).
Qed.

Lemma start_inv (bt : bt_state (uspace_t := uspace_t) (upt_t := upt_t)) lists h tm :
  start_ok space_head spaces g_memblock_active g_memblock_expire heap_start bt lists h ->
  tracker_inv (empty_tracker h) /\ clock_inv tm (empty_tracker h).
Proof.
  intros (_ & _ & ? & ?). split; [by apply empty_inv |].
  constructor; [constructor |]. intros p b. simpl. by rewrite lookup_empty.
Qed.

Lemma scan_complete_run bt lists h evs tm e ex ml cl rs t' :
  statics_ok -> start_ok space_head spaces g_memblock_active g_memblock_expire heap_start
    bt lists h ->
  Forall event_good (evs ++ [(e, Expire ex ml cl)]) ->
  clock_monotone tm (evs ++ [(e, Expire ex ml cl)]) -> 0 <= ex < 2 ^ 31 - 1 ->
  spec_events (evs ++ [(e, Expire ex ml cl)]) (empty_tracker h) = Some (rs, t') ->
  exists w' r active expire,
    run_events (evs ++ [(e, Expire ex ml cl)])
      (initial_world g_callstack_hash g_memblock_hash bt lists h) = Some (rs, w') /\
    last rs = Some r /\
    dll (mb_lists w') g_memblock_active active /\ dll (mb_lists w') g_memblock_expire expire /\
    scan_complete w' (now e) ex r active expire.
Proof.
  intros Hst Hstart Hg Hclock Hex Hspec.
  assert (Forall (fun '(e, ev) => env_ok e ev /\ event_ok ev) (evs ++ [(e, Expire ex ml cl)]))
    as Hg' by (eapply Forall_impl; [exact Hg |]; by intros []).
  destruct (run_from_start _ _ _ _ _ _ _ _ _ _ _ _ _ _ _ _ Hst Hstart Hg' Hspec)
    as (w' & Hrun & HR).
  destruct (spec_events_snoc _ _ _ _ _ _ Hspec) as (rs0 & t0 & r & Hspec0 & Hspec1 & ->).
  destruct (start_inv _ _ _ tm Hstart) as [Hinv0 Hci0].
  apply Forall_app in Hg as [Hg0 _].
  destruct (spec_events_clock evs tm (empty_tracker h) rs0 t0 Hinv0 Hci0
    (clock_monotone_app _ _ _ Hclock) Hg0 Hspec0) as (Hinv & tm' & Hci & Hlast).
  destruct (spec_scan_complete t0 e ex ml cl r t' Hinv
    (clock_later _ _ _ (Hlast e _ Hclock) Hci) Hex Hspec1) as [Hinv' Hscan].
  pose proof HR as [_ HM]. destruct (rm_lists _ _ _ _ _ _ HM) as (HA & HE & _).
  exists w', r, (t_active t'), (t_expire t').
  split_and!; [done | by rewrite last_snoc | done | done |]. by apply scan_complete_R.
Qed.


End code.

Import Example.

