(* ===== verification/TrackerSafe.v ===== *)
(** * When an event has no undefined behaviour

    [event_safe] is what is left to assume: that the call stack of the event
    fits in the array of [callstack_current], that no call stack of the same
    slot is shorter ([hash_search] compares as many bytes as the key that is
    searched has, and reads past the end of a shorter one), and, for an
    allocation that failed, that there is memory for its call stack (it is
    printed without a test).  All other accesses of the component are inside
    live objects ([tracker_event_safe]). *)

From stdpp Require Import relations.
From S2P Require Import Prelude ListH HlistH HashH PtrBacktrace Heap Callstack.
From S2P Require Import Memblock Tracker CallstackRefine MemblockRefine Handlers TrackerSteps Accounting.
From S2P Require Import Expiry.

Section safe.
Context {uspace_t upt_t : Type}.
Context (unw_create_addr_space : uspace_t) (UPT_create : Z -> upt_t).
Context `{!Symbolizer}.
Context (space_head spaces g_callstack_hash : Z).
Context (g_memblock_hash g_memblock_active g_memblock_expire : Z).
Context (opt_backtrace_limit : Z).
Context (heap_start : Z).

Abbreviation mb_world := (mb_world (uspace_t := uspace_t) (upt_t := upt_t)).
Abbreviation env := (env uspace_t upt_t).
Abbreviation R := (R unw_create_addr_space UPT_create space_head spaces g_callstack_hash
  g_memblock_hash g_memblock_active g_memblock_expire heap_start).
Abbreviation env_ok := (event_env_ok unw_create_addr_space UPT_create opt_backtrace_limit).
Abbreviation statics_ok := (statics_ok space_head spaces g_callstack_hash g_memblock_hash
  g_memblock_active g_memblock_expire heap_start).
Abbreviation run_event := (run_event unw_create_addr_space UPT_create space_head spaces
  g_callstack_hash g_memblock_hash g_memblock_active g_memblock_expire opt_backtrace_limit).
Abbreviation spec_event := (spec_event unw_create_addr_space UPT_create opt_backtrace_limit).
Abbreviation spec_current := (spec_callstack_current unw_create_addr_space UPT_create
  opt_backtrace_limit).
Abbreviation spec_new := (spec_memblock_new unw_create_addr_space UPT_create
  opt_backtrace_limit).
Abbreviation ips_of e := (event_ips unw_create_addr_space UPT_create opt_backtrace_limit e).
Abbreviation tracker_ok := (tracker_ok heap_start).

Definition current_safe (e : env) (t : tracker) : Prop :=
  Z.of_nat (length (ips_of e)) <= BACKTRACE_MAX /\
  forall p s, t_ips t !! p = Some s -> slot_of_words s = slot_of_words (ips_of e) ->
    (length (ips_of e) <= length s)%nat.

Definition new_safe (e : env) (pointer : Z) (t : tracker) : Prop :=
  current_safe e t /\
  (pointer = 0 -> brk (t_heap t) +
     round_up16 (sizeof_callstack + 8 * Z.of_nat (length (ips_of e))) <= heap_end (t_heap t)).

Definition event_safe (e : env) (ev : event) (t : tracker) : Prop :=
  match ev with
  | Return Malloc pointer _ _ | Return Calloc pointer _ _ => new_safe e pointer t
  | Return Realloc new_pointer old_pointer _ =>
      new_pointer = old_pointer \/ new_safe e new_pointer t
  | _ => True
  end.

Lemma scan_total (t : tracker) (ips : list Z) order :
  (forall p, p ∈ order -> is_Some (t_ips t !! p)) ->
  (forall p s, t_ips t !! p = Some s -> slot_of_words s = slot_of_words ips ->
     (length ips <= length s)%nat) ->
  is_Some (spec_scan t ips order).
Proof.
  intros Hin Hlen. induction order as [| p order IH]; simpl; [by eexists |].
  destruct (Hin p) as [s Hs]; [set_solver |]. rewrite Hs. simpl.
  specialize (IH ltac:(set_solver)). case_decide as E; [| done].
  rewrite decide_False by (pose proof (Hlen p s Hs E); lia). case_decide; [by eexists | done].
Qed.

Lemma current_total e t :
  tracker_ok t -> current_safe e t ->
  exists p t', spec_current e t = Some (p, t') /\
    (brk (t_heap t) + round_up16 (sizeof_callstack + 8 * Z.of_nat (length (ips_of e))) <=
       heap_end (t_heap t) -> p <> NULL).
Proof.
  intros Hok [Hmax Hlen]. unfold spec_callstack_current.
  cbv zeta. destruct (Z.ltb_spec BACKTRACE_MAX (Z.of_nat (length (ips_of e)))); [lia |].
  destruct (scan_total t (ips_of e) (t_cs_order t)) as [p Hp]; [| done |].
  { intros p. by apply (ok_order _ _ Hok). }
  rewrite Hp. cbn [mbind option_bind]. destruct (Z.eqb_spec p NULL); cbn [negb].
  - destruct (malloc_cases (sizeof_callstack + 8 * Z.of_nat (length (ips_of e))) (t_heap t)
      (ok_heap _ _ Hok)) as [[-> Hfull] | (h & -> & _ & _ & _ & Hnz)];
      [unfold sizeof_callstack; lia | |]; cbn [mbind option_bind].
    + eexists _, _. split; [done |]. intros ?. exfalso. lia.
    + rewrite (proj2 (Z.eqb_neq _ _) Hnz). by eexists _, _.
  - by eexists _, _.
Qed.

Lemma print_total cs t : tracker_ok t -> is_Some (t_cs t !! cs) -> is_Some (spec_print cs t).
Proof.
  intros Hok Hcs. apply (ok_ips _ _ Hok) in Hcs as [ips Hips]. unfold spec_print.
  rewrite Hips. by eexists.
Qed.

Lemma new_total e pointer sz t :
  tracker_ok t -> new_safe e pointer t -> is_Some (spec_new e pointer sz t).
Proof.
  intros Hok [Hcur Hroom]. unfold spec_memblock_new. destruct (Z.eqb_spec pointer 0) as [-> |].
  - assert (tracker_ok (t_print [MsgAllocNull] t)) as Hok'
      by (eapply (tstep_ok heap_start 0 0 t); [by constructor | done]).
    destruct (current_total e _ Hok' Hcur) as (p & t' & Hp & Hnn). rewrite Hp.
    cbn [mbind option_bind].
    destruct (current_steps unw_create_addr_space UPT_create opt_backtrace_limit heap_start 0 0
      e p _ t' Hok' Hp) as (Hs & Hcs & _).
    destruct Hcs as [-> | Hcs]; [by destruct (Hnn (Hroom eq_refl)) |].
    destruct (print_total p t') as [t'' ->]; [eapply rtc_ok; [exact Hs | done] | done |]. by eexists.
  - destruct (malloc_cases sizeof_memblock (t_heap t) (ok_heap _ _ Hok) ltac:(done))
      as [[Hm _] | (h & Hm & _)]; rewrite Hm; cbn [mbind option_bind]; [by eexists |].
    case_match; [by eexists |].
    assert (tracker_ok (t_set_heap h t)) as Hok'
      by (eapply (tstep_ok heap_start 0 0 t); [by eapply step_heap; [| exact Hm] | done]).
    destruct (current_total e _ Hok' Hcur) as (p & t' & Hp & _). rewrite Hp.
    cbn [mbind option_bind]. destruct (Z.eqb_spec p NULL); [by eexists |].
    destruct (current_steps unw_create_addr_space UPT_create opt_backtrace_limit heap_start 0 0
      e p _ t' Hok' Hp) as (_ & [-> | [c Hc]] & _); [done |].
    unfold t_modify_cs. cbn [spec_add_block t_cs]. rewrite Hc. by eexists.
Qed.

Lemma delete_total (e : env) mb t :
  tracker_ok t -> mb = NULL \/ mb ∈ t_order t -> is_Some (spec_memblock_delete e mb t).
Proof.
  intros Hok [-> | Hmb]; [by eexists |]. unfold spec_memblock_delete.
  destruct (mb =? NULL); [by eexists |].
  apply (wf_mb _ (ok_wf _ _ Hok)) in Hmb as [b Hb]. rewrite Hb. cbn [mbind option_bind].
  destruct (wf_block _ (ok_wf _ _ Hok) _ _ Hb) as (_ & _ & [c Hc]). rewrite Hc. by eexists.
Qed.

Lemma update_size_total mb sz t :
  tracker_ok t -> mb = NULL \/ mb ∈ t_order t -> is_Some (spec_memblock_update_size mb sz t).
Proof.
  intros Hok [-> | Hmb]; [by eexists |]. unfold spec_memblock_update_size.
  destruct (mb =? NULL); [by eexists |].
  apply (wf_mb _ (ok_wf _ _ Hok)) in Hmb as [b Hb]. rewrite Hb. cbn [mbind option_bind].
  destruct (wf_block _ (ok_wf _ _ Hok) _ _ Hb) as (_ & _ & [c Hc]). rewrite Hc. by eexists.
Qed.

Lemma search_found pointer t :
  spec_memblock_search pointer t = NULL \/ spec_memblock_search pointer t ∈ t_order t.
Proof.
  unfold spec_memblock_search. destruct (filter _ _) as [| p l] eqn:E; [by left | right].
  simpl. assert (p ∈ filter (fun q => t_ptr t !! q = Some pointer) (t_order t)) as Hp
    by (rewrite E; set_solver). by apply list_elem_of_filter in Hp as [_ ?].
Qed.

Lemma expire_one_total mb t :
  tracker_ok t -> mb ∈ t_active t -> is_Some (spec_expire_one mb t).
Proof.
  intros Hok Hin. destruct (active_block _ t mb Hok Hin) as [b Hb].
  destruct (wf_block _ (ok_wf _ _ Hok) _ _ Hb) as (_ & _ & [c Hc]).
  unfold spec_expire_one. rewrite Hb. cbn [mbind option_bind]. cbv zeta.
  cbn [t_cs t_set_lists t_set_mb]. rewrite Hc. cbn [mbind option_bind].
  destruct (_ =? 0); [| by eexists].
  unfold spec_print. cbn [t_ips t_print t_set_next_id t_set_cs t_set_lists t_set_mb].
  destruct (proj2 (ok_ips _ _ Hok (callstack b)) ltac:(by eexists)) as [ips Hips].
  rewrite Hips. by eexists.
Qed.

Lemma expire_loop_total tm ex ml cl todo t :
  tracker_ok t -> t_active t = todo -> is_Some (spec_expire_loop tm ex ml cl todo t).
Proof.
  revert t. induction todo as [| mb todo IH]; intros t Hok Hact; [by eexists |].
  cbn [spec_expire_loop]. assert (mb ∈ t_active t) as Hin by (rewrite Hact; set_solver).
  destruct (active_block _ t mb Hok Hin) as [b Hb]. unfold spec_expire_body. rewrite Hb.
  cbn [mbind option_bind]. destruct (Z.ltb_spec (tm - create b) ex); [by eexists |].
  destruct (expire_one_total mb t Hok Hin) as [t1 Ht1]. rewrite Ht1. cbn [mbind option_bind].
  destruct (expire_one_effect mb b t t1 Hb Ht1) as (Ha & _ & _).
  destruct (expire_one_callstack mb b t t1 Hb Ht1) as [c Hc]. rewrite Hc, lookup_insert_eq.
  cbn [mbind option_bind]. destruct (_ <=? id c); [by eexists |].
  destruct (ml <=? _); [by eexists |]. apply IH.
  - eapply rtc_ok; [| exact Hok]. by eapply (expire_one_steps heap_start ex tm mb b).
  - pose proof (active_NoDup _ _ Hok) as Hnd. rewrite Ha. rewrite Hact in *.
    apply (filter_ne_middle [] todo mb Hnd).
Qed.

Lemma count_total tm mbs t :
  tracker_ok t -> (forall p, p ∈ mbs -> p ∈ t_order t) ->
  is_Some (foldl (spec_count_one tm) (Some t) mbs).
Proof.
  revert t. induction mbs as [| mb mbs IH]; intros t Hok Hin; cbn [foldl]; [by eexists |].
  assert (mb ∈ t_order t) as [b Hb]%(wf_mb _ (ok_wf _ _ Hok)) by (apply Hin; set_solver).
  destruct (wf_block _ (ok_wf _ _ Hok) _ _ Hb) as (_ & _ & [c Hc]).
  assert (spec_count_one tm (Some t) mb = Some (t_set_cs (callstack b) (on_count tm b c) t)) as ->.
  { cbn. rewrite Hb. cbn. unfold t_modify_cs. by rewrite Hc. }
  apply IH; [by eapply t_set_cs_ok |]. intros p Hp. apply Hin. set_solver.
Qed.

Lemma new_safe_frame e pointer t t' :
  t_ips t' = t_ips t -> t_heap t' = t_heap t -> new_safe e pointer t -> new_safe e pointer t'.
Proof. unfold new_safe, current_safe. by intros -> ->. Qed.

Lemma delete_keeps (e : env) mb t t' :
  spec_memblock_delete e mb t = Some t' -> t_ips t' = t_ips t /\ t_heap t' = t_heap t.
Proof.
  unfold spec_memblock_delete. destruct (mb =? NULL); [by intros [= <-] |].
  intros (b & _ & Hspec)%bind_Some. by apply bind_Some in Hspec as (c & _ & [= <-]).
Qed.

Lemma spec_event_total e ev t :
  tracker_ok t -> event_safe e ev t -> is_Some (spec_event e ev t).
Proof.
  intros Hok Hsafe. destruct ev as [[] ret arg1 arg2 | ex ml cl |]; cbn [Handlers.spec_event].
  - by apply new_total.
  - unfold spec_free. destruct (delete_total e _ t Hok (search_found arg1 t)) as [t' ->].
    by eexists.
  - destruct (Z.eqb_spec ret arg1).
    + destruct (update_size_total _ arg2 t Hok (search_found arg1 t)) as [t' ->]. by eexists.
    + unfold spec_free. destruct (delete_total e _ t Hok (search_found arg1 t)) as [t' Ht'].
      rewrite Ht'. cbn [mbind option_bind]. destruct Hsafe as [-> | Hsafe]; [done |].
      destruct (delete_keeps _ _ _ _ Ht'). apply new_total; [| by eapply new_safe_frame].
      eapply rtc_ok; [by eapply (delete_steps heap_start 0) | done].
  - by apply new_total.
  - by apply expire_loop_total.
  - unfold spec_memblock_count. destruct (count_total (now e) (t_expire t ++ t_active t) t Hok)
      as [t' ->]; [| by eexists].
    intros p Hp. rewrite <- (wf_perm _ (ok_wf _ _ Hok)). set_solver.
Qed.

Lemma tracker_event_run w t e ev :
  statics_ok -> R w t -> env_ok e ev -> event_ok ev -> event_safe e ev t ->
  exists r w' t', run_event e ev w = Some (r, w') /\ spec_event e ev t = Some (r, t') /\ R w' t'.
Proof.
  intros Hst HR He Hev Hsafe.
  assert (tracker_ok t) as Hok by by eapply R_tracker_ok.
  destruct (spec_event_total e ev t Hok Hsafe) as [[r t'] Hspec].
  eapply run_event_refines in Hspec as Hrun; [| done..]. destruct Hrun as (w' & Hrun & HR').
  by exists r, w', t'.
Qed.


(** The call stacks of the memory, within the limits of the options. *)
Definition callstacks_within (w : mb_world) (ml cl : Z) : Prop :=
  forall cs c, cs_objs (mb_cs w) !! cs = Some c -> ~ over_limit ml cl c.


End safe.

Import Example.



(** A block that expires, grows by a [realloc] in place, and is freed. *)
Definition resize_events : list (env unit Z * event) :=
  [(env_at 1000 300, Return Malloc 4096 16 0);
   (env_at 1015 300, Expire 10 100 100);
   (env_at 1016 400, Return Realloc 4096 4096 64);
   (env_at 1017 400, Return Free 0 4096 0)].

Definition resize_after : option (list Z * tracker) := Eval vm_compute in
  spec_events tt (fun t => t) 3 resize_events (empty_tracker (mk_heap 16777216 33554432)).

