(* ===== verification/Report.v ===== *)
(** * The report of [callstack.c]

    [callstack_report] runs when the monitoring is over: it counts the blocks
    that are left, collects the call stacks that have expired blocks which were
    not freed, sorts them by the number of these blocks, and prints the
    statistics and the backtrace of each.

    [report_refines] says what is printed, in terms of the tracker;
    [report_lists_leaks] what that means: after any sequence of events, the
    report has exactly the call stacks at which expired blocks are live, each
    with the number of these blocks, in ascending order. *)

From stdpp Require Import relations sorting.
From S2P Require Import Prelude ListH HlistH HashH PtrBacktrace Heap ArrayH Callstack.
From S2P Require Import Memblock Tracker CallstackRefine MemblockRefine Handlers TrackerSteps.
From S2P Require Import Accounting.

(** The array of pointers that is a local variable of [callstack_report]. *)
Definition sizeof_pointer : Z := 8.

(** [cs->expired_count - cs->free_expired_count] *)
Definition may_leak (c : callstack_s) : Z := s32 (expired_count c - free_expired_count c).

(** The comparison reads the call stacks behind the pointers. *)
Definition callstack_cmp (objs : gmap Z callstack_s) (csa csb : Z) : Z :=
  match objs !! csa, objs !! csb with
  | Some a, Some b => s32 (may_leak a - may_leak b)
  | _, _ => 0
  end.

Definition statistics_msg (c : callstack_s) : msg :=
  MsgStatistics (id c) (may_leak c) (s32 (expired_size c - free_expired_size c))
    (expired_count c) (expired_size c) (free_expired_count c) (free_expired_size c)
    (alloc_count c) (alloc_size c) (free_count c) (free_size c)
    (free_min c) (free_max c)
    (if free_count c =? 0 then 0 else Z.quot (free_total c) (free_count c))
    (unfree_max c).

Section report.
Context {uspace_t upt_t : Type}.
Context (unw_create_addr_space : uspace_t) (UPT_create : Z -> upt_t).
Context `{!Symbolizer} `{!Qsort}.
Context (space_head spaces g_callstack_hash : Z).
Context (g_memblock_hash g_memblock_active g_memblock_expire : Z).
Context (opt_backtrace_limit : Z).
Context (heap_start : Z).

Abbreviation mb_world := (mb_world (uspace_t := uspace_t) (upt_t := upt_t)).
Abbreviation cs_world := (cs_world (uspace_t := uspace_t) (upt_t := upt_t)).
Abbreviation report_state := (mb_world * (array_s * gmap Z Z))%type.
Abbreviation env := (env uspace_t upt_t).

Definition with_heap (h : heap) (w : mb_world) : mb_world :=
  with_cs (mk_cs_world h (cs_bt (mb_cs w)) (cs_hash (mb_cs w)) (cs_objs (mb_cs w))
             (cs_out (mb_cs w))) w.

(** The array is in the heap of the program. *)
#[export, refine] Instance report_array_lens : Lens report_state (array_mem Z) := {
  view s := mk_array_mem s.2.1 (cs_heap (mb_cs s.1)) s.2.2;
  update m s := (with_heap (am_heap m) s.1, (am_arr m, am_items m))
}.
Proof.
  - by intros [] s.
  - done.
  - by intros [[[]] []].
Defined.

(** The table of the call stacks. *)
#[refine] Definition report_table_lens : Lens report_state hash_mem := {|
  view s := cs_hash (mb_cs s.1);
  update h s :=
    let c := mb_cs s.1 in
    (with_cs (mk_cs_world (cs_heap c) (cs_bt c) h (cs_objs c) (cs_out c)) s.1, s.2)
|}.
Proof.
  - done.
  - done.
  - by intros [[[]] ?].
Defined.

(** The body of the loop that collects the call stacks. *)
Definition report_body (p : Z) : cmd report_state (option unit) :=
  let cs := list_entry p offset_hash_node in
  c ← zoom (A := cs_world) (get_cs cs);
  if expired_count c =? free_expired_count c then mret None
  else zoom (push_item cs);; mret None.

(** The body of the loop that prints them. *)
Definition show_callstack (cs : Z) : cmd report_state (option unit) :=
  c ← zoom (A := cs_world) (get_cs cs);
  zoom (A := cs_world) (printf (statistics_msg c));;
  zoom (A := cs_world) (callstack_print cs);;
  mret None.

Definition show_body (csp : Z) : cmd report_state (option unit) :=
  cs ← zoom (read_item csp);
  show_callstack cs.

(** From the local array on. *)
Definition report_array : cmd report_state unit :=
  fuel ← gets (fun s => chain_fuel (chains (cs_hash (mb_cs s.1))));
  hash_for_each (H := report_table_lens) fuel report_body g_callstack_hash;;
  a ← zoom (gets am_arr);
  if item_num a =? 0 then zoom (A := cs_world) (printf MsgNoExpired)
  else
    objs ← gets (fun s => cs_objs (mb_cs s.1));
    zoom (array_sort (callstack_cmp objs));;
    zoom (A := cs_world) (printf MsgStatisticsHeader);;
    array_for_each show_body;;
    mret tt.

Definition callstack_report (e : env) : cmd mb_world unit :=
  memblock_count g_memblock_active g_memblock_expire e;;
  with_local (ARRAY sizeof_pointer 1000, ∅) report_array;;
  mret tt.

(** ** Collecting the call stacks *)

Abbreviation R := (R unw_create_addr_space UPT_create space_head spaces g_callstack_hash
  g_memblock_hash g_memblock_active g_memblock_expire heap_start).
Abbreviation Rcs := (Rcs unw_create_addr_space UPT_create space_head spaces g_callstack_hash
  heap_start).

Context (Hstat : statics_ok space_head spaces g_callstack_hash g_memblock_hash
  g_memblock_active g_memblock_expire heap_start).

(** Not all of the expired blocks were freed. *)
Definition leaking (objs : gmap Z callstack_s) (cs : Z) : bool :=
  match objs !! cs with
  | Some c => negb (expired_count c =? free_expired_count c)
  | None => false
  end.

Definition leaks (objs : gmap Z callstack_s) (css : list Z) : list Z :=
  filter (fun cs => leaking objs cs = true) css.

Lemma R_heap w t h :
  R w t -> heap_ok h -> brk (t_heap t) <= brk h -> R (with_heap h w) (t_set_heap h t).
Proof.
  intros [HC HM] Hh Hb. split; [by apply Rcs_heap |].
  eapply Rmb_same_blocks; [| done]. by constructor.
Qed.

Lemma zoom_get_cs (s : report_state) cs c :
  cs_objs (mb_cs s.1) !! cs = Some c -> zoom (A := cs_world) (get_cs cs) s = Some (c, s).
Proof.
  intros Hc. unfold zoom, get_cs, gets_opt. cbn [view lens_fst mb_cs_lens]. rewrite Hc.
  by destruct s as [[] ?].
Qed.

Lemma zoom_push n xs cs (s : report_state) :
  growing 1000 (alone n) xs (view s) -> Z.of_nat (length xs) < n ->
  exists s', zoom (push_item cs) s = Some (tt, s') /\ growing 1000 (alone n) (xs ++ [cs]) (view s') /\
    s'.1 = with_heap (cs_heap (mb_cs s'.1)) s.1 /\
    brk (cs_heap (mb_cs s.1)) <= brk (cs_heap (mb_cs s'.1)).
Proof.
  intros Hg Hn. destruct (push_item_run 1000 (alone n) xs cs (view s) Hg) as (m & Hrun & Hg' & _ & Hb);
    [lia | done |].
  exists (update m s). split; [by apply zoom_Some |].
  rewrite view_update. split_and!; [exact Hg' | reflexivity | exact Hb].
Qed.

Lemma with_heap_twice h h' w : with_heap h' (with_heap h w) = with_heap h' w.
Proof. done. Qed.

Lemma with_heap_self w : with_heap (cs_heap (mb_cs w)) w = w.
Proof. by destruct w as [[] ? ? ? ?]. Qed.

Lemma report_body_run cs c (s : report_state) :
  list_entry (cs_node cs) offset_hash_node = cs -> cs_objs (mb_cs s.1) !! cs = Some c ->
  report_body (cs_node cs) s =
    if expired_count c =? free_expired_count c then Some (None, s)
    else (zoom (push_item cs);; mret None) s.
Proof.
  intros Hcs Hc. unfold report_body. rewrite Hcs.
  erewrite (cmd_bind_Some (zoom _)) by (by apply zoom_get_cs). by destruct (_ =? _).
Qed.

(** The state after some items were collected. *)
Definition collected (w : mb_world) (n : Z) (xs : list Z) (s : report_state) : Prop :=
  growing 1000 (alone n) xs (view s) /\ s.1 = with_heap (cs_heap (mb_cs s.1)) w /\
  brk (cs_heap (mb_cs w)) <= brk (cs_heap (mb_cs s.1)).

Lemma collect_run w n xs css s :
  (forall cs, cs ∈ css -> list_entry (cs_node cs) offset_hash_node = cs /\
     is_Some (cs_objs (mb_cs w) !! cs)) -> collected w n xs s ->
  Z.of_nat (length xs + length (leaks (cs_objs (mb_cs w)) css)) <= n ->
  exists s', run_list report_body (cs_node <$> css) s = Some (None, s') /\
    collected w n (xs ++ leaks (cs_objs (mb_cs w)) css) s'.
Proof.
  revert xs s. induction css as [| cs css IH]; intros xs s Hin Hcol Hn.
  - exists s. by rewrite app_nil_r.
  - destruct (Hin cs ltac:(set_solver)) as (Hcs & c & Hc). destruct Hcol as (Hg & Ew & Hb).
    assert (cs_objs (mb_cs s.1) !! cs = Some c) as Hc' by (rewrite Ew; exact Hc).
    cbn [fmap list_fmap run_list]. unfold mbind at 1, cmd_bind at 1.
    rewrite (report_body_run cs c s Hcs Hc').
    unfold leaks in *. destruct (expired_count c =? free_expired_count c) eqn:El.
    + rewrite filter_cons_False in * by (unfold leaking; by rewrite Hc, El).
      apply IH; [set_solver | by split_and! | done].
    + rewrite filter_cons_True in * by (unfold leaking; by rewrite Hc, El). cbn [length] in Hn.
      destruct (zoom_push n xs cs s Hg) as (s1 & Hrun & Hg1 & Ew1 & Hb1); [lia |].
      destruct (IH (xs ++ [cs]) s1) as (s' & Hrun' & Hcol'); [set_solver | | |].
      * split_and!; [done | by rewrite Ew1, Ew at 1 | lia].
      * rewrite length_app. simpl. lia.
      * exists s'. rewrite <- app_assoc in Hcol'. split; [| exact Hcol'].
        erewrite cmd_bind_Some by exact Hrun. exact Hrun'.
Qed.

Abbreviation table_loop fuel := (hash_for_each (H := report_table_lens) fuel report_body
  g_callstack_hash).

Lemma report_body_keeps w p (s : report_state) r s' :
  s.1 = with_heap (cs_heap (mb_cs s.1)) w -> report_body p s = Some (r, s') ->
  s'.1 = with_heap (cs_heap (mb_cs s'.1)) w.
Proof.
  intros Ew (c & s1 & Hc & Hrun)%cmd_bind_inv.
  assert (s1 = s) as ->.
  { unfold zoom, get_cs, gets_opt in Hc. cbn [view update lens_fst mb_cs_lens] in Hc.
    destruct (cs_objs _ !! _); [| done]. simplify_eq. by destruct s as [[] ?]. }
  unfold mret, cmd_ret in Hrun. destruct (_ =? _); [by simplify_eq |].
  apply cmd_bind_inv in Hrun as ([] & s2 & Hpush & Hret). unfold zoom in Hpush.
  destruct (push_item _ _) as [[? m] |]; [| done]. simplify_eq/=. by rewrite Ew.
Qed.

(** The loop over the table visits every call stack, in some order. *)
Lemma table_loop_run w t n s :
  R w t -> collected w n [] s -> Z.of_nat (length (leaks (t_cs t) (t_cs_order t))) <= n ->
  exists css s', table_loop (chain_fuel (chains (cs_hash (mb_cs w)))) s = Some (None, s') /\
    css ≡ₚ leaks (t_cs t) (t_cs_order t) /\ collected w n css s'.
Proof.
  intros [HC HM] Hcol Hn. pose proof (rc_table _ _ _ _ _ _ _ _ HC) as ((T & HT & ET) & _ & Hsl).
  set (nodes := cs_node <$> t_cs_order t) in *.
  assert (table_nodes T ≡ₚ nodes) as Hperm.
  { assert (table_nodes T = table_nodes (table_of (cs_key_len (t_ips t)) (bytes (cs_hash (mb_cs w))) nodes))
      as ->; [| by apply table_nodes_perm].
    unfold table_nodes. f_equal. apply list_fmap_ext.
    intros k i Hi%list_elem_of_lookup_2%elem_of_seqZ. apply ET. unfold is_slot. lia. }
  apply Permutation_map_inv in Hperm as (css & E & Hperm).
  pose proof (rc_objs _ _ _ _ _ _ _ _ HC) as Eo.
  destruct (collect_run w n [] css s) as (s' & Hrun & Hcol').
  - intros cs Hcs. rewrite <- Hperm in Hcs. split; [by eapply (Rcs_addr _ _ _ _ _ _ _ _ _ Hstat) |].
    rewrite Eo. by apply (rc_dom _ _ _ _ _ _ _ _ HC), (rc_order _ _ _ _ _ _ _ _ HC).
  - done.
  - rewrite Eo. unfold leaks in *. by rewrite <- Hperm.
  - rewrite Eo in *. exists (leaks (t_cs t) css), s'. split_and!; [| | done].
    + rewrite <- Hrun.
      rewrite (hash_for_each_run g_callstack_hash (fun s => s.1 = with_heap (cs_heap (mb_cs s.1)) w)
        report_body T); [by rewrite E | | | apply Hcol].
      * split; [| intros i p s1 r s2 _ _; apply report_body_keeps].
        intros s1 Ew. change (view s1) with (cs_hash (mb_cs s1.1)). by rewrite Ew.
      * intros i Hi. eapply hchain_fuel. by apply HT.
    + unfold leaks. by rewrite Hperm.
Qed.

(** ** Printing *)

Definition callstack_msgs (t : tracker) (cs : Z) : list msg :=
  match t_cs t !! cs, t_ips t !! cs with
  | Some c, Some ips => statistics_msg c :: backtrace_msgs ips
  | _, _ => []
  end.

Definition report_msgs (t : tracker) (css : list Z) : list msg :=
  if decide (css = []) then [MsgNoExpired]
  else MsgStatisticsHeader :: concat (callstack_msgs t <$> css).

Definition printed (ms : list msg) (w : mb_world) : mb_world := with_cs (with_out ms (mb_cs w)) w.

Lemma printed_printed ms ms' w : printed ms' (printed ms w) = printed (ms ++ ms') w.
Proof. unfold printed. cbn [mb_cs with_cs]. by rewrite with_out_app, with_cs_with_cs. Qed.

Lemma show_run w t cs ms (arr : array_s * gmap Z Z) :
  R w t -> is_Some (t_cs t !! cs) ->
  show_callstack cs (printed ms w, arr) = Some (None, (printed (ms ++ callstack_msgs t cs) w, arr)).
Proof.
  intros [HC _] Hcs. pose proof (proj2 (rc_dom _ _ _ _ _ _ _ _ HC cs) Hcs) as [ips Hips].
  destruct Hcs as [c Hc]. unfold callstack_msgs. rewrite Hc, Hips.
  assert (Rcs (with_out (ms ++ [statistics_msg c]) (mb_cs w)) (t_print (ms ++ [statistics_msg c]) t))
    as HC' by by apply Rcs_out.
  unfold show_callstack. erewrite (cmd_bind_Some (zoom _)).
  2: { apply zoom_get_cs. simpl. by rewrite (rc_objs _ _ _ _ _ _ _ _ HC). }
  cbn beta. erewrite (cmd_bind_Some (zoom _) _ _ tt (printed (ms ++ [statistics_msg c]) w, arr)).
  2: { unfold zoom, printf, modify. simpl. unfold printed, with_cs, with_out. simpl.
       by rewrite app_assoc. }
  erewrite (cmd_bind_Some (zoom _) _ _ tt).
  2: { apply zoom_Some. cbn [view lens_fst mb_cs_lens]. by eapply print_run. }
  unfold mret, cmd_ret, printed, with_cs, with_out. simpl. by rewrite <- !app_assoc.
Qed.

Lemma show_all_run w t css ms (arr : array_s * gmap Z Z) :
  R w t -> (forall cs, cs ∈ css -> is_Some (t_cs t !! cs)) ->
  run_list show_callstack css (printed ms w, arr) =
    Some (None, (printed (ms ++ concat (callstack_msgs t <$> css)) w, arr)).
Proof.
  intros HR. revert ms. induction css as [| cs css IH]; intros ms Hin; [by rewrite app_nil_r |].
  cbn [run_list]. erewrite cmd_bind_Some by (eapply show_run; [done | apply Hin; set_solver]).
  cbn beta. rewrite IH by (intros; apply Hin; set_solver). cbn [fmap list_fmap concat].
  by rewrite app_assoc.
Qed.

(** The loop over the array. *)
Lemma show_loop_run w t css arr :
  R w t -> (forall cs, cs ∈ css -> is_Some (t_cs t !! cs)) ->
  array_rep (mk_array_mem arr.1 (cs_heap (mb_cs w)) arr.2) css ->
  array_for_each show_body (w, arr) = Some (None, (printed (concat (callstack_msgs t <$> css)) w, arr)).
Proof.
  intros HR Hin Hrep.
  assert (printed [] w = w) as E0.
  { unfold printed. rewrite with_out_nil. by apply with_cs_self. }
  rewrite (array_for_each_run (fun s => exists ms, s = (printed ms w, arr)) arr.1 css _ show_callstack).
  - rewrite <- E0 at 1. by rewrite (show_all_run w t css []).
  - split; [intros s [ms ->]; split; [done | exact Hrep] |].
    intros i cs s Hi [ms ->]. split.
    + pose proof (ar_items _ _ Hrep i cs Hi) as Ei. simpl in Ei. unfold show_body.
      erewrite (cmd_bind_Some (zoom _) _ _ cs (printed ms w, arr)); [done |].
      unfold zoom, read_item, gets_opt. simpl. rewrite Ei. simpl.
      by destruct arr, w as [[]].
    + intros r s' Hrun. rewrite (show_run w t) in Hrun; [simplify_eq; by eexists | done |].
      by eapply Hin, list_elem_of_lookup_2.
  - exists []. by rewrite E0.
Qed.

(** ** The report *)

Definition key_of (t : tracker) (cs : Z) : Z :=
  match t_cs t !! cs with Some c => may_leak c | None => 0 end.

Lemma callstack_cmp_key t css :
  (forall cs, cs ∈ css -> is_Some (t_cs t !! cs) /\ 0 <= key_of t cs) ->
  StronglySorted (fun x y => key_of t x <= key_of t y) (qsort (callstack_cmp (t_cs t)) css).
Proof.
  intros Hin. apply qsort_sorted. intros x y Hx Hy.
  destruct (Hin x Hx) as [[a Ha] Hka], (Hin y Hy) as [[b Hb] Hkb].
  unfold callstack_cmp, key_of in *. rewrite Ha, Hb in *.
  pose proof (s32_range (expired_count a - free_expired_count a)).
  pose proof (s32_range (expired_count b - free_expired_count b)).
  unfold may_leak, is_s32 in *. rewrite s32_small by (unfold is_s32; lia). lia.
Qed.

(** The call stacks that were collected, sorted and shown. *)
Lemma show_sorted_run w t css arr :
  R w t -> cs_objs (mb_cs w) = t_cs t -> css <> [] -> (forall cs, cs ∈ css -> is_Some (t_cs t !! cs)) ->
  array_rep (mk_array_mem arr.1 (cs_heap (mb_cs w)) arr.2) css ->
  exists sorted arr', sorted ≡ₚ css /\
    ((forall cs, cs ∈ sorted -> 0 <= key_of t cs) ->
     StronglySorted (fun x y => key_of t x <= key_of t y) sorted) /\
    (objs ← gets (fun s => cs_objs (mb_cs s.1));
     zoom (array_sort (callstack_cmp objs));;
     zoom (A := cs_world) (printf MsgStatisticsHeader);;
     array_for_each show_body;;
     mret tt) ((w, arr) : report_state) = Some (tt, (printed (report_msgs t sorted) w, arr')).
Proof.
  intros HR Eo Hne Hin Hrep. erewrite (cmd_bind_Some (gets _)) by done. cbn beta. cbn [fst]. rewrite Eo.
  destruct (array_sort_run (callstack_cmp (t_cs t)) _ css Hrep) as (m & Hsort & Hrep2 & Ea & Ehp).
  pose proof (qsort_perm (callstack_cmp (t_cs t)) css) as Hq.
  set (sorted := qsort (callstack_cmp (t_cs t)) css) in *.
  set (arr2 := (am_arr m, am_items m)). cbn [am_arr am_heap] in Ehp.
  exists sorted, arr2. split; [by rewrite Hq |]. split.
  { intros Hnn. apply callstack_cmp_key. intros cs Hcs. split; [by apply Hin |]. apply Hnn. by rewrite Hq. }
  assert (update m (w, arr) = (w, arr2)) as Eu.
  { unfold update, report_array_lens. cbn [fst snd]. rewrite Ehp. by rewrite with_heap_self. }
  erewrite (cmd_bind_Some (zoom (array_sort _)) _ _ tt (w, arr2))
    by (rewrite <- Eu; by apply zoom_Some). cbn beta.
  erewrite (cmd_bind_Some (zoom _) _ _ tt (printed [MsgStatisticsHeader] w, arr2)) by done. cbn beta.
  assert (R (printed [MsgStatisticsHeader] w) (t_print [MsgStatisticsHeader] t)) as HR2.
  { destruct HR as [HC1 HM1]. split; [by apply Rcs_out |].
    eapply Rmb_same_blocks; [| done]. apply t_print_same_blocks. }
  erewrite cmd_bind_Some.
  2: { eapply (show_loop_run _ _ sorted arr2 HR2).
       - intros cs Hcs. simpl. apply Hin. by rewrite <- Hq.
       - unfold arr2. simpl. destruct m as [am ah ai]. simpl in *. by rewrite <- Ehp. }
  unfold report_msgs. rewrite decide_False by (intros E; rewrite E in Hq; by apply Permutation_nil_l in Hq).
  cbn beta. by rewrite printed_printed.
Qed.

Lemma report_array_run w t n :
  R w t -> n = Z.of_nat (length (leaks (t_cs t) (t_cs_order t))) ->
  (sizeof_pointer + 15) * (1000 + 4 * n) <= heap_end (t_heap t) - brk (t_heap t) ->
  sizeof_pointer * Z.max 1000 (2 * n) < 2 ^ 31 ->
  exists css arr h, css ≡ₚ leaks (t_cs t) (t_cs_order t) /\
    ((forall cs, cs ∈ css -> 0 <= key_of t cs) ->
     StronglySorted (fun x y => key_of t x <= key_of t y) css) /\
    with_local (ARRAY sizeof_pointer 1000, ∅) report_array w =
      Some ((tt, arr), printed (report_msgs t css) (with_heap h w)) /\
    R (with_heap h w) (t_set_heap h t).
Proof.
  intros HR Hn Hroom Hint. pose proof HR as [HC HM].
  pose proof (rc_heap _ _ _ _ _ _ _ _ HC) as Eh. pose proof (rc_heap_ok _ _ _ _ _ _ _ _ HC) as [Hh _].
  pose proof (rc_objs _ _ _ _ _ _ _ _ HC) as Eo.
  set (s0 := (w, (ARRAY sizeof_pointer 1000, (∅ : gmap Z Z))) : report_state).
  assert (collected w n [] s0) as Hc0.
  { split_and!; [| by rewrite with_heap_self | simpl; lia].
    unfold s0. cbn [view report_array_lens fst snd]. rewrite Eh.
    unfold heap_ok in Hh. apply growing_start; unfold sizeof_pointer in *; (done || simpl; lia). }
  destruct (table_loop_run w t n s0 HR Hc0) as (css & s1 & Hloop & Hperm & Hg & Ew & Hb); [lia |].
  destruct s1 as [w1 arr1]. set (h1 := cs_heap (mb_cs w1)) in *. cbn [fst] in Ew. fold h1 in Ew.
  pose proof (growing_rep _ _ _ _ Hg) as Hrep. cbn [view report_array_lens fst snd] in Hrep.
  assert (R w1 (t_set_heap h1 t)) as HR1.
  { rewrite Ew. apply R_heap; [done | exact (ar_heap _ _ Hrep) | by rewrite <- Eh]. }
  unfold with_local, report_array. fold s0.
  erewrite (cmd_bind_Some (gets _) _ s0) by done. cbn beta.
  erewrite (cmd_bind_Some (table_loop _) _ s0) by exact Hloop. cbn beta.
  erewrite (cmd_bind_Some (zoom _)) by apply zoom_arr. cbn beta.
  cbn [view report_array_lens fst snd am_arr]. pose proof (ar_num _ _ Hrep) as Hnum.
  cbn [am_arr] in Hnum. rewrite Hnum.
  destruct (decide (css = [])) as [-> | Hne].
  - exists [], arr1, h1. split_and!; [done | intros _; constructor | | by rewrite <- Ew]. by rewrite <- Ew.
  - rewrite (proj2 (Z.eqb_neq _ _)) by (destruct css; [done | simpl; lia]).
    destruct (show_sorted_run w1 (t_set_heap h1 t) css arr1 HR1) as (sorted & arr2 & Hq & Hsort & Hrun);
      [by rewrite Ew | done | | done |].
    { intros cs Hcs. rewrite Hperm in Hcs. apply list_elem_of_filter in Hcs as [Hl _].
      unfold leaking in Hl. simpl. by destruct (t_cs t !! cs). }
    exists sorted, arr2, h1. split_and!; [by rewrite Hq | exact Hsort | by rewrite Hrun, Ew | by rewrite <- Ew].
Qed.

(** ** What the report means *)

(** [memblock_count] changes call stacks only. *)
Lemma count_frame tm ps t t' :
  foldl (spec_count_one tm) (Some t) ps = Some t' ->
  t_heap t' = t_heap t /\ t_ips t' = t_ips t /\ t_cs_order t' = t_cs_order t /\
  t_mb t' = t_mb t /\ t_expire t' = t_expire t /\ t_out t' = t_out t.
Proof.
  revert t. induction ps as [| p ps IH]; intros t Hf; cbn [foldl] in Hf; [by simplify_eq |].
  destruct (spec_count_one tm (Some t) p) as [t1 |] eqn:E.
  - apply IH in Hf as (-> & -> & -> & -> & -> & ->). cbn in E.
    apply bind_Some in E as (b & _ & (c & _ & [= <-])%bind_Some). done.
  - exfalso. clear -Hf. induction ps; [done | auto].
Qed.

(** The counters are [int]s. *)
Definition counters_ok (t : tracker) : Prop :=
  forall cs c, t_cs t !! cs = Some c -> is_s32 (expired_count c) /\ is_s32 (free_expired_count c).

Lemma tstep_counters tm ex t t' : tstep heap_start tm ex t t' -> counters_ok t -> counters_ok t'.
Proof.
  intros Hstep Hok. assert (is_s32 0) as Hz by (unfold is_s32; lia).
  assert (forall z, is_s32 (s32 z)) as Hs by apply s32_range.
  assert (forall cs c c', t_cs t !! cs = Some c ->
    (is_s32 (expired_count c) -> is_s32 (expired_count c')) ->
    (is_s32 (free_expired_count c) -> is_s32 (free_expired_count c')) ->
    forall cs' c1, <[cs := c']> (t_cs t) !! cs' = Some c1 ->
      is_s32 (expired_count c1) /\ is_s32 (free_expired_count c1)) as Hset.
  { intros cs c c' Hc K1 K2 cs' c1. rewrite lookup_insert. case_decide; [| apply Hok].
    intros [= <-]. destruct (Hok cs c Hc). auto. }
  destruct Hstep as
    [ms t | p sz h t Hsz Hm | cs ips h t Hm Hnz | mb b c pointer t Hlo Hhi Hn Hu Hc He Ht
    | mb b c t Hb Hc | mb b c sz t Hb Hc | mb b c t Hin Hb Hc Hage | b c t Hc]; try exact Hok;
    intros cs' c1; simpl.
  1: { rewrite lookup_insert. case_decide; [by intros [= <-] | apply Hok]. }
  all: apply (Hset _ _ _ Hc); simpl; auto.
  - unfold freed_callstack. by destruct (expired b =? 0).
  - unfold freed_callstack. destruct (expired b =? 0); simpl; auto.
  - unfold on_count. by destruct (_ =? 0).
  - unfold on_count. by destruct (_ =? 0).
Qed.

Lemma lsum_one_range m cs ps : 0 <= lsum (one_at cs) m ps <= Z.of_nat (length ps).
Proof.
  induction ps as [| p ps IH]; cbn [lsum length]; [lia |].
  unfold one_at at 1 3. destruct (m !! p); [case_decide |]; lia.
Qed.

(** A call stack's difference is the number of its live expired blocks. *)
Lemma may_leak_live t cs c :
  tracker_inv heap_start t -> counters_ok t -> Z.of_nat (length (t_expire t)) < 2 ^ 31 ->
  t_cs t !! cs = Some c ->
  let live := lsum (one_at cs) (t_mb t) (t_expire t) in
  may_leak c = live /\ (expired_count c = free_expired_count c <-> live = 0).
Proof.
  intros [Hok Hfl Hac] Hcnt Hlen Hc. cbv zeta. destruct (Hac cs c Hc) as [_ _ He].
  pose proof (ok_wf _ _ Hok) as Hwf. rewrite (msum_lsum _ _ (t_active t ++ t_expire t)) in He.
  2: { rewrite (wf_perm _ Hwf). apply (wf_nodup _ Hwf). }
  2: { intros p. rewrite (wf_perm _ Hwf). apply (wf_mb _ Hwf). }
  rewrite lsum_expired in He by done.
  pose proof (lsum_one_range (t_mb t) cs (t_expire t)) as Hr.
  destruct (Hcnt cs c Hc) as [K1 K2]. unfold is_s32 in *.
  assert (may_leak c = lsum (one_at cs) (t_mb t) (t_expire t)) as E.
  { unfold may_leak. rewrite (s32_eqm _ _ He). apply s32_small. unfold is_s32. lia. }
  split; [exact E |]. rewrite <- E. unfold may_leak. split; [intros ->; by rewrite Z.sub_diag |].
  intros E0. pose proof (eqm32_s32 (expired_count c - free_expired_count c)) as Hm.
  rewrite E0 in Hm. unfold eqm32 in Hm. apply Z.mod_divide in Hm as [k Hk]; lia.
Qed.

(** No call stack is in the table twice. *)
Lemma order_NoDup w t : R w t -> NoDup (t_cs_order t).
Proof.
  intros [HC _]. pose proof (rc_table _ _ _ _ _ _ _ _ HC) as ((T & HT & ET) & _ & Hsl).
  apply (NoDup_fmap_1 cs_node). set (l := cs_node <$> t_cs_order t) in *.
  assert (forall i, is_slot i -> NoDup (table_of (cs_key_len (t_ips t)) (bytes (cs_hash (mb_cs w))) l i)) as Hnd.
  { intros i Hi. rewrite <- ET by done. destruct HT as (Hch & _).
    pose proof (Hch i Hi) as (Hnd & _). by apply NoDup_cons in Hnd as [_ ?]. }
  clearbody l. clear -Hnd Hsl. induction Hsl as [| n l [i Hi] Hsl IH]; [constructor |].
  assert (is_slot i) as Hs.
  { unfold slot_at in Hi. apply bind_Some in Hi as (key & _ & Hs). by apply hash_slot_range in Hs. }
  constructor.
  - intros Hin. specialize (Hnd i Hs). unfold table_of in Hnd. rewrite filter_cons_True in Hnd by done.
    apply NoDup_cons in Hnd as [Hn _]. by apply Hn, list_elem_of_filter.
  - apply IH. intros j Hj. specialize (Hnd j Hj). unfold table_of in *. rewrite filter_cons in Hnd.
    case_decide; [by apply NoDup_cons in Hnd as [_ ?] | done].
Qed.

(** The lines of a call stack: its statistics, with the number of blocks that
    may leak, and the backtrace of the instruction pointers in memory. *)
Definition callstack_lines (w : mb_world) (live : Z -> Z) (cs : Z) (lines : list msg) : Prop :=
  exists c (ips : list Z), cs_objs (mb_cs w) !! cs = Some c /\ may_leak c = live cs /\
    read_bytes (bytes (cs_hash (mb_cs w))) (cs + offset_ips) (8 * length ips) = Some (key_bytes ips) /\
    lines = statistics_msg c :: backtrace_msgs ips.

(** The report on the blocks of the list [expire]. *)
Record reported (w : mb_world) (before : list msg) (expire css : list Z) : Prop := {
  re_expire : dll (mb_lists w) g_memblock_expire expire;
  re_nodup : NoDup css;
  re_leaks : forall cs, cs ∈ css <->
    is_Some (cs_objs (mb_cs w) !! cs) /\ 0 < lsum (one_at cs) (mb_objs w) expire;
  re_sorted : StronglySorted (fun x y =>
    lsum (one_at x) (mb_objs w) expire <= lsum (one_at y) (mb_objs w) expire) css;
  re_out : exists lines,
    Forall2 (callstack_lines w (fun cs => lsum (one_at cs) (mb_objs w) expire)) css lines /\
    cs_out (mb_cs w) = before ++
      if decide (css = []) then [MsgNoExpired] else MsgStatisticsHeader :: concat lines
}.

Abbreviation run_events := (run_events unw_create_addr_space UPT_create space_head spaces
  g_callstack_hash g_memblock_hash g_memblock_active g_memblock_expire opt_backtrace_limit).
Abbreviation spec_events := (spec_events unw_create_addr_space UPT_create opt_backtrace_limit).
Abbreviation env_ok := (event_env_ok unw_create_addr_space UPT_create opt_backtrace_limit).

Definition reportable (t : tracker) : Prop := tracker_inv heap_start t /\ counters_ok t.

Lemma spec_events_reportable evs t rs t' :
  reportable t -> Forall (fun '(e, ev) => event_ok ev) evs -> spec_events evs t = Some (rs, t') ->
  reportable t'.
Proof.
  apply (spec_events_keep unw_create_addr_space UPT_create opt_backtrace_limit heap_start reportable).
  - intros t1 [[] _]. done.
  - intros tm ex t1 t2 Hstep [Hinv Hcnt]. split; [| by eapply tstep_counters].
    eapply rtc_inv; [by apply rtc_once | done].
Qed.

(** The order and the number of the report's call stacks are those of the live
    expired blocks. *)
Lemma reported_run w t css h :
  R w t -> reportable t -> Z.of_nat (length (t_expire t)) < 2 ^ 31 ->
  css ≡ₚ leaks (t_cs t) (t_cs_order t) ->
  ((forall cs, cs ∈ css -> 0 <= key_of t cs) ->
     StronglySorted (fun x y => key_of t x <= key_of t y) css) ->
  reported (printed (report_msgs t css) (with_heap h w)) (t_out t) (t_expire t) css.
Proof.
  intros HR [Hinv Hcnt] Hlen Hperm Hsort. pose proof HR as [HC HM].
  pose proof (rm_wf _ _ _ _ _ _ HM) as Hwf. pose proof (rm_lists _ _ _ _ _ _ HM) as (_ & HE & _).
  pose proof (rc_objs _ _ _ _ _ _ _ _ HC) as Eo.
  set (w' := printed _ _). assert (mb_objs w' = mb_objs w) as Em by done.
  assert (cs_objs (mb_cs w') = t_cs t) as Eo' by done.
  assert (forall cs, lsum (one_at cs) (mb_objs w') (t_expire t) =
    lsum (one_at cs) (t_mb t) (t_expire t)) as Elive.
  { intros cs. rewrite Em. apply lsum_ext. intros p Hp.
    assert (p ∈ t_order t) as Ho by (rewrite <- (wf_perm _ Hwf); set_solver).
    apply (wf_mb _ Hwf) in Ho as [b Hb]. rewrite Hb.
    by apply (lookup_weaken _ _ _ _ Hb (rm_objs _ _ _ _ _ _ HM)). }
  assert (forall cs c, t_cs t !! cs = Some c -> key_of t cs = may_leak c /\
    may_leak c = lsum (one_at cs) (mb_objs w') (t_expire t) /\
    (expired_count c = free_expired_count c <-> lsum (one_at cs) (mb_objs w') (t_expire t) = 0)) as Hkey.
  { intros cs c Hc. rewrite Elive. split; [unfold key_of; by rewrite Hc | by apply may_leak_live]. }
  assert (forall cs, cs ∈ css <-> is_Some (cs_objs (mb_cs w') !! cs) /\
    0 < lsum (one_at cs) (mb_objs w') (t_expire t)) as Hin.
  { intros cs. rewrite Hperm, Eo'. unfold leaks. rewrite list_elem_of_filter.
    rewrite (rc_order _ _ _ _ _ _ _ _ HC), (rc_dom _ _ _ _ _ _ _ _ HC). unfold leaking.
    pose proof (lsum_one_range (mb_objs w') cs (t_expire t)) as Hr.
    destruct (t_cs t !! cs) as [c |] eqn:Hc; [| split; [by intros [? _] | intros [[? ?] _]; done]].
    destruct (Hkey cs c Hc) as (_ & _ & H2). rewrite negb_true_iff, Z.eqb_neq.
    split; [intros [Hn _] | intros [_ Hn]]; (split; [done || by eexists || lia |]); lia || by eexists. }
  constructor; [done | | done | |].
  - rewrite Hperm. apply NoDup_filter. by eapply order_NoDup.
  - eapply StronglySorted_impl; [| apply Hsort].
    + intros x y [[cx Hcx] _]%Hin [[cy Hcy] _]%Hin. rewrite Eo' in *.
      destruct (Hkey x cx Hcx) as (-> & -> & _), (Hkey y cy Hcy) as (-> & -> & _). done.
    + intros cs [[c Hc] ?]%Hin. rewrite Eo' in Hc. destruct (Hkey cs c Hc) as (-> & -> & _). lia.
  - exists (callstack_msgs t <$> css). split.
    + apply Forall2_fmap_r, Forall_Forall2_diag, Forall_forall. intros cs [[c Hc] _]%Hin.
      rewrite Eo' in Hc. destruct (proj2 (rc_dom _ _ _ _ _ _ _ _ HC cs) ltac:(by eexists)) as [ips Hips].
      pose proof (rc_ok _ _ _ _ _ _ _ _ HC cs c ips Hc Hips) as Hobj.
      exists c, ips. unfold callstack_msgs. rewrite Eo', Hc, Hips.
      split_and!; [done | by apply Hkey | exact (co_key _ _ _ _ _ _ Hobj) | done].
    + unfold w', printed, report_msgs. simpl. rewrite (rc_out _ _ _ _ _ _ _ _ HC).
      by destruct (decide (css = [])).
Qed.

Lemma report_run w t e :
  R w t -> reportable t -> Z.of_nat (length (t_expire t)) < 2 ^ 31 ->
  let n := Z.of_nat (length (t_cs_order t)) in
  (sizeof_pointer + 15) * (1000 + 4 * n) <= heap_end (t_heap t) - brk (t_heap t) ->
  sizeof_pointer * Z.max 1000 (2 * n) < 2 ^ 31 ->
  exists w' expire css, callstack_report e w = Some (tt, w') /\
    reported w' (cs_out (mb_cs w)) expire css.
Proof.
  intros HR Hrep Hlen n Hroom Hint.
  destruct (count_refines _ _ _ _ _ _ _ _ _ Hstat w t e HR) as (w1 & t1 & Hrun & Hspec & HR1).
  pose proof (count_frame _ _ _ _ Hspec) as (Eh & _ & Eo & _ & Ee & Eout).
  assert (reportable t1) as Hrep1.
  { eapply (spec_events_reportable [(e, Count)] t [0]); [done | by repeat constructor |].
    cbn [spec_events spec_event]. by rewrite Hspec. }
  assert (length (leaks (t_cs t1) (t_cs_order t1)) <= length (t_cs_order t))%nat as Hll
    by (rewrite <- Eo; apply length_filter).
  destruct (report_array_run w1 t1 _ HR1 eq_refl) as (css & arr & h & Hperm & Hsort & Harr & _).
  { rewrite Eh. unfold sizeof_pointer in *. lia. }
  { unfold sizeof_pointer in *. lia. }
  exists (printed (report_msgs t1 css) (with_heap h w1)), (t_expire t1), css. split.
  - unfold callstack_report. erewrite cmd_bind_Some by exact Hrun.
    by erewrite cmd_bind_Some by exact Harr.
  - rewrite (rc_out _ _ _ _ _ _ _ _ (proj1 HR)), <- Eout.
    by apply reported_run; rewrite ?Ee.
Qed.

(** C11: whatever the program does with its memory, the report at the end has
    exactly the call stacks at which blocks were allocated that have expired
    and are live, each once and in ascending order of the number of these
    blocks, which is the number it prints; with their statistics and
    backtraces; and it says so when there are none. *)
Theorem report_lists_leaks bt lists h evs rs t' e :
  start_ok space_head spaces g_memblock_active g_memblock_expire heap_start bt lists h ->
  Forall (fun '(e, ev) => env_ok e ev /\ event_ok ev) evs ->
  spec_events evs (empty_tracker h) = Some (rs, t') ->
  Z.of_nat (length (t_expire t')) < 2 ^ 31 ->
  let n := Z.of_nat (length (t_cs_order t')) in
  (sizeof_pointer + 15) * (1000 + 4 * n) <= heap_end (t_heap t') - brk (t_heap t') ->
  sizeof_pointer * Z.max 1000 (2 * n) < 2 ^ 31 ->
  exists w w' expire css,
    run_events evs (initial_world g_callstack_hash g_memblock_hash bt lists h) = Some (rs, w) /\
    callstack_report e w = Some (tt, w') /\ reported w' (cs_out (mb_cs w)) expire css.
Proof.
  intros Hstart Hevs Hspec Hlen n Hroom Hint.
  destruct (run_from_start _ _ _ _ _ _ _ _ _ _ _ _ _ _ _ _ Hstat Hstart Hevs Hspec)
    as (w & Hrun & HR).
  assert (reportable t') as Hrep.
  { eapply spec_events_reportable; [| | exact Hspec].
    - split; [by apply empty_inv; apply Hstart |]. intros cs c. simpl. by rewrite lookup_empty.
    - eapply Forall_impl; [exact Hevs |]. by intros [? ?] [_ ?]. }
  destruct (report_run w t' e HR Hrep Hlen Hroom Hint) as (w' & expire & css & Hr & Hok).
  by exists w, w', expire, css.
Qed.

End report.

Import Example.

Lemma report_lists_leaks_witness :
  exists w w' expire css,
    run_events tt (fun t => t) 64 128 1048576 2097152 600 632 3 Example.events Example.world =
      Some ([0; 0; 0; 0; 0; 0], w) /\
    callstack_report 1048576 600 632 (Example.env_at 1019 400) w = Some (tt, w') /\
    reported 632 w' (cs_out (mb_cs w)) expire css.
Proof.
  apply (report_lists_leaks tt (fun t => t) 64 128 1048576 2097152 600 632 3 16777216
    Example.statics example_bt_state Example.static_lists (mk_heap 16777216 33554432)
    Example.events [0; 0; 0; 0; 0; 0] Example.tracker_after (Example.env_at 1019 400)).
  - exact Example.start.
  - exact Example.events_ok.
  - vm_compute. reflexivity.
  - vm_compute. reflexivity.
  - vm_compute. discriminate.
  - vm_compute. reflexivity.
Defined.
