(* ===== verification/Machines.v ===== *)
(** * [machines.h] and the memory accesses of [ptrace_utils.h]

    What depends on the processor of the target: the calling convention, the
    program counter after a trap, and the trap instruction.  [Machine] is the
    interface that the main loop uses; the four processors of [machines.h] on
    Linux are its instances, and x86-64 on FreeBSD is another one.

    The memory of the target is its mapped bytes; [PTRACE_PEEKTEXT] and
    [PTRACE_POKETEXT] access a word of the size of a [long]; a peek that fails
    returns -1, a poke that fails does nothing. *)

From S2P Require Import Prelude HashH.

Abbreviation target_mem := (gmap Z Z).

(** The little-endian word of some bytes, and its bytes. *)
Fixpoint word_of (bs : list Z) : Z :=
  match bs with
  | [] => 0
  | b :: bs => b + 2 ^ 8 * word_of bs
  end.

Fixpoint bytes_of (n : nat) (w : Z) : list Z :=
  match n with
  | O => []
  | S n => w mod 2 ^ 8 :: bytes_of n (w / 2 ^ 8)
  end.

Definition peek_word (size : nat) (m : target_mem) (a : Z) : Z :=
  match read_bytes m a size with
  | Some bs => word_of bs
  | None => 2 ^ (8 * Z.of_nat size) - 1
  end.

Definition poke_word (size : nat) (m : target_mem) (a w : Z) : target_mem :=
  match read_bytes m a size with
  | Some _ => write_bytes m a (bytes_of size w)
  | None => m
  end.

(** [MLX_LINUX] or [MLX_FREEBSD]. *)
Inductive system := LinuxOS | FreeBSDOS.

Class Machine := {
  os : system;
  word_size : nat;                                   (* sizeof(long) *)
  registers_info_t : Type;
  (** The first argument is [ptrace_get_data] of the thread. *)
  call_return_address : (Z -> Z) -> registers_info_t -> Z;
  call_return_value : registers_info_t -> Z;
  call_arg1 : (Z -> Z) -> registers_info_t -> Z;
  call_arg2 : (Z -> Z) -> registers_info_t -> Z;
  (** The new registers, when they are set, and the program counter. *)
  pc_unwind : registers_info_t -> option registers_info_t * Z;
  (** What [set_breakpoint] writes over the word [code]. *)
  trap_word : Z -> Z;
  is_trap_word : Z -> bool;
  word_size_pos : (0 < word_size)%nat;
  trap_is_trap : forall code, is_trap_word (trap_word code) = true;
  trap_range : forall code, 0 <= trap_word code < 2 ^ (8 * Z.of_nat word_size)
}.

Section ptrace.
Context `{Machine}.

Definition ptrace_get_data (m : target_mem) (a : Z) : Z := peek_word word_size m a.

Definition ptrace_set_data (a data : Z) : cmd target_mem unit :=
  modify (fun m => poke_word word_size m a data).

Definition set_breakpoint (a code : Z) : cmd target_mem unit := ptrace_set_data a (trap_word code).

Definition is_breakpoint (m : target_mem) (a : Z) : bool := is_trap_word (ptrace_get_data m a).

End ptrace.

(** ** The processors *)

(** The registers that are used; [other] is the rest of the structure. *)
Record x86_regs := mk_x86 { esp : Z; eax : Z; eip : Z }.
Record x86_64_regs := mk_x86_64 { rsp : Z; rax : Z; rdi : Z; rsi : Z; rip : Z }.
Record arm_regs := mk_arm { uregs : Z -> Z }.
Record aarch64_regs := mk_aarch64 { regs : Z -> Z; sp : Z; pc : Z }.

(** [(code & mask) | 0xCC]; the mask clears the low byte of a word. *)
Definition int3_word (mask code : Z) : Z := Z.lor (Z.land code mask) 204.

Lemma int3_low mask code : Z.land mask 255 = 0 -> Z.land (int3_word mask code) 255 = 204.
Proof.
  intros Hm. unfold int3_word. by rewrite Z.land_lor_distr_l, <- Z.land_assoc, Hm, Z.land_0_r.
Qed.

Lemma lor_range a b n : 0 <= n -> 0 <= a < 2 ^ n -> 0 <= b < 2 ^ n -> 0 <= Z.lor a b < 2 ^ n.
Proof.
  intros Hn [Ha Ha'] [Hb Hb']. split; [by apply Z.lor_nonneg |].
  destruct (decide (Z.lor a b = 0)) as [-> |]; [lia |].
  assert (0 < Z.lor a b) by (pose proof (proj2 (Z.lor_nonneg a b) (conj Ha Hb)); lia).
  apply Z.log2_lt_pow2; [done |]. rewrite Z.log2_lor by done.
  assert (forall x, 0 <= x -> x < 2 ^ n -> x = 0 \/ Z.log2 x < n) as Hlog.
  { intros x Hx Hx'. destruct (decide (x = 0)); [by left | right]. apply Z.log2_lt_pow2; lia. }
  assert (n <> 0) by (intros ->; simpl in *; assert (a = 0 /\ b = 0) as [-> ->] by lia; done).
  destruct (Hlog a Ha Ha') as [-> |], (Hlog b Hb Hb') as [-> |]; simpl; lia.
Qed.

Lemma int3_range mask code n :
  0 <= n -> Z.land mask (Z.ones n) = mask -> 204 < 2 ^ n -> 0 <= int3_word mask code < 2 ^ n.
Proof.
  intros Hn Hm Hc. apply lor_range; [done | | lia].
  rewrite <- Hm, Z.land_assoc, Z.land_ones by done. apply Z.mod_pos_bound. lia.
Qed.

#[export, refine] Instance x86 : Machine := {
  os := LinuxOS;
  word_size := 4;
  registers_info_t := x86_regs;
  call_return_address get r := get (esp r);
  call_return_value r := eax r;
  call_arg1 get r := get (u32 (esp r + 4));
  call_arg2 get r := get (u32 (esp r + 8));
  pc_unwind r :=
    let r := mk_x86 (esp r) (eax r) (u32 (eip r - 1)) in (Some r, eip r);
  trap_word code := int3_word 4294967040 code;
  is_trap_word w := Z.land w 255 =? 204
}.
Proof.
  - lia.
  - intros code. by rewrite int3_low.
  - intros code. by apply int3_range.
Defined.

#[export, refine] Instance x86_64 : Machine := {
  os := LinuxOS;
  word_size := 8;
  registers_info_t := x86_64_regs;
  call_return_address get r := get (rsp r);
  call_return_value r := rax r;
  call_arg1 get r := rdi r;
  call_arg2 get r := rsi r;
  pc_unwind r :=
    let r := mk_x86_64 (rsp r) (rax r) (rdi r) (rsi r) (u64 (rip r - 1)) in (Some r, rip r);
  trap_word code := int3_word 18446744073709551360 code;
  is_trap_word w := Z.land w 255 =? 204
}.
Proof.
  - lia.
  - intros code. by rewrite int3_low.
  - intros code. by apply int3_range.
Defined.

(** On FreeBSD [ptrace] accesses an [int].  The saved code is kept here without
    its sign, which the next access drops; the return address has it. *)
#[export, refine] Instance x86_64_freebsd : Machine := {
  os := FreeBSDOS;
  word_size := 4;
  registers_info_t := x86_64_regs;
  call_return_address get r := u64 (s32 (get (rsp r)));
  call_return_value r := rax r;
  call_arg1 get r := rdi r;
  call_arg2 get r := rsi r;
  pc_unwind r :=
    let r := mk_x86_64 (rsp r) (rax r) (rdi r) (rsi r) (u64 (rip r - 1)) in (Some r, rip r);
  trap_word code := int3_word 4294967040 code;
  is_trap_word w := Z.land w 255 =? 204
}.
Proof.
  - lia.
  - intros code. by rewrite int3_low.
  - intros code. by apply int3_range.
Defined.

#[export, refine] Instance ARMv7 : Machine := {
  os := LinuxOS;
  word_size := 4;
  registers_info_t := arm_regs;
  call_return_address get r := uregs r 14;
  call_return_value r := uregs r 0;
  call_arg1 get r := uregs r 0;
  call_arg2 get r := uregs r 1;
  pc_unwind r := (None, uregs r 15);
  trap_word code := 3891265008;
  is_trap_word w := w =? 3891265008
}.
Proof. all: simpl; lia. Defined.

#[export, refine] Instance AARCH64 : Machine := {
  os := LinuxOS;
  word_size := 8;
  registers_info_t := aarch64_regs;
  call_return_address get r := regs r 30;
  call_return_value r := regs r 0;
  call_arg1 get r := regs r 0;
  call_arg2 get r := regs r 1;
  pc_unwind r := (None, pc r);
  trap_word code := 3558866944;
  is_trap_word w := w =? 3558866944
}.
Proof. all: simpl; lia. Defined.

(** ** Peeks and pokes *)

Definition mapped (size : nat) (m : target_mem) (a : Z) : Prop := is_Some (read_bytes m a size).

Lemma length_bytes_of n w : length (bytes_of n w) = n.
Proof. revert w. induction n as [| n IH]; intros w; simpl; [done |]. by rewrite IH. Qed.

Lemma bytes_of_app n k w :
  bytes_of (n + k) w = bytes_of n w ++ bytes_of k (w / 2 ^ (8 * Z.of_nat n)).
Proof.
  revert w. induction n as [| n IH]; intros w; cbn [Nat.add bytes_of app].
  - by rewrite Z.div_1_r.
  - rewrite IH, Z.div_div by (done || (apply Z.pow_pos_nonneg; lia)).
    rewrite <- Z.pow_add_r by lia. do 5 f_equal. lia.
Qed.

Lemma word_of_bytes_of n w : word_of (bytes_of n w) = w mod 2 ^ (8 * Z.of_nat n).
Proof.
  revert w. induction n as [| n IH]; intros w; cbn [bytes_of word_of].
  - by rewrite Z.mod_1_r.
  - rewrite IH. replace (8 * Z.of_nat (S n)) with (8 + 8 * Z.of_nat n) by lia.
    rewrite Z.pow_add_r, Z.rem_mul_r by lia. lia.
Qed.

Lemma peek_poke m size a w :
  mapped size m a -> 0 <= w < 2 ^ (8 * Z.of_nat size) ->
  peek_word size (poke_word size m a w) a = w.
Proof.
  intros [bs Hbs] Hw. unfold peek_word, poke_word. rewrite Hbs.
  pose proof (read_write_bytes m a (bytes_of size w)) as E. rewrite length_bytes_of in E.
  rewrite E, word_of_bytes_of. by apply Z.mod_small.
Qed.

(** Words that do not overlap. *)
Definition apart (size : nat) (a b : Z) : Prop :=
  a + Z.of_nat size <= b \/ b + Z.of_nat size <= a.

Lemma peek_poke_apart m size a b w :
  apart size a b -> peek_word size (poke_word size m a w) b = peek_word size m b.
Proof.
  intros Hab. unfold peek_word, poke_word. destruct (read_bytes m a size); [| done].
  rewrite read_write_bytes_ne; [done |]. rewrite length_bytes_of. destruct Hab; lia.
Qed.

Lemma read_bytes_mapped m a n :
  is_Some (read_bytes m a n) <-> (forall i, a <= i < a + Z.of_nat n -> is_Some (m !! i)).
Proof.
  revert a. induction n as [| n IH]; intros a; cbn [read_bytes].
  - split; [lia | by eexists].
  - split.
    + intros [bs Hbs] i Hi. apply bind_Some in Hbs as (b & Hb & Hbs).
      apply bind_Some in Hbs as (bs' & Hbs' & _).
      destruct (decide (i = a)) as [-> |]; [by eexists |].
      apply (proj1 (IH (a + 1))); [by eexists | lia].
    + intros Hi. destruct (Hi a ltac:(lia)) as [b Hb]. rewrite Hb. simpl.
      destruct (proj2 (IH (a + 1))) as [bs Hbs]; [intros i ?; apply Hi; lia |].
      rewrite Hbs. by eexists.
Qed.

Lemma write_bytes_mapped m a bs i : is_Some (m !! i) -> is_Some (write_bytes m a bs !! i).
Proof.
  revert a. induction bs as [| b bs IH]; intros a Hi; cbn [write_bytes]; [done |].
  rewrite lookup_insert. case_decide; [by eexists | by apply IH].
Qed.

Lemma mapped_poke m size a b w : mapped size m b -> mapped size (poke_word size m a w) b.
Proof.
  unfold mapped, poke_word. rewrite !read_bytes_mapped. intros Hm i Hi.
  destruct (read_bytes m a size); [apply write_bytes_mapped |]; by apply Hm.
Qed.

(** A poke of what was there changes nothing of what is peeked. *)
Lemma poke_bytes_outside m size a w i :
  i < a \/ a + Z.of_nat size <= i -> poke_word size m a w !! i = m !! i.
Proof.
  intros Hi. unfold poke_word. destruct (read_bytes m a size); [| done].
  apply write_bytes_ne. rewrite length_bytes_of. lia.
Qed.

Lemma word_of_cons b bs : 0 <= b < 2 ^ 8 -> word_of (b :: bs) / 2 ^ 8 = word_of bs.
Proof.
  intros Hb. cbn [word_of]. rewrite Z.mul_comm, Z.div_add by lia. rewrite Z.div_small by lia. lia.
Qed.

Lemma bytes_of_word_of bs :
  Forall (fun b => 0 <= b < 2 ^ 8) bs -> bytes_of (length bs) (word_of bs) = bs.
Proof.
  induction 1 as [| b bs Hb _ IH]; [done |]. cbn [length bytes_of].
  rewrite word_of_cons, IH by done. f_equal. cbn [word_of].
  rewrite Z.mul_comm, Z.mod_add, Z.mod_small by lia. done.
Qed.

Lemma write_bytes_same m a bs : read_bytes m a (length bs) = Some bs -> write_bytes m a bs = m.
Proof.
  revert a. induction bs as [| b bs IH]; intros a; cbn [length read_bytes write_bytes]; [done |].
  intros (b' & Hb & Hbs)%bind_Some. apply bind_Some in Hbs as (bs' & Hbs & [= -> ->]).
  rewrite IH by done. by apply insert_id.
Qed.

Lemma length_read_bytes m a n bs : read_bytes m a n = Some bs -> length bs = n.
Proof.
  revert a bs. induction n as [| n IH]; intros a bs; cbn [read_bytes]; [by intros [= <-] |].
  intros (b & _ & Hbs)%bind_Some. apply bind_Some in Hbs as (bs' & Hbs & [= <-]).
  simpl. f_equal. by eapply IH.
Qed.

(** The mask of [n + 1] bytes that clears the lowest. *)
Definition int3_mask (n : nat) : Z := Z.shiftl (Z.ones (8 * Z.of_nat n)) 8.

(** The trap instruction of the x86 family replaces the low byte of the word. *)
Lemma int3_word_bytes w n :
  bytes_of (S n) (int3_word (int3_mask n) w) =
  204 :: bytes_of n (Z.land (w / 2 ^ 8) (Z.ones (8 * Z.of_nat n))).
Proof.
  cbn [bytes_of]. f_equal.
  - rewrite <- Z.land_ones by lia. apply int3_low. unfold int3_mask. change 255 with (Z.ones 8).
    by rewrite Z.land_ones, Z.shiftl_mul_pow2, Z.mod_mul by lia.
  - f_equal. unfold int3_word, int3_mask. rewrite <- !Z.shiftr_div_pow2 by lia.
    rewrite Z.shiftr_lor, Z.shiftr_land, Z.shiftr_shiftl_l by lia. by rewrite Z.lor_0_r.
Qed.

Lemma word_of_range bs :
  Forall (fun b => 0 <= b < 2 ^ 8) bs -> 0 <= word_of bs < 2 ^ (8 * Z.of_nat (length bs)).
Proof.
  intros Hbs. rewrite <- (bytes_of_word_of bs) at 1 2 by done. rewrite word_of_bytes_of.
  apply Z.mod_pos_bound. lia.
Qed.

(** A machine with this trap instruction. *)
Definition int3_machine (M : Machine) : Prop :=
  exists n, @word_size M = S n /\ forall code, @trap_word M code = int3_word (int3_mask n) code.

Lemma int3_machines M : M ∈ [x86; x86_64; x86_64_freebsd] -> int3_machine M.
Proof.
  intros HM. repeat (apply elem_of_cons in HM as [-> | HM]; [by eexists |]).
  destruct (not_elem_of_nil _ HM).
Qed.

Lemma int3_machine_breakpoint (M : Machine) m a bs :
  int3_machine M -> read_bytes m a (@word_size M) = Some bs -> Forall (fun b => 0 <= b < 2 ^ 8) bs ->
  exists m', @set_breakpoint M a (@ptrace_get_data M m a) m = Some (tt, m') /\
    m' !! a = Some 204 /\ forall i, i <> a -> m' !! i = m !! i.
Proof.
  intros (n & En & Htrap) Hbs Hbytes. pose proof (length_read_bytes _ _ _ _ Hbs) as Hlen. rewrite En in Hbs, Hlen.
  destruct bs as [| b bs]; [done |]. apply Forall_cons in Hbytes as [Hb Hbytes].
  injection Hlen as Hlen. eexists. split; [done |].
  unfold poke_word, ptrace_get_data, peek_word. rewrite En, Hbs, Htrap.
  rewrite int3_word_bytes, word_of_cons, Z.land_ones, Z.mod_small by
    (done || lia || (pose proof (word_of_range bs Hbytes) as Hr; rewrite Hlen in Hr; exact Hr)).
  rewrite <- Hlen, bytes_of_word_of by done. cbn [write_bytes].
  rewrite write_bytes_same.
  - rewrite lookup_insert_eq. split; [done |]. intros i Hi. by apply lookup_insert_ne.
  - cbn [read_bytes] in Hbs. apply bind_Some in Hbs as (b' & _ & Hbs).
    apply bind_Some in Hbs as (bs' & Hbs & [= -> ->]). by rewrite Hlen.
Qed.

(** On x86-64. *)
Corollary x86_64_set_breakpoint_one_byte m a bs :
  read_bytes m a 8 = Some bs -> Forall (fun b => 0 <= b < 2 ^ 8) bs ->
  exists m', set_breakpoint (H := x86_64) a (ptrace_get_data (H := x86_64) m a) m = Some (tt, m') /\
    m' !! a = Some 204 /\ forall i, i <> a -> m' !! i = m !! i.
Proof. apply (int3_machine_breakpoint x86_64). by eexists. Qed.

(** On the x86 family the breakpoint is one byte: [set_breakpoint], given the
    code that is there, writes 0xCC at the address and leaves the other bytes of
    the word, and all other memory, as they are.  This holds for the 4-byte words
    of x86 and of FreeBSD, and the 8-byte words of x86-64. *)
Lemma int3_set_breakpoint_one_byte (M : Machine) m a bs :
  M ∈ [x86; x86_64; x86_64_freebsd] ->
  read_bytes m a (@word_size M) = Some bs -> Forall (fun b => 0 <= b < 2 ^ 8) bs ->
  exists m', @set_breakpoint M a (@ptrace_get_data M m a) m = Some (tt, m') /\
    m' !! a = Some 204 /\ forall i, i <> a -> m' !! i = m !! i.
Proof. intros HM. apply int3_machine_breakpoint. by apply int3_machines. Qed.

(** [push %rbp; mov %rsp, %rbp; sub $16, %rsp] *)
Definition example_code : target_mem := write_bytes ∅ 4096 [85; 72; 137; 229; 72; 131; 236; 16].

(** C36: on FreeBSD the return address of a call is read as an [int]: the monitor
    has the address that the call returns to if, and only if, it is in the
    lowest 2 GB (or the highest) of the address space.  For a call from a
    library, which is above, it has another one. *)
Theorem freebsd_return_address_truncated m sp ra r :
  read_bytes m sp 8 = Some (bytes_of 8 ra) -> is_u64 ra -> rsp r = sp ->
  call_return_address (Machine := x86_64_freebsd) (ptrace_get_data (H := x86_64_freebsd) m) r = u64 (s32 ra) /\
  (u64 (s32 ra) = ra <-> ra < 2 ^ 31 \/ 2 ^ 64 - 2 ^ 31 <= ra).
Proof.
  intros Hread Hra Hsp. split.
  - cbn [call_return_address x86_64_freebsd]. rewrite Hsp. f_equal.
    unfold ptrace_get_data, peek_word. cbn [word_size x86_64_freebsd].
    destruct (read_bytes_app m sp (bytes_of 4 ra) (bytes_of 4 (ra / 2 ^ (8 * Z.of_nat 4)))) as [Hlow _].
    { rewrite <- bytes_of_app, length_bytes_of. exact Hread. }
    rewrite length_bytes_of in Hlow. rewrite Hlow, word_of_bytes_of.
    unfold s32. f_equal. change (8 * Z.of_nat 4) with 32. by rewrite Zplus_mod_idemp_l.
  - unfold u64, s32, is_u64 in *.
    pose proof (Z.mod_pos_bound (ra + 2 ^ 31) (2 ^ 32) ltac:(lia)).
    pose proof (Z.div_mod (ra + 2 ^ 31) (2 ^ 32) ltac:(lia)).
    set (q := (ra + 2 ^ 31) / 2 ^ 32) in *. set (x := (ra + 2 ^ 31) mod 2 ^ 32) in *.
    destruct (Z.ltb_spec x (2 ^ 31)) as [Hx | Hx].
    + rewrite <- (Z.mod_add _ 1), Z.mod_small by lia. lia.
    + rewrite Z.mod_small by lia. lia.
Qed.

(** A return address in a library. *)
Definition example_stack : target_mem := write_bytes ∅ 16384 (bytes_of 8 34365000000).
Definition example_call_regs : x86_64_regs := mk_x86_64 16384 0 0 0 0.

Lemma freebsd_return_address_truncated_witness :
  call_return_address (Machine := x86_64_freebsd) (ptrace_get_data (H := x86_64_freebsd) example_stack)
    example_call_regs = 5261632.
Proof.
  destruct (freebsd_return_address_truncated example_stack 16384 34365000000 example_call_regs) as [E _].
  - vm_compute. reflexivity.
  - unfold is_u64. lia.
  - reflexivity.
  - exact E.
Defined.

(** On AArch64 the word that is written is that of a [long], twice the size
    of an instruction: [set_breakpoint] also overwrites the instruction behind
    the breakpoint, with zeros. *)
Lemma aarch64_set_breakpoint_next_instruction m a code :
  mapped 8 m a ->
  exists m', set_breakpoint (H := AARCH64) a code m = Some (tt, m') /\
    read_bytes m' a 4 = Some [0; 0; 32; 212] /\ read_bytes m' (a + 4) 4 = Some [0; 0; 0; 0].
Proof.
  intros [bs Hbs]. eexists. split; [done |]. unfold poke_word. cbn [word_size AARCH64 trap_word].
  rewrite Hbs. change (bytes_of 8 3558866944) with ([0; 0; 32; 212] ++ [0; 0; 0; 0]).
  apply (read_bytes_app _ _ [0; 0; 32; 212] [0; 0; 0; 0]). apply read_write_bytes.
Qed.

(** C37: what [set_breakpoint] writes, given the code that is there.  On the x86
    family, on Linux and FreeBSD, with words of 4 or 8 bytes, exactly the byte at
    the address, which is the trap instruction; on AArch64 also the instruction
    behind the breakpoint, which becomes zeros. *)
Theorem set_breakpoint_bytes (M : Machine) m a bs :
  read_bytes m a (@word_size M) = Some bs -> Forall (fun b => 0 <= b < 2 ^ 8) bs ->
  exists m', @set_breakpoint M a (@ptrace_get_data M m a) m = Some (tt, m') /\
    (M ∈ [x86; x86_64; x86_64_freebsd] -> m' !! a = Some 204 /\ forall i, i <> a -> m' !! i = m !! i) /\
    (M = AARCH64 -> read_bytes m' a 4 = Some [0; 0; 32; 212] /\ read_bytes m' (a + 4) 4 = Some [0; 0; 0; 0]).
Proof.
  intros Hread Hbs. eexists. split; [done |]. split.
  - intros HM. destruct (int3_set_breakpoint_one_byte M m a bs HM Hread Hbs) as (m' & [= <-] & Hm). exact Hm.
  - intros ->. destruct (aarch64_set_breakpoint_next_instruction m a (@ptrace_get_data AARCH64 m a))
      as (m' & [= <-] & Hm); [by eexists | exact Hm].
Qed.

Lemma set_breakpoint_bytes_witness :
  (exists m', set_breakpoint (H := x86_64) 4096 (ptrace_get_data (H := x86_64) example_code 4096)
      example_code = Some (tt, m') /\
    m' !! 4096 = Some 204 /\ forall i, i <> 4096 -> m' !! i = example_code !! i) /\
  exists m', set_breakpoint (H := AARCH64) 4096 (ptrace_get_data (H := AARCH64) example_code 4096)
      example_code = Some (tt, m') /\
    read_bytes m' 4096 4 = Some [0; 0; 32; 212] /\ read_bytes m' (4096 + 4) 4 = Some [0; 0; 0; 0].
Proof.
  assert (Forall (fun b => 0 <= b < 2 ^ 8) [85; 72; 137; 229; 72; 131; 236; 16]) as Hbs by (repeat constructor; lia).
  split.
  - destruct (set_breakpoint_bytes x86_64 example_code 4096 [85; 72; 137; 229; 72; 131; 236; 16])
      as (m' & Hrun & Hx86 & _); [vm_compute; reflexivity | exact Hbs |].
    exists m'. split; [exact Hrun | apply Hx86; right; left].
  - destruct (set_breakpoint_bytes AARCH64 example_code 4096 [85; 72; 137; 229; 72; 131; 236; 16])
      as (m' & Hrun & _ & Harm); [vm_compute; reflexivity | exact Hbs |].
    exists m'. split; [exact Hrun | exact (Harm eq_refl)].
Defined.
