(* ===== verification/PtrMaps.v ===== *)
(** * The unwinder's memory in [ptr_backtrace.c]

    [ptr_maps_build] reads the executable files into memory, a section for each
    mapping, in a list of [list.h]; libunwind reads the target's memory by
    [_ptr_access_mem], which takes a word from such a section, or else from the
    target by ptrace.

    [ptr_access_mem_correct] is about both together.  A section is the beginning
    of the file, whatever the offset of the mapping in it, an address is rounded
    down to a word from the section's start, and the address behind a section
    counts as its own. *)

From S2P Require Import Prelude ListH HlistH HashH Heap CString ProcMaps ProcInfo Machines.

Record map_section_s := mk_section_s { ms_start : Z; ms_end : Z; ms_data : list Z }.

Definition sizeof_map_section : Z := 32.

Inductive pm_msg := MsgOpenMap (path : cstr) | MsgReadMap (path : cstr).

(** What [_ptr_access_mem] returns, with [*val]. *)
Inductive access := AccessOk (val : Z) | AccessError (val : Z).

Record pm_world := mk_pm_world {
  pm_heap : heap;
  pm_lists : lmem;
  pm_objs : gmap Z map_section_s;
  pm_out : list pm_msg
}.

#[export, refine] Instance pm_heap_lens : Lens pm_world heap := {
  view := pm_heap;
  update h w := mk_pm_world h (pm_lists w) (pm_objs w) (pm_out w)
}.
Proof. all: by try intros []. Defined.

#[export, refine] Instance pm_lists_lens : Lens pm_world lmem := {
  view := pm_lists;
  update l w := mk_pm_world (pm_heap w) l (pm_objs w) (pm_out w)
}.
Proof. all: by try intros []. Defined.

Definition print_pm (m : pm_msg) : cmd pm_world unit := modify (fun w =>
  mk_pm_world (pm_heap w) (pm_lists w) (pm_objs w) (pm_out w ++ [m])).

(** The allocated structure, with its first values. *)
Definition new_section (ms : Z) (s : map_section_s) : cmd pm_world unit := modify (fun w =>
  mk_pm_world (pm_heap w)
    (mk_lmem (<[ms := NULL]> (nxt (pm_lists w))) (<[ms := NULL]> (prv (pm_lists w))))
    (<[ms := s]> (pm_objs w)) (pm_out w)).

Definition get_section (ms : Z) : cmd pm_world map_section_s := gets_opt (fun w => pm_objs w !! ms).

Section maps.
Context `{!Machine}.
(** The files: [None] when [open] fails, [Some None] when [read] does. *)
Context (read_file : cstr -> option (option (list Z))).
(** The address of the static variable. *)
Context (g_map_sections : Z).

(** A [read] into a buffer at address 0 fails, unless there is nothing to read. *)
Definition ptr_maps_build_file (e : map_entry) : cmd pm_world unit :=
  let len := u64 (end_ e - start e) in
  ms ← zoom (malloc (u64 (sizeof_map_section + len)));
  match read_file (path e) with
  | None => print_pm (MsgOpenMap (path e))
  | Some None => print_pm (MsgReadMap (path e))
  | Some (Some content) =>
      let data := take (Z.to_nat len) content in
      if ms =? NULL then
        if decide (data = []) then undefined else print_pm (MsgReadMap (path e))
      else
        new_section ms (mk_section_s (start e) (u64 (start e + Z.of_nat (length data))) data);;
        zoom (list_add_tail ms g_map_sections)
  end.

Definition ptr_maps_body (e : map_entry) : cmd pm_world (result unit) :=
  ptr_maps_build_file e;; mret (Ret tt).

Definition ptr_maps_build {maps : ProcMaps} : cmd (maps_st * pm_world) (result unit) :=
  while_maps ptr_maps_body.

(** A word of the array; behind what was read it is undefined. *)
Definition data_word (data : list Z) (i : Z) : option Z :=
  let bs := take word_size (drop (word_size * Z.to_nat i) data) in
  if decide (length bs = word_size) then Some (word_of bs) else None.

Definition access_body (addr p : Z) : cmd pm_world (option Z) :=
  ms ← get_section (list_entry p 0);
  if (ms_start ms <=? addr) && (addr <=? ms_end ms) then
    w ← gets_opt (fun _ => data_word (ms_data ms) (u64 (addr - ms_start ms) / Z.of_nat word_size));
    mret (Some w)
  else mret None.

(** [m] is the memory of the current thread. *)
Definition _ptr_access_mem (m : target_mem) (addr : Z) : cmd pm_world access :=
  fuel ← gets (fun w => list_fuel (pm_lists w));
  r ← list_for_each fuel (access_body addr) g_map_sections;
  mret (match r with
        | Some val => AccessOk val
        | None =>
            let val := ptrace_get_data m addr in
            if val =? 2 ^ (8 * Z.of_nat word_size) - 1 then AccessError val else AccessOk val
        end).

(** The registers of the current thread, on AArch64; [inr] is [-UNW_EBADREG]. *)
Definition _ptr_access_reg (r : aarch64_regs) (reg : Z) : option (Z + unit) :=
  if reg <? 31 then if 0 <=? reg then Some (inl (regs r reg)) else None
  else if reg =? 31 then Some (inl (sp r))
  else if reg =? 32 then Some (inl (pc r))
  else Some (inr ()).

(** ** The sections *)

Context (heap_start : Z) (Hg : g_map_sections < heap_start) (Hpos : 0 < heap_start).

Record sections_rep (w : pm_world) (nodes : list Z) (secs : list map_section_s) : Prop := {
  sr_list : dll (pm_lists w) g_map_sections nodes;
  sr_objs : Forall2 (fun n s => pm_objs w !! n = Some s /\ heap_start <= n < brk (pm_heap w))
              nodes secs;
  sr_heap : heap_ok (pm_heap w) /\ heap_start <= brk (pm_heap w)
}.

(** What an entry adds. *)
Definition entry_section (e : map_entry) : option map_section_s :=
  match read_file (path e) with
  | Some (Some content) =>
      let data := take (Z.to_nat (end_ e - start e)) content in
      Some (mk_section_s (start e) (start e + Z.of_nat (length data)) data)
  | _ => None
  end.

Definition entry_fits (e : map_entry) : Prop := 0 <= start e <= end_ e /\ end_ e < 2 ^ 63.

Lemma sections_low w nodes secs n :
  sections_rep w nodes secs -> n ∈ nodes -> heap_start <= n < brk (pm_heap w).
Proof.
  intros [_ Ho _] Hn. induction Ho as [| n' s nodes secs [_ Hb] _ IH]; [by apply elem_of_nil in Hn |].
  apply elem_of_cons in Hn as [-> | Hn]; [done | by apply IH].
Qed.

Lemma build_file_run w nodes secs e :
  sections_rep w nodes secs -> entry_fits e ->
  sizeof_map_section + (end_ e - start e) + 15 <= heap_end (pm_heap w) - brk (pm_heap w) ->
  exists w' nodes', ptr_maps_build_file e w = Some (tt, w') /\
    sections_rep w' nodes' (secs ++ option_list (entry_section e)) /\
    heap_end (pm_heap w') = heap_end (pm_heap w) /\
    brk (pm_heap w) <= brk (pm_heap w') <= brk (pm_heap w) + (sizeof_map_section + (end_ e - start e) + 15).
Proof.
  intros Hrep [He1 He2] Hroom. pose proof Hrep as [Hl Ho [Hh Hlo]].
  unfold sizeof_map_section in *. unfold ptr_maps_build_file, entry_section. cbv zeta.
  rewrite (u64_small (end_ e - start e)) by (unfold is_u64; lia).
  rewrite (u64_small (sizeof_map_section + _)) by (unfold is_u64, sizeof_map_section; lia).
  unfold sizeof_map_section.
  destruct (malloc_enough (32 + (end_ e - start e)) (pm_heap w) Hh) as (h & Hm & Hnz & Hh' & Heq & Hb);
    [lia | lia |].
  set (ms := brk (pm_heap w)) in *. set (w1 := mk_pm_world h (pm_lists w) (pm_objs w) (pm_out w)).
  erewrite (cmd_bind_Some (zoom _) _ w ms w1) by exact (zoom_Some (H := pm_heap_lens) _ w _ _ Hm). cbn beta.
  assert (forall out, sections_rep (mk_pm_world h (pm_lists w) (pm_objs w) out) nodes secs) as Hrep1.
  { intros out. constructor; [done | | split; [done | simpl; lia]].
    eapply Forall2_impl; [exact Ho |]. intros n s [? ?]. split; [done | simpl; lia]. }
  destruct (read_file (path e)) as [[content |] |].
  2,3: eexists _, nodes; split; [done |]; cbn [option_list]; rewrite app_nil_r;
    split; [apply Hrep1 | split; [done | simpl; lia]].
  rewrite (proj2 (Z.eqb_neq ms NULL) Hnz). set (data := take _ content).
  assert (Z.of_nat (length data) <= end_ e - start e) as Hd by (unfold data; rewrite length_take; lia).
  rewrite (u64_small (start e + _)) by (unfold is_u64; lia).
  set (s := mk_section_s _ _ data). set (l1 := mk_lmem (<[ms := NULL]> (nxt (pm_lists w)))
    (<[ms := NULL]> (prv (pm_lists w)))).
  assert (forall n, n ∈ g_map_sections :: nodes -> n <> ms) as Hne.
  { intros n [-> | Hn]%elem_of_cons; [lia |]. pose proof (sections_low w nodes secs n Hrep Hn). lia. }
  assert (dll l1 g_map_sections nodes) as Hl1.
  { eapply dll_ext; [| exact Hl]. intros a Ha%Hne. simpl. by rewrite !lookup_insert_ne. }
  destruct (list_add_tail_spec l1 g_map_sections nodes ms Hl1) as (l2 & Hadd & Hl2 & _).
  { intros Hin%Hne. done. }
  { unfold alloc. simpl. rewrite !lookup_insert_eq. split; by eexists. }
  exists (mk_pm_world h l2 (<[ms := s]> (pm_objs w)) (pm_out w)), (nodes ++ [ms]).
  split; [| split; [| split; [done | simpl; lia]]].
  - erewrite (cmd_bind_Some (new_section ms s)) by reflexivity. cbn beta.
    erewrite zoom_Some by exact Hadd. reflexivity.
  - constructor; [done | | split; [done | simpl; lia]]. cbn [option_list pm_objs pm_heap]. apply Forall2_app.
    + eapply Forall2_impl; [exact Ho |]. intros n s' [Hs' Hn].
      split; [by rewrite lookup_insert_ne by lia | lia].
    + constructor; [| constructor]. split; [by rewrite lookup_insert_eq | lia].
Qed.

Definition build_room (es : list map_entry) : Z :=
  foldr (fun e room => sizeof_map_section + (end_ e - start e) + 15 + room) 0 es.

Lemma build_room_pos es : Forall entry_fits es -> 0 <= build_room es.
Proof.
  induction 1 as [| e es [He _] _ IH]; simpl; [done |]. unfold sizeof_map_section. lia.
Qed.

Lemma build_run_sections es w nodes secs :
  sections_rep w nodes secs -> Forall entry_fits es ->
  build_room es <= heap_end (pm_heap w) - brk (pm_heap w) ->
  exists w' nodes', for_entries ptr_maps_body es w = Some (Ret tt, w') /\
    sections_rep w' nodes' (secs ++ omap entry_section es) /\
    heap_end (pm_heap w') = heap_end (pm_heap w) /\
    brk (pm_heap w) <= brk (pm_heap w') <= brk (pm_heap w) + build_room es.
Proof.
  intros Hrep Hes. revert w nodes secs Hrep. induction Hes as [| e es He Hes IH]; intros w nodes secs Hrep Hroom.
  - exists w, nodes. rewrite app_nil_r. simpl. split_and!; [done | done | done | lia | lia].
  - cbn [build_room foldr] in Hroom. fold (build_room es) in Hroom.
    pose proof (build_room_pos es Hes) as Hpos'.
    destruct (build_file_run w nodes secs e Hrep He) as (w1 & ns1 & Hrun & Hrep1 & Eend & Hb1 & Hb); [lia |].
    destruct (IH w1 ns1 _ Hrep1) as (w2 & ns2 & Hrun2 & Hrep2 & Eend2 & Hb2 & Hb3); [lia |].
    exists w2, ns2. cbn [build_room foldr]. fold (build_room es).
    split_and!; [| | congruence | lia | lia].
    + cbn [for_entries]. erewrite result_bind_Ret; [exact Hrun2 |].
      unfold ptr_maps_body. by erewrite cmd_bind_Some by exact Hrun.
    + rewrite <- app_assoc in Hrep2. cbn [omap list_omap]. by destruct (entry_section e).
Qed.

(** ** The access *)

Definition in_section (addr : Z) (s : map_section_s) : bool :=
  (ms_start s <=? addr) && (addr <=? ms_end s).

(** The first section that has the address, and otherwise the target. *)
Definition access_spec (m : target_mem) (secs : list map_section_s) (addr : Z) : option access :=
  match List.find (in_section addr) secs with
  | Some s => AccessOk <$> data_word (ms_data s) (u64 (addr - ms_start s) / Z.of_nat word_size)
  | None =>
      let val := ptrace_get_data m addr in
      Some (if val =? 2 ^ (8 * Z.of_nat word_size) - 1 then AccessError val else AccessOk val)
  end.

Lemma access_body_run addr w n s :
  pm_objs w !! n = Some s -> is_u64 n ->
  access_body addr n w =
    (if in_section addr s then
       v ← data_word (ms_data s) (u64 (addr - ms_start s) / Z.of_nat word_size); Some (Some v, w)
     else Some (None, w)).
Proof.
  intros Hs Hn. unfold access_body. unfold list_entry. rewrite Z.sub_0_r, u64_small by done.
  erewrite cmd_bind_Some by (unfold get_section, gets_opt; rewrite Hs; reflexivity).
  cbn beta. fold (in_section addr s). destruct (in_section addr s); [| done].
  unfold gets_opt, mbind, cmd_bind. by destruct (data_word _ _).
Qed.

Lemma access_mem_run w nodes secs m addr :
  sections_rep w nodes secs ->
  _ptr_access_mem m addr w = (fun r => (r, w)) <$> access_spec m secs addr.
Proof.
  intros Hrep. pose proof Hrep as [Hl Ho [Hh Hlo]]. unfold _ptr_access_mem.
  erewrite (cmd_bind_Some (gets _)) by reflexivity. cbn beta.
  unfold mbind, cmd_bind. unfold heap_ok in Hh.
  assert (Forall2 (fun n s => pm_objs w !! n = Some s /\ is_u64 n) nodes secs) as Ho'.
  { eapply Forall2_impl; [exact Ho |]. intros n s [? ?]. split; [done |]. unfold is_u64. lia. }
  rewrite (list_for_each_run (fun w' => w' = w) _ _ nodes); [| split | by eapply dll_fuel | done].
  - unfold access_spec. clear Hl Ho Hrep. induction Ho' as [| n s ns ss [Hs Hn] _ IH]; [done |].
    cbn [run_list List.find]. unfold mbind, cmd_bind. rewrite (access_body_run addr w n s) by done.
    destruct (in_section addr s); [by destruct (data_word _ _) |].
    rewrite IH. done.
  - by intros w' ->.
  - intros n w' r w'' Hn -> Hrun. destruct (list_elem_of_lookup_1 _ _ Hn) as [i Hi].
    destruct (Forall2_lookup_l _ _ _ _ _ Ho' Hi) as (s & _ & Hs & Hu).
    rewrite (access_body_run addr w n s) in Hrun by done.
    destruct (in_section addr s); [destruct (data_word _ _); simpl in Hrun |]; by simplify_eq.
Qed.

(** The sections are in the order of the addresses. *)
Definition sections_ordered (secs : list map_section_s) : Prop :=
  StronglySorted (fun s s' => ms_end s <= ms_start s') secs.

Lemma entry_section_bounds e s :
  entry_fits e -> entry_section e = Some s ->
  ms_start s = start e /\ ms_end s = start e + Z.of_nat (length (ms_data s)) /\ ms_end s <= end_ e.
Proof.
  intros [He _]. unfold entry_section. case_match; [| done]. case_match; [| done].
  intros [= <-]. cbn [ms_start ms_end ms_data]. split_and!; [done | done |]. rewrite length_take. lia.
Qed.

Lemma ordered_sections es :
  entries_ordered es -> Forall entry_fits es -> sections_ordered (omap entry_section es).
Proof.
  intros [Hs _] Hfit. rewrite Forall_forall in Hfit.
  apply (StronglySorted_omap (fun e e' => end_ e <= start e' /\ entry_fits e /\ entry_fits e')).
  - intros e e' s s' (He & Hf & Hf') Es Es'.
    pose proof (entry_section_bounds e s Hf Es). pose proof (entry_section_bounds e' s' Hf' Es'). lia.
  - eapply StronglySorted_impl; [| exact Hs]. auto.
Qed.

Lemma find_section secs s addr :
  sections_ordered secs -> s ∈ secs -> ms_start s <= addr <= ms_end s ->
  (forall s', s' ∈ secs -> ms_end s' = addr -> ms_start s < addr) ->
  List.find (in_section addr) secs = Some s.
Proof.
  intros Hs Hin Ha Hends. apply list_elem_of_split in Hin as (l1 & l2 & ->).
  apply find_first; [| unfold in_section; apply andb_true_intro; split; apply Z.leb_le; lia].
  intros s' Hs'. unfold in_section. apply andb_false_iff. right. apply Z.leb_gt.
  assert (ms_end s' <= ms_start s) by (apply (StronglySorted_app_1_elem_of _ _ _ _ _ Hs); set_solver).
  destruct (decide (ms_end s' = addr)) as [E |]; [| lia].
  pose proof (Hends s' ltac:(set_solver) E). lia.
Qed.

Lemma find_no_section secs addr :
  (forall s, s ∈ secs -> ~ (ms_start s <= addr <= ms_end s)) -> List.find (in_section addr) secs = None.
Proof.
  induction secs as [| s secs IH]; intros Hno; [done |]. cbn [List.find].
  assert (in_section addr s = false) as ->; [| apply IH; set_solver].
  specialize (Hno s ltac:(set_solver)). unfold in_section.
  destruct (Z.leb_spec (ms_start s) addr), (Z.leb_spec addr (ms_end s)); simpl; lia || done.
Qed.

Lemma data_word_spec data i :
  0 <= i -> data_word data i =
    (if decide (Z.of_nat word_size * (i + 1) <= Z.of_nat (length data))
     then Some (word_of (take word_size (drop (word_size * Z.to_nat i) data))) else None).
Proof.
  intros Hi. unfold data_word. rewrite length_take, length_drop. pose proof word_size_pos.
  destruct (decide (Z.of_nat word_size * (i + 1) <= Z.of_nat (length data))) as [Hd | Hd];
    [rewrite decide_True by lia | rewrite decide_False by lia]; done.
Qed.

(** A word that is in the section is the file's. *)
Lemma entry_word e s content addr :
  entry_fits e -> read_file (path e) = Some (Some content) -> entry_section e = Some s ->
  let W := Z.of_nat word_size in
  let i := (addr - start e) / W in
  start e <= addr -> W * (i + 1) <= Z.min (end_ e - start e) (Z.of_nat (length content)) ->
  ms_start s <= addr <= ms_end s /\
  data_word (ms_data s) (u64 (addr - ms_start s) / W) =
    Some (word_of (take word_size (drop (word_size * Z.to_nat i) content))).
Proof.
  intros Hfe Hread Es W i Ha Hw. pose proof (entry_section_bounds e s Hfe Es) as (Est & Een & Hle).
  assert (0 < W) as HW by (pose proof word_size_pos; lia).
  assert (ms_data s = take (Z.to_nat (end_ e - start e)) content) as Hd.
  { unfold entry_section in Es. rewrite Hread in Es. by injection Es as <-. }
  assert (Z.of_nat (length (ms_data s)) = Z.min (end_ e - start e) (Z.of_nat (length content))) as Hlen.
  { rewrite Hd, length_take. destruct Hfe. lia. }
  assert (0 <= i) by (apply Z.div_pos; lia).
  assert (addr - start e < W * (i + 1)) by (pose proof (Z.mod_pos_bound (addr - start e) W HW);
    pose proof (Z.div_mod (addr - start e) W ltac:(lia)); unfold i; lia).
  split; [lia |]. rewrite Est, u64_small by (destruct Hfe; unfold is_u64; lia). fold i.
  rewrite data_word_spec by done. fold W. rewrite decide_True by lia. do 2 f_equal.
  rewrite Hd, !take_drop_commute, take_take. do 2 f_equal. lia.
Qed.

Definition empty_pm (h : heap) : pm_world :=
  mk_pm_world h (mk_lmem {[g_map_sections := g_map_sections]} {[g_map_sections := g_map_sections]}) ∅ [].

Lemma empty_sections h : heap_ok h -> heap_start <= brk h -> sections_rep (empty_pm h) [] [].
Proof.
  intros Hh Hlo. constructor; [| constructor | done].
  split; [apply NoDup_singleton | split]; simpl; by rewrite lookup_singleton_eq.
Qed.

(** Others may take from the heap. *)
Lemma sections_rep_heap w nodes secs h :
  sections_rep w nodes secs -> heap_ok h -> brk (pm_heap w) <= brk h ->
  sections_rep (mk_pm_world h (pm_lists w) (pm_objs w) (pm_out w)) nodes secs.
Proof.
  intros [Hl Ho [_ Hlo]] Hh Hb. constructor; [done | | split; [done | simpl; lia]].
  eapply Forall2_impl; [exact Ho |]. intros n s [? ?]. split; [done | simpl; lia].
Qed.

Context {maps : ProcMaps}.

(** With a heap that others use. *)
Lemma ptr_maps_build_run es st w :
  walks es -> at_rest st ->
  Forall entry_fits es -> sections_rep w [] [] -> build_room es <= heap_end (pm_heap w) - brk (pm_heap w) ->
  exists st' w' nodes, ptr_maps_build (st, w) = Some (Ret tt, (st', w')) /\ at_rest st' /\
    sections_rep w' nodes (omap entry_section es) /\
    heap_end (pm_heap w') = heap_end (pm_heap w) /\
    brk (pm_heap w) <= brk (pm_heap w') <= brk (pm_heap w) + build_room es.
Proof.
  intros Hes Hst Hfit Hrep Hroom.
  destruct (build_run_sections es w [] [] Hrep Hfit Hroom) as (w' & nodes & Hrun & Hrest).
  destruct (while_maps_run es ptr_maps_body st w w' Hes Hst Hrun) as (st' & Hwalk & Hst').
  by exists st', w', nodes.
Qed.

(** C33: [_ptr_access_mem] after [ptr_maps_build], when the walk over the mappings
    gives [es], in the order of their addresses, and there is memory for the
    files.  A section is what a file's beginning has room for in its mapping,
    wherever in the file the mapping begins.  An address in a section gives the
    word of the file at the multiple of the word size below it, if the word is
    in the section and no section ends at the address; an address that is in no
    section and at no section's end gives the word of the target, and an error
    if that is all ones; and the address behind a section of whole words reads
    behind the section's data, which is undefined. *)
Theorem ptr_access_mem_correct es st h :
  walks es -> at_rest st -> entries_ordered es ->
  let secs := omap entry_section es in
  let W := Z.of_nat word_size in
  Forall entry_fits es -> heap_ok h -> heap_start <= brk h -> build_room es <= heap_end h - brk h ->
  exists st' w, ptr_maps_build (st, empty_pm h) = Some (Ret tt, (st', w)) /\ at_rest st' /\
    forall m addr,
      (forall e content, e ∈ es -> read_file (path e) = Some (Some content) ->
         let i := (addr - start e) / W in
         start e <= addr -> W * (i + 1) <= Z.min (end_ e - start e) (Z.of_nat (length content)) ->
         (forall s, s ∈ secs -> ms_end s <> addr) ->
         _ptr_access_mem m addr w =
           Some (AccessOk (word_of (take word_size (drop (word_size * Z.to_nat i) content))), w)) /\
      ((forall s, s ∈ secs -> ~ (ms_start s <= addr <= ms_end s)) ->
         _ptr_access_mem m addr w =
           Some (if ptrace_get_data m addr =? 2 ^ (8 * W) - 1 then AccessError (ptrace_get_data m addr)
                 else AccessOk (ptrace_get_data m addr), w)) /\
      (forall s, s ∈ secs -> ms_data s <> [] -> addr = ms_end s -> (W | Z.of_nat (length (ms_data s))) ->
         _ptr_access_mem m addr w = None).
Proof.
  intros Hes Hst Hord secs W Hfit Hh Hlo Hroom.
  destruct (ptr_maps_build_run es st _ Hes Hst Hfit (empty_sections h Hh Hlo) Hroom)
    as (st' & w & nodes & Hrun & Hst' & Hrep & _).
  exists st', w. split; [exact Hrun |]. split; [exact Hst' |].
  pose proof (ordered_sections es Hord Hfit) as Hs. fold secs in Hs, Hrep.
  assert (0 < W) as HW by (pose proof word_size_pos; lia).
  assert (forall s, s ∈ secs -> exists e, e ∈ es /\ entry_fits e /\ entry_section e = Some s) as Hsec.
  { intros s (e & Hin & Hsome)%list_elem_of_omap. rewrite Forall_forall in Hfit. eauto. }
  intros m addr. rewrite (access_mem_run w nodes secs m addr Hrep). unfold access_spec.
  split_and!.
  - intros e content Hin Hread Ha Hw Hends. rewrite Forall_forall in Hfit.
    destruct (entry_section e) as [s |] eqn:Es; [| unfold entry_section in Es; by rewrite Hread in Es].
    assert (s ∈ secs) as Hins by (apply list_elem_of_omap; eauto).
    destruct (entry_word e s content addr (Hfit e Hin) Hread Es Ha Hw) as [Hrange Hword].
    rewrite (find_section secs s addr Hs Hins Hrange); [| intros s' Hs' E; by destruct (Hends s' Hs')].
    by rewrite Hword.
  - intros Hno. by rewrite find_no_section.
  - intros s Hins Hne -> Hdiv. destruct (Hsec s Hins) as (e & Hin & Hfe & Es).
    destruct (entry_section_bounds e s Hfe Es) as (Est & Een & Hle).
    assert (0 < Z.of_nat (length (ms_data s))) by (destruct (ms_data s); simpl; [done | lia]).
    rewrite (find_section secs s _ Hs Hins); [| lia | lia].
    rewrite u64_small by (destruct Hfe; unfold is_u64; lia). fold W.
    destruct Hdiv as [q Hq]. replace (ms_end s - ms_start s) with (q * W) by lia. rewrite Z.div_mul by lia.
    rewrite data_word_spec by nia. fold W. by rewrite decide_False by lia.
Qed.

End maps.

(** The application can be opened, the library cannot. *)
Definition example_content : list Z := Z.of_nat <$> seq 1 20.
Definition example_read (p : cstr) : option (option (list Z)) :=
  if decide (p = lit "/usr/bin/app") then Some (Some example_content) else None.

Lemma ptr_access_mem_correct_witness :
  exists st w, ptr_maps_build (maps := linux_maps example_files) example_read 64
      (mk_maps_state None [], empty_pm 64 (mk_heap 4096 1048576)) = Some (Ret tt, (st, w)) /\
    filp st = None /\
    _ptr_access_mem (H := x86_64) 64 ∅ 4194313 w = Some (AccessOk 1157159078456920585, w).
Proof.
  assert (omap (entry_section example_read) example_entries =
    [mk_section_s 4194304 4194324 example_content]) as Hsecs by (vm_compute; reflexivity).
  destruct (ptr_access_mem_correct (H := x86_64) (maps := linux_maps example_files) example_read 64 128
    ltac:(lia) ltac:(lia) example_entries (mk_maps_state None []) (mk_heap 4096 1048576)) as (st & w & Hb & Hst & Ha).
  - exact (linux_walks _ _ _ example_shown).
  - reflexivity.
  - exact example_entries_ordered.
  - repeat (apply List.Forall_cons; [unfold entry_fits; simpl; lia |]). constructor.
  - unfold heap_ok. simpl. lia.
  - simpl. lia.
  - vm_compute. discriminate.
  - exists st, w. split; [exact Hb |]. split; [exact Hst |].
    destruct (Ha ∅ 4194313) as (Hfile & _).
    rewrite (Hfile (mk_map (lit "/usr/bin/app") 4194304 4243456 true) example_content).
    + f_equal.
    + left.
    + reflexivity.
    + simpl. lia.
    + vm_compute. discriminate.
    + rewrite Hsecs. intros s [-> | []%elem_of_nil]%elem_of_cons. cbn [ms_end]. lia.
Defined.
