(* ===== verification/FreeBSD.v ===== *)
(** * What is different on FreeBSD

    [proc_maps] walks over the array that [procstat_getvmmap] allocates, with its
    position in static variables: [bsd_proc_maps].  [bsd_proc_maps_walk] says
    what a loop over it sees; [bsd_maps] is the instance of the interface
    [ProcMaps], by which the builders of the tables use it.

    ptrace accesses an [int], so that the unwinder's accessor puts a word
    together from two of them: [bsd_access_word].  The trap and the return
    address are in [Machines]. *)

From stdpp Require Import sorting.
From S2P Require Import Prelude ListH HlistH HashH Heap CString ProcMaps ProcInfo Machines PtrMaps.

(** ** [proc_maps] *)

Record kinfo_vmentry := mk_kve {
  kve_start : Z; kve_end : Z; kve_protection : Z; kve_path : cstr
}.

Definition KVME_PROT_EXEC : Z := 4.

(** The static variables; [None] is the null pointer. *)
Record bsd_maps_state := mk_bsd_maps {
  freep : option (list kinfo_vmentry);
  bsd_i : Z;
  bsd_cnt : Z;
  bsd_exe_name : cstr
}.

(** The entry that is returned for an element, or none; a path without a slash
    would be a null pointer. *)
Definition kve_entry (exe : cstr) (kve : kinfo_vmentry) : option (option map_entry) :=
  if negb (Z.land (kve_protection kve) KVME_PROT_EXEC =? 0) &&
     bool_decide (head (kve_path kve) = Some "/"%char)
  then p ← strrchr (kve_path kve) "/"%char;
       Some (Some (mk_map (kve_path kve) (kve_start kve) (kve_end kve) (bool_decide (exe = tail p))))
  else Some None.

(** [while (i < cnt)] and what is behind it. *)
Fixpoint kve_loop (fuel : nat) : cmd bsd_maps_state (option map_entry) :=
  match fuel with
  | O => undefined
  | S fuel =>
      s ← gets id;
      if bsd_i s <? bsd_cnt s then
        kve ← gets_opt (fun s => l ← freep s; l !! Z.to_nat (bsd_i s));
        put_state (mk_bsd_maps (freep s) (u32 (bsd_i s + 1)) (bsd_cnt s) (bsd_exe_name s));;
        e ← gets_opt (fun s => kve_entry (bsd_exe_name s) kve);
        match e with
        | Some e => mret (Some e)
        | None => kve_loop fuel
        end
      else
        put_state (mk_bsd_maps None 0 (bsd_cnt s) (bsd_exe_name s));;
        mret None
  end.

(** The command's name of the process, [None] when there is no such process;
    and the mappings, [None] with a count of 0 when they cannot be had. *)
Definition bsd_proc_maps (ki_comm : option cstr) (vmmap : option (list kinfo_vmentry)) :
    cmd bsd_maps_state (result (option map_entry)) :=
  s ← gets id;
  o ← (match freep s with
       | Some _ => mret (Ret tt)
       | None =>
           match ki_comm with
           | None => mret (Exit 6)
           | Some comm =>
               put_state (mk_bsd_maps vmmap (bsd_i s) (u32 (Z.of_nat (length (default [] vmmap)))) comm);;
               mret (Ret tt)
           end
       end);
  match o with
  | Exit c => mret (Exit c)
  | Ret tt =>
      s ← gets id;
      e ← kve_loop (S (Z.to_nat (bsd_cnt s)));
      mret (Ret e)
  end.

(** ** The walk *)

Definition kve_visible (exe : cstr) (kve : kinfo_vmentry) : option map_entry := default None (kve_entry exe kve).

Lemma kve_entry_visible exe kve : kve_entry exe kve = Some (kve_visible exe kve).
Proof.
  unfold kve_visible, kve_entry.
  destruct (negb _); [| done]. case_bool_decide as Hhead; [| done]. cbn [andb].
  destruct (strrchr (kve_path kve) "/"%char) as [p |] eqn:E; [done |].
  apply strrchr_None in E. destruct (kve_path kve) as [| c s]; [done |]. simpl in Hhead.
  injection Hhead as ->. destruct E. by left.
Qed.

(** The iterator at position [k], and at rest. *)
Definition bsd_at (l : list kinfo_vmentry) (exe : cstr) (k : nat) : bsd_maps_state :=
  mk_bsd_maps (Some l) (Z.of_nat k) (Z.of_nat (length l)) exe.
Definition bsd_closed (l : list kinfo_vmentry) (exe : cstr) : bsd_maps_state :=
  mk_bsd_maps None 0 (Z.of_nat (length l)) exe.

Lemma kve_loop_run l exe k fuel :
  Z.of_nat (length l) < 2 ^ 32 -> (k <= length l)%nat -> (length l - k < fuel)%nat ->
  match omap (kve_visible exe) (drop k l) with
  | [] => kve_loop fuel (bsd_at l exe k) = Some (None, bsd_closed l exe)
  | e :: es => exists j, (k < j <= length l)%nat /\
      kve_loop fuel (bsd_at l exe k) = Some (Some e, bsd_at l exe j) /\
      omap (kve_visible exe) (drop j l) = es
  end.
Proof.
  intros Hlen. revert k. induction fuel as [| fuel IH]; intros k Hk Hf; [lia |].
  cbn [kve_loop]. erewrite (cmd_bind_Some (gets id)) by reflexivity. cbn beta.
  unfold id. change (bsd_i (bsd_at l exe k)) with (Z.of_nat k).
  change (bsd_cnt (bsd_at l exe k)) with (Z.of_nat (length l)). destruct (decide (k = length l)) as [-> | Hne].
  - rewrite drop_all, Z.ltb_irrefl. reflexivity.
  - destruct (lookup_lt_is_Some_2 l k) as [kve Hkve]; [lia |].
    rewrite (proj2 (Z.ltb_lt _ _)) by lia. rewrite (drop_S l kve k Hkve).
    erewrite (cmd_bind_Some (gets_opt _) _ _ kve) by
      (unfold gets_opt; cbn; by rewrite Nat2Z.id, Hkve). cbn beta.
    erewrite (cmd_bind_Some (put_state _) _ _ tt (bsd_at l exe (S k))) by
      (unfold put_state, bsd_at; do 3 f_equal; rewrite u32_small by (unfold is_u32; lia); lia). cbn beta.
    erewrite (cmd_bind_Some (gets_opt _) _ _ (kve_visible exe kve)) by
      (unfold gets_opt; cbn [bsd_exe_name bsd_at]; by rewrite kve_entry_visible). cbn beta.
    cbn [omap list_omap]. destruct (kve_visible exe kve) as [e |].
    + exists (S k). split_and!; [lia | lia | done | done].
    + specialize (IH (S k) ltac:(lia) ltac:(lia)).
      destruct (omap (kve_visible exe) (drop (S k) l)) as [| e es]; [done |].
      destruct IH as (j & ? & ? & ?). exists j. split_and!; [lia | lia | done | done].
Qed.

Section bsd.
Context (ki_comm : option cstr) (vmmap : option (list kinfo_vmentry)).

Lemma bsd_proc_maps_at l exe k :
  Z.of_nat (length l) < 2 ^ 32 ->
  bsd_proc_maps ki_comm vmmap (bsd_at l exe k) =
    (fun '(e, st) => (Ret e, st)) <$> kve_loop (S (length l)) (bsd_at l exe k).
Proof.
  intros Hl. unfold bsd_proc_maps. unfold mbind, cmd_bind, gets, mret, cmd_ret, id. cbn [freep bsd_at bsd_cnt].
  rewrite Nat2Z.id. fold (bsd_at l exe k). by destruct (kve_loop _ _) as [[? ?] |].
Qed.

Lemma bsd_yields l exe es k :
  Z.of_nat (length l) < 2 ^ 32 -> (k <= length l)%nat -> omap (kve_visible exe) (drop k l) = es ->
  yields (bsd_proc_maps ki_comm vmmap) (bsd_at l exe k) es (bsd_closed l exe).
Proof.
  intros Hl. revert k. induction es as [| e es IH]; intros k Hk He;
    pose proof (kve_loop_run l exe k (S (length l)) Hl Hk ltac:(lia)) as Hrun; rewrite He in Hrun.
  - constructor. rewrite bsd_proc_maps_at by done. by rewrite Hrun.
  - destruct Hrun as (j & Hj & Hrun & Hes). eapply yields_entry; [| apply (IH j); [lia | done]].
    rewrite bsd_proc_maps_at by done. by rewrite Hrun.
Qed.

End bsd.

(** The first call opens the walk. *)
Lemma bsd_yields_all comm l st :
  freep st = None -> bsd_i st = 0 -> Z.of_nat (length l) < 2 ^ 32 ->
  yields (bsd_proc_maps (Some comm) (Some l)) st (omap (kve_visible comm) l) (bsd_closed l comm).
Proof.
  intros Hf Hi Hl.
  assert (bsd_proc_maps (Some comm) (Some l) st = bsd_proc_maps (Some comm) (Some l) (bsd_at l comm 0)) as E.
  { rewrite bsd_proc_maps_at by done. unfold bsd_proc_maps. unfold mbind, cmd_bind, gets, put_state, mret, cmd_ret, id.
    rewrite Hf, Hi. cbn [default freep bsd_cnt]. rewrite u32_small by (unfold is_u32; lia).
    rewrite Nat2Z.id. fold (bsd_at l comm 0). by destruct (kve_loop _ _) as [[? ?] |]. }
  pose proof (bsd_yields (Some comm) (Some l) l comm _ 0 Hl ltac:(lia) eq_refl) as Hy. rewrite drop_0 in Hy.
  by eapply yields_same.
Qed.



(** ** The interface to the tables, on FreeBSD *)

Definition bsd_maps (ki_comm : option cstr) (vmmap : option (list kinfo_vmentry)) : ProcMaps := {|
  maps_st := bsd_maps_state;
  maps_unused := mk_bsd_maps None 0 0 [];
  next_map := bsd_proc_maps ki_comm vmmap;
  walk_fuel := S (length (default [] vmmap));
  at_rest st := freep st = None /\ bsd_i st = 0
|}.

Lemma bsd_walks comm l :
  Z.of_nat (length l) < 2 ^ 32 -> walks (maps := bsd_maps (Some comm) (Some l)) (omap (kve_visible comm) l).
Proof.
  intros Hl. constructor; [done | |].
  - intros st [Hf Hi]. exists (bsd_closed l comm). split; [by apply bsd_yields_all | done].
  - pose proof (length_omap_le (kve_visible comm) l). simpl. lia.
Qed.

(** The kernel shows the mappings in the order of their addresses. *)
Definition kves_ordered (l : list kinfo_vmentry) : Prop :=
  StronglySorted (fun x y => kve_end x <= kve_start y) l /\ Forall (fun x => kve_start x <= kve_end x) l.

Lemma kve_bounds comm x e :
  kve_visible comm x = Some e -> start e = kve_start x /\ end_ e = kve_end x.
Proof.
  unfold kve_visible, kve_entry. case_match; [| done].
  destruct (strrchr _ _); [| done]. cbn. by intros [= <-].
Qed.

Lemma kve_visible_ordered comm l : kves_ordered l -> entries_ordered (omap (kve_visible comm) l).
Proof. intros [Hs Hle]. apply (entries_ordered_omap kve_start kve_end); [apply kve_bounds | done | done]. Qed.

(** ** The unwinder's accessor *)

(** An [int] as a [unw_word_t]. *)
Definition bsd_get_data (m : target_mem) (addr : Z) : Z :=
  u64 (s32 (ptrace_get_data (H := x86_64_freebsd) m addr)).

Definition bsd_access_target (m : target_mem) (addr : Z) : access :=
  let val := bsd_get_data m addr in
  if val =? 2 ^ 64 - 1 then AccessError val
  else
    let high := bsd_get_data m (u64 (addr + 4)) in
    AccessOk (Z.lor (u64 (Z.shiftl high 32)) (Z.land val 4294967295)).

Definition bsd_ptr_access_mem (g_map_sections : Z) (m : target_mem) (addr : Z) : cmd pm_world access :=
  fuel ← gets (fun w => list_fuel (pm_lists w));
  r ← list_for_each fuel (access_body (H := x86_64) addr) g_map_sections;
  mret (match r with Some val => AccessOk val | None => bsd_access_target m addr end).

Lemma bsd_get_bytes m a x :
  read_bytes m a 4 = Some (bytes_of 4 x) -> bsd_get_data m a = u64 (s32 (x mod 2 ^ 32)).
Proof.
  intros Hr. unfold bsd_get_data, ptrace_get_data, peek_word. cbn [word_size x86_64_freebsd].
  by rewrite Hr, word_of_bytes_of.
Qed.

(** The low half of a sign-extended value. *)
Lemma sign_extended x : 0 <= x < 2 ^ 32 -> exists k, u64 (s32 x) = x + 2 ^ 32 * k.
Proof.
  intros Hx. unfold u64, s32. destruct (Z.ltb_spec x (2 ^ 31)) as [Hs | Hs].
  - exists 0. rewrite (Z.mod_small (x + 2 ^ 31)) by lia. rewrite Z.mod_small; lia.
  - exists (2 ^ 32 - 1). rewrite <- (Z.mod_add (x + 2 ^ 31) (-1)), (Z.mod_small (x + 2 ^ 31 + _)) by lia.
    rewrite <- (Z.mod_add _ 1), Z.mod_small by lia. lia.
Qed.

Lemma join_halves x y k j :
  0 <= x < 2 ^ 32 -> 0 <= y < 2 ^ 32 ->
  Z.lor (u64 (Z.shiftl (y + 2 ^ 32 * j) 32)) (Z.land (x + 2 ^ 32 * k) 4294967295) = x + 2 ^ 32 * y.
Proof.
  intros Hx Hy. change 4294967295 with (Z.ones 32). rewrite Z.land_ones, Z.shiftl_mul_pow2 by lia.
  rewrite (Z.mul_comm (2 ^ 32) k), Z.mod_add, (Z.mod_small x) by lia.
  assert (u64 ((y + 2 ^ 32 * j) * 2 ^ 32) = y * 2 ^ 32) as ->.
  { unfold u64. replace ((y + 2 ^ 32 * j) * 2 ^ 32) with (y * 2 ^ 32 + j * 2 ^ 64) by lia.
    rewrite Z.mod_add, Z.mod_small by lia. done. }
  pose proof (Z.add_lor_land (y * 2 ^ 32) x) as Hor.
  assert (Z.land (y * 2 ^ 32) x = 0) as Hand; [| lia].
  apply Z.bits_inj'. intros n Hn. rewrite Z.land_spec, Z.bits_0.
  destruct (Z.ltb_spec n 32); [by rewrite Z.mul_pow2_bits_low |].
  rewrite <- (Z.mod_small x (2 ^ 32)), Z.mod_pow2_bits_high by lia. by rewrite andb_false_r.
Qed.

(** A word that the unwinder reads of the target on FreeBSD, by two accesses
    of an [int]: it is the word that is there, unless its lower half is all
    ones, which is taken for an error. *)
Lemma bsd_access_word m addr v :
  read_bytes m addr 8 = Some (bytes_of 8 v) -> is_u64 v -> is_u64 (addr + 4) ->
  bsd_access_target m addr =
    if v mod 2 ^ 32 =? 2 ^ 32 - 1 then AccessError (2 ^ 64 - 1) else AccessOk v.
Proof.
  intros Hr Hv Ha.
  destruct (read_bytes_app m addr (bytes_of 4 v) (bytes_of 4 (v / 2 ^ 32))) as [Hlow Hhigh].
  { rewrite <- (bytes_of_app 4 4), length_bytes_of. exact Hr. }
  rewrite !length_bytes_of in Hlow. rewrite !length_bytes_of in Hhigh. change (Z.of_nat 4) with 4 in Hhigh.
  unfold bsd_access_target. rewrite (u64_small (addr + 4)) by done.
  rewrite (bsd_get_bytes m addr v Hlow), (bsd_get_bytes m (addr + 4) (v / 2 ^ 32) Hhigh).
  unfold is_u64 in Hv. rewrite (Z.mod_small (v / 2 ^ 32)) by
    (split; [apply Z.div_pos; lia | apply Z.div_lt_upper_bound; lia]).
  pose proof (Z.mod_pos_bound v (2 ^ 32) ltac:(lia)) as Hx. pose proof (Z.div_mod v (2 ^ 32) ltac:(lia)) as Hd.
  set (x := v mod 2 ^ 32) in *. set (y := v / 2 ^ 32) in *.
  destruct (sign_extended x Hx) as [k Hk]. destruct (sign_extended y) as [j Hj]; [lia |].
  pose proof (u64_range (s32 x)) as Hux. unfold is_u64 in Hux.
  destruct (Z.eqb_spec x (2 ^ 32 - 1)) as [E | Hne].
  - rewrite E. reflexivity.
  - rewrite (proj2 (Z.eqb_neq (u64 (s32 x)) _)) by lia. f_equal.
    rewrite Hk, Hj, join_halves by lia. lia.
Qed.

Lemma bsd_access_word_witness :
  bsd_access_target example_stack 16384 = AccessOk 34365000000.
Proof.
  rewrite (bsd_access_word example_stack 16384 34365000000).
  - reflexivity.
  - vm_compute. reflexivity.
  - unfold is_u64. lia.
  - unfold is_u64. lia.
Defined.
