(* ===== verification/MainLoop.v ===== *)
(** * [breakpoint.c] and the loop of [memleax.c]

    The loop waits for the threads of the target to stop.  At the entry of an
    allocation function it plants a breakpoint at the return address; when the
    function returns, it calls the handler.  [loop_step] is the body of the
    loop, for one result of [waitpid]; the registers of the stopped thread, the
    frames of its stack and the clock come with the event, and a signal of the
    user is an event of its own.  What the program asks of the kernel, and what
    [main] prints, is recorded as a sequence of actions.

    [loop_trans] also lets the target run between the events: it may change its
    memory, but not the code at the breakpoints.  The invariant [code_inv] says
    what is written over the code at any time, and [target_code_restored] that
    the code is what it was when the monitor detaches. *)

From stdpp Require Import relations.
From S2P Require Import Prelude ListH HlistH HashH PtrBacktrace Heap Callstack.
From S2P Require Import Memblock Tracker CallstackRefine MemblockRefine Handlers Machines.

(** ** [breakpoint.c] *)

Record breakpoint_s := mk_breakpoint {
  name : string;
  bp_handler : api;
  entry_address : Z;
  entry_code : Z
}.

#[export] Instance api_eq_dec : EqDecision api.
Proof. solve_decision. Defined.
#[export] Instance breakpoint_eq_dec : EqDecision breakpoint_s.
Proof. solve_decision. Defined.

(** The calls of [breakpoint_init], in order. *)
Definition api_names : list (string * api) :=
  [("malloc"%string, Malloc); ("free"%string, Free); ("realloc"%string, Realloc);
   ("calloc"%string, Calloc)].

Section breakpoint.
Context `{!Machine}.
Context (symtab_by_name : string -> Z).

(** [None] is [exit(3)]: the function is not in the symbol table. *)
Definition do_breakpoint_init (nm : string) (h : api) : cmd target_mem (option breakpoint_s) :=
  let entry := symtab_by_name nm in
  if entry =? 0 then mret None
  else
    code ← gets (fun m => ptrace_get_data m entry);
    set_breakpoint entry code;;
    mret (Some (mk_breakpoint nm h entry code)).

Fixpoint init_all (apis : list (string * api)) : cmd target_mem (option (list breakpoint_s)) :=
  match apis with
  | [] => mret (Some [])
  | (nm, h) :: apis =>
      b ← do_breakpoint_init nm h;
      match b with
      | None => mret None
      | Some b => bs ← init_all apis; mret (cons b <$> bs)
      end
  end.

Definition breakpoint_init : cmd target_mem (option (list breakpoint_s)) := init_all api_names.

Fixpoint breakpoint_cleanup (bps : list breakpoint_s) : cmd target_mem unit :=
  match bps with
  | [] => mret tt
  | b :: bps => ptrace_set_data (entry_address b) (entry_code b);; breakpoint_cleanup bps
  end.

Fixpoint breakpoint_by_entry (bps : list breakpoint_s) (address : Z) : option breakpoint_s :=
  match bps with
  | [] => None
  | b :: bps => if address =? entry_address b then Some b else breakpoint_by_entry bps address
  end.

(** ** The code at the entries *)

Abbreviation peek := (ptrace_get_data).
Abbreviation is_mapped := (mapped word_size).
Abbreviation separate := (apart word_size).

Definition entries_apart (bps : list breakpoint_s) : Prop :=
  forall b b', b ∈ bps -> b' ∈ bps -> b <> b' -> separate (entry_address b) (entry_address b').

(** What is known of the breakpoints: distinct functions do not overlap, and the
    original code is a word. *)
Record bps_ok (bps : list breakpoint_s) : Prop := {
  bo_apart : entries_apart bps;
  bo_code : forall b, b ∈ bps -> 0 <= entry_code b < 2 ^ (8 * Z.of_nat word_size)
}.

(** The breakpoints of [bps], the ones in [off] excepted, are planted. *)
Definition planted (bps : list breakpoint_s) (off : option breakpoint_s) (m : target_mem) : Prop :=
  forall b, b ∈ bps -> is_mapped m (entry_address b) /\
    peek m (entry_address b) =
      if decide (off = Some b) then entry_code b else trap_word (entry_code b).

Lemma peek_set_data m a w :
  is_mapped m a -> 0 <= w < 2 ^ (8 * Z.of_nat word_size) -> peek (poke_word word_size m a w) a = w.
Proof. apply peek_poke. Qed.

Lemma separate_sym a b : separate a b -> separate b a.
Proof. unfold apart. tauto. Qed.

(** A poke at an address that is apart from the entries. *)
Lemma planted_poke bps off m a w :
  planted bps off m -> (forall b, b ∈ bps -> separate a (entry_address b)) ->
  planted bps off (poke_word word_size m a w).
Proof.
  intros Hp Ha b Hb. destruct (Hp b Hb) as [Hm Hpk]. split; [by apply mapped_poke |].
  unfold peek. rewrite peek_poke_apart; [exact Hpk | by apply Ha].
Qed.

(** The entry of [b] is planted, or its code is recovered. *)
Lemma planted_set bps off m b :
  bps_ok bps -> planted bps off m -> b ∈ bps -> off = None \/ off = Some b ->
  planted bps None (poke_word word_size m (entry_address b) (trap_word (entry_code b))) /\
  planted bps (Some b) (poke_word word_size m (entry_address b) (entry_code b)).
Proof.
  intros Hok Hp Hb Hoff.
  split; intros b' Hb'; (split; [apply mapped_poke, (Hp b' Hb') |]);
    destruct (decide (b' = b)) as [-> | Hne].
  - rewrite decide_False by done. apply peek_set_data; [apply (Hp b Hb) | apply trap_range].
  - rewrite decide_False by done. unfold peek.
    rewrite peek_poke_apart by (by apply (bo_apart _ Hok)).
    destruct (Hp b' Hb') as [_ Hpk]. unfold peek in Hpk. rewrite Hpk.
    rewrite decide_False; [done |]. destruct Hoff as [-> | ->]; congruence.
  - rewrite decide_True by done. apply peek_set_data; [apply (Hp b Hb) | by apply (bo_code _ Hok)].
  - rewrite decide_False by congruence. unfold peek.
    rewrite peek_poke_apart by (by apply (bo_apart _ Hok)).
    destruct (Hp b' Hb') as [_ Hpk]. unfold peek in Hpk. rewrite Hpk.
    rewrite decide_False; [done |]. destruct Hoff as [-> | ->]; congruence.
Qed.

(** [breakpoint_cleanup] writes the original code. *)
Lemma cleanup_run bps bps' m :
  bps_ok bps -> (forall b, b ∈ bps' -> b ∈ bps) -> (forall b, b ∈ bps -> is_mapped m (entry_address b)) ->
  exists m', breakpoint_cleanup bps' m = Some (tt, m') /\
    (forall b, b ∈ bps -> b ∈ bps' \/ peek m (entry_address b) = entry_code b ->
       peek m' (entry_address b) = entry_code b) /\
    (forall a, is_mapped m a -> is_mapped m' a) /\
    (forall a, (forall b, b ∈ bps -> separate (entry_address b) a) -> peek m' a = peek m a).
Proof.
  intros Hok. revert m. induction bps' as [| b bps' IH]; intros m Hsub Hm.
  - exists m. split_and!; try done. intros b _ [[]%elem_of_nil | ?]; done.
  - assert (b ∈ bps) as Hb by (apply Hsub; set_solver).
    destruct (IH (poke_word word_size m (entry_address b) (entry_code b)))
      as (m' & Hrun & Hcode & Hmap & Hother); [set_solver | |].
    { intros b' Hb'. by apply mapped_poke, Hm. }
    exists m'. split_and!.
    + cbn [breakpoint_cleanup]. by erewrite cmd_bind_Some by done.
    + intros b' Hb' Hin. apply Hcode; [done |].
      destruct (decide (b' = b)) as [-> | Hne].
      * right. apply peek_set_data; [by apply Hm | by apply (bo_code _ Hok)].
      * destruct Hin as [[-> | ?]%elem_of_cons | Hpk]; [done | by left | right].
        unfold peek. rewrite peek_poke_apart; [exact Hpk |]. by apply (bo_apart _ Hok).
    + intros a Ha. by apply Hmap, mapped_poke.
    + intros a Ha. rewrite Hother by done. unfold peek. apply peek_poke_apart. by apply Ha.
Qed.

(** ** The initialisation *)

Definition mem_ok (m : target_mem) : Prop := forall a b, m !! a = Some b -> 0 <= b < 2 ^ 8.

(** The functions are in the symbol table, mapped, and do not overlap. *)
Definition symbols_ok (m : target_mem) (names : list string) : Prop :=
  (forall nm, nm ∈ names -> symtab_by_name nm <> 0 /\ is_mapped m (symtab_by_name nm)) /\
  (forall nm nm', nm ∈ names -> nm' ∈ names -> nm <> nm' ->
     separate (symtab_by_name nm) (symtab_by_name nm')).

Lemma read_bytes_range m a n bs :
  mem_ok m -> read_bytes m a n = Some bs -> Forall (fun b => 0 <= b < 2 ^ 8) bs.
Proof.
  intros Hm. revert a bs. induction n as [| n IH]; intros a bs; cbn [read_bytes].
  - intros [= <-]. constructor.
  - intros (b & Hb & Hbs)%bind_Some. apply bind_Some in Hbs as (bs' & Hbs & [= <-]).
    constructor; [by eapply Hm | by eapply IH].
Qed.

Lemma peek_range m a : mem_ok m -> 0 <= peek m a < 2 ^ (8 * Z.of_nat word_size).
Proof.
  intros Hm. unfold peek, peek_word. destruct (read_bytes m a word_size) as [bs |] eqn:E; [| lia].
  rewrite <- (length_read_bytes _ _ _ _ E). apply word_of_range. by eapply read_bytes_range.
Qed.

Lemma write_bytes_ok m a bs :
  mem_ok m -> Forall (fun b => 0 <= b < 2 ^ 8) bs -> mem_ok (write_bytes m a bs).
Proof.
  intros Hm Hbs. revert a. induction Hbs as [| b bs Hb _ IH]; intros a; cbn [write_bytes]; [done |].
  intros i b'. rewrite lookup_insert. case_decide; [by intros [= <-] | by apply IH].
Qed.

Lemma bytes_of_range n w : Forall (fun b => 0 <= b < 2 ^ 8) (bytes_of n w).
Proof.
  revert w. induction n as [| n IH]; intros w; cbn [bytes_of]; constructor; [| done].
  apply Z.mod_pos_bound. lia.
Qed.

Lemma poke_ok m a w : mem_ok m -> mem_ok (poke_word word_size m a w).
Proof.
  intros Hm. unfold poke_word. destruct (read_bytes m a word_size); [| done].
  apply write_bytes_ok; [done | apply bytes_of_range].
Qed.

Lemma init_all_run apis m :
  mem_ok m -> symbols_ok m (apis.*1) -> NoDup (apis.*1) ->
  exists bps m', init_all apis m = Some (Some bps, m') /\ name <$> bps = apis.*1 /\
    bp_handler <$> bps = apis.*2 /\
    (forall b, b ∈ bps -> entry_address b = symtab_by_name (name b) /\
       entry_code b = peek m (entry_address b) /\ is_mapped m' (entry_address b) /\
       peek m' (entry_address b) = trap_word (entry_code b)) /\
    (forall a, (forall nm, nm ∈ apis.*1 -> separate (symtab_by_name nm) a) -> peek m' a = peek m a) /\
    (forall a, is_mapped m a -> is_mapped m' a).
Proof.
  revert m. induction apis as [| [nm h] apis IH]; intros m Hm [Hsym Hap] Hnd.
  - exists [], m. split_and!; try done. by intros b ?%elem_of_nil.
  - cbn [fmap list_fmap fst] in *. apply NoDup_cons in Hnd as [Hn Hnd].
    destruct (Hsym nm ltac:(set_solver)) as [Hnz Hma].
    set (e := symtab_by_name nm) in *. set (code := peek m e).
    set (m1 := poke_word word_size m e (trap_word code)).
    destruct (IH m1) as (bps & m' & Hrun & Hnames & Hhs & Hb & Hother & Hmap).
    { by apply poke_ok. }
    { split; [intros nm' Hnm'; split; [apply Hsym; set_solver | apply mapped_poke, Hsym; set_solver] |].
      intros; apply Hap; set_solver. }
    { done. }
    exists (mk_breakpoint nm h e code :: bps), m'. split_and!.
    + cbn [init_all]. unfold do_breakpoint_init. fold e. rewrite (proj2 (Z.eqb_neq _ _) Hnz).
      erewrite (cmd_bind_Some _ _ _ (Some (mk_breakpoint nm h e code)) m1) by done. cbn beta iota.
      by erewrite cmd_bind_Some by exact Hrun.
    + cbn [fmap list_fmap name]. by rewrite Hnames.
    + cbn [fmap list_fmap bp_handler snd]. by rewrite Hhs.
    + intros b [-> | Hin]%elem_of_cons; cbn [entry_address entry_code name].
      * split_and!; [done | done | by apply Hmap, mapped_poke |].
        rewrite Hother; [apply peek_poke; [done | apply trap_range] |].
        intros nm' Hnm'. apply Hap; set_solver.
      * destruct (Hb b Hin) as (E1 & E2 & E3 & E4). split_and!; [done | | done | done].
        rewrite E2. unfold peek. apply peek_poke_apart. rewrite E1. apply Hap; [set_solver | |].
        -- assert (name b ∈ apis.*1) by (rewrite <- Hnames; by apply list_elem_of_fmap_2). set_solver.
        -- intros ->. apply Hn. rewrite <- Hnames. by apply list_elem_of_fmap_2.
    + intros a Ha. rewrite Hother by (intros; apply Ha; set_solver).
      unfold peek. apply peek_poke_apart. apply Ha. set_solver.
    + intros a Ha. by apply Hmap, mapped_poke.
Qed.

(** The breakpoints after [breakpoint_init]: one per function of the API, in
    order, planted, with the code that was there. *)
Lemma breakpoint_init_run m :
  mem_ok m -> symbols_ok m (api_names.*1) ->
  exists bps m', breakpoint_init m = Some (Some bps, m') /\
    bps_ok bps /\ planted bps None m' /\ name <$> bps = api_names.*1 /\
    (forall b, b ∈ bps -> entry_address b = symtab_by_name (name b) /\
       entry_code b = peek m (entry_address b)).
Proof.
  intros Hm Hs. destruct (init_all_run api_names m Hm Hs)
    as (bps & m' & Hrun & Hnames & _ & Hb & _ & _).
  { apply (bool_decide_unpack _). vm_compute. exact I. }
  exists bps, m'. split_and!; [done | | | done | naive_solver].
  - split.
    + intros b b' Hin Hin' Hne. destruct (Hb b Hin) as (-> & _), (Hb b' Hin') as (-> & _).
      apply (proj2 Hs); [rewrite <- Hnames; by apply list_elem_of_fmap_2.. |].
      intros E. apply Hne. apply list_elem_of_lookup in Hin as [i Hi], Hin' as [j Hj].
      assert (i = j) as ->; [| congruence].
      assert (NoDup (api_names.*1)) as Hnd by (apply (bool_decide_unpack _); vm_compute; exact I).
      rewrite <- Hnames in Hnd. rewrite NoDup_alt in Hnd.
      apply (Hnd i j (name b)); by rewrite list_lookup_fmap, ?Hi, ?Hj; simpl; rewrite ?E.
    + intros b Hin. destruct (Hb b Hin) as (_ & -> & _). by apply peek_range.
  - intros b Hin. rewrite decide_False by done. by destruct (Hb b Hin) as (_ & _ & ? & ?).
Qed.

Lemma init_all_app l1 l2 m bps m1 :
  init_all l1 m = Some (Some bps, m1) ->
  init_all (l1 ++ l2) m =
    match init_all l2 m1 with Some (r, m') => Some (option_map (app bps) r, m') | None => None end.
Proof.
  revert m bps m1. induction l1 as [| [nm h] l1 IH]; intros m bps m1 Hrun.
  - injection Hrun as <- <-. cbn [app]. by destruct (init_all l2 m) as [[[bps |] m'] |].
  - cbn [app init_all] in *. apply cmd_bind_inv in Hrun as ([b |] & m2 & Hb & Hrun); [| done].
    apply cmd_bind_inv in Hrun as ([bs |] & m3 & Hbs & [= <- <-]).
    erewrite cmd_bind_Some by exact Hb. cbn beta iota. unfold mbind, cmd_bind.
    rewrite (IH m2 bs m3 Hbs). by destruct (init_all l2 m3) as [[[bps |] m'] |].
Qed.

(** When a function of the API is not in the symbol table, [breakpoint_init]
    exits; the breakpoints of the functions before it have been planted by then,
    and they are left in the target, which nothing follows any more. *)
Lemma breakpoint_init_missing l1 nm h l2 m :
  api_names = l1 ++ (nm, h) :: l2 -> symtab_by_name nm = 0 -> mem_ok m -> symbols_ok m (l1.*1) ->
  exists m', breakpoint_init m = Some (None, m') /\
    forall nm', nm' ∈ l1.*1 ->
      peek m' (symtab_by_name nm') = trap_word (peek m (symtab_by_name nm')).
Proof.
  intros Happ Hnm Hm Hs.
  assert (NoDup (l1.*1)) as Hnd.
  { assert (NoDup (api_names.*1)) as Hnd by (apply (bool_decide_unpack _); vm_compute; exact I).
    rewrite Happ, fmap_app in Hnd. by apply NoDup_app in Hnd as (? & _). }
  destruct (init_all_run l1 m Hm Hs Hnd) as (bps & m' & Hrun & Hnames & _ & Hb & _).
  exists m'. split.
  - unfold breakpoint_init. rewrite Happ, (init_all_app l1 _ m bps m' Hrun). cbn [init_all].
    unfold do_breakpoint_init. rewrite Hnm. done.
  - intros nm' Hin. rewrite <- Hnames in Hin. apply list_elem_of_fmap in Hin as (b & -> & Hin).
    destruct (Hb b Hin) as (Ea & Ec & _ & Ep). by rewrite <- Ea, <- Ec.
Qed.

End breakpoint.

(** ** The loop *)

Definition SIGINT : Z := 2.
Definition SIGTRAP : Z := 5.
Definition SIGALRM : Z := 14.
Definition SIGSTOP `{!Machine} : Z := match os with LinuxOS => 19 | FreeBSDOS => 17 end.
Definition HOLD_MAX : nat := 1000.

Lemma trap_not_stop `{!Machine} : (SIGTRAP =? SIGSTOP) = false.
Proof. unfold SIGSTOP. by destruct os. Qed.

Section loop.
Context `{!Machine}.
Context {uspace_t upt_t : Type}.
Context (unw_create_addr_space : uspace_t) (UPT_create : Z -> upt_t).
Context `{!Symbolizer}.
Context (space_head spaces g_callstack_hash : Z).
Context (g_memblock_hash g_memblock_active g_memblock_expire : Z).
Context (opt_backtrace_limit : Z).
(** The options, the target, and the breakpoints. *)
Context (memory_expire memblock_limit callstack_limit g_target_pid : Z).
Context (g_breakpoints : list breakpoint_s).

Abbreviation mb_world := (mb_world (uspace_t := uspace_t) (upt_t := upt_t)).
Abbreviation handler := (handler unw_create_addr_space UPT_create space_head spaces
  g_callstack_hash g_memblock_hash g_memblock_active opt_backtrace_limit).

(** The local variables of [main] about the call that is going on. *)
Record call_state := mk_call {
  bp : option breakpoint_s;               (* None: the null pointer *)
  return_address : Z;
  return_code : Z;
  arg1 : Z;
  arg2 : Z;
  last_thread : Z
}.

(** What [main] prints from its loop on. *)
Inductive loop_msg :=
  | MsgBegin (pid : Z)
  | MsgWaitError                          (* perror *)
  | MsgTargetExit
  | MsgTerminate
  | MsgNotEnoughMemory
  | MsgUnknownBreakpoint (rip : Z)
  | MsgTooShort (seconds : Z).

(** What the program asks the kernel to do with the threads, and what it says. *)
Inductive action :=
  | Say (m : loop_msg)
  | Cont (pid signum : Z)
  | SetRegs (pid : Z) (r : registers_info_t)
  | Detach (pid : Z)
  | Alarm (seconds : Z)
  | Kill (pid signum : Z)
  | CleanedChild (pid : Z) (m : target_mem).

Record loop_state := mk_loop {
  lp_mem : target_mem;
  lp_world : mb_world;
  lp_call : call_state;
  hold_threads : list Z;                  (* the last one first *)
  g_signo : Z;
  g_current_entry : Z;
  g_current_thread : Z;
  lp_actions : list action
}.

(** A thread that stopped: what [waitpid] reports, and what is read later. *)
Record stop := mk_stop {
  st_pid : Z;
  st_signum : Z;                          (* WSTOPSIG(status) *)
  st_new_child : Z;                       (* status >> 16 *)
  st_is_task : bool;                      (* proc_task_check(g_target_pid, pid) *)
  st_regs : registers_info_t;
  st_child_mem : target_mem;              (* the memory of a process that was forked *)
  st_time : Z;
  st_frames : uspace_t -> upt_t -> Z * list Z
}.

Inductive wait_event :=
  | Signal (signo : Z)                    (* signal_handler runs *)
  | WaitError (eintr : bool)
  | NotStopped (pid : Z)
  | Stopped (st : stop).

Inductive outcome :=
  | Next                                  (* the next iteration *)
  | Break.                                (* out of the loop *)

#[local, refine] Instance lp_mem_lens : Lens loop_state target_mem := {
  view := lp_mem;
  update m s := mk_loop m (lp_world s) (lp_call s) (hold_threads s) (g_signo s)
    (g_current_entry s) (g_current_thread s) (lp_actions s)
}.
Proof. all: by try intros []. Defined.

#[local, refine] Instance lp_world_lens : Lens loop_state mb_world := {
  view := lp_world;
  update w s := mk_loop (lp_mem s) w (lp_call s) (hold_threads s) (g_signo s)
    (g_current_entry s) (g_current_thread s) (lp_actions s)
}.
Proof. all: by try intros []. Defined.

Definition act (a : action) : cmd loop_state unit := modify (fun s =>
  mk_loop (lp_mem s) (lp_world s) (lp_call s) (hold_threads s) (g_signo s)
    (g_current_entry s) (g_current_thread s) (lp_actions s ++ [a])).
Definition set_call (c : call_state) : cmd loop_state unit := modify (fun s =>
  mk_loop (lp_mem s) (lp_world s) c (hold_threads s) (g_signo s)
    (g_current_entry s) (g_current_thread s) (lp_actions s)).
Definition set_hold (l : list Z) : cmd loop_state unit := modify (fun s =>
  mk_loop (lp_mem s) (lp_world s) (lp_call s) l (g_signo s)
    (g_current_entry s) (g_current_thread s) (lp_actions s)).
Definition set_signo (n : Z) : cmd loop_state unit := modify (fun s =>
  mk_loop (lp_mem s) (lp_world s) (lp_call s) (hold_threads s) n
    (g_current_entry s) (g_current_thread s) (lp_actions s)).
Definition set_current (entry thread : Z) : cmd loop_state unit := modify (fun s =>
  mk_loop (lp_mem s) (lp_world s) (lp_call s) (hold_threads s) (g_signo s)
    entry thread (lp_actions s)).

(** The signal that it sends to the target brings the loop back from [waitpid]. *)
Definition signal_handler (signo : Z) : cmd loop_state unit :=
  set_signo signo;; act (Kill g_target_pid SIGSTOP).

(** [lexpire:] *)
Definition lexpire (st : stop) : cmd loop_state outcome :=
  entry ← gets g_current_entry;
  thread ← gets g_current_thread;
  next ← zoom (memblock_expire g_memblock_active g_memblock_expire
                 (mk_env (st_time st) entry thread (st_frames st))
                 memory_expire memblock_limit callstack_limit);
  if next <? 0 then mret Break
  else act (Alarm next);; act (Cont (st_pid st) 0);; mret Next.

(** [hold_threads[hold_thread_num++] = pid;] the array has [HOLD_MAX] items. *)
Definition hold (pid : Z) : cmd loop_state unit :=
  l ← gets hold_threads;
  if decide (length l < HOLD_MAX)%nat then set_hold (pid :: l) else undefined.

(** Back to the state without the return breakpoint. *)
Definition recover_return : cmd loop_state unit :=
  c ← gets lp_call;
  when (negb (return_address c =? 0)) (
    zoom (ptrace_set_data (return_address c) (return_code c));;
    b ← gets_opt (fun _ => bp c);
    zoom (set_breakpoint (entry_address b) (entry_code b))).

(** At a function's return; [Break] is "Not enough memory". *)
Definition at_return (st : stop) (r : registers_info_t) : cmd loop_state outcome :=
  c ← gets lp_call;
  b ← gets_opt (fun _ => bp c);
  set_current (entry_address b) (st_pid st);;
  set_call (mk_call (bp c) 0 (return_code c) (arg1 c) (arg2 c) (last_thread c));;
  res ← zoom (handler (bp_handler b)
                (mk_env (st_time st) (entry_address b) (st_pid st) (st_frames st))
                (call_return_value r) (arg1 c) (arg2 c));
  if negb (res =? 0) then act (Say MsgNotEnoughMemory);; mret Break
  else
    l ← gets hold_threads;
    match l with
    | [] => mret Next
    | t :: l => set_hold l;; act (Cont t 0);; mret Next
    end.

(** At the entry of the function of [b]. *)
Definition at_entry (st : stop) (r : registers_info_t) (b : breakpoint_s) : cmd loop_state outcome :=
  zoom (ptrace_set_data (entry_address b) (entry_code b));;
  ra ← gets (fun s => call_return_address (ptrace_get_data (lp_mem s)) r);
  rc ← gets (fun s => ptrace_get_data (lp_mem s) ra);
  zoom (set_breakpoint ra rc);;
  a1 ← gets (fun s => call_arg1 (ptrace_get_data (lp_mem s)) r);
  a2 ← gets (fun s => call_arg2 (ptrace_get_data (lp_mem s)) r);
  set_call (mk_call (Some b) ra rc a1 a2 (st_pid st));;
  mret Next.

(** At neither; [bp] is null now. *)
Definition at_other (rip : Z) : cmd loop_state outcome :=
  c ← gets lp_call;
  set_call (mk_call None (return_address c) (return_code c) (arg1 c) (arg2 c) (last_thread c));;
  trap ← gets (fun s => is_breakpoint (lp_mem s) rip);
  if trap : bool then act (Say (MsgUnknownBreakpoint rip));; mret Break else mret Next.

(** A thread that stopped by SIGTRAP. *)
Definition on_trap (st : stop) : cmd loop_state outcome :=
  if negb (st_new_child st =? 0) then act (Cont (st_pid st) 0);; mret Next
  else
    let '(nr, rip) := pc_unwind (st_regs st) in
    match nr with Some r => act (SetRegs (st_pid st) r) | None => mret tt end;;
    let r := default (st_regs st) nr in
    c ← gets lp_call;
    if negb (return_address c =? 0) && negb (last_thread c =? st_pid st) then
      hold (st_pid st);; mret Next
    else
      recover_return;;
      o ← (if rip =? return_address c then at_return st r
           else match breakpoint_by_entry g_breakpoints rip with
                | Some b => at_entry st r b
                | None => at_other rip
                end);
      match o with
      | Break => mret Break
      | Next => lexpire st
      end.

(** A thread that stopped by SIGSTOP. *)
Definition on_sigstop (st : stop) : cmd loop_state outcome :=
  signo ← gets g_signo;
  if signo =? SIGALRM then set_signo 0;; lexpire st
  else if negb (signo =? 0) then act (Say MsgTerminate);; mret Break
  else if st_is_task st then act (Cont (st_pid st) 0);; mret Next
  else
    (* a forked process has its own copy of the memory *)
    '(_, m) ← gets_opt (fun _ => breakpoint_cleanup g_breakpoints (st_child_mem st));
    act (CleanedChild (st_pid st) m);;
    act (Detach (st_pid st));;
    mret Next.

Definition loop_step (ev : wait_event) : cmd loop_state outcome :=
  match ev with
  | Signal signo => signal_handler signo;; mret Next
  | WaitError eintr => if eintr then mret Next else act (Say MsgWaitError);; mret Break
  | NotStopped pid =>
      if negb (pid =? g_target_pid) then mret Next else act (Say MsgTargetExit);; mret Break
  | Stopped st =>
      if st_signum st =? SIGSTOP then on_sigstop st
      else if negb (st_signum st =? SIGTRAP) then
        act (Cont (st_pid st) (st_signum st));; mret Next
      else on_trap st
  end.

(** After the loop. *)
Definition clean_up : cmd loop_state unit :=
  zoom (breakpoint_cleanup g_breakpoints);;
  c ← gets lp_call;
  when (negb (return_address c =? 0)) (zoom (ptrace_set_data (return_address c) (return_code c)));;
  act (Detach g_target_pid).

(** ** The invariant of the loop *)

Abbreviation peek := (ptrace_get_data).
Abbreviation is_mapped := (mapped word_size).
Abbreviation separate := (apart word_size).

Context (Hbps : bps_ok g_breakpoints).

(** The entry that is recovered while its function runs. *)
Definition pending (c : call_state) : option breakpoint_s :=
  if return_address c =? 0 then None else bp c.

(** The word of the return breakpoint: it is apart from the entries, and it is
    planted, unless [bp] is null, when it was recovered. *)
Definition return_inv (m : target_mem) (c : call_state) : Prop :=
  return_address c <> 0 ->
  is_mapped m (return_address c) /\
  (forall b, b ∈ g_breakpoints -> separate (return_address c) (entry_address b)) /\
  0 <= return_code c < 2 ^ (8 * Z.of_nat word_size) /\
  match bp c with
  | Some b => b ∈ g_breakpoints /\ peek m (return_address c) = trap_word (return_code c)
  | None => peek m (return_address c) = return_code c
  end.

Record code_inv (s : loop_state) : Prop := {
  ci_entries : planted g_breakpoints (pending (lp_call s)) (lp_mem s);
  ci_return : return_inv (lp_mem s) (lp_call s)
}.

(** Commands that do not touch the memory of the target or the current call. *)
Definition keeps_code {A} (m : cmd loop_state A) : Prop :=
  forall s a s', m s = Some (a, s') -> lp_mem s' = lp_mem s /\ lp_call s' = lp_call s.

Lemma keeps_inv s s' :
  lp_mem s' = lp_mem s /\ lp_call s' = lp_call s -> code_inv s -> code_inv s'.
Proof. intros [E1 E2] []. constructor; by rewrite E1, ?E2. Qed.

Lemma keeps_bind {A B} (m : cmd loop_state A) (f : A -> cmd loop_state B) :
  keeps_code m -> (forall a, keeps_code (f a)) -> keeps_code (m ≫= f).
Proof.
  intros Hm Hf s b s'' Hrun. apply cmd_bind_inv in Hrun as (a & s' & H1 & H2).
  destruct (Hm _ _ _ H1), (Hf _ _ _ _ H2). split; congruence.
Qed.

Lemma keeps_ret {A} (a : A) : keeps_code (mret a).
Proof. by intros s a' s' [= <- <-]. Qed.

Lemma keeps_gets {A} (f : loop_state -> A) : keeps_code (gets f).
Proof. by intros s a' s' [= <- <-]. Qed.

Lemma keeps_gets_opt {A} (f : loop_state -> option A) : keeps_code (gets_opt f).
Proof. intros s a' s'. unfold gets_opt. by destruct (f s); intros [= <- <-]. Qed.

Lemma keeps_act a : keeps_code (act a).
Proof. by intros s [] s' [= <-]. Qed.

Lemma keeps_set_hold l : keeps_code (set_hold l).
Proof. by intros s [] s' [= <-]. Qed.

Lemma keeps_set_signo n : keeps_code (set_signo n).
Proof. by intros s [] s' [= <-]. Qed.

Lemma keeps_set_current e th : keeps_code (set_current e th).
Proof. by intros s [] s' [= <-]. Qed.

Lemma keeps_world {A} (m : cmd mb_world A) : keeps_code (zoom m).
Proof. intros s a s'. unfold zoom. destruct (m _) as [[? ?] |]; [| done]. by intros [= <- <-]. Qed.

Lemma keeps_undefined {A} : keeps_code (undefined : cmd loop_state A).
Proof. by intros s a s'. Qed.

#[local] Hint Resolve @keeps_bind @keeps_ret @keeps_gets @keeps_gets_opt keeps_act keeps_set_hold
  keeps_set_signo keeps_set_current @keeps_world @keeps_undefined : memleax.

Ltac solve_keeps :=
  repeat first
    [ apply keeps_bind; [| intros ?]
    | match goal with |- keeps_code (match ?x with _ => _ end) => destruct x end
    | solve [eauto with memleax] ].

Lemma lexpire_keeps st : keeps_code (lexpire st).
Proof. unfold lexpire. solve_keeps. Qed.

Lemma hold_keeps pid : keeps_code (hold pid).
Proof. unfold hold. solve_keeps. Qed.

Lemma on_sigstop_keeps st : keeps_code (on_sigstop st).
Proof. unfold on_sigstop. solve_keeps. Qed.

(** *** At a breakpoint *)

(** All the entries are planted, and the return address has its own code. *)
Definition recovered (s : loop_state) : Prop :=
  planted g_breakpoints None (lp_mem s) /\
  (return_address (lp_call s) <> 0 ->
   is_mapped (lp_mem s) (return_address (lp_call s)) /\
   (forall b, b ∈ g_breakpoints -> separate (return_address (lp_call s)) (entry_address b)) /\
   0 <= return_code (lp_call s) < 2 ^ (8 * Z.of_nat word_size) /\
   peek (lp_mem s) (return_address (lp_call s)) = return_code (lp_call s)).

Lemma recovered_keeps s s' :
  lp_mem s' = lp_mem s /\ lp_call s' = lp_call s -> recovered s -> recovered s'.
Proof. intros [E1 E2]. unfold recovered. by rewrite E1, E2. Qed.

(** The memory after the return breakpoint was recovered. *)
Definition recovered_mem (m : target_mem) (c : call_state) : target_mem :=
  if return_address c =? 0 then m
  else match bp c with
       | Some b =>
           poke_word word_size (poke_word word_size m (return_address c) (return_code c))
             (entry_address b) (trap_word (entry_code b))
       | None => m
       end.

Lemma recover_return_run s u s' :
  code_inv s -> recover_return s = Some (u, s') ->
  recovered s' /\ lp_call s' = lp_call s /\ lp_mem s' = recovered_mem (lp_mem s) (lp_call s).
Proof.
  intros [He Hr] Hrun. unfold recover_return in Hrun.
  apply cmd_bind_inv in Hrun as (c & s1 & [= <- <-] & Hrun).
  destruct (Z.eqb_spec (return_address (lp_call s)) 0) as [E | Hne]; cbn [negb when] in Hrun.
  - injection Hrun as _ <-. unfold recovered_mem. rewrite (proj2 (Z.eqb_eq _ _) E).
    split; [| done]. split; [| done].
    unfold pending in He. by rewrite E in He.
  - destruct (Hr Hne) as (Hm & Hap & Hrc & Hbp).
    apply cmd_bind_inv in Hrun as ([] & s1 & [= <-] & Hrun).
    apply cmd_bind_inv in Hrun as (b & s2 & Hb & [= _ <-]).
    unfold gets_opt in Hb. destruct (bp (lp_call s)) as [b' |] eqn:Ebp; [| done]. simplify_eq.
    destruct Hbp as [Hb Hpk]. unfold pending in He.
    rewrite (proj2 (Z.eqb_neq _ _) Hne), Ebp in He.
    set (m1 := poke_word word_size (lp_mem s) (return_address (lp_call s))
      (return_code (lp_call s))).
    assert (planted g_breakpoints (Some b) m1) as Hp1 by (apply planted_poke; [exact He | exact Hap]).
    destruct (planted_set _ _ _ b Hbps Hp1 Hb ltac:(by right)) as [Hp2 _].
    unfold recovered_mem. rewrite (proj2 (Z.eqb_neq _ _) Hne), Ebp.
    split; [split; [exact Hp2 |] | done]. intros _.
    simpl. split_and!; [by apply mapped_poke, mapped_poke | done | lia | lia |].
    unfold peek. rewrite peek_poke_apart by (by apply separate_sym, Hap).
    by apply peek_poke.
Qed.

(** What is assumed of a thread that stops at the entry of [b]: the caller is
    not in the first instructions of an allocation function. *)
Definition entry_assumption (m : target_mem) (r : registers_info_t) (b : breakpoint_s) : Prop :=
  let m' := poke_word word_size m (entry_address b) (entry_code b) in
  let ra := call_return_address (peek m') r in
  ra <> 0 /\ is_mapped m' ra /\
  (forall b', b' ∈ g_breakpoints -> separate ra (entry_address b')) /\
  0 <= peek m' ra < 2 ^ (8 * Z.of_nat word_size).

Lemma at_entry_inv st r b s o s' :
  recovered s -> b ∈ g_breakpoints -> entry_assumption (lp_mem s) r b ->
  at_entry st r b s = Some (o, s') -> code_inv s'.
Proof.
  intros [Hp _] Hb (Hra & Hm & Hap & Hrc) Hrun. unfold at_entry in Hrun.
  destruct (planted_set _ _ _ b Hbps Hp Hb ltac:(by left)) as [_ Hp1].
  apply cmd_bind_inv in Hrun as ([] & s1 & [= <-] & Hrun).
  apply cmd_bind_inv in Hrun as (ra & s1 & [= <- <-] & Hrun).
  apply cmd_bind_inv in Hrun as (rc & s1 & [= <- <-] & Hrun).
  apply cmd_bind_inv in Hrun as ([] & s1 & [= <-] & Hrun).
  apply cmd_bind_inv in Hrun as (a1 & s1 & [= <- <-] & Hrun).
  apply cmd_bind_inv in Hrun as (a2 & s1 & [= <- <-] & [= <- <-]).
  simpl. constructor; simpl.
  - unfold pending. simpl. rewrite (proj2 (Z.eqb_neq _ _) Hra).
    apply planted_poke; [exact Hp1 | exact Hap].
  - intros _. simpl. split_and!; [by apply mapped_poke | done | lia | lia | done |].
    apply peek_poke; [done | apply trap_range].
Qed.

Lemma at_return_inv st r s o s' :
  recovered s -> at_return st r s = Some (o, s') -> code_inv s'.
Proof.
  intros [Hp _] Hrun. unfold at_return in Hrun.
  apply cmd_bind_inv in Hrun as (c & s1 & [= <- <-] & Hrun).
  apply cmd_bind_inv in Hrun as (b & s1 & Hb & Hrun).
  apply keeps_gets_opt in Hb as [Em1 Ec1].
  apply cmd_bind_inv in Hrun as ([] & s2 & [= <-] & Hrun).
  apply cmd_bind_inv in Hrun as ([] & s2 & [= <-] & Hrun).
  match type of Hrun with ?k ?s1 = _ => set (s2 := s1) in *; set (k1 := k) in * end.
  assert (keeps_code k1) as Hk by (unfold k1; solve_keeps).
  apply Hk in Hrun. eapply keeps_inv; [exact Hrun |].
  constructor; simpl; [by rewrite Em1 | done].
Qed.

Lemma at_other_inv a s o s' : recovered s -> at_other a s = Some (o, s') -> code_inv s'.
Proof.
  intros [Hp Hr] Hrun. unfold at_other in Hrun.
  apply cmd_bind_inv in Hrun as (c & s1 & [= <- <-] & Hrun).
  apply cmd_bind_inv in Hrun as ([] & s1 & [= <-] & Hrun).
  match type of Hrun with ?k ?s1 = _ => set (s1' := s1) in *; set (k1 := k) in * end.
  assert (keeps_code k1) as Hk by (unfold k1; solve_keeps).
  apply Hk in Hrun. eapply keeps_inv; [exact Hrun |].
  constructor; simpl; [| done]. unfold pending. simpl. by destruct (_ =? 0).
Qed.

Lemma breakpoint_by_entry_elem bps a b : breakpoint_by_entry bps a = Some b -> b ∈ bps.
Proof.
  induction bps as [| b' bps IH]; simpl; [done |].
  destruct (_ =? _); [intros [= ->]; set_solver | intros ?%IH; set_solver].
Qed.

(** The assumption on an event, when a thread is at an entry. *)
Definition stop_assumption (st : stop) (s : loop_state) : Prop :=
  let '(nr, rip) := pc_unwind (st_regs st) in
  forall b, breakpoint_by_entry g_breakpoints rip = Some b ->
    entry_assumption (recovered_mem (lp_mem s) (lp_call s)) (default (st_regs st) nr) b.

Definition event_assumption (ev : wait_event) (s : loop_state) : Prop :=
  match ev with Stopped st => st_signum st = SIGTRAP -> stop_assumption st s | _ => True end.

Lemma on_trap_inv st s o s' :
  code_inv s -> stop_assumption st s -> on_trap st s = Some (o, s') -> code_inv s'.
Proof.
  intros Hinv Hst Hrun. unfold on_trap in Hrun. destruct (negb (st_new_child st =? 0)).
  { eapply keeps_inv; [| exact Hinv]. revert Hrun.
    apply (keeps_bind (act _) (fun _ => mret Next)); auto with memleax. }
  unfold stop_assumption in Hst. destruct (pc_unwind (st_regs st)) as [nr rip].
  apply cmd_bind_inv in Hrun as (u & s0 & Hset & Hrun).
  assert (lp_mem s0 = lp_mem s /\ lp_call s0 = lp_call s) as Hk0.
  { revert Hset. destruct nr; [apply keeps_act | apply keeps_ret]. }
  cbv zeta in Hrun. apply cmd_bind_inv in Hrun as (c & s1 & [= <- <-] & Hrun).
  destruct (_ && _).
  { eapply keeps_inv; [| by eapply keeps_inv]. revert Hrun.
    apply keeps_bind; [apply hold_keeps | auto with memleax]. }
  apply cmd_bind_inv in Hrun as ([] & s1 & Hrec1 & Hrun).
  destruct (recover_return_run s0 tt s1 (keeps_inv _ _ Hk0 Hinv) Hrec1) as (Hrec & _ & Hmem).
  destruct Hk0 as [Em Ec]. rewrite Em, Ec in Hmem.
  apply cmd_bind_inv in Hrun as (o2 & s2 & Hcase & Hrun).
  enough (code_inv s2) as Hinv2.
  { destruct o2; [eapply keeps_inv; [| exact Hinv2]; by eapply lexpire_keeps |].
    by injection Hrun as _ <-. }
  clear Hrun. destruct (rip =? return_address (lp_call s0)); [by eapply at_return_inv |].
  destruct (breakpoint_by_entry g_breakpoints rip) as [b |] eqn:Eb; [| by eapply at_other_inv].
  eapply at_entry_inv; [exact Hrec | by eapply breakpoint_by_entry_elem | | exact Hcase].
  rewrite Hmem. by apply Hst.
Qed.

Lemma loop_step_inv ev s o s' :
  code_inv s -> event_assumption ev s -> loop_step ev s = Some (o, s') -> code_inv s'.
Proof.
  intros Hinv Hev. destruct ev as [signo | eintr | pid | st]; simpl.
  - intros Hrun. eapply keeps_inv; [| exact Hinv]. revert Hrun. unfold signal_handler. solve_keeps.
  - intros Hrun. eapply keeps_inv; [| exact Hinv]. revert Hrun.
    destruct eintr; [apply keeps_ret | apply keeps_bind; auto with memleax].
  - intros Hrun. eapply keeps_inv; [| exact Hinv]. revert Hrun.
    destruct (negb _); [apply keeps_ret | apply keeps_bind; auto with memleax].
  - destruct (_ =? SIGSTOP).
    { intros Hrun. eapply keeps_inv; [by eapply on_sigstop_keeps | exact Hinv]. }
    destruct (Z.eqb_spec (st_signum st) SIGTRAP) as [E |]; cbn [negb];
      [by apply on_trap_inv; [| apply Hev] |].
    intros Hrun. eapply keeps_inv; [| exact Hinv]. revert Hrun. apply keeps_bind; auto with memleax.
Qed.

(** ** Runs of the monitor and of the target *)

(** The target ran: its memory is [m'] now; the code at the breakpoints that
    are planted, or were, is as before. *)
Definition target_ran (s : loop_state) (m' : target_mem) : Prop :=
  forall a, (exists b, b ∈ g_breakpoints /\ a = entry_address b) \/
            (return_address (lp_call s) <> 0 /\ a = return_address (lp_call s)) ->
    (is_mapped (lp_mem s) a -> is_mapped m' a) /\ peek m' a = peek (lp_mem s) a.

Inductive loop_trans : loop_state -> loop_state -> Prop :=
  | trans_event ev s s' :
      event_assumption ev s -> loop_step ev s = Some (Next, s') -> loop_trans s s'
  | trans_target s m' :
      target_ran s m' -> loop_trans s (update m' s).

Lemma loop_trans_inv s s' : loop_trans s s' -> code_inv s -> code_inv s'.
Proof.
  intros [ev s1 s2 Hev Hrun | s1 m' Hran] Hinv; [by eapply loop_step_inv |].
  destruct Hinv as [He Hr]. constructor; simpl.
  - intros b Hb. destruct (He b Hb) as [Hm Hpk].
    destruct (Hran (entry_address b)) as [Hm' Hpk']; [left; by exists b |].
    split; [by apply Hm' |]. by rewrite Hpk'.
  - intros Hne. destruct (Hr Hne) as (Hm & Hap & Hrc & Hbp).
    destruct (Hran (return_address (lp_call s1))) as [Hm' Hpk']; [by right |].
    split_and!; [by apply Hm' | done | lia | lia |]. by rewrite Hpk'.
Qed.

(** The last event breaks out of the loop. *)
Definition monitor_run (s s' : loop_state) : Prop :=
  exists s1 ev, rtc loop_trans s s1 /\ event_assumption ev s1 /\ loop_step ev s1 = Some (Break, s').

Lemma monitor_run_inv s s' : code_inv s -> monitor_run s s' -> code_inv s'.
Proof.
  intros Hinv (s1 & ev & Hs & Hev & Hrun). eapply loop_step_inv; [| exact Hev | exact Hrun].
  clear Hrun. induction Hs; eauto using loop_trans_inv.
Qed.

Lemma clean_up_run s :
  code_inv s ->
  exists s', clean_up s = Some (tt, s') /\
    (forall b, b ∈ g_breakpoints -> peek (lp_mem s') (entry_address b) = entry_code b) /\
    (return_address (lp_call s) <> 0 ->
       peek (lp_mem s') (return_address (lp_call s)) = return_code (lp_call s)).
Proof.
  intros [He Hr]. unfold clean_up.
  destruct (cleanup_run g_breakpoints g_breakpoints (lp_mem s) Hbps) as (m & Hrun & Hcode & Hmap & _);
    [done | intros b Hb; apply (He b Hb) |].
  erewrite cmd_bind_Some by (apply zoom_Some; exact Hrun).
  erewrite (cmd_bind_Some (gets lp_call) _ _ (lp_call s)) by done. cbn beta.
  destruct (Z.eqb_spec (return_address (lp_call s)) 0) as [E | Hne]; cbn [negb when].
  - eexists. split; [done |]. split; [| done]. intros b Hb. apply Hcode; [done | by left].
  - destruct (Hr Hne) as (Hm & Hap & Hrc & _). eexists. split; [done |]. simpl. split.
    + intros b Hb. unfold peek. rewrite peek_poke_apart by by apply Hap.
      apply Hcode; [done | by left].
    + intros _. apply peek_poke; [by apply Hmap | done].
Qed.

End loop.

(** When the monitor detaches, the code of the target is what it was
    before.  [breakpoint_init] plants its breakpoints; then the target and the
    monitor run, with any events, until an event ends the loop; then [clean_up]
    leaves, at the four functions of the allocation API, the words that were
    there at the beginning, and at the return address of a call that is still
    going on, if there is one, the word that the return breakpoint replaced. *)
Lemma target_code_restored `{!Machine} {uspace_t upt_t : Type} unw UPT `{!Symbolizer}
    space_head spaces cs_hash mb_hash active expire limit memory_expire memblock_limit
    callstack_limit pid symtab_by_name m0
    (s0 s : loop_state (uspace_t := uspace_t) (upt_t := upt_t)) :
  mem_ok m0 -> symbols_ok symtab_by_name m0 (api_names.*1) ->
  return_address (lp_call s0) = 0 ->
  exists bps m1, breakpoint_init symtab_by_name m0 = Some (Some bps, m1) /\
    (lp_mem s0 = m1 ->
     monitor_run unw UPT space_head spaces cs_hash mb_hash active expire limit memory_expire
       memblock_limit callstack_limit pid bps s0 s ->
     exists s', clean_up pid bps s = Some (tt, s') /\
       (forall nm, nm ∈ api_names.*1 ->
          ptrace_get_data (lp_mem s') (symtab_by_name nm) = ptrace_get_data m0 (symtab_by_name nm)) /\
       (return_address (lp_call s) <> 0 ->
          ptrace_get_data (lp_mem s') (return_address (lp_call s)) = return_code (lp_call s))).
Proof.
  intros Hm Hs Hr.
  destruct (breakpoint_init_run symtab_by_name m0 Hm Hs)
    as (bps & m1 & Hrun & Hok & Hpl & Hnames & Hb).
  exists bps, m1. split; [done |]. intros Hmem Hmon.
  assert (code_inv bps s) as Hinv.
  { eapply monitor_run_inv; [done | | exact Hmon]. constructor; [| by intros Hne; destruct Hne].
    unfold pending. by rewrite Hr, Hmem. }
  destruct (clean_up_run pid bps Hok s Hinv) as (s' & Hclean & Hcode & Hret).
  exists s'. split_and!; [done | | done]. intros nm Hnm. rewrite <- Hnames in Hnm.
  apply list_elem_of_fmap in Hnm as (b & -> & Hin). destruct (Hb b Hin) as [E1 E2].
  rewrite <- E1, Hcode by done. exact E2.
Qed.

(** A run on x86-64: [malloc] is called by the code at 8192, the return address
    on the stack at 16384; then the user interrupts the monitor. *)
Definition example_symbols (nm : string) : Z :=
  if decide (nm = "malloc"%string) then 4096
  else if decide (nm = "free"%string) then 4112
  else if decide (nm = "realloc"%string) then 4128
  else if decide (nm = "calloc"%string) then 4144
  else 0.

Definition example_target : target_mem :=
  write_bytes (write_bytes (write_bytes ∅ 4096 (Z.modulo 37 <$> seqZ 85 64))
    8192 [72; 137; 195; 72; 133; 192; 116; 5]) 16384 [0; 32; 0; 0; 0; 0; 0; 0].

Definition example_regs (ip : Z) : x86_64_regs := mk_x86_64 16384 0 100 0 ip.

#[local] Existing Instance x86_64.
Import Example.

Definition example_mb_world : mb_world (uspace_t := unit) (upt_t := Z) :=
  mk_mb_world (mk_cs_world (mk_heap 16777216 33554432) example_bt_state
      (mk_hash_mem (mk_hmem ∅ ∅) ∅) ∅ [])
    static_lists (mk_hash_mem (mk_hmem ∅ ∅) ∅) ∅ 1.

Definition example_breakpoints : list breakpoint_s := Eval vm_compute in
  match breakpoint_init example_symbols example_target with
  | Some (Some bps, _) => bps
  | _ => []
  end.
Definition example_planted : target_mem :=
  default ∅ (snd <$> breakpoint_init example_symbols example_target).

Definition example_loop : loop_state (uspace_t := unit) (upt_t := Z) :=
  mk_loop example_planted example_mb_world (mk_call None 0 0 0 0 0) [] 0 0 0 [].

Definition example_stop (signum ip : Z) : stop (uspace_t := unit) (upt_t := Z) :=
  mk_stop 7 signum 0 true (example_regs ip : registers_info_t) ∅ 1000 (fun _ _ => (200, [100])).

(** An iteration, for an event. *)
Abbreviation example_step := (loop_step (uspace_t := unit) (upt_t := Z) tt (fun t => t)
  64 128 1048576 2097152 600 632 3 10 1000 1000 7 example_breakpoints).

Definition example_entered : loop_state (uspace_t := unit) (upt_t := Z) :=
  snd (default (Next, example_loop) (example_step (Stopped (example_stop SIGTRAP 4097)) example_loop)).
Definition example_signalled : loop_state (uspace_t := unit) (upt_t := Z) :=
  snd (default (Next, example_entered) (example_step (Signal SIGINT) example_entered)).
Definition example_broken : loop_state (uspace_t := unit) (upt_t := Z) :=
  snd (default (Next, example_signalled)
         (example_step (Stopped (example_stop SIGSTOP 4097)) example_signalled)).

Lemma option_split {A B} (d : A * B) (o : option (A * B)) a :
  fst <$> o = Some a -> o = Some (a, snd (default d o)).
Proof. destruct o as [[a' b] |]; [| done]. by intros [= ->]. Qed.

Lemma example_init :
  breakpoint_init example_symbols example_target =
  Some (Some example_breakpoints, example_planted).
Proof.
  rewrite (option_split (None, ∅) (breakpoint_init _ _) (Some example_breakpoints))
    by (vm_compute; reflexivity).
  unfold example_planted. by destruct (breakpoint_init _ _) as [[? ?] |].
Qed.

Lemma example_step_entry :
  example_step (Stopped (example_stop SIGTRAP 4097)) example_loop = Some (Next, example_entered).
Proof. apply option_split. vm_compute. reflexivity. Qed.

Lemma example_step_signal :
  example_step (Signal SIGINT) example_entered = Some (Next, example_signalled).
Proof. apply option_split. vm_compute. reflexivity. Qed.

Lemma example_step_break :
  example_step (Stopped (example_stop SIGSTOP 4097)) example_signalled =
  Some (Break, example_broken).
Proof. apply option_split. vm_compute. reflexivity. Qed.

Lemma example_target_ok : mem_ok example_target.
Proof.
  unfold example_target. repeat (apply write_bytes_ok; [| apply (bool_decide_unpack _); vm_compute; exact I]).
  by intros a b.
Qed.

(** [symbols_ok], for addresses that can be computed. *)
Ltac compute_symbols_ok :=
  split;
  [ intros nm Hnm;
    repeat (apply elem_of_cons in Hnm as [-> | Hnm]; [split; [done | by eexists] |]);
    by apply elem_of_nil in Hnm
  | intros nm nm' Hnm Hnm' Hne;
    repeat (apply elem_of_cons in Hnm as [-> | Hnm];
      [repeat (apply elem_of_cons in Hnm' as [-> | Hnm'];
         [first [done | unfold apart; vm_compute; (by left) || (by right)] |]);
       by apply elem_of_nil in Hnm' |]);
    by apply elem_of_nil in Hnm ].

Lemma example_symbols_ok : symbols_ok example_symbols example_target (api_names.*1).
Proof. compute_symbols_ok. Qed.

Lemma example_entry_assumption :
  stop_assumption example_breakpoints (example_stop SIGTRAP 4097) example_loop.
Proof.
  unfold stop_assumption. simpl pc_unwind. intros b Hb.
  assert (b = default (mk_breakpoint "" Malloc 0 0) (head example_breakpoints)) as ->
    by (injection Hb as <-; reflexivity).
  unfold entry_assumption. cbv zeta.
  match goal with |- ?ra <> 0 /\ _ => replace ra with 8192 by (vm_compute; reflexivity) end.
  split; [discriminate |]. split; [| split].
  - apply (bool_decide_unpack _). vm_compute. exact I.
  - intros b Hb'. repeat (apply elem_of_cons in Hb' as [-> | Hb'];
      [unfold apart; cbn [entry_address]; vm_compute; (left; discriminate) || (right; discriminate) |]).
    by apply elem_of_nil in Hb'.
  - match goal with |- _ <= ?w < _ => replace w with 393150746172033352 by (vm_compute; reflexivity) end.
    vm_compute. split; [discriminate | reflexivity].
Qed.

Lemma some_pair_inj {A B} (a a' : A) (b b' : B) :
  Some (Some a, b) = Some (Some a', b') -> a = a' /\ b = b'.
Proof. by intros [= -> ->]. Qed.

Lemma example_run_entry :
  loop_trans tt (fun t => t) 64 128 1048576 2097152 600 632 3 10 1000 1000 7 example_breakpoints
    example_loop example_entered.
Proof. econstructor; [| apply example_step_entry]. intros _. apply example_entry_assumption. Qed.

Lemma example_run_signal :
  loop_trans tt (fun t => t) 64 128 1048576 2097152 600 632 3 10 1000 1000 7 example_breakpoints
    example_entered example_signalled.
Proof. econstructor; [| apply example_step_signal]. exact I. Qed.

Lemma target_code_restored_witness :
  exists s', clean_up 7 example_breakpoints example_broken = Some (tt, s') /\
    (forall nm, nm ∈ api_names.*1 ->
       ptrace_get_data (lp_mem s') (example_symbols nm) =
       ptrace_get_data example_target (example_symbols nm)) /\
    (return_address (lp_call example_broken) <> 0 ->
       ptrace_get_data (lp_mem s') (return_address (lp_call example_broken)) =
       return_code (lp_call example_broken)).
Proof.
  destruct (target_code_restored tt (fun t => t) 64 128 1048576 2097152 600 632 3 10 1000 1000 7
    example_symbols example_target example_loop example_broken
    example_target_ok example_symbols_ok eq_refl) as (bps & m1 & Hrun & Himpl).
  rewrite example_init in Hrun. destruct (some_pair_inj _ _ _ _ Hrun) as [<- <-].
  apply Himpl; [reflexivity |]. exists example_signalled, (Stopped (example_stop SIGSTOP 4097)).
  split; [| split; [discriminate | exact example_step_break]].
  apply (rtc_l _ _ example_entered); [exact example_run_entry |].
  apply (rtc_l _ _ example_signalled); [exact example_run_signal | apply rtc_refl].
Defined.

(** [realloc] is not in the table. *)
Lemma breakpoint_init_missing_witness :
  exists m', breakpoint_init (fun nm => if String.eqb nm "realloc" then 0 else example_symbols nm)
      example_target = Some (None, m') /\
    ptrace_get_data m' 4096 = trap_word (ptrace_get_data example_target 4096).
Proof.
  destruct (breakpoint_init_missing (fun nm => if String.eqb nm "realloc" then 0 else example_symbols nm)
    (take 2 api_names) "realloc" Realloc [("calloc"%string, Calloc)] example_target) as (m' & Hrun & Htrap).
  - reflexivity.
  - reflexivity.
  - exact example_target_ok.
  - compute_symbols_ok.
  - exists m'. split; [exact Hrun |]. apply (Htrap "malloc"%string). by left.
Defined.
