(* ===== verification/Monitor.v ===== *)
(** * The loop of [memleax.c] follows the calls of the allocation API

    [watch] is an abstract monitor, without the memory of the target: it sees
    that a thread stops at the entry of a function, with the arguments and the
    return address of the call, or stops at the return address; and says which
    events the tracker gets.  [monitor_follows_calls]: the iterations of the loop
    give the tracker these events, and set the alarms that its scans ask for.
    With [tracker_refines], what the loop does to the memory of [memblock.c] and
    [callstack.c] is thereby specified.

    The abstract monitor also knows the threads that wait for the end of
    another one's call; it loses track when there is no room for one more.
    [loop_step_refines]: as long as it does not, the iteration is defined.
    [threads_accounted] is about all threads: none is forgotten. *)

From stdpp Require Import relations.
From S2P Require Import Prelude ListH HlistH HashH PtrBacktrace Heap Callstack.
From S2P Require Import Memblock Tracker CallstackRefine MemblockRefine Handlers Machines MainLoop.
From S2P Require Import TrackerSafe.

#[local] Existing Instance lp_world_lens.
#[local] Existing Instance lp_mem_lens.

(** A call that is going on: the function, the thread, the address to which it
    returns, and its arguments. *)
Record call := mk_ongoing {
  call_bp : breakpoint_s;
  call_thread : Z;
  call_to : Z;
  call_a1 : Z;
  call_a2 : Z
}.

(** What the monitor knows of the program. *)
Record watcher := mk_watcher {
  inside : option call;
  last_entry : Z;                   (* g_current_entry *)
  current_thread : Z;               (* g_current_thread *)
  held : list Z                     (* hold_threads, the last one first *)
}.

Section monitor.
Context `{!Machine}.
Context {uspace_t upt_t : Type}.
Context (unw_create_addr_space : uspace_t) (UPT_create : Z -> upt_t).
Context `{!Symbolizer}.
Context (space_head spaces g_callstack_hash : Z).
Context (g_memblock_hash g_memblock_active g_memblock_expire : Z).
Context (opt_backtrace_limit : Z).
Context (memory_expire memblock_limit callstack_limit g_target_pid : Z).
Context (g_breakpoints : list breakpoint_s).

Abbreviation mb_world := (mb_world (uspace_t := uspace_t) (upt_t := upt_t)).
Abbreviation loop_state := (loop_state (uspace_t := uspace_t) (upt_t := upt_t)).
Abbreviation stop := (stop (uspace_t := uspace_t) (upt_t := upt_t)).
Abbreviation wait_event := (wait_event (uspace_t := uspace_t) (upt_t := upt_t)).
Abbreviation env := (env uspace_t upt_t).
Abbreviation loop_step := (loop_step unw_create_addr_space UPT_create space_head spaces
  g_callstack_hash g_memblock_hash g_memblock_active g_memblock_expire opt_backtrace_limit
  memory_expire memblock_limit callstack_limit g_target_pid g_breakpoints).
Abbreviation on_trap := (on_trap unw_create_addr_space UPT_create space_head spaces
  g_callstack_hash g_memblock_hash g_memblock_active g_memblock_expire opt_backtrace_limit
  memory_expire memblock_limit callstack_limit g_breakpoints).
Abbreviation lexpire := (lexpire g_memblock_active g_memblock_expire memory_expire memblock_limit
  callstack_limit).
Abbreviation at_return := (at_return unw_create_addr_space UPT_create space_head spaces
  g_callstack_hash g_memblock_hash g_memblock_active opt_backtrace_limit).
Abbreviation run_event := (run_event unw_create_addr_space UPT_create space_head spaces
  g_callstack_hash g_memblock_hash g_memblock_active g_memblock_expire opt_backtrace_limit).
Abbreviation run_events := (run_events unw_create_addr_space UPT_create space_head spaces
  g_callstack_hash g_memblock_hash g_memblock_active g_memblock_expire opt_backtrace_limit).

(** ** What is seen *)

Inductive sight :=
  | Nothing (o : outcome)           (* nothing for the tracker, and whether the loop goes on *)
  | AlarmRang (st : stop)
  | Trapped (st : stop) (rip value : Z) (called : option call) (planted_here : bool).

(** The call at whose entry the thread stopped: what is read of it, after the
    return breakpoint of a call before it, and the entry, are recovered. *)
Definition call_at (s : loop_state) (st : stop) (r : registers_info_t) (b : breakpoint_s) : call :=
  let m := poke_word word_size (recovered_mem (lp_mem s) (lp_call s)) (entry_address b) (entry_code b) in
  let ra := call_return_address (ptrace_get_data m) r in
  let m' := poke_word word_size m ra (trap_word (ptrace_get_data m ra)) in
  mk_ongoing b (st_pid st) ra (call_arg1 (ptrace_get_data m') r) (call_arg2 (ptrace_get_data m') r).

Definition see (s : loop_state) (ev : wait_event) : sight :=
  match ev with
  | Signal _ => Nothing Next
  | WaitError eintr => Nothing (if eintr then Next else Break)
  | NotStopped pid => Nothing (if pid =? g_target_pid then Break else Next)
  | Stopped st =>
      if st_signum st =? SIGSTOP then
        if g_signo s =? SIGALRM then AlarmRang st
        else Nothing (if g_signo s =? 0 then Next else Break)
      else if (st_signum st =? SIGTRAP) && (st_new_child st =? 0) then
        let '(nr, rip) := pc_unwind (st_regs st) in
        let r := default (st_regs st) nr in
        Trapped st rip (call_return_value r) (call_at s st r <$> breakpoint_by_entry g_breakpoints rip)
          (is_breakpoint (recovered_mem (lp_mem s) (lp_call s)) rip)
      else Nothing Next
  end.

Lemma see_ext s s' ev :
  lp_mem s = lp_mem s' -> lp_call s = lp_call s' -> g_signo s = g_signo s' -> see s ev = see s' ev.
Proof. unfold see, call_at. by intros -> -> ->. Qed.

(** ** The abstract monitor *)

Definition env_of (wt : watcher) (st : stop) : env :=
  mk_env (st_time st) (last_entry wt) (current_thread wt) (st_frames st).

Definition scan : event := Expire memory_expire memblock_limit callstack_limit.

Definition enter (called : option call) (wt : watcher) : watcher :=
  mk_watcher (c ← called; if call_to c =? 0 then None else Some c) (last_entry wt) (current_thread wt)
    (held wt).

(** A thread that stops while another one is inside a call waits; at the call's
    return the thread that waited last goes on. *)
Definition wait_for_call (pid : Z) (wt : watcher) : watcher :=
  mk_watcher (inside wt) (last_entry wt) (current_thread wt) (pid :: held wt).
Definition leave (c : call) (pid : Z) (wt : watcher) : watcher :=
  mk_watcher None (entry_address (call_bp c)) pid (tail (held wt)).

(** The new state, the events for the tracker, and whether the loop goes on
    after them.  [None]: the code loses track, at a trap inside a call, by its
    thread, at an address that is no entry and not the call's return address
    (or a trap at address 0); or when there is no room for a thread that has to
    wait. *)
Definition watch (wt : watcher) (x : sight) : option (watcher * list (env * event) * outcome) :=
  match x with
  | Nothing o => Some (wt, [], o)
  | AlarmRang st => Some (wt, [(env_of wt st, scan)], Next)
  | Trapped st rip value called planted_here =>
      match inside wt with
      | Some c =>
          if negb (call_thread c =? st_pid st) then
            if decide (length (held wt) < HOLD_MAX)%nat then Some (wait_for_call (st_pid st) wt, [], Next)
            else None
          else if rip =? call_to c then
            let wt' := leave c (st_pid st) wt in
            Some (wt', [(env_of wt' st, Return (bp_handler (call_bp c)) value (call_a1 c) (call_a2 c));
                        (env_of wt' st, scan)], Next)
          else match called with
               | Some _ => Some (enter called wt, [(env_of wt st, scan)], Next)
               | None => None
               end
      | None =>
          if rip =? 0 then None
          else match called with
               | Some _ => Some (enter called wt, [(env_of wt st, scan)], Next)
               | None => if planted_here then Some (wt, [], Break)
                         else Some (wt, [(env_of wt st, scan)], Next)
               end
      end
  end.

(** The result of an event at which the loop ends: no memory, or a limit. *)
Definition ends_loop (ev : event) (r : Z) : bool :=
  match ev with
  | Return _ _ _ _ => negb (r =? 0)
  | Expire _ _ _ => r <? 0
  | Count => false
  end.

(** The results of the scans, among the results of the events. *)
Definition scan_result_of (ev : event) (r : Z) : list Z :=
  match ev with Expire _ _ _ => [r] | _ => [] end.
Definition scan_results (evs : list (env * event)) (rs : list Z) : list Z :=
  concat (zip_with (fun '(_, ev) r => scan_result_of ev r) evs rs).

(** Until an event ends the loop; with the results of the scans. *)
Fixpoint run_until (evs : list (env * event)) (o : outcome) : cmd mb_world (outcome * list Z) :=
  match evs with
  | [] => mret (o, [])
  | (e, ev) :: evs =>
      r ← run_event e ev;
      if ends_loop ev r then mret (Break, [])
      else '(o, al) ← run_until evs o; mret (o, scan_result_of ev r ++ al)
  end.

(** ** The simulation *)

Definition watched (s : loop_state) (wt : watcher) : Prop :=
  g_current_entry s = last_entry wt /\ g_current_thread s = current_thread wt /\
  hold_threads s = held wt /\
  match inside wt with
  | None => return_address (lp_call s) = 0
  | Some c =>
      call_to c <> 0 /\
      exists rc, lp_call s = mk_call (Some (call_bp c)) (call_to c) rc (call_a1 c) (call_a2 c) (call_thread c)
  end.

(** The alarms that were set, each of which replaces the one before it. *)
Definition alarms (acts : list action) : list Z :=
  omap (fun a => match a with Alarm n => Some n | _ => None end) acts.

Lemma alarms_other acts a : (forall n, a <> Alarm n) -> alarms (acts ++ [a]) = alarms acts.
Proof.
  intros Ha. unfold alarms. rewrite omap_app. cbn [omap list_omap].
  destruct a; by rewrite ?app_nil_r || destruct (Ha seconds).
Qed.

(** What the loop has done, when the tracker is done: the world, the alarms and
    the local variables. *)
Definition stepped (r : option ((outcome * list Z) * mb_world)) (wt' : watcher) (s0 : loop_state)
    (res : option (outcome * loop_state)) : Prop :=
  match r with
  | None => res = None
  | Some ((o, al), w) => exists s', res = Some (o, s') /\ lp_world s' = w /\
      (o = Next -> watched s' wt' /\ alarms (lp_actions s') = alarms (lp_actions s0) ++ al)
  end.

(** The world and the alarms are still those of [s0]. *)
Definition not_yet (s s0 : loop_state) : Prop :=
  lp_world s = lp_world s0 /\ alarms (lp_actions s) = alarms (lp_actions s0).

Lemma stepped_ret s o wt' s0 :
  (o = Next -> watched s wt') -> not_yet s s0 ->
  stepped (run_until [] o (lp_world s0)) wt' s0 (Some (o, s)).
Proof. intros Hw [E Ea]. exists s. rewrite E, Ea, app_nil_r. split_and!; [done | done |]. intros Ho. by split; [apply Hw |]. Qed.

Lemma lexpire_stepped s0 s wt st :
  watched s wt -> not_yet s s0 ->
  stepped (run_until [(env_of wt st, scan)] Next (lp_world s0)) wt s0 (lexpire st s).
Proof.
  intros (E1 & E2 & Eh & Hw) [E Ea]. unfold lexpire. rewrite <- E.
  do 2 (erewrite (cmd_bind_Some (gets _)) by reflexivity; cbn beta).
  unfold run_until, scan. cbn [Handlers.run_event]. rewrite E1, E2. fold (env_of wt st).
  unfold mbind, cmd_bind, zoom. cbn [view lp_world_lens].
  destruct (memblock_expire _ _ _ _ _ _ _) as [[next w] |]; [| done]. cbn [ends_loop].
  destruct (next <? 0); (eexists; split; [reflexivity | split; [done |]]); [done |].
  intros _. split; [by split_and! |]. cbn. unfold alarms in *. by rewrite !omap_app, Ea, <- app_assoc.
Qed.

(** What follows a trap that was handled. *)
Definition after_trap (st : stop) (o : outcome) : cmd loop_state outcome :=
  match o with Break => mret Break | Next => lexpire st end.

Lemma at_entry_stepped s0 s wt st r b c :
  watched s0 wt -> not_yet s s0 -> g_current_entry s = g_current_entry s0 ->
  g_current_thread s = g_current_thread s0 -> hold_threads s = hold_threads s0 ->
  lp_mem s = recovered_mem (lp_mem s0) (lp_call s0) -> c = call_at s0 st r b ->
  stepped (run_until [(env_of (enter (Some c) wt) st, scan)] Next (lp_world s0)) (enter (Some c) wt) s0
    ((at_entry st r b ≫= after_trap st) s).
Proof.
  intros (E1 & E2 & E3 & _) Ew Ee Et Eh Em ->. unfold at_entry.
  set (m1 := poke_word word_size (lp_mem s) (entry_address b) (entry_code b)).
  set (ra := call_return_address (ptrace_get_data m1) r).
  set (m2 := poke_word word_size m1 ra (trap_word (ptrace_get_data m1 ra))).
  set (s2 := mk_loop m2 (lp_world s)
    (mk_call (Some b) ra (ptrace_get_data m1 ra) (call_arg1 (ptrace_get_data m2) r)
       (call_arg2 (ptrace_get_data m2) r) (st_pid st))
    (hold_threads s) (g_signo s) (g_current_entry s) (g_current_thread s) (lp_actions s)).
  erewrite (cmd_bind_Some _ _ _ Next s2) by reflexivity. cbn [after_trap].
  apply lexpire_stepped; [| exact Ew]. split_and!; [unfold s2; simpl; congruence.. |].
  unfold enter, call_at, s2. cbv zeta. rewrite <- Em. fold m1. fold ra. fold m2. cbn.
  destruct (Z.eqb_spec ra 0) as [E | Hne]; [done |]. split; [done |]. by eexists.
Qed.

Lemma stepped_alarms s1 s0 r wt' res :
  alarms (lp_actions s1) = alarms (lp_actions s0) -> stepped r wt' s1 res -> stepped r wt' s0 res.
Proof. unfold stepped. by intros ->. Qed.

Lemma run_until_cons e ev evs o :
  run_until ((e, ev) :: evs) o =
    (r ← run_event e ev;
     if ends_loop ev r then mret (Break, [])
     else '(o, al) ← run_until evs o; mret (o, scan_result_of ev r ++ al)).
Proof. done. Qed.

Lemma run_until_nothing evs o w h v a1 a2 r :
  ('(o, al) ← run_until evs o; mret (o, scan_result_of (Return h v a1 a2) r ++ al)) w = run_until evs o w.
Proof. unfold mbind, cmd_bind. by destruct (run_until evs o w) as [[[? ?] ?] |]. Qed.

Lemma at_return_stepped s0 s wt0 wt st r c rc :
  not_yet s s0 -> hold_threads s = held wt0 -> call_to c <> 0 -> call_thread c = st_pid st ->
  lp_call s = mk_call (Some (call_bp c)) (call_to c) rc (call_a1 c) (call_a2 c) (call_thread c) ->
  wt = leave c (st_pid st) wt0 ->
  stepped (run_until [(env_of wt st, Return (bp_handler (call_bp c)) (call_return_value r) (call_a1 c) (call_a2 c));
                      (env_of wt st, scan)] Next (lp_world s0)) wt s0
    ((at_return st r ≫= after_trap st) s).
Proof.
  intros [Ew Ea] Eh Hne Eth Ec ->. set (wt := leave _ _ _).
  set (s1 := mk_loop (lp_mem s) (lp_world s)
    (mk_call (Some (call_bp c)) 0 rc (call_a1 c) (call_a2 c) (call_thread c))
    (hold_threads s) (g_signo s) (entry_address (call_bp c)) (st_pid st) (lp_actions s)).
  rewrite <- Ew.
  set (h := handler unw_create_addr_space UPT_create space_head spaces g_callstack_hash g_memblock_hash
    g_memblock_active opt_backtrace_limit (bp_handler (call_bp c)) (env_of wt st) (call_return_value r)
    (call_a1 c) (call_a2 c)).
  assert ((at_return st r ≫= after_trap st) s =
    (match h (lp_world s) with
     | None => None
     | Some (res, w) =>
         let s2 := update w s1 in
         (if negb (res =? 0) then (act (Say MsgNotEnoughMemory);; mret Break) s2
          else lexpire st
            (match hold_threads s with
             | [] => s2
             | t :: l => mk_loop (lp_mem s2) (lp_world s2) (lp_call s2) l (g_signo s2) (g_current_entry s2)
                           (g_current_thread s2) (lp_actions s2 ++ [Cont t 0])
             end))
     end)) as ->.
  { unfold at_return, mbind, cmd_bind, gets, gets_opt. rewrite Ec. cbn [bp return_code arg1 arg2 last_thread].
    unfold set_current, set_call, modify, zoom. cbn -[after_trap].
    unfold h, wt, env_of, leave. cbn -[after_trap].
    destruct (handler _ _ _ _ _ _ _ _ _ _ _ _ _ _) as [[res w] |]; [| done].
    destruct (negb (res =? 0)); [done |]. cbn -[lexpire]. by destruct (hold_threads s). }
  rewrite run_until_cons. unfold mbind at 1, cmd_bind at 1. unfold Handlers.run_event at 1. fold h.
  destruct (h (lp_world s)) as [[res w] |]; [| done]. cbn [ends_loop]. cbv zeta.
  destruct (negb (res =? 0)); [eexists; by split_and! |].
  set (s2 := match hold_threads s with [] => _ | _ :: _ => _ end).
  assert (lp_world s2 = w) as Ew2 by (unfold s2; by destruct (hold_threads s)).
  rewrite <- Ew2, run_until_nothing. apply (stepped_alarms s2).
  - unfold s2. destruct (hold_threads s); cbn; [done | by rewrite alarms_other].
  - apply (lexpire_stepped s2); [| done]. unfold s2, watched. unfold wt, leave. rewrite <- Eh.
    destruct (hold_threads s); by split_and!.
Qed.

Lemma recover_return_eq (s : loop_state) :
  (return_address (lp_call s) <> 0 -> bp (lp_call s) <> None) ->
  recover_return s = Some (tt, update (recovered_mem (lp_mem s) (lp_call s)) s).
Proof.
  intros Hbp. unfold recover_return, recovered_mem.
  erewrite (cmd_bind_Some (gets lp_call)) by reflexivity. cbn beta.
  destruct (Z.eqb_spec (return_address (lp_call s)) 0) as [E | Hne]; cbn [negb when]; [by destruct s |].
  destruct (bp (lp_call s)) as [b |] eqn:Eb; [| by destruct (Hbp Hne)].
  done.
Qed.

Lemma watched_recovers s wt : watched s wt -> return_address (lp_call s) <> 0 -> bp (lp_call s) <> None.
Proof.
  intros (_ & _ & _ & Hw) Hne. destruct (inside wt); [| done]. by destruct Hw as (_ & rc & ->).
Qed.

(** The state after the registers were set. *)
Lemma set_regs_run (nr : option registers_info_t) pid (s : loop_state) :
  exists acts, (match nr with Some r => act (SetRegs pid r) | None => mret tt end) s =
    Some (tt, mk_loop (lp_mem s) (lp_world s) (lp_call s) (hold_threads s) (g_signo s) (g_current_entry s)
                (g_current_thread s) acts) /\ alarms acts = alarms (lp_actions s).
Proof.
  destruct nr as [r |]; [eexists; split; [done | by apply alarms_other] |].
  exists (lp_actions s). by destruct s.
Qed.

Lemma hold_run pid (s : loop_state) :
  (hold pid;; mret Next) s =
    if decide (length (hold_threads s) < HOLD_MAX)%nat then
      Some (Next, mk_loop (lp_mem s) (lp_world s) (lp_call s) (pid :: hold_threads s) (g_signo s)
                    (g_current_entry s) (g_current_thread s) (lp_actions s))
    else None.
Proof. unfold hold, mbind, cmd_bind, gets. by case_decide. Qed.

Lemma on_trap_stepped s wt st wt' evs o :
  watched s wt -> st_signum st = SIGTRAP -> st_new_child st = 0 ->
  watch wt (see s (Stopped st)) = Some (wt', evs, o) ->
  stepped (run_until evs o (lp_world s)) wt' s (on_trap st s).
Proof.
  intros Hwd Hsig Hnew. unfold see. rewrite Hsig, Hnew.
  rewrite trap_not_stop. change (SIGTRAP =? SIGTRAP) with true. cbn [Z.eqb andb].
  unfold on_trap. rewrite Hnew. cbn [Z.eqb negb].
  destruct (pc_unwind (st_regs st)) as [nr rip]. cbv zeta. set (r := default (st_regs st) nr).
  destruct (set_regs_run nr (st_pid st) s) as (acts & Hset & Eacts).
  set (s1 := mk_loop _ _ _ _ _ _ _ acts) in Hset.
  erewrite cmd_bind_Some by exact Hset. cbn beta.
  erewrite (cmd_bind_Some (gets lp_call)) by reflexivity. cbn beta.
  assert (watched s1 wt) as Hwd1 by exact Hwd. change (lp_call s1) with (lp_call s).
  set (s2 := update (recovered_mem (lp_mem s) (lp_call s)) s1 : loop_state).
  assert (forall A (f : unit -> cmd loop_state A), (recover_return ≫= f) s1 = f tt s2) as Hrec.
  { intros A f. apply cmd_bind_Some. by rewrite recover_return_eq by by eapply watched_recovers. }
  assert (not_yet s2 s) as Ew by done.
  pose proof Hwd as (Ee & Et & Eh & Hin). unfold watch. destruct (inside wt) as [c |] eqn:Ein.
  - destruct Hin as (Hne & rc & Hc). rewrite Hc. cbn [return_address last_thread].
    rewrite (proj2 (Z.eqb_neq _ _) Hne). cbn [negb andb].
    destruct (Z.eqb_spec (call_thread c) (st_pid st)) as [Eth | Hth]; cbn [negb].
    + rewrite Hrec. destruct (Z.eqb_spec rip (call_to c)) as [-> | Hrip].
      * cbv zeta. intros [= <- <- <-]. by apply (at_return_stepped s s2 wt _ st r c rc).
      * destruct (breakpoint_by_entry g_breakpoints rip) as [b |]; [| done]. cbn [fmap option_fmap option_map].
        intros [= <- <- <-]. by apply at_entry_stepped.
    + rewrite hold_run. change (hold_threads s1) with (hold_threads s). rewrite Eh.
      case_decide; [| done]. intros [= <- <- <-]. apply stepped_ret; [| done]. intros _.
      unfold watched, wait_for_call. simpl. rewrite Ein. by eauto 10.
  - rewrite Hin. cbn [Z.eqb negb andb]. rewrite Hrec.
    destruct (Z.eqb_spec rip 0) as [-> | Hrip]; [done |].
    destruct (breakpoint_by_entry g_breakpoints rip) as [b |]; cbn [fmap option_fmap option_map].
    + intros [= <- <- <-]. by apply at_entry_stepped.
    + set (s3 := mk_loop (lp_mem s2) (lp_world s2)
        (mk_call None (return_address (lp_call s)) (return_code (lp_call s)) (arg1 (lp_call s))
           (arg2 (lp_call s)) (last_thread (lp_call s)))
        (hold_threads s2) (g_signo s2) (g_current_entry s2) (g_current_thread s2) (lp_actions s2)).
      assert (at_other rip s2 =
        (if is_breakpoint (recovered_mem (lp_mem s) (lp_call s)) rip
         then act (Say (MsgUnknownBreakpoint rip));; mret Break else mret Next) s3) as Hother by done.
      destruct (is_breakpoint _ rip); intros [= <- <- <-]; (erewrite cmd_bind_Some by exact Hother); cbn beta iota.
      { apply stepped_ret; [done | split; [done |]]. cbn [lp_actions]. by rewrite alarms_other. }
      apply (lexpire_stepped s); [| by split]. split_and!; [done.. |]. by rewrite Ein.
Qed.

Lemma cleanup_total bps m : exists m', breakpoint_cleanup bps m = Some (tt, m').
Proof.
  revert m. induction bps as [| b bps IH]; intros m; [by eexists |]. cbn [breakpoint_cleanup].
  erewrite cmd_bind_Some by reflexivity. apply IH.
Qed.

(** An iteration that does nothing for the tracker. *)
Ltac step_done :=
  apply stepped_ret; [done | split; [done |]];
  cbn [lp_actions]; rewrite ?alarms_other by done; done.

Lemma on_sigstop_stepped s wt st wt' evs o :
  watched s wt -> st_signum st = SIGSTOP -> watch wt (see s (Stopped st)) = Some (wt', evs, o) ->
  stepped (run_until evs o (lp_world s)) wt' s (on_sigstop g_memblock_active g_memblock_expire memory_expire
    memblock_limit callstack_limit g_breakpoints st s).
Proof.
  intros Hwd Hsig. unfold see. rewrite Hsig, Z.eqb_refl. cbn beta iota.
  unfold on_sigstop. erewrite (cmd_bind_Some (gets g_signo)) by reflexivity. cbn beta.
  destruct (g_signo s =? SIGALRM); cbn [watch]; intros [= <- <- <-].
  - erewrite (cmd_bind_Some (set_signo 0)) by reflexivity. by apply lexpire_stepped.
  - destruct (g_signo s =? 0); cbn [negb]; [| step_done].
    destruct (st_is_task st); [step_done |].
    destruct (cleanup_total g_breakpoints (st_child_mem st)) as [m Hm].
    erewrite cmd_bind_Some by (unfold gets_opt; rewrite Hm; reflexivity). cbn beta iota.
    step_done.
Qed.

Lemma loop_step_stepped s wt ev wt' evs o :
  watched s wt -> watch wt (see s ev) = Some (wt', evs, o) ->
  stepped (run_until evs o (lp_world s)) wt' s (loop_step ev s).
Proof.
  intros Hwd. destruct ev as [signo | eintr | pid | st].
  1-3: cbn [see watch]; intros [= <- <- <-].
  - step_done.
  - cbn [MainLoop.loop_step]. destruct eintr; step_done.
  - cbn [MainLoop.loop_step]. destruct (pid =? g_target_pid); step_done.
  - cbn [MainLoop.loop_step]. destruct (Z.eqb_spec (st_signum st) SIGSTOP) as [E |]; [by apply on_sigstop_stepped |].
    destruct (Z.eqb_spec (st_signum st) SIGTRAP) as [E' | E']; cbn [negb].
    + destruct (Z.eqb_spec (st_new_child st) 0) as [En | En]; [by apply on_trap_stepped |].
      unfold see, on_trap. rewrite E', trap_not_stop.
      rewrite (proj2 (Z.eqb_neq _ _) En), andb_false_r. cbn [watch negb]. intros [= <- <- <-].
      step_done.
    + unfold see. rewrite !(proj2 (Z.eqb_neq _ _)) by done. cbn [andb watch]. intros [= <- <- <-].
      step_done.
Qed.

(** ** Runs *)

(** The iterations of the loop, none of which ends it, with what is seen at
    each of them; between them the target changes its memory. *)
Inductive observed : loop_state -> list (wait_event * sight) -> loop_state -> Prop :=
  | observed_nil s : observed s [] s
  | observed_event s ev s1 xs s2 :
      loop_step ev s = Some (Next, s1) -> observed s1 xs s2 ->
      observed s ((ev, see s ev) :: xs) s2
  | observed_target s (m : target_mem) xs s2 : observed (update m s) xs s2 -> observed s xs s2.

Fixpoint watch_all (wt : watcher) (xs : list sight) : option (watcher * list (env * event)) :=
  match xs with
  | [] => Some (wt, [])
  | x :: xs =>
      '(wt1, evs, _) ← watch wt x; '(wt2, evs') ← watch_all wt1 xs; Some (wt2, evs ++ evs')
  end.

(** The result of no event ended the loop. *)
Definition all_go_on (evs : list (env * event)) (rs : list Z) : Prop :=
  Forall2 (fun '(_, ev) r => ends_loop ev r = false) evs rs.

Lemma run_until_next evs o al w w' :
  run_until evs o w = Some ((Next, al), w') ->
  o = Next /\ exists rs, run_events evs w = Some (rs, w') /\ all_go_on evs rs /\ al = scan_results evs rs.
Proof.
  revert w al. induction evs as [| [e ev] evs IH]; intros w al Hrun.
  - injection Hrun as -> <- ->. split; [done |]. exists []. split_and!; [done | constructor | done].
  - rewrite run_until_cons in Hrun. apply cmd_bind_inv in Hrun as (r & w1 & Hr & Hrun).
    destruct (ends_loop ev r) eqn:E; [done |].
    apply cmd_bind_inv in Hrun as ([o1 al1] & w2 & Hrun & [= -> <- ->]).
    destruct (IH w1 al1 Hrun) as (-> & rs & Hrs & Hgo & ->).
    split; [done |]. exists (r :: rs). split_and!; [| by constructor | done].
    cbn [Handlers.run_events]. erewrite cmd_bind_Some by exact Hr. by erewrite cmd_bind_Some by exact Hrs.
Qed.

Lemma scan_results_app evs1 evs2 rs1 rs2 :
  length evs1 = length rs1 ->
  scan_results (evs1 ++ evs2) (rs1 ++ rs2) = scan_results evs1 rs1 ++ scan_results evs2 rs2.
Proof. intros Hl. unfold scan_results. by rewrite zip_with_app, concat_app. Qed.

Lemma run_events_app evs1 evs2 w rs1 w1 rs2 w2 :
  run_events evs1 w = Some (rs1, w1) -> run_events evs2 w1 = Some (rs2, w2) ->
  run_events (evs1 ++ evs2) w = Some (rs1 ++ rs2, w2).
Proof.
  revert w rs1. induction evs1 as [| [e ev] evs IH]; intros w rs1 H1 H2.
  - by injection H1 as <- <-.
  - cbn [Handlers.run_events app] in *. apply cmd_bind_inv in H1 as (r & w3 & Hr & H1).
    apply cmd_bind_inv in H1 as (rs & w4 & Hrs & [= <- <-]).
    erewrite cmd_bind_Some by exact Hr. by erewrite cmd_bind_Some by by apply (IH w3 rs).
Qed.

Lemma monitor_follows s0 xs s wt0 wt evs :
  observed s0 xs s -> watched s0 wt0 -> watch_all wt0 (xs.*2) = Some (wt, evs) ->
  watched s wt /\
  exists rs, run_events evs (lp_world s0) = Some (rs, lp_world s) /\ all_go_on evs rs /\
    alarms (lp_actions s) = alarms (lp_actions s0) ++ scan_results evs rs.
Proof.
  intros Hobs. revert wt0 evs. induction Hobs as [s | s ev s1 xs s2 Hstep _ IH | s m xs s2 _ IH];
    intros wt0 evs Hwd Hall.
  - injection Hall as <- <-. split; [done |]. exists []. rewrite app_nil_r. split_and!; [done | constructor | done].
  - cbn in Hall. apply bind_Some in Hall as ([[wt1 evs1] o] & Hw & Hall).
    apply bind_Some in Hall as ([wt2 evs2] & Hall & [= <- <-]).
    pose proof (loop_step_stepped s wt0 ev wt1 evs1 o Hwd Hw) as Hst. rewrite Hstep in Hst.
    destruct (run_until evs1 o (lp_world s)) as [[[o' al] w] |] eqn:Erun; [| done].
    destruct Hst as (s' & [= <- <-] & <- & Hnext). destruct (Hnext eq_refl) as [Hwd1 Ha1].
    apply run_until_next in Erun as (_ & rs1 & Hrs1 & Hgo1 & ->).
    destruct (IH wt1 evs2 Hwd1 Hall) as (Hwd2 & rs2 & Hrs2 & Hgo2 & Ha2).
    split; [done |]. exists (rs1 ++ rs2). split_and!; [by eapply run_events_app | by apply Forall2_app |].
    rewrite Ha2, Ha1, scan_results_app by (by eapply Forall2_length). by rewrite app_assoc.
  - by apply (IH wt0 evs).
Qed.

(** C2: the loop gives the tracker the calls that the program makes.  In any run
    of the loop and the target, in which the abstract monitor does not lose
    track: the state of [memblock.c] and [callstack.c] is what the events of
    the abstract monitor lead to, no event of them had a result that ends the
    loop, the alarms that were set are the results of the scans, and the local
    variables are those of the call that is going on, if
    there is one.  The events are, for each call: the handler of the function
    at whose entry a thread stopped, with the return value and the arguments
    that it had at the entry, when the thread stops at the return address; and
    the scans. *)
Theorem monitor_follows_calls s0 xs s wt0 wt evs :
  observed s0 xs s -> watched s0 wt0 -> watch_all wt0 (xs.*2) = Some (wt, evs) ->
  watched s wt /\
  exists rs, run_events evs (lp_world s0) = Some (rs, lp_world s) /\ all_go_on evs rs /\
    alarms (lp_actions s) = alarms (lp_actions s0) ++ scan_results evs rs.
Proof. apply monitor_follows. Qed.

(** ** The loop has no undefined behaviour *)

Context (heap_start : Z).
Abbreviation R := (R unw_create_addr_space UPT_create space_head spaces g_callstack_hash
  g_memblock_hash g_memblock_active g_memblock_expire heap_start).
Abbreviation env_ok := (event_env_ok unw_create_addr_space UPT_create opt_backtrace_limit).
Abbreviation spec_events := (spec_events unw_create_addr_space UPT_create opt_backtrace_limit).
Abbreviation event_safe := (event_safe unw_create_addr_space UPT_create opt_backtrace_limit).
Abbreviation statics_ok := (statics_ok space_head spaces g_callstack_hash g_memblock_hash
  g_memblock_active g_memblock_expire heap_start).

(** A call of the API is at most the first event of an iteration. *)
Definition scans_after (evs : list (env * event)) : Prop :=
  forall e ev evs', evs = (e, ev) :: evs' -> Forall (fun '(_, ev') => ev' = scan) evs'.

Lemma watch_scans wt x wt' evs o : watch wt x = Some (wt', evs, o) -> scans_after evs.
Proof.
  unfold watch, scans_after. repeat case_match; intros; simplify_eq; repeat constructor.
Qed.

Lemma scans_defined evs w t :
  statics_ok -> R w t -> Forall (fun '(_, ev) => ev = scan) evs ->
  Forall (fun '(e, ev) => env_ok e ev /\ event_ok ev) evs -> is_Some (spec_events evs t).
Proof.
  intros Hst HR Hsc Hevs. revert w t HR.
  induction Hsc as [| [e ev] evs -> _ IH]; intros w t HR; [by eexists |].
  apply Forall_cons in Hevs as [[He Hev] Hevs].
  destruct (tracker_event_run unw_create_addr_space UPT_create space_head spaces g_callstack_hash g_memblock_hash
    g_memblock_active g_memblock_expire opt_backtrace_limit heap_start w t e scan Hst HR He Hev I)
    as (r & w1 & t1 & _ & Hspec & HR1).
  destruct (IH Hevs w1 t1 HR1) as [[rs t2] Hspec2]. cbn [Handlers.spec_events]. rewrite Hspec. simpl.
  rewrite Hspec2. by eexists.
Qed.

(** The specification of the tracker is defined on safe events. *)
Lemma safe_events_defined evs w t :
  statics_ok -> R w t -> scans_after evs ->
  Forall (fun '(e, ev) => env_ok e ev /\ event_ok ev /\ event_safe e ev t) evs ->
  is_Some (spec_events evs t).
Proof.
  intros Hst HR Hsc Hevs. destruct evs as [| [e ev] evs]; [by eexists |].
  apply Forall_cons in Hevs as [(He & Hev & Hs) Hevs]. specialize (Hsc e ev evs eq_refl).
  destruct (tracker_event_run unw_create_addr_space UPT_create space_head spaces g_callstack_hash g_memblock_hash
    g_memblock_active g_memblock_expire opt_backtrace_limit heap_start w t e ev Hst HR He Hev Hs)
    as (r & w1 & t1 & _ & Hspec & HR1).
  destruct (scans_defined evs w1 t1 Hst HR1 Hsc) as [[rs t2] Hspec2].
  { eapply Forall_impl; [exact Hevs |]. by intros [? ?] (? & ? & _). }
  cbn [Handlers.spec_events]. rewrite Hspec. simpl. rewrite Hspec2. by eexists.
Qed.

(** When the specification is defined on the events, they can be run; some of
    them are not if the result of one before them ends the loop. *)
Lemma run_until_refines evs o w t rs t' :
  statics_ok -> R w t -> Forall (fun '(e, ev) => env_ok e ev /\ event_ok ev) evs ->
  spec_events evs t = Some (rs, t') ->
  exists o' al w' evs1 rs1 t1, run_until evs o w = Some ((o', al), w') /\
    spec_events evs1 t = Some (rs1, t1) /\ R w' t1 /\ evs1 `prefix_of` evs /\
    (o' = Next -> evs1 = evs) /\ (all_go_on evs rs -> o' = o /\ evs1 = evs).
Proof.
  intros Hst. revert w t rs. induction evs as [| [e ev] evs IH]; intros w t rs HR Hevs Hspec.
  - injection Hspec as <- <-. by exists o, [], w, [], [], t.
  - cbn [Handlers.spec_events] in Hspec. apply bind_Some in Hspec as ([r t1] & Hspec1 & Hspec).
    apply bind_Some in Hspec as ([rs2 t2] & Hspec2 & [= <- <-]).
    apply Forall_cons in Hevs as [[He Hev] Hevs].
    destruct (run_event_refines _ _ _ _ _ _ _ _ _ _ w t e ev r t1 Hst HR He Hev Hspec1) as (w1 & Hrun1 & HR1).
    rewrite run_until_cons. erewrite cmd_bind_Some by exact Hrun1. cbn beta.
    destruct (ends_loop ev r) eqn:Er.
    + exists Break, [], w1, [(e, ev)], [r], t1. split_and!; [done | cbn; by rewrite Hspec1 | done | | done |].
      * by apply prefix_cons, prefix_nil.
      * intros [Hr _]%Forall2_cons_1. congruence.
    + destruct (IH w1 t1 rs2 HR1 Hevs Hspec2)
        as (o' & al & w2 & evs1 & rs1 & t3 & Hrun & Hs & HR3 & Hpre & Hnext & Hgo).
      exists o', (scan_result_of ev r ++ al), w2, ((e, ev) :: evs1), (r :: rs1), t3.
      split_and!; [by erewrite cmd_bind_Some by exact Hrun | | done | by apply prefix_cons | |].
      * cbn [Handlers.spec_events]. rewrite Hspec1. simpl. by rewrite Hs.
      * by intros ->%Hnext.
      * by intros [_ [-> ->]%Hgo]%Forall2_cons_1.
Qed.

(** An iteration of which the specification of the tracker is defined. *)
Lemma loop_step_refines s wt t ev wt' evs o rs t' :
  statics_ok -> R (lp_world s) t -> watched s wt -> watch wt (see s ev) = Some (wt', evs, o) ->
  Forall (fun '(e, ev) => env_ok e ev /\ event_ok ev) evs -> spec_events evs t = Some (rs, t') ->
  exists o' s' evs1 rs1 t1, loop_step ev s = Some (o', s') /\
    spec_events evs1 t = Some (rs1, t1) /\ R (lp_world s') t1 /\ evs1 `prefix_of` evs /\
    (o' = Next -> evs1 = evs /\ watched s' wt') /\ (all_go_on evs rs -> o' = o /\ evs1 = evs).
Proof.
  intros Hst HR Hwd Hw Hevs Hspec.
  destruct (run_until_refines evs o (lp_world s) t rs t' Hst HR Hevs Hspec)
    as (o' & al & w & evs1 & rs1 & t1 & Hrun & Hs & HR1 & Hpre & Hnext & Hgo).
  pose proof (loop_step_stepped s wt ev wt' evs o Hwd Hw) as Hstep. rewrite Hrun in Hstep.
  destruct Hstep as (s' & Hstep & <- & Hwd'). exists o', s', evs1, rs1, t1.
  split_and!; [done.. | | done]. intros Ho. split; [by apply Hnext | by apply Hwd'].
Qed.

Lemma loop_goes_on s wt t ev wt' evs rs t' :
  statics_ok -> R (lp_world s) t -> watched s wt ->
  watch wt (see s ev) = Some (wt', evs, Next) ->
  Forall (fun '(e, ev) => env_ok e ev /\ event_ok ev) evs -> spec_events evs t = Some (rs, t') ->
  all_go_on evs rs ->
  exists s', loop_step ev s = Some (Next, s') /\ R (lp_world s') t' /\ watched s' wt'.
Proof.
  intros Hst HR Hwd Hw Hevs Hspec Hgo.
  destruct (loop_step_refines s wt t ev wt' evs Next rs t' Hst HR Hwd Hw Hevs Hspec)
    as (o' & s' & evs1 & rs1 & t1 & Hstep & Hs & HR1 & _ & Hnext & Hgoes).
  destruct (Hgoes Hgo) as [-> ->]. rewrite Hspec in Hs. injection Hs as <- <-.
  exists s'. split_and!; [done | done | by apply Hnext].
Qed.

(** No iteration of the loop has undefined behaviour, as long as the abstract
    monitor does not lose track, and the events that it says are safe for the
    tracker. *)
Lemma loop_step_safe s wt t ev wt' evs o :
  statics_ok -> R (lp_world s) t -> watched s wt ->
  watch wt (see s ev) = Some (wt', evs, o) ->
  Forall (fun '(e, ev) => env_ok e ev /\ event_ok ev /\ event_safe e ev t) evs ->
  exists o' s' evs1 rs t', loop_step ev s = Some (o', s') /\ evs1 `prefix_of` evs /\
    spec_events evs1 t = Some (rs, t') /\ R (lp_world s') t' /\ (o' = Next -> watched s' wt').
Proof.
  intros Hst HR Hwd Hw Hevs.
  destruct (safe_events_defined evs (lp_world s) t Hst HR (watch_scans _ _ _ _ _ Hw) Hevs) as [[rs t'] Hspec].
  destruct (loop_step_refines s wt t ev wt' evs o rs t' Hst HR Hwd Hw)
    as (o' & s' & evs1 & rs1 & t1 & Hstep & Hs & HR1 & Hpre & Hnext & _); [| done |].
  { eapply Forall_impl; [exact Hevs |]. by intros [? ?] (? & ? & _). }
  exists o', s', evs1, rs1, t1. split_and!; [done.. |]. by intros [_ ?]%Hnext.
Qed.

(** ** The threads *)

(** The threads that were continued or detached. *)
Definition resumed (acts : list action) : list Z :=
  omap (fun a => match a with Cont pid _ | Detach pid => Some pid | _ => None end) acts.

(** The threads that stopped. *)
Definition stopped_pids (evs : list wait_event) : list Z :=
  omap (fun ev => match ev with Stopped st => Some (st_pid st) | _ => None end) evs.

Definition accounted (s : loop_state) : list Z := resumed (lp_actions s) ++ hold_threads s.

(** The command resumes or holds [pids], if the loop goes on. *)
Definition settles (pids : list Z) (m : cmd loop_state outcome) : Prop :=
  forall s s', m s = Some (Next, s') -> accounted s' ≡ₚ pids ++ accounted s.

Definition settles_none {A} (m : cmd loop_state A) : Prop :=
  forall s a s', m s = Some (a, s') -> accounted s' ≡ₚ accounted s.

Lemma settles_bind {A} pids (m : cmd loop_state A) f :
  settles_none m -> (forall a, settles pids (f a)) -> settles pids (m ≫= f).
Proof.
  intros Hm Hf s s' (a & s1 & H1 & H2)%cmd_bind_inv. rewrite <- (Hm _ _ _ H1). by apply (Hf a).
Qed.

Lemma settles_act pid a pids (m : cmd loop_state outcome) :
  resumed [a] = [pid] -> settles pids m -> settles (pid :: pids) (act a;; m).
Proof.
  intros Ha Hm s s' (u & s1 & [= _ <-] & H2)%cmd_bind_inv. rewrite (Hm _ _ H2).
  unfold accounted, resumed in *. cbn [lp_actions hold_threads]. rewrite omap_app, Ha.
  rewrite <- app_assoc. cbn [app]. by rewrite <- !Permutation_middle.
Qed.

Lemma settles_ret o : settles [] (mret o).
Proof. by intros s s' [= _ <-]. Qed.

Lemma settles_break pids : settles pids (mret Break).
Proof. by intros s s' [=]. Qed.

(** Commands that neither resume nor hold. *)
Lemma none_gets {A} (f : loop_state -> A) : settles_none (gets f).
Proof. by intros s x s' [= _ <-]. Qed.

Lemma none_gets_opt {A} (f : loop_state -> option A) : settles_none (gets_opt f).
Proof. intros s x s'. unfold gets_opt. destruct (f s); [| done]. by intros [= _ <-]. Qed.

Lemma none_ret {A} (x : A) : settles_none (mret x : cmd loop_state A).
Proof. by intros s y s' [= _ <-]. Qed.

Lemma none_bind {A B} (m : cmd loop_state A) (f : A -> cmd loop_state B) :
  settles_none m -> (forall a, settles_none (f a)) -> settles_none (m ≫= f).
Proof.
  intros Hm Hf s b s' (a & s1 & H1 & H2)%cmd_bind_inv. rewrite <- (Hm _ _ _ H1). by apply (Hf a _ b).
Qed.

Lemma none_world {A} (m : cmd mb_world A) : settles_none (zoom m : cmd loop_state A).
Proof. intros s x s'. unfold zoom. destruct (m _) as [[? ?] |]; [| done]. by intros [= _ <-]. Qed.

Lemma none_mem {A} (m : cmd target_mem A) : settles_none (zoom m : cmd loop_state A).
Proof. intros s x s'. unfold zoom. destruct (m _) as [[? ?] |]; [| done]. by intros [= _ <-]. Qed.

Lemma none_set_call c : settles_none (set_call c : cmd loop_state unit).
Proof. by intros s x s' [= _ <-]. Qed.

Lemma none_set_signo n : settles_none (set_signo n : cmd loop_state unit).
Proof. by intros s x s' [= _ <-]. Qed.

Lemma none_set_current e t : settles_none (set_current e t : cmd loop_state unit).
Proof. by intros s x s' [= _ <-]. Qed.

Lemma none_act a : resumed [a] = [] -> settles_none (act a : cmd loop_state unit).
Proof.
  intros Ha s x s' [= _ <-]. unfold accounted, resumed in *. cbn [lp_actions hold_threads].
  by rewrite omap_app, Ha, app_nil_r.
Qed.

#[local] Hint Resolve @none_gets @none_gets_opt @none_ret @none_bind @none_world @none_mem none_set_call
  none_set_signo none_set_current settles_ret settles_break : memleax.
#[local] Hint Extern 1 (settles_none (act _)) => by apply none_act : memleax.

(** The commands before the last one. *)
Ltac settle := repeat match goal with
  | |- settles _ (_ ≫= _) => apply settles_bind; [solve [eauto with memleax] | intros ?]
  end.

Lemma lexpire_settles st : settles [st_pid st] (lexpire st).
Proof.
  unfold lexpire. settle. case_match; [auto with memleax |]. settle.
  apply settles_act; auto with memleax.
Qed.

Lemma after_trap_settles st (m : cmd loop_state outcome) :
  settles [] m -> settles [st_pid st] (m ≫= after_trap st).
Proof.
  intros Hm s s' (o & s1 & H1 & H2)%cmd_bind_inv. destruct o; [| done].
  rewrite (lexpire_settles _ _ _ H2). by rewrite (Hm _ _ H1).
Qed.

Lemma hold_settles pid : settles [pid] (hold pid;; mret Next).
Proof.
  unfold hold. intros s s' (u & s1 & Hrun & [= <-])%cmd_bind_inv.
  apply cmd_bind_inv in Hrun as (l & s2 & [= <- <-] & Hrun). case_decide; [| done].
  injection Hrun as _ <-. unfold accounted. simpl. by rewrite <- Permutation_middle.
Qed.

Lemma recover_return_settles : settles_none (recover_return : cmd loop_state unit).
Proof.
  unfold recover_return. apply none_bind; [auto with memleax | intros c].
  unfold when. case_match; eauto 8 with memleax.
Qed.

(** The thread that is woken up was held. *)
Lemma at_return_settles st r : settles [] (at_return st r).
Proof.
  unfold MainLoop.at_return. settle. case_match; [settle; auto with memleax |].
  intros s s' (l & s1 & [= <- <-] & Hrun)%cmd_bind_inv.
  destruct (hold_threads s) as [| t l] eqn:El; injection Hrun as <-; [done |].
  unfold accounted, resumed. simpl. by rewrite omap_app, <- app_assoc, El.
Qed.

Lemma at_entry_settles st r b : settles [] (at_entry st r b : cmd loop_state outcome).
Proof. unfold at_entry. settle. auto with memleax. Qed.

Lemma at_other_settles rip : settles [] (at_other rip : cmd loop_state outcome).
Proof. unfold at_other. settle. case_match; settle; auto with memleax. Qed.

Lemma on_trap_settles st : settles [st_pid st] (on_trap st).
Proof.
  unfold on_trap. case_match; [apply settles_act; auto with memleax |].
  destruct (pc_unwind (st_regs st)) as [nr rip]. cbv zeta.
  apply settles_bind; [destruct nr; auto with memleax | intros _]. settle.
  case_match; [apply hold_settles |].
  apply settles_bind; [apply recover_return_settles | intros _]. apply (after_trap_settles st).
  case_match; [apply at_return_settles |].
  case_match; [apply at_entry_settles | apply at_other_settles].
Qed.

Lemma on_sigstop_settles st : settles [st_pid st] (on_sigstop g_memblock_active g_memblock_expire
  memory_expire memblock_limit callstack_limit g_breakpoints st).
Proof.
  unfold on_sigstop. settle. case_match; [settle; apply lexpire_settles |].
  case_match; [settle; auto with memleax |]. case_match; [apply settles_act; auto with memleax |].
  apply settles_bind; [auto with memleax | intros [u m]]. settle. apply settles_act; auto with memleax.
Qed.

Lemma loop_step_settles ev : settles (stopped_pids [ev]) (loop_step ev).
Proof.
  destruct ev as [signo | eintr | pid | st].
  - cbn. unfold signal_handler. apply settles_bind; [| intros []; auto with memleax].
    apply none_bind; auto with memleax.
  - cbn. case_match; settle; auto with memleax.
  - cbn. case_match; settle; auto with memleax.
  - change (stopped_pids [Stopped st]) with [st_pid st]. cbn [MainLoop.loop_step].
    case_match; [apply on_sigstop_settles |].
    case_match; [apply settles_act; auto with memleax | apply on_trap_settles].
Qed.

Lemma observed_accounted s xs s' :
  observed s xs s' ->
  resumed (lp_actions s') ++ hold_threads s' ≡ₚ
  stopped_pids (xs.*1) ++ resumed (lp_actions s) ++ hold_threads s.
Proof.
  induction 1 as [s | s ev s1 xs s2 Hstep _ IH | s m xs s2 _ IH]; [done | | exact IH].
  rewrite IH. change (resumed (lp_actions s1) ++ hold_threads s1) with (accounted s1).
  rewrite (loop_step_settles _ _ _ Hstep). unfold accounted.
  change (((ev, see s ev) :: xs).*1) with ([ev] ++ xs.*1). unfold stopped_pids.
  rewrite omap_app, <- app_assoc, !app_assoc. do 2 f_equiv. apply Permutation_app_comm.
Qed.

(** C9: no thread is forgotten while the loop goes on: the threads that stopped
    are, each as often as it stopped, those that were continued or detached and
    those that are held. *)
Theorem threads_accounted s xs s' :
  observed s xs s' ->
  resumed (lp_actions s') ++ hold_threads s' ≡ₚ
  stopped_pids (xs.*1) ++ resumed (lp_actions s) ++ hold_threads s.
Proof. apply observed_accounted. Qed.

End monitor.

(** On x86-64: a thread calls [malloc(100)] and returns. *)
#[local] Existing Instance x86_64.
Import Example.

(** A part of the tables is enough. *)
Definition example_heads (table : Z) (key : list Z) : hash_mem :=
  mk_hash_mem (mk_hmem {[table + 8 * slot_of_words key := NULL]} ∅) ∅.
Definition example_small_world : mb_world (uspace_t := unit) (upt_t := Z) :=
  mk_mb_world (mk_cs_world (mk_heap 16777216 33554432) example_bt_state
      (example_heads 1048576 [4096; 200; 100]) ∅ [])
    static_lists (example_heads 2097152 [65536]) ∅ 1.

Definition example_idle : loop_state (uspace_t := unit) (upt_t := Z) :=
  mk_loop example_planted example_small_world (mk_call None 0 0 0 0 0) [] 0 0 0 [].

Definition example_return : stop (uspace_t := unit) (upt_t := Z) :=
  mk_stop 7 SIGTRAP 0 true (mk_x86_64 16392 65536 0 0 8193 : registers_info_t) ∅ 1001
    (fun _ _ => (200, [100; 50])).

Definition example_call_entered : loop_state (uspace_t := unit) (upt_t := Z) :=
  snd (default (Next, example_idle) (example_step (Stopped (example_stop SIGTRAP 4097)) example_idle)).
Definition example_call_returned : loop_state (uspace_t := unit) (upt_t := Z) :=
  snd (default (Next, example_call_entered) (example_step (Stopped example_return) example_call_entered)).

Lemma example_call_step1 :
  example_step (Stopped (example_stop SIGTRAP 4097)) example_idle = Some (Next, example_call_entered).
Proof. apply option_split. vm_compute. reflexivity. Qed.

Lemma example_call_step2 :
  example_step (Stopped example_return) example_call_entered = Some (Next, example_call_returned).
Proof. apply option_split. vm_compute. reflexivity. Qed.

Definition example_seen : list (wait_event (uspace_t := unit) (upt_t := Z) * sight) :=
  [(Stopped (example_stop SIGTRAP 4097),
    see 7 example_breakpoints example_idle (Stopped (example_stop SIGTRAP 4097)));
   (Stopped example_return, see 7 example_breakpoints example_call_entered (Stopped example_return))].

Lemma example_observed :
  observed tt (fun t => t) 64 128 1048576 2097152 600 632 3 10 1000 1000 7 example_breakpoints
    example_idle example_seen example_call_returned.
Proof.
  unfold example_seen. eapply observed_event; [exact example_call_step1 |].
  eapply observed_event; [exact example_call_step2 | constructor].
Qed.

(** The scan, [malloc], and the scan behind it. *)
Definition example_tracker_events : list (env unit Z * event) :=
  [(mk_env 1000 0 0 (fun _ _ => (200, [100])), Expire 10 1000 1000);
   (mk_env 1001 4096 7 (fun _ _ => (200, [100; 50])), Return Malloc 65536 100 0);
   (mk_env 1001 4096 7 (fun _ _ => (200, [100; 50])), Expire 10 1000 1000)].

Lemma monitor_follows_calls_witness :
  watched example_call_returned (mk_watcher None 4096 7 []) /\
  exists rs, run_events tt (fun t => t) 64 128 1048576 2097152 600 632 3 example_tracker_events
      (lp_world example_idle) = Some (rs, lp_world example_call_returned) /\
    all_go_on example_tracker_events rs /\
    alarms (lp_actions example_call_returned) = [] ++ scan_results example_tracker_events rs.
Proof.
  apply (monitor_follows_calls tt (fun t => t) 64 128 1048576 2097152 600 632 3 10 1000 1000 7
    example_breakpoints example_idle example_seen example_call_returned (mk_watcher None 0 0 [])).
  - exact example_observed.
  - by split_and!.
  - vm_compute. reflexivity.
Defined.

Definition example_start_state : loop_state (uspace_t := unit) (upt_t := Z) :=
  mk_loop example_planted Example.world (mk_call None 0 0 0 0 0) [] 0 0 0 [].

Lemma threads_accounted_witness :
  resumed (lp_actions example_call_returned) ++ hold_threads example_call_returned ≡ₚ [7; 7].
Proof.
  rewrite (threads_accounted tt (fun t => t) 64 128 1048576 2097152 600 632 3 10 1000 1000 7
    example_breakpoints example_idle example_seen example_call_returned example_observed).
  reflexivity.
Defined.
