(* ===== verification/Main.v ===== *)
(** * [main] around the loop: options, attaching, the end

    [parse_options] is the loop over [getopt], whose results are a list of
    option characters with their arguments; [attach_threads] attaches to the
    threads that [proc_tasks] shows; [finish] is what follows the loop.

    [finish_reports] says what the end does, from a state of the loop that is
    related to the specification of the tracker. *)

From stdpp Require Import relations.
From S2P Require Import Prelude CString ListH HlistH HashH PtrBacktrace Heap Callstack.
From S2P Require Import Memblock Tracker CallstackRefine MemblockRefine Handlers Accounting Report.
From S2P Require Import ArrayH ProcInfo Machines MainLoop Monitor.

(** ** The options *)

Record options := mk_options {
  memory_expire : Z;
  memblock_limit : Z;
  callstack_limit : Z;
  opt_backtrace_limit : Z;
  opt_debug_info_file : option cstr
}.

Definition default_options : options := mk_options 10 1000 1000 BACKTRACE_MAX None.

Inductive main_msg :=
  | MsgInvalidExpire (s : cstr)
  | MsgInvalidBacktraceLimit (s : cstr)
  | MsgTooBigBacktraceLimit (s : cstr)
  | MsgInvalidMemblockLimit (s : cstr)
  | MsgInvalidCallstackLimit (s : cstr)
  | MsgHelp
  | MsgVersion
  | MsgTryHelp
  | MsgInvalidArgument
  | MsgInvalidPid (s : cstr).

(** The value of [main] and what it has printed. *)
Definition quit (status : Z) (msgs : list main_msg) {A} : A + (Z * list main_msg) := inr (status, msgs).

(** The cases of the [switch]; [ch] is "?" for what [getopt] does not accept. *)
Definition parse_option (ch : ascii) (optarg : cstr) (o : options) : options + (Z * list main_msg) :=
  let n := s32 (atoi optarg) in
  if decide (ch = "e"%char) then
    if n =? 0 then quit 1 [MsgInvalidExpire optarg]
    else inl (mk_options n (memblock_limit o) (callstack_limit o) (opt_backtrace_limit o) (opt_debug_info_file o))
  else if decide (ch = "d"%char) then
    inl (mk_options (memory_expire o) (memblock_limit o) (callstack_limit o) (opt_backtrace_limit o) (Some optarg))
  else if decide (ch = "l"%char) then
    if n =? 0 then quit 1 [MsgInvalidBacktraceLimit optarg]
    else if BACKTRACE_MAX <? n then quit 1 [MsgTooBigBacktraceLimit optarg]
    else inl (mk_options (memory_expire o) (memblock_limit o) (callstack_limit o) n (opt_debug_info_file o))
  else if decide (ch = "m"%char) then
    if n =? 0 then quit 1 [MsgInvalidMemblockLimit optarg]
    else inl (mk_options (memory_expire o) n (callstack_limit o) (opt_backtrace_limit o) (opt_debug_info_file o))
  else if decide (ch = "c"%char) then
    if n =? 0 then quit 1 [MsgInvalidCallstackLimit optarg]
    else inl (mk_options (memory_expire o) (memblock_limit o) n (opt_backtrace_limit o) (opt_debug_info_file o))
  else if decide (ch = "h"%char) then quit 0 [MsgHelp]
  else if decide (ch = "v"%char) then quit 0 [MsgVersion]
  else quit 1 [MsgTryHelp].

(** The loop over [getopt]: the sequence of its results, before it returns -1. *)
Fixpoint parse_options (opts : list (ascii * cstr)) (o : options) : options + (Z * list main_msg) :=
  match opts with
  | [] => inl o
  | (ch, optarg) :: opts =>
      match parse_option ch optarg o with
      | inl o => parse_options opts o
      | inr r => inr r
      end
  end.

(** [rest]: [argv] from [optind] on.  The result: the options and the target. *)
Definition parse_args (opts : list (ascii * cstr)) (rest : list cstr) :
    options * Z + (Z * list main_msg) :=
  match parse_options opts default_options with
  | inr r => inr r
  | inl o =>
      match rest with
      | [arg] =>
          let g_target_pid := s32 (atoi arg) in
          if g_target_pid =? 0 then quit 2 [MsgInvalidPid arg] else inl (o, g_target_pid)
      | _ => quit 1 [MsgInvalidArgument; MsgTryHelp]
      end
  end.

(** What is accepted of an option. *)
Definition valid_option (p : ascii * cstr) : Prop :=
  let n := s32 (atoi p.2) in
  p.1 = "d"%char \/ (p.1 = "l"%char /\ n <> 0 /\ n <= BACKTRACE_MAX) \/
  ((p.1 = "e"%char \/ p.1 = "m"%char \/ p.1 = "c"%char) /\ n <> 0).

(** The argument of the last option of a character. *)
Definition last_arg (ch : ascii) (opts : list (ascii * cstr)) : option cstr :=
  snd <$> last (filter (fun p => p.1 = ch) opts).

Definition last_number (ch : ascii) (d : Z) (opts : list (ascii * cstr)) : Z :=
  match last_arg ch opts with Some s => s32 (atoi s) | None => d end.

Lemma last_arg_snoc ch opts p :
  last_arg ch (opts ++ [p]) = if decide (p.1 = ch) then Some p.2 else last_arg ch opts.
Proof.
  unfold last_arg. rewrite filter_app, filter_cons, filter_nil.
  destruct (decide (p.1 = ch)); [by rewrite last_snoc | by rewrite app_nil_r].
Qed.

(** The options as the last ones say. *)
Definition chosen (opts : list (ascii * cstr)) : options :=
  mk_options (last_number "e" 10 opts) (last_number "m" 1000 opts) (last_number "c" 1000 opts)
    (last_number "l" BACKTRACE_MAX opts) (last_arg "d" opts).

Lemma parse_options_snoc opts p o :
  parse_options (opts ++ [p]) o =
  match parse_options opts o with inl o => parse_option p.1 p.2 o | inr r => inr r end.
Proof.
  revert o. induction opts as [| [ch arg] opts IH]; intros o; cbn [app parse_options].
  - destruct p as [ch arg]. cbn [fst snd]. by destruct (parse_option ch arg o).
  - destruct (parse_option ch arg o); [apply IH | done].
Qed.

Lemma parse_option_valid opts p :
  valid_option p -> parse_option p.1 p.2 (chosen opts) = inl (chosen (opts ++ [p])).
Proof.
  destruct p as [ch arg]. unfold valid_option, chosen, last_number. cbn [fst snd]. rewrite !last_arg_snoc.
  cbn [fst snd]. unfold parse_option.
  intros [-> | [(-> & Hn & Hl) | [[-> | [-> | ->]] Hn]]];
    repeat (rewrite decide_True by done || rewrite decide_False by done);
    rewrite ?(proj2 (Z.eqb_neq _ _) Hn), ?(proj2 (Z.ltb_ge _ _) Hl); done.
Qed.

Lemma parse_option_invalid p o :
  ~ valid_option p ->
  exists msg, parse_option p.1 p.2 o = inr (if decide (p.1 = "h"%char \/ p.1 = "v"%char) then 0 else 1, [msg]).
Proof.
  destruct p as [ch arg]. unfold valid_option, parse_option, quit. cbn [fst snd]. intros Hv.
  set (n := s32 (atoi arg)) in *.
  assert (forall c : ascii, c <> "h"%char -> c <> "v"%char ->
    (if decide (c = "h"%char \/ c = "v"%char) then 0 else 1) = 1) as E.
  { intros c H1 H2. by rewrite decide_False by tauto. }
  destruct (decide (ch = "e"%char)) as [-> | He].
  { rewrite E by done. destruct (Z.eqb_spec n 0); [by eexists | destruct Hv; tauto]. }
  destruct (decide (ch = "d"%char)) as [-> | Hd]; [destruct Hv; tauto |].
  destruct (decide (ch = "l"%char)) as [-> | Hl].
  { rewrite E by done. destruct (Z.eqb_spec n 0); [by eexists |].
    destruct (Z.ltb_spec BACKTRACE_MAX n); [by eexists | destruct Hv; tauto]. }
  destruct (decide (ch = "m"%char)) as [-> | Hm].
  { rewrite E by done. destruct (Z.eqb_spec n 0); [by eexists | destruct Hv; tauto]. }
  destruct (decide (ch = "c"%char)) as [-> | Hc].
  { rewrite E by done. destruct (Z.eqb_spec n 0); [by eexists | destruct Hv; tauto]. }
  destruct (decide (ch = "h"%char)) as [-> | Hh]; [rewrite decide_True by tauto; by eexists |].
  destruct (decide (ch = "v"%char)) as [-> | Hvv]; [rewrite decide_True by tauto; by eexists |].
  rewrite E by done. by eexists.
Qed.

Lemma parse_options_prefix opts :
  Forall valid_option opts -> parse_options opts default_options = inl (chosen opts).
Proof.
  induction opts as [| p opts IH] using rev_ind; intros Hv; [done |].
  apply Forall_app in Hv as [Hv Hp]. apply Forall_cons in Hp as [Hp _].
  rewrite parse_options_snoc, IH by done. cbn beta iota. by apply parse_option_valid.
Qed.

(** C22: the options of the command line: when each of them is valid the result
    is, for each option, the number of its last occurrence, or the default;
    otherwise [main] returns at the first one that is not, with 0 after the
    help or the version, and else 1. *)
Theorem parse_options_correct opts :
  (Forall valid_option opts -> parse_options opts default_options = inl (chosen opts)) /\
  (forall pre p post, opts = pre ++ p :: post -> Forall valid_option pre -> ~ valid_option p ->
     exists msg, parse_options opts default_options =
       inr (if decide (p.1 = "h"%char \/ p.1 = "v"%char) then 0 else 1, [msg])).
Proof.
  split; [apply parse_options_prefix |]. intros pre p post -> Hpre Hp.
  assert (forall l o, parse_options (pre ++ l) o =
    match parse_options pre o with inl o => parse_options l o | inr r => inr r end) as Happ.
  { clear. induction pre as [| [ch arg] pre IH]; intros l o; [done |]. cbn [app parse_options].
    destruct (parse_option ch arg o); [apply IH | done]. }
  rewrite Happ, parse_options_prefix by done. destruct p as [ch arg]. cbn [parse_options].
  destruct (parse_option_invalid (ch, arg) (chosen pre) Hp) as [msg E]. cbn [fst snd] in E. rewrite E.
  by exists msg.
Qed.

(** [-e 5 -l 20 -e 30], and then a number that is none. *)
Definition example_options : list (ascii * cstr) :=
  [("e"%char, lit "5"); ("l"%char, lit "20"); ("e"%char, lit "30")].

Lemma parse_options_correct_witness :
  parse_options example_options default_options = inl (mk_options 30 1000 1000 20 None) /\
  exists msg, parse_options (example_options ++ [("m"%char, lit "many"); ("h"%char, [])]) default_options =
    inr (1, [msg]).
Proof.
  split.
  - apply (proj1 (parse_options_correct example_options)).
    repeat apply List.Forall_cons; [..| constructor]; unfold valid_option; cbn [fst snd];
      vm_compute; intuition discriminate.
  - apply (proj2 (parse_options_correct (example_options ++ [("m"%char, lit "many"); ("h"%char, [])]))
      example_options ("m"%char, lit "many") [("h"%char, [])] eq_refl).
    + repeat apply List.Forall_cons; [..| constructor]; unfold valid_option; cbn [fst snd];
        vm_compute; intuition discriminate.
    + unfold valid_option. vm_compute. intuition discriminate.
Defined.

(** ** Attaching *)

Inductive trace_action :=
  | Attach (tid : Z)
  | WaitStop (tid : Z)                   (* waitpid(tid, ..) *)
  | TraceChild (tid : Z)
  | Continue (tid signum : Z).

Section attach.
(** Whether [PTRACE_ATTACH] succeeds. *)
Context (may_attach : Z -> bool).
(** The names in [/proc/pid/task]. *)
Context (dir : option (list cstr)).
Context (g_target_pid : Z).

Abbreviation attach_state := (option (list cstr) * list trace_action)%type.

Definition trace (a : trace_action) : cmd attach_state unit := modify (fun s => (s.1, s.2 ++ [a])).

Definition ptrace_attach (tid : Z) : cmd attach_state (result unit) :=
  if may_attach tid then trace (Attach tid);; mret (Ret tt) else mret (Exit 4).

(** The body of the loop. *)
Definition attach_thread (task_id : Z) : cmd attach_state (result unit) :=
  if task_id =? g_target_pid then mret (Ret tt)
  else
    ptrace_attach task_id;;!
    trace (WaitStop task_id);;
    trace (TraceChild task_id);;
    trace (Continue task_id 0);;
    mret (Ret tt).

Fixpoint attach_threads (fuel : nat) : cmd attach_state (result unit) :=
  match fuel with
  | O => undefined
  | S fuel =>
      task_id ←! zoom (proc_tasks dir);
      if 0 <? task_id then attach_thread task_id;;! attach_threads fuel else mret (Ret tt)
  end.

Definition attach_target : cmd attach_state (result unit) :=
  ptrace_attach g_target_pid;;!
  trace (WaitStop g_target_pid);;
  trace (TraceChild g_target_pid);;
  mret (Ret tt).

(** The numbers among the names. *)
Definition task_ids (names : list cstr) : list Z :=
  omap (fun n => let task_id := s32 (atoi n) in if task_id =? 0 then None else Some task_id) names.

Definition attach_actions (task_id : Z) : list trace_action :=
  if task_id =? g_target_pid then []
  else [Attach task_id; WaitStop task_id; TraceChild task_id; Continue task_id 0].

Definition refused (task_id : Z) : Prop := task_id <> g_target_pid /\ may_attach task_id = false.

Lemma next_task_ids names :
  match next_task names with
  | Some (t, rest) => task_ids names = t :: task_ids rest
  | None => task_ids names = []
  end.
Proof.
  induction names as [| n names IH]; [done |]. cbn [next_task task_ids omap list_omap].
  destruct (s32 (atoi n) =? 0); [exact IH | done].
Qed.

(** The names that are left, when the directory is open or not. *)
Definition names_left (dirp : option (list cstr)) : option (list cstr) :=
  match dirp with Some d => Some d | None => dir end.

Lemma proc_tasks_run dirp (tr : list trace_action) names :
  names_left dirp = Some names ->
  exists dirp', zoom (proc_tasks dir) (dirp, tr) = Some (Ret (default 0 (head (task_ids names))), (dirp', tr)) /\
    (task_ids names = [] -> dirp' = None) /\
    (forall t ts, task_ids names = t :: ts -> exists rest, dirp' = Some rest /\ task_ids rest = ts).
Proof.
  intros Hn. unfold zoom, proc_tasks, get_state, mbind, cmd_bind. cbn [view update lens_fst lens_id fst snd].
  unfold names_left in Hn. cbn. rewrite Hn.
  pose proof (next_task_ids names) as Hnext. destruct (next_task names) as [[t rest] |].
  - exists (Some rest). cbn. rewrite Hnext. split_and!; [done | done |]. intros t' ts [= <- <-]. by exists rest.
  - exists None. cbn. rewrite Hnext. by split_and!.
Qed.

Lemma attach_thread_run t dirp tr :
  attach_thread t (dirp, tr) =
    if decide (refused t) then Some (Exit 4, (dirp, tr))
    else Some (Ret tt, (dirp, tr ++ attach_actions t)).
Proof.
  unfold attach_thread, attach_actions. destruct (Z.eqb_spec t g_target_pid) as [-> | Hne].
  - rewrite decide_False by (by intros []). by rewrite app_nil_r.
  - unfold ptrace_attach, refused. destruct (may_attach t) eqn:E.
    + rewrite decide_False by (by intros []).
      unfold result_bind, mbind, cmd_bind, trace, modify. cbn. by rewrite <- !app_assoc.
    + by rewrite decide_True by done.
Qed.

(** The loop up to some thread. *)
Lemma attach_prefix pre post names dirp tr fuel :
  names_left dirp = Some names -> task_ids names = pre ++ post -> Forall (fun t => 0 < t) (task_ids names) ->
  Forall (fun t => ~ refused t) pre ->
  exists dirp' names', names_left dirp' = Some names' /\ task_ids names' = post /\
    attach_threads (length pre + fuel) (dirp, tr) =
    attach_threads fuel (dirp', tr ++ concat (attach_actions <$> pre)).
Proof.
  revert names dirp tr. induction pre as [| t pre IH]; intros names dirp tr Hn Hts Hpos Hok.
  - exists dirp, names. by rewrite app_nil_r.
  - destruct (proc_tasks_run dirp tr names Hn) as (d1 & Hrun & _ & Hnext).
    destruct (Hnext t (pre ++ post) Hts) as (rest & -> & Hrest).
    rewrite Hts in Hpos, Hrun. apply Forall_cons in Hpos as [Ht Hpos]. apply Forall_cons in Hok as [Hr Hok].
    destruct (IH rest (Some rest) (tr ++ attach_actions t) eq_refl Hrest) as (d2 & names' & H1 & H2 & H3);
      [by rewrite Hrest | done |].
    exists d2, names'. split_and!; [done | done |]. cbn [length Nat.add attach_threads].
    change (default 0 (head ((t :: pre) ++ post))) with t in Hrun.
    erewrite result_bind_Ret by exact Hrun.
    rewrite (proj2 (Z.ltb_lt _ _) Ht). erewrite result_bind_Ret.
    2: { rewrite attach_thread_run, decide_False by done. reflexivity. }
    rewrite H3. cbn [fmap list_fmap concat]. by rewrite app_assoc.
Qed.

Lemma length_task_ids names : (length (task_ids names) <= length names)%nat.
Proof. apply length_omap_le. Qed.

Lemma attach_all_run names tr fuel :
  dir = Some names -> Forall (fun t => 0 < t) (task_ids names) -> (length names < fuel)%nat ->
  Forall (fun t => ~ refused t) (task_ids names) ->
  attach_threads fuel (None, tr) =
    Some (Ret tt, (None, tr ++ concat (attach_actions <$> task_ids names))).
Proof.
  intros Hd Hpos Hf Hok. pose proof (length_task_ids names) as Hl.
  destruct (attach_prefix (task_ids names) [] names None tr (fuel - length (task_ids names)))
    as (dirp & names' & Hn & Hts & Hrun); [done | by rewrite app_nil_r | done | done |].
  replace (length (task_ids names) + _)%nat with fuel in Hrun by lia. rewrite Hrun.
  destruct (fuel - length (task_ids names))%nat as [| fuel'] eqn:Ef; [lia |]. cbn [attach_threads].
  destruct (proc_tasks_run dirp (tr ++ concat (attach_actions <$> task_ids names)) names' Hn)
    as (d1 & Htask & Hend & _). rewrite Hts in Htask. rewrite (Hend Hts) in Htask.
  by erewrite result_bind_Ret by exact Htask.
Qed.

Lemma attach_refused_run names tr fuel pre t post :
  dir = Some names -> Forall (fun t => 0 < t) (task_ids names) -> (length names < fuel)%nat ->
  task_ids names = pre ++ t :: post -> Forall (fun t => ~ refused t) pre -> refused t ->
  exists dirp, attach_threads fuel (None, tr) = Some (Exit 4, (dirp, tr ++ concat (attach_actions <$> pre))).
Proof.
  intros Hd Hpos Hf Hts Hpre Hr. pose proof (length_task_ids names) as Hl.
  destruct (attach_prefix pre (t :: post) names None tr (fuel - length pre))
    as (dirp & names' & Hn & Hts' & Hrun); [done | done | done | done |].
  rewrite Hts in Hl, Hpos. rewrite length_app in Hl. cbn [length] in Hl.
  replace (length pre + _)%nat with fuel in Hrun by lia. rewrite Hrun.
  destruct (fuel - length pre)%nat as [| fuel'] eqn:Ef; [lia |]. cbn [attach_threads].
  destruct (proc_tasks_run dirp (tr ++ concat (attach_actions <$> pre)) names' Hn) as (d1 & Htask & _ & _).
  exists d1. rewrite Hts' in Htask. change (default 0 (head (t :: post))) with t in Htask.
  erewrite result_bind_Ret by exact Htask. apply Forall_app in Hpos as [_ Hpos].
  apply Forall_cons in Hpos as [Ht _]. rewrite (proj2 (Z.ltb_lt _ _) Ht).
  unfold result_bind, mbind, cmd_bind. by rewrite attach_thread_run, decide_True by done.
Qed.

(** C21: attaching to the threads of the target, when [/proc/pid/task] shows the
    names, and the numbers among them are positive: the monitor attaches to each
    thread other than the target's first once, in the order of the names, waits
    for it, traces its children and lets it go on, and the directory is closed;
    or it exits with 4 at the first one that it cannot attach to. *)
Theorem attach_threads_correct names tr fuel :
  dir = Some names -> Forall (fun t => 0 < t) (task_ids names) -> (length names < fuel)%nat ->
  (Forall (fun t => ~ refused t) (task_ids names) ->
     attach_threads fuel (None, tr) =
       Some (Ret tt, (None, tr ++ concat (attach_actions <$> task_ids names)))) /\
  (forall pre t post, task_ids names = pre ++ t :: post -> Forall (fun t => ~ refused t) pre -> refused t ->
     exists dirp, attach_threads fuel (None, tr) = Some (Exit 4, (dirp, tr ++ concat (attach_actions <$> pre)))).
Proof.
  intros Hd Hpos Hf. split; [by apply attach_all_run |].
  intros pre t post. by apply attach_refused_run.
Qed.

End attach.

Lemma attach_threads_correct_witness :
  attach_threads (fun _ => true) (Some [lit "."; lit ".."; lit "7"; lit "9"; lit "12"]) 7 6 (None, []) =
    Some (Ret tt, (None, [Attach 9; WaitStop 9; TraceChild 9; Continue 9 0;
                          Attach 12; WaitStop 12; TraceChild 12; Continue 12 0])) /\
  exists dirp, attach_threads (fun t => t =? 9) (Some [lit "."; lit ".."; lit "7"; lit "9"; lit "12"]) 7 6
      (None, []) = Some (Exit 4, (dirp, [Attach 9; WaitStop 9; TraceChild 9; Continue 9 0])).
Proof.
  assert (task_ids [lit "."; lit ".."; lit "7"; lit "9"; lit "12"] = [7; 9; 12]) as E by (vm_compute; reflexivity).
  set (names := [lit "."; lit ".."; lit "7"; lit "9"; lit "12"]) in *.
  assert (Forall (fun t => 0 < t) (task_ids names)) as Hpos by (rewrite E; repeat constructor).
  split.
  - rewrite (proj1 (attach_threads_correct (fun _ => true) (Some names) 7 names [] 6 eq_refl Hpos
      ltac:(simpl; lia))); [by rewrite E |].
    rewrite E. repeat constructor; by intros [].
  - apply (proj2 (attach_threads_correct (fun t => t =? 9) (Some names) 7 names [] 6 eq_refl Hpos
      ltac:(simpl; lia)) [7; 9] 12 []).
    + exact E.
    + repeat constructor; by intros [].
    + by split.
Defined.

(** ** The end *)

Section finish.
Context `{!Machine}.
Context {uspace_t upt_t : Type}.
Context (unw_create_addr_space : uspace_t) (UPT_create : Z -> upt_t).
Context `{!Symbolizer} `{!Qsort}.
Context (space_head spaces g_callstack_hash : Z).
Context (g_memblock_hash g_memblock_active g_memblock_expire : Z).
Context (opts : options) (g_target_pid : Z) (g_breakpoints : list breakpoint_s).
Context (heap_start : Z).
Context (Hstat : statics_ok space_head spaces g_callstack_hash g_memblock_hash
  g_memblock_active g_memblock_expire heap_start).

Abbreviation loop_state := (loop_state (uspace_t := uspace_t) (upt_t := upt_t)).
Abbreviation mb_world := (mb_world (uspace_t := uspace_t) (upt_t := upt_t)).
Abbreviation env := (env uspace_t upt_t).
Abbreviation limit := (opt_backtrace_limit opts).
Abbreviation R := (R unw_create_addr_space UPT_create space_head spaces g_callstack_hash
  g_memblock_hash g_memblock_active g_memblock_expire heap_start).

(** After the loop: [begin] is the time at its beginning, [e] has the time at
    the end. *)
Definition finish (begin : Z) (e : env) : cmd loop_state Z :=
  clean_up g_target_pid g_breakpoints;;
  if now e - begin <? memory_expire opts then act (Say (MsgTooShort (memory_expire opts)));; mret 2
  else zoom (H := lp_world_lens) (callstack_report g_callstack_hash g_memblock_active g_memblock_expire e);; mret 0.

Lemma clean_up_total (s : loop_state) :
  exists s', clean_up g_target_pid g_breakpoints s = Some (tt, s') /\ lp_world s' = lp_world s /\
    lp_actions s' = lp_actions s ++ [Detach g_target_pid].
Proof.
  unfold clean_up. destruct (cleanup_total g_breakpoints (lp_mem s)) as [m Hm].
  erewrite cmd_bind_Some by (apply zoom_Some; exact Hm).
  erewrite (cmd_bind_Some (gets lp_call)) by reflexivity. cbn beta. unfold when.
  case_match; by eexists.
Qed.

(** There is memory for the array of the report, and [int]s are enough. *)
Definition report_fits (t : tracker) : Prop :=
  let n := Z.of_nat (length (t_cs_order t)) in
  Z.of_nat (length (t_expire t)) < 2 ^ 31 /\
  (sizeof_pointer + 15) * (1000 + 4 * n) <= heap_end (t_heap t) - brk (t_heap t) /\
  sizeof_pointer * Z.max 1000 (2 * n) < 2 ^ 31.

Lemma finish_reports s1 t1 begin e :
  R (lp_world s1) t1 -> reportable heap_start t1 -> report_fits t1 ->
  (now e - begin < memory_expire opts -> exists s2, finish begin e s1 = Some (2, s2) /\
     lp_actions s2 = lp_actions s1 ++ [Detach g_target_pid; Say (MsgTooShort (memory_expire opts))]) /\
  (memory_expire opts <= now e - begin -> exists s2 expire css, finish begin e s1 = Some (0, s2) /\
     lp_actions s2 = lp_actions s1 ++ [Detach g_target_pid] /\
     reported g_memblock_expire (lp_world s2) (cs_out (mb_cs (lp_world s1))) expire css).
Proof.
  intros HR1 Hrep (Hlen & Hmem & Hint).
  destruct (clean_up_total s1) as (s2 & Hclean & Ew & Ea). unfold finish.
  split; intros Htime; erewrite cmd_bind_Some by exact Hclean.
  { rewrite (proj2 (Z.ltb_lt _ _) Htime). eexists. split; [reflexivity |]. cbn. by rewrite Ea, <- app_assoc. }
  rewrite (proj2 (Z.ltb_ge _ _) Htime).
  destruct (report_run _ _ _ _ _ _ _ _ 0 _ Hstat (lp_world s1) t1 e HR1 Hrep Hlen Hmem Hint)
    as (w' & expire & css & Hr & Hok).
  rewrite <- Ew in Hr. erewrite cmd_bind_Some by (apply (zoom_Some (H := lp_world_lens)); exact Hr).
  eexists _, expire, css. split; [reflexivity |]. split; [exact Ea | exact Hok].
Qed.

End finish.

(** On x86-64: a thread calls [malloc(100)], which returns a second later. *)
#[local] Existing Instance x86_64.
Import Example.

Definition example_scan : event := Expire 10 1000 1000.

Definition example_env (t entry thread : Z) (frames : list Z) : env unit Z :=
  mk_env t entry thread (fun _ _ => (200, frames)).

Definition example_events1 : list (env unit Z * event) := [(example_env 1000 0 0 [100], example_scan)].
Definition example_events2 : list (env unit Z * event) :=
  [(example_env 1001 4096 7 [100; 50], Return Malloc 65536 100 0);
   (example_env 1001 4096 7 [100; 50], example_scan)].
Definition tracker_of (r : option (list Z * tracker)) : tracker :=
  match r with Some (_, t) => t | None => empty_tracker (mk_heap 0 0) end.
Definition example_tracker0 : tracker := empty_tracker (mk_heap 16777216 33554432).
Definition example_tracker1 : tracker :=
  Eval vm_compute in tracker_of (spec_events tt (fun t => t) 3 example_events1 example_tracker0).
Definition example_tracker2 : tracker :=
  Eval vm_compute in tracker_of (spec_events tt (fun t => t) 3 example_events2 example_tracker1).

Abbreviation main_step := (loop_step (uspace_t := unit) (upt_t := Z) tt (fun t => t)
  64 128 1048576 2097152 600 632 3 10 1000 1000 7 example_breakpoints).
Abbreviation main_R := (R (uspace_t := unit) tt (fun t => t) 64 128 1048576 2097152 600 632 16777216).

Definition inside_malloc : watcher :=
  mk_watcher (Some (mk_ongoing (mk_breakpoint "malloc" Malloc 4096 2676586395008836901) 7 8192 100 0)) 0 0 [].
Definition after_malloc : watcher := mk_watcher None 4096 7 [].

Lemma example_malloc_seen :
  watch 10 1000 1000 (mk_watcher None 0 0 [])
    (see 7 example_breakpoints example_start_state (Stopped (example_stop SIGTRAP 4097))) =
  Some (inside_malloc, example_events1, Next).
Proof.
  rewrite (see_ext 7 example_breakpoints example_start_state example_idle _ (eq_refl example_planted)
    (eq_refl (mk_call None 0 0 0 0 0)) (eq_refl 0)). vm_compute. reflexivity.
Qed.

(** The iterations, one by one. *)
Lemma example_malloc_entered :
  exists s1, main_step (Stopped (example_stop SIGTRAP 4097)) example_start_state = Some (Next, s1) /\
    main_R (lp_world s1) example_tracker1 /\ watched s1 inside_malloc.
Proof.
  apply (loop_goes_on tt (fun t => t) 64 128 1048576 2097152 600 632 3 10 1000 1000 7 example_breakpoints
    16777216 example_start_state (mk_watcher None 0 0 []) example_tracker0 _ _ example_events1 [0]).
  - exact Example.statics.
  - exact Example.related.
  - by split_and!.
  - exact example_malloc_seen.
  - by repeat constructor.
  - vm_compute. reflexivity.
  - by repeat constructor.
Qed.

Lemma example_malloc_returned s1 :
  main_R (lp_world s1) example_tracker1 -> watched s1 inside_malloc ->
  exists s2, main_step (Stopped example_return) s1 = Some (Next, s2) /\
    main_R (lp_world s2) example_tracker2 /\ watched s2 after_malloc.
Proof.
  intros HR Hwd.
  apply (loop_goes_on tt (fun t => t) 64 128 1048576 2097152 600 632 3 10 1000 1000 7 example_breakpoints
    16777216 s1 inside_malloc example_tracker1 _ _ example_events2 [0; 11]).
  - exact Example.statics.
  - exact HR.
  - exact Hwd.
  - reflexivity.
  - apply List.Forall_cons; [| by repeat constructor].
    split; [split; [done | by repeat constructor] | unfold event_ok, is_u64; lia].
  - vm_compute. reflexivity.
  - by repeat constructor.
Qed.
