(* ===== verification/WaitStatus.v ===== *)
(** * The answers of [waitpid]

    In [memleax.c] the loop takes the status words apart with the macros of the
    C library, and with [ptrace_new_child] of [ptrace_utils.h]: [wait_event_of]
    is the beginning of the loop's body, on Linux and on FreeBSD.
    [wait_status_roundtrip]: it understands the status words that they make. *)

From S2P Require Import Prelude Machines MainLoop.

Section wait.
Context `{!Machine} {uspace_t upt_t : Type}.

Definition WIFSTOPPED (status : Z) : bool :=
  match os with
  | LinuxOS => Z.land status 255 =? 127
  | FreeBSDOS => Z.land status 127 =? 127
  end.
Definition WSTOPSIG (status : Z) : Z :=
  match os with
  | LinuxOS => Z.shiftr (Z.land status 65280) 8
  | FreeBSDOS => Z.shiftr status 8
  end.

Definition PL_FLAG_FORKED : Z := 64.

(** The one of FreeBSD, with the flags that PT_LWPINFO gives. *)
Definition bsd_new_child (pl_flags : Z) : Z := Z.land pl_flags PL_FLAG_FORKED.

Definition ptrace_new_child (status pl_flags : Z) : Z :=
  match os with
  | LinuxOS => Z.shiftr status 16
  | FreeBSDOS => bsd_new_child pl_flags
  end.

(** The results of [waitpid], and what is read later of the thread. *)
Record waited := mk_waited {
  w_pid : Z;
  w_eintr : bool;                         (* errno == EINTR *)
  w_status : Z;
  w_pl_flags : Z;
  w_is_task : bool;
  w_regs : registers_info_t;
  w_child_mem : target_mem;
  w_time : Z;
  w_frames : uspace_t -> upt_t -> Z * list Z
}.

(** [proc_task_check] is called on Linux only. *)
Definition wait_event_of (w : waited) : wait_event (uspace_t := uspace_t) (upt_t := upt_t) :=
  if w_pid w <? 0 then WaitError (w_eintr w)
  else if negb (WIFSTOPPED (w_status w)) then NotStopped (w_pid w)
  else Stopped (mk_stop (w_pid w) (WSTOPSIG (w_status w)) (ptrace_new_child (w_status w) (w_pl_flags w))
                  (match os with LinuxOS => w_is_task w | FreeBSDOS => false end)
                  (w_regs w) (w_child_mem w) (w_time w) (w_frames w)).

(** The status words that the kernel makes: of a thread that stopped by a signal, or
    by an event of ptrace (with SIGTRAP, on Linux); that exited; that was killed. *)
Definition stopped_status (event sig : Z) : Z := Z.lor (Z.shiftl event 16) (Z.lor (Z.shiftl sig 8) 127).
Definition exited_status (code : Z) : Z := Z.shiftl (Z.land code 255) 8.
Definition killed_status (sig core : Z) : Z := Z.lor sig (Z.shiftl core 7).

Lemma lor_high_low a b k : 0 <= k -> 0 <= b < 2 ^ k -> Z.lor (Z.shiftl a k) b = a * 2 ^ k + b.
Proof.
  intros Hk Hb. rewrite <- Z.shiftl_mul_pow2, <- Z.add_lor_land by done.
  replace (Z.land (Z.shiftl a k) b) with 0; [lia |].
  rewrite <- (Z.mod_small b (2 ^ k)), <- Z.land_ones by lia.
  apply Z.bits_inj'. intros n Hn. rewrite Z.bits_0, !Z.land_spec, Z.testbit_ones_nonneg by lia.
  destruct (Z.ltb_spec n k); [| by rewrite !andb_false_r]. by rewrite Z.shiftl_spec_low.
Qed.

Lemma land_bit x : Z.land x 64 = 0 <-> Z.testbit x 6 = false.
Proof.
  split.
  - intros E. assert (Z.testbit (Z.land x 64) 6 = false) as Ht by by rewrite E.
    rewrite Z.land_spec in Ht. by destruct (Z.testbit x 6).
  - intros E. change 64 with (2 ^ 6). apply Z.bits_inj'. intros n Hn. rewrite Z.land_spec, Z.bits_0, Z.pow2_bits_eqb by lia.
    destruct (Z.eqb_spec 6 n) as [<- |]; [by rewrite E | by rewrite andb_false_r].
Qed.

Lemma land_bytes x :
  Z.land x 127 = x mod 2 ^ 7 /\ Z.land x 255 = x mod 2 ^ 8 /\ Z.shiftr (Z.land x 65280) 8 = x / 2 ^ 8 mod 2 ^ 8.
Proof.
  split_and!; [by apply (Z.land_ones x 7) | by apply (Z.land_ones x 8) |].
  change 65280 with (Z.shiftl (Z.ones 8) 8). rewrite Z.shiftr_land, Z.shiftr_shiftl_l by lia.
  change (Z.shiftl (Z.ones 8) (8 - 8)) with (Z.ones 8). by rewrite Z.land_ones, Z.shiftr_div_pow2 by lia.
Qed.

(** A stop is recognised on both systems; FreeBSD makes no event. *)
Lemma stopped_status_parts event sig :
  0 <= event -> (os = FreeBSDOS -> event = 0) -> 0 <= sig < 2 ^ 8 ->
  WIFSTOPPED (stopped_status event sig) = true /\ WSTOPSIG (stopped_status event sig) = sig.
Proof.
  intros He Hbsd Hs. unfold stopped_status. rewrite (lor_high_low sig), (lor_high_low event) by lia.
  unfold WIFSTOPPED, WSTOPSIG. set (x := event * 2 ^ 16 + _). destruct (land_bytes x) as (-> & -> & ->).
  rewrite Z.shiftr_div_pow2 by lia. unfold x.
  destruct os; [| rewrite Hbsd by done]; (split; [apply Z.eqb_eq |]; Z.div_mod_to_equations; lia).
Qed.

Lemma new_child_event event sig flags :
  os = LinuxOS -> 0 <= event -> 0 <= sig < 2 ^ 8 -> ptrace_new_child (stopped_status event sig) flags = event.
Proof.
  intros Hos He Hs. unfold ptrace_new_child. rewrite Hos. unfold stopped_status.
  rewrite (lor_high_low sig), (lor_high_low event), Z.shiftr_div_pow2 by lia. Z.div_mod_to_equations. lia.
Qed.

Lemma not_stopped_status status : status mod 2 ^ 7 <> 127 -> WIFSTOPPED status = false.
Proof.
  intros Hs. unfold WIFSTOPPED. destruct (land_bytes status) as (-> & -> & _).
  destruct os; apply Z.eqb_neq; Z.div_mod_to_equations; lia.
Qed.

(** C35: the status words of Linux and FreeBSD are understood: a thread that
    stopped by a signal is seen with just this signal, and, on Linux, with the
    event of ptrace that it was stopped by; on FreeBSD, with the flag of a fork;
    a process that exited, or that was killed by a signal, is not taken for a
    stopped one. *)
Theorem wait_status_roundtrip (w : waited) :
  0 <= w_pid w ->
  (forall event sig, 0 <= event -> (os = FreeBSDOS -> event = 0) -> 0 <= sig < 2 ^ 8 ->
     w_status w = stopped_status event sig ->
     exists st, wait_event_of w = Stopped st /\ st_pid st = w_pid w /\ st_signum st = sig /\
       (os = LinuxOS -> st_new_child st = event /\ st_is_task st = w_is_task w) /\
       (os = FreeBSDOS -> (st_new_child st = 0 <-> Z.testbit (w_pl_flags w) 6 = false))) /\
  (forall code, w_status w = exited_status code -> wait_event_of w = NotStopped (w_pid w)) /\
  (forall sig core, 0 <= core < 2 -> 0 < sig < 127 -> w_status w = killed_status sig core ->
     wait_event_of w = NotStopped (w_pid w)).
Proof.
  intros Hp. unfold wait_event_of. rewrite (proj2 (Z.ltb_ge _ _) Hp). split_and!.
  - intros event sig He Hbsd Hs E. destruct (stopped_status_parts event sig) as [Hst Hsig]; [done.. |].
    rewrite E, Hst, Hsig. eexists. split_and!; [done.. | |]; simpl; intros Hos.
    + split; [by apply new_child_event | by rewrite Hos].
    + unfold ptrace_new_child, bsd_new_child, PL_FLAG_FORKED. rewrite Hos. apply land_bit.
  - intros code ->. rewrite not_stopped_status; [done |]. unfold exited_status.
    rewrite Z.shiftl_mul_pow2 by lia. Z.div_mod_to_equations. lia.
  - intros sig core Hc Hk ->. rewrite not_stopped_status; [done |]. unfold killed_status.
    rewrite Z.lor_comm, (lor_high_low core) by lia. Z.div_mod_to_equations. lia.
Qed.

End wait.

(** A thread that stopped by the event of [clone] (3). *)
Lemma wait_status_roundtrip_witness :
  exists st, wait_event_of (H := x86_64) (uspace_t := unit) (upt_t := Z)
      (mk_waited (H := x86_64) 9 false 198015 0 true (mk_x86_64 0 0 0 0 0 : registers_info_t (Machine := x86_64)) ∅ 1000
         (fun _ _ => (200, []))) = Stopped st /\
    st_pid st = 9 /\ st_signum st = SIGTRAP /\ st_new_child st = 3.
Proof.
  destruct (proj1 (wait_status_roundtrip (H := x86_64) (mk_waited (H := x86_64) (uspace_t := unit) (upt_t := Z) 9 false 198015 0 true
    (mk_x86_64 0 0 0 0 0 : registers_info_t (Machine := x86_64)) ∅ 1000 (fun _ _ => (200, []))) ltac:(simpl; lia)) 3 5)
    as (st & Hw & Hpid & Hsig & Hlinux & _).
  - lia.
  - discriminate.
  - lia.
  - reflexivity.
  - exists st. split; [exact Hw |]. split; [exact Hpid |]. split; [exact Hsig | exact (proj1 (Hlinux eq_refl))].
Defined.
