(* ===== verification/WellTyped.v ===== *)
(** * The memory of the program is well typed

    The pointers of [memblock.c] and [callstack.c] lead to live objects of their
    types: the nodes of the two lists are in blocks, and so are the nodes of the
    first table; a block has a call stack; the nodes of the second table are in
    call stacks, each with the frames that it says.  [memory_well_typed]: this
    is so whenever the loop waits, whatever the target did, and the next
    iteration is defined and keeps it. *)

From S2P Require Import Prelude ListH HlistH HashH PtrBacktrace Heap Callstack.
From S2P Require Import Memblock Tracker CallstackRefine MemblockRefine Handlers.
From S2P Require Import TrackerSteps Accounting TrackerSafe Machines MainLoop Monitor Main.

Section typing.
Context `{!Machine}.
Context {uspace_t upt_t : Type}.
Context (unw_create_addr_space : uspace_t) (UPT_create : Z -> upt_t).
Context `{!Symbolizer}.
Context (space_head spaces g_callstack_hash : Z).
Context (g_memblock_hash g_memblock_active g_memblock_expire : Z).
Context (opt_backtrace_limit : Z).
Context (heap_start : Z).

Abbreviation mb_world := (mb_world (uspace_t := uspace_t) (upt_t := upt_t)).
Abbreviation cs_world := (cs_world (uspace_t := uspace_t) (upt_t := upt_t)).
Abbreviation R := (R unw_create_addr_space UPT_create space_head spaces g_callstack_hash
  g_memblock_hash g_memblock_active g_memblock_expire heap_start).

(** The [n] bytes at [p] are of the heap. *)
Definition in_heap (h : heap) (p n : Z) : Prop := heap_start <= p /\ p + n <= brk h.

(** At [p] is a call stack: as many frames as its number says, each a word. *)
Definition callstack_typed (w : cs_world) (p : Z) : Prop :=
  exists c ips, cs_objs w !! p = Some c /\
    ip_num c = Z.of_nat (length ips) /\ ip_num c <= BACKTRACE_MAX /\ Forall is_u64 ips /\
    read_bytes (bytes (cs_hash w)) (p + offset_ips) (8 * length ips) = Some (key_bytes ips) /\
    in_heap (cs_heap w) p (sizeof_callstack + 8 * ip_num c).

(** At [p] is a block, with a pointer and a call stack; the member [expired]
    says on which list it is. *)
Definition block_typed (w : mb_world) (flag p : Z) : Prop :=
  exists b a, mb_objs w !! p = Some b /\ expired b = flag /\
    read_bytes (bytes (mb_hash w)) (p + offset_pointer) 8 = Some (word_bytes a) /\ is_u64 a /\
    hnode (chains (mb_hash w)) (mb_node p) /\
    callstack_typed (mb_cs w) (callstack b) /\
    in_heap (cs_heap (mb_cs w)) p sizeof_memblock.

(** The memory, with the blocks of the two lists, each in the table; no call
    stack is missing in the other table. *)
Record memory_typed (w : mb_world) : Prop := {
  mt_blocks : exists active expire order,
    dll (mb_lists w) g_memblock_active active /\ dll (mb_lists w) g_memblock_expire expire /\
    NoDup (active ++ expire) /\ active ++ expire ≡ₚ order /\
    Forall (block_typed w 0) active /\ Forall (block_typed w 1) expire /\
    hash_rep g_memblock_hash (fun _ => sizeof_uintptr) (bytes (mb_hash w)) (mb_hash w) (mb_node <$> order);
  mt_callstacks : exists len_of order,
    hash_rep g_callstack_hash len_of (bytes (cs_hash (mb_cs w))) (cs_hash (mb_cs w)) (cs_node <$> order) /\
    Forall (callstack_typed (mb_cs w)) order /\
    forall p, is_Some (cs_objs (mb_cs w) !! p) -> p ∈ order
}.

Lemma R_callstack_typed w t p :
  R w t -> is_Some (t_cs t !! p) -> callstack_typed (mb_cs w) p.
Proof.
  intros [[] _] [c Hc]. destruct (proj2 (rc_dom p) (mk_is_Some _ _ Hc)) as [ips Hips].
  destruct (rc_ok _ _ _ Hc Hips). exists c, ips. rewrite rc_objs, rc_heap, co_num. unfold in_heap.
  split_and!; try done. lia.
Qed.

Lemma R_block_typed w t p flag :
  R w t -> p ∈ t_order t -> (forall b, t_mb t !! p = Some b -> expired b = flag) -> block_typed w flag p.
Proof.
  intros HR Hp Hflag. pose proof HR as [[] []].
  destruct (proj1 (wf_mb _ rm_wf p) Hp) as [b Hb], (proj1 (wf_ptr _ rm_wf p) Hp) as [a Ha].
  destruct (wf_block _ rm_wf _ _ Hb) as (Hlow & Hhigh & Hcs). exists b, a.
  split; [by eapply lookup_weaken |]. split; [by apply Hflag |]. split; [by apply rm_key |].
  split; [by eapply wf_word |]. split; [by apply rm_nodes |]. split; [by eapply R_callstack_typed |].
  by split; [| rewrite rc_heap].
Qed.

Lemma R_memory_typed w t : R w t -> flags_ok t -> memory_typed w.
Proof.
  intros HR Hflags. pose proof HR as [[] []]. destruct rm_lists as (HA & HE & _).
  assert (forall p, p ∈ t_active t ++ t_expire t -> p ∈ t_order t) as Hin
    by (intros p; by rewrite (wf_perm _ rm_wf)).
  constructor.
  - exists (t_active t), (t_expire t), (t_order t). split_and!; try done.
    + rewrite (wf_perm _ rm_wf). apply rm_wf.
    + apply rm_wf.
    + apply Forall_forall. intros p Hp. apply (R_block_typed w t); [done | apply Hin; set_solver |].
      intros b Hb. by apply (Hflags p b Hb).
    + apply Forall_forall. intros p Hp. apply (R_block_typed w t); [done | apply Hin; set_solver |].
      intros b Hb. by apply (Hflags p b Hb).
  - exists (cs_key_len (t_ips t)), (t_cs_order t). split_and!; [done | |].
    + apply Forall_forall. intros p Hp. apply (R_callstack_typed w t); [done |]. by apply rc_dom, rc_order.
    + intros p. rewrite rc_objs. intros Hp. by apply rc_order, rc_dom.
Qed.

(** ** In the loop *)

Context (memory_expire memblock_limit callstack_limit g_target_pid : Z).
Context (g_breakpoints : list breakpoint_s).

Abbreviation loop_state := (loop_state (uspace_t := uspace_t) (upt_t := upt_t)).
Abbreviation env := (env uspace_t upt_t).
Abbreviation observed := (observed unw_create_addr_space UPT_create space_head spaces
  g_callstack_hash g_memblock_hash g_memblock_active g_memblock_expire opt_backtrace_limit
  memory_expire memblock_limit callstack_limit g_target_pid g_breakpoints).
Abbreviation loop_step := (loop_step unw_create_addr_space UPT_create space_head spaces
  g_callstack_hash g_memblock_hash g_memblock_active g_memblock_expire opt_backtrace_limit
  memory_expire memblock_limit callstack_limit g_target_pid g_breakpoints).
Abbreviation watch := (watch (uspace_t := uspace_t) (upt_t := upt_t) memory_expire memblock_limit callstack_limit).
Abbreviation watch_all := (watch_all (uspace_t := uspace_t) (upt_t := upt_t) memory_expire memblock_limit callstack_limit).
Abbreviation see := (see g_target_pid g_breakpoints).
Abbreviation spec_events := (spec_events unw_create_addr_space UPT_create opt_backtrace_limit).
Abbreviation env_ok := (event_env_ok unw_create_addr_space UPT_create opt_backtrace_limit).
Abbreviation event_safe := (event_safe unw_create_addr_space UPT_create opt_backtrace_limit).
Abbreviation statics_ok := (statics_ok space_head spaces g_callstack_hash g_memblock_hash
  g_memblock_active g_memblock_expire heap_start).
Abbreviation start_ok := (start_ok space_head spaces g_memblock_active g_memblock_expire heap_start).

Lemma events_flags evs t rs t' :
  tracker_inv heap_start t -> Forall (fun '(e, ev) => env_ok e ev /\ event_ok ev) evs ->
  spec_events evs t = Some (rs, t') -> tracker_inv heap_start t'.
Proof.
  intros Hinv Hevs Hspec. eapply spec_events_inv; [exact Hinv | | exact Hspec].
  eapply Forall_impl; [exact Hevs |]. by intros [? ?] [? ?].
Qed.

(** C7: the memory is well typed.  In any run of the loop from the start, in
    which the abstract monitor does not lose track and the specification of the
    tracker is defined: when the loop waits, every pointer in the memory of
    [memblock.c] and [callstack.c] leads to an object of its type; and the next
    iteration, if the monitor does not lose track and its events are safe, is
    defined and leaves the memory well typed, whether the loop goes on or ends. *)
Theorem memory_well_typed bt lists h s0 xs s wt0 wt evs rs t :
  statics_ok -> start_ok bt lists h ->
  lp_world s0 = initial_world g_callstack_hash g_memblock_hash bt lists h -> watched s0 wt0 ->
  observed s0 xs s -> watch_all wt0 (xs.*2) = Some (wt, evs) ->
  Forall (fun '(e, ev) => env_ok e ev /\ event_ok ev) evs ->
  spec_events evs (empty_tracker h) = Some (rs, t) ->
  memory_typed (lp_world s) /\
  forall ev wt' evs' o, watch wt (see s ev) = Some (wt', evs', o) ->
    Forall (fun '(e, ev) => env_ok e ev /\ event_ok ev /\ event_safe e ev t) evs' ->
    exists o' s', loop_step ev s = Some (o', s') /\ memory_typed (lp_world s').
Proof.
  intros Hst Hstart Hw0 Hwd0 Hobs Hall Hevs Hspec.
  destruct (run_from_start _ _ _ _ _ _ _ _ _ _ _ _ _ _ _ _ Hst Hstart Hevs Hspec) as (w & Hrun & HR).
  destruct (monitor_follows _ _ _ _ _ _ _ _ _ _ _ _ _ _ _ _ _ _ _ _ Hobs Hwd0 Hall) as (Hwd & rs1 & Hrun1 & _).
  rewrite Hw0 in Hrun1. assert (lp_world s = w) as <- by congruence. clear Hrun Hrun1.
  assert (tracker_inv heap_start t) as Hinv
    by (eapply events_flags; [apply empty_inv; apply Hstart | exact Hevs | exact Hspec]).
  split; [eapply R_memory_typed; [exact HR | apply Hinv] |]. intros ev wt' evs' o Hw Hsafe.
  destruct (loop_step_safe _ _ _ _ _ _ _ _ _ _ _ _ _ _ heap_start s wt t ev wt' evs' o Hst HR Hwd Hw Hsafe)
    as (o' & s' & evs1 & rs2 & t' & Hstep & [k ->] & Hs & HR' & _).
  exists o', s'. split; [done |]. eapply R_memory_typed; [exact HR' |].
  eapply (events_flags evs1 t rs2 t'); [done | | done].
  apply Forall_app in Hsafe as [Hsafe _]. eapply Forall_impl; [exact Hsafe |]. by intros [? ?] (? & ? & _).
Qed.

End typing.

(** On x86-64: after [malloc(100)] has returned, and when the next call begins. *)
#[local] Existing Instance x86_64.
Import Example.

Lemma memory_well_typed_witness :
  exists s, memory_typed 1048576 2097152 600 632 16777216 (lp_world s) /\
    exists o s', main_step (Stopped (example_stop SIGTRAP 4097)) s = Some (o, s') /\
      memory_typed 1048576 2097152 600 632 16777216 (lp_world s').
Proof.
  destruct example_malloc_entered as (s1 & H1 & HR1 & Hw1).
  destruct (example_malloc_returned s1 HR1 Hw1) as (s2 & H2 & HR2 & Hw2).
  exists s2.
  destruct (memory_well_typed tt (fun t => t) 64 128 1048576 2097152 600 632 3 16777216 10 1000 1000 7
    example_breakpoints example_bt_state static_lists (mk_heap 16777216 33554432) example_start_state
    [(Stopped (example_stop SIGTRAP 4097), see 7 example_breakpoints example_start_state (Stopped (example_stop SIGTRAP 4097)));
     (Stopped example_return, see 7 example_breakpoints s1 (Stopped example_return))]
    s2 (mk_watcher None 0 0 []) after_malloc (example_events1 ++ example_events2) [0; 0; 11]
    example_tracker2) as [Htyped Hnext].
  - exact Example.statics.
  - exact Example.start.
  - reflexivity.
  - by split_and!.
  - repeat (eapply observed_event; [first [exact H1 | exact H2] |]). constructor.
  - cbn [fmap list_fmap snd Monitor.watch_all]. rewrite example_malloc_seen. reflexivity.
  - apply List.Forall_cons; [by repeat constructor |].
    apply List.Forall_cons; [| by repeat constructor].
    split; [split; [done | repeat constructor; done] | unfold event_ok, is_u64; simpl; lia].
  - vm_compute. reflexivity.
  - split; [exact Htyped |]. eapply Hnext; [reflexivity |]. by repeat constructor.
Defined.
