(* ===== verification/Liveness.v ===== *)
(** * What the monitor does in time

    The loop of [memleax.c] waits for the target, and an idle target makes no
    events: what wakes the loop is the alarm that the last scan set.
    [alarm_in_time]: whenever the loop waits, the alarm is the one of the moment
    at which the oldest block has been live for too long, or there is no block;
    the monitor does not sleep through the expiry of a block.

    A thread that stops while another one is inside a call is not continued
    until a call returns.  [held_threads_released]: it is, in the end. *)

From stdpp Require Import relations.
From S2P Require Import Prelude ListH HlistH HashH PtrBacktrace Heap Callstack.
From S2P Require Import Memblock Tracker CallstackRefine MemblockRefine Handlers.
From S2P Require Import TrackerSteps Accounting Expiry TrackerSafe Machines MainLoop Monitor Main.

Section liveness.
Context `{!Machine}.
Context {uspace_t upt_t : Type}.
Context (unw_create_addr_space : uspace_t) (UPT_create : Z -> upt_t).
Context `{!Symbolizer}.
Context (space_head spaces g_callstack_hash : Z).
Context (g_memblock_hash g_memblock_active g_memblock_expire : Z).
Context (opt_backtrace_limit : Z).
Context (memory_expire memblock_limit callstack_limit g_target_pid : Z).
Context (g_breakpoints : list breakpoint_s).
Context (heap_start : Z).

Abbreviation mb_world := (mb_world (uspace_t := uspace_t) (upt_t := upt_t)).
Abbreviation loop_state := (loop_state (uspace_t := uspace_t) (upt_t := upt_t)).
Abbreviation env := (env uspace_t upt_t).
Abbreviation observed := (observed unw_create_addr_space UPT_create space_head spaces
  g_callstack_hash g_memblock_hash g_memblock_active g_memblock_expire opt_backtrace_limit
  memory_expire memblock_limit callstack_limit g_target_pid g_breakpoints).
Abbreviation loop_step := (loop_step unw_create_addr_space UPT_create space_head spaces
  g_callstack_hash g_memblock_hash g_memblock_active g_memblock_expire opt_backtrace_limit
  memory_expire memblock_limit callstack_limit g_target_pid g_breakpoints).
Abbreviation watch := (watch (uspace_t := uspace_t) (upt_t := upt_t) memory_expire memblock_limit callstack_limit).
Abbreviation watch_all := (watch_all (uspace_t := uspace_t) (upt_t := upt_t) memory_expire memblock_limit callstack_limit).
Abbreviation see := (see g_target_pid g_breakpoints).
Abbreviation scan := (scan memory_expire memblock_limit callstack_limit).
Abbreviation spec_events := (spec_events unw_create_addr_space UPT_create opt_backtrace_limit).
Abbreviation event_good := (event_good unw_create_addr_space UPT_create opt_backtrace_limit).
Abbreviation statics_ok := (statics_ok space_head spaces g_callstack_hash g_memblock_hash
  g_memblock_active g_memblock_expire heap_start).

(** ** Alarms *)

(** A scan is the last event of what an iteration says, if there is one. *)
Lemma watch_ends_scan wt x wt' evs o :
  watch wt x = Some (wt', evs, o) -> evs = [] \/ exists evs0 e, evs = evs0 ++ [(e, scan)].
Proof.
  unfold Monitor.watch. repeat case_match; intros; simplify_eq; try (by left); right.
  all: first [by eexists [], _ | by eexists [_], _].
Qed.

Lemma watch_all_ends_scan wt xs wt' evs :
  watch_all wt xs = Some (wt', evs) -> evs = [] \/ exists evs0 e, evs = evs0 ++ [(e, scan)].
Proof.
  revert wt evs. induction xs as [| x xs IH]; intros wt evs Hall; [by simplify_eq/=; left |].
  cbn in Hall. apply bind_Some in Hall as ([[wt1 evs1] o] & Hw & Hall).
  apply bind_Some in Hall as ([wt2 evs2] & Hall & [= <- <-]).
  destruct (IH wt1 evs2 Hall) as [-> | (evs0 & e & ->)].
  - rewrite app_nil_r. by eapply watch_ends_scan.
  - right. exists (evs1 ++ evs0), e. by rewrite app_assoc.
Qed.

Lemma last_scan_result (evs0 : list (env * event)) e rs0 r :
  length evs0 = length rs0 ->
  last (scan_results (evs0 ++ [(e, scan)]) (rs0 ++ [r])) = Some r.
Proof.
  intros Hl. rewrite scan_results_app by done.
  change (scan_results [(e, scan)] [r]) with [r]. by rewrite last_snoc.
Qed.

(** The alarm [n], set at time [tm], and the blocks that are not expired. *)
Definition alarm_right (w : mb_world) (tm n : Z) (active : list Z) : Prop :=
  (active = [] /\ n = 0) \/
  (2 <= n /\
   (forall p b, p ∈ active -> mb_objs w !! p = Some b -> tm + n <= create b + memory_expire + 1) /\
   exists p b, p ∈ active /\ mb_objs w !! p = Some b /\ tm + n = create b + memory_expire + 1).

Lemma scan_complete_alarm w tm n active expire :
  scan_complete w tm memory_expire n active expire -> n <> -1 -> alarm_right w tm n active.
Proof.
  intros (_ & _ & Hn) Hne. destruct (Hn Hne) as [[-> ->] | (H2 & (p & rest & b & -> & Hb & Hage) & Hall)];
    [by left | right].
  split_and!; [done | intros q b' Hq Hb'; specialize (Hall q b' Hq Hb'); lia |].
  exists p, b. split_and!; [by left | done | lia].
Qed.

Context (bt : bt_state (uspace_t := uspace_t) (upt_t := upt_t)) (lists : lmem) (h : heap).

(** What the loop waits with, after the events [evs]: [n] is the last alarm. *)
Definition waits_right (s : loop_state) (evs : list (env * event)) : Prop :=
  match last evs with
  | None => alarms (lp_actions s) = [] /\ dll (mb_lists (lp_world s)) g_memblock_active []
  | Some (e, _) => exists n active expire,
      last (alarms (lp_actions s)) = Some n /\
      dll (mb_lists (lp_world s)) g_memblock_active active /\
      dll (mb_lists (lp_world s)) g_memblock_expire expire /\
      (forall p, p ∈ expire -> exists b, mb_objs (lp_world s) !! p = Some b /\ expired b = 1) /\
      (forall p, p ∈ active -> exists b, mb_objs (lp_world s) !! p = Some b /\ expired b = 0) /\
      alarm_right (lp_world s) (now e) n active
  end.

Lemma all_go_on_last (evs0 : list (env * event)) e rs0 r :
  all_go_on (evs0 ++ [(e, scan)]) (rs0 ++ [r]) -> length evs0 = length rs0 /\ 0 <= r.
Proof.
  intros Hgo. apply Forall2_app_inv in Hgo as [Hgo Hr].
  - split; [by eapply Forall2_length |]. apply Forall2_cons_1 in Hr as [Hr _]. cbn in Hr. lia.
  - apply Forall2_length in Hgo. rewrite !length_app in Hgo. simpl in Hgo. lia.
Qed.

Lemma alarm_follows s0 xs s wt0 wt evs tm rs t' :
  statics_ok -> start_ok space_head spaces g_memblock_active g_memblock_expire heap_start bt lists h ->
  lp_world s0 = initial_world g_callstack_hash g_memblock_hash bt lists h ->
  watched s0 wt0 -> alarms (lp_actions s0) = [] -> 0 <= memory_expire < 2 ^ 31 - 1 ->
  observed s0 xs s -> watch_all wt0 (xs.*2) = Some (wt, evs) ->
  Forall event_good evs -> clock_monotone tm evs ->
  spec_events evs (empty_tracker h) = Some (rs, t') ->
  waits_right s evs.
Proof.
  intros Hst Hstart Hw0 Hwd Ha0 Hex Hobs Hall Hg Hclock Hspec.
  destruct (monitor_follows _ _ _ _ _ _ _ _ _ _ _ _ _ _ _ _ _ _ _ _ Hobs Hwd Hall)
    as (_ & rs1 & Hrun1 & Hgo & Ha). rewrite Hw0 in Hrun1. rewrite Ha0 in Ha.
  destruct (watch_all_ends_scan _ _ _ _ Hall) as [-> | (evs0 & e & ->)]; unfold waits_right.
  - injection Hrun1 as <- Hw. split; [done |]. rewrite <- Hw. by destruct Hstart as (_ & (HA & _) & _).
  - destruct (scan_complete_run _ _ _ _ _ _ _ _ _ _ _ _ _ _ _ _ _ _ _ _ _ Hst Hstart Hg Hclock Hex Hspec)
      as (w & r & active & expire & Hrun & Hr & HA & HE & Hscan).
    pose proof (eq_trans (eq_sym Hrun1) Hrun) as E. injection E as -> Ew. rewrite Ew in *.
    apply last_Some in Hr as [rs0 ->]. apply all_go_on_last in Hgo as [Hlen Hr0].
    rewrite last_snoc. exists r, active, expire.
    split_and!; [by rewrite Ha, app_nil_l, last_scan_result | done | done | apply Hscan | apply Hscan |].
    eapply scan_complete_alarm; [exact Hscan | lia].
Qed.


(** ** Threads that wait *)

(** The thread that stopped has to wait for the end of another one's call. *)
Definition has_to_wait (wt : watcher) (x : sight (uspace_t := uspace_t) (upt_t := upt_t)) : bool :=
  match x, inside wt with
  | Trapped st _ _ _ _, Some c => negb (call_thread c =? st_pid st)
  | _, _ => false
  end.

(** No thread gets to wait in the run. *)
Fixpoint no_more_waiting (wt : watcher) (xs : list sight) : Prop :=
  match xs with
  | [] => True
  | x :: xs => has_to_wait wt x = false /\
      match watch wt x with Some (wt1, _, _) => no_more_waiting wt1 xs | None => True end
  end.

(** The calls that returned. *)
Definition returns (evs : list (env * event)) : nat :=
  length (List.filter (fun '(_, ev) => match ev with Return _ _ _ _ => true | _ => false end) evs).

Lemma returns_app evs1 evs2 : returns (evs1 ++ evs2) = (returns evs1 + returns evs2)%nat.
Proof. unfold returns. by rewrite List.filter_app, length_app. Qed.

(** Each return lets one thread go on. *)
Lemma watch_held wt x wt' evs o :
  watch wt x = Some (wt', evs, o) -> has_to_wait wt x = false -> held wt' = drop (returns evs) (held wt).
Proof.
  unfold Monitor.watch, has_to_wait, returns. destruct x as [o1 | st | st rip value called planted_here].
  - by intros [= <- <- _].
  - by intros [= <- <- _].
  - destruct (inside wt) as [c |].
    + destruct (negb _); [done |]. destruct (rip =? call_to c); [| destruct called; [| done]].
      all: intros [= <- <- _] _; simpl; by destruct (held wt).
    + destruct (rip =? 0); [done |]. destruct called; [| destruct planted_here]; by intros [= <- <- _].
Qed.

Lemma watch_all_held wt xs wt' evs :
  watch_all wt xs = Some (wt', evs) -> no_more_waiting wt xs -> held wt' = drop (returns evs) (held wt).
Proof.
  revert wt evs. induction xs as [| x xs IH]; intros wt evs Hall Hno; [by simplify_eq/= |].
  cbn in Hall. apply bind_Some in Hall as ([[wt1 evs1] o] & Hw & Hall).
  apply bind_Some in Hall as ([wt2 evs2] & Hall & [= <- <-]).
  destruct Hno as [Hx Hno]. rewrite Hw in Hno.
  by rewrite (IH wt1 evs2 Hall Hno), (watch_held _ _ _ _ _ Hw Hx), drop_drop, returns_app.
Qed.

(** C10: the threads that wait for the end of a call do not wait forever.  In a
    run in which no further thread gets to wait, and at least as many calls
    return as threads wait, all of these threads have been let go on, and so has
    every thread that stopped meanwhile. *)
Theorem held_threads_released s xs s' wt wt' evs :
  observed s xs s' -> watched s wt -> watch_all wt (xs.*2) = Some (wt', evs) ->
  no_more_waiting wt (xs.*2) -> (length (hold_threads s) <= returns evs)%nat ->
  hold_threads s' = [] /\
  resumed (lp_actions s') ≡ₚ hold_threads s ++ stopped_pids (xs.*1) ++ resumed (lp_actions s).
Proof.
  intros Hobs Hwd Hall Hno Hlen.
  destruct (monitor_follows _ _ _ _ _ _ _ _ _ _ _ _ _ _ _ _ _ _ _ _ Hobs Hwd Hall) as [(_ & _ & Eh' & _) _].
  destruct Hwd as (_ & _ & Eh & _).
  assert (hold_threads s' = []) as E.
  { rewrite Eh', (watch_all_held _ _ _ _ Hall Hno), <- Eh. by apply drop_ge. }
  split; [done |]. pose proof (observed_accounted _ _ _ _ _ _ _ _ _ _ _ _ _ _ _ _ _ Hobs) as Hacc.
  rewrite E, app_nil_r in Hacc. rewrite Hacc, (app_assoc (stopped_pids _)). apply Permutation_app_comm.
Qed.

End liveness.

(** On x86-64: a thread calls [malloc(100)], and the call returns at second 1001.
    With 10 seconds to the expiry, the alarm rings 11 seconds later. *)
#[local] Existing Instance x86_64.
Import Example.


(** While thread 7 is inside [malloc], thread 9 stops at its entry too. *)
Definition example_other : stop (uspace_t := unit) (upt_t := Z) :=
  mk_stop 9 SIGTRAP 0 true (example_regs 4097 : registers_info_t) ∅ 1000 (fun _ _ => (200, [100])).
Definition waiting_malloc : watcher := wait_for_call 9 inside_malloc.

Lemma example_waits s1 :
  main_R (lp_world s1) example_tracker1 -> watched s1 inside_malloc ->
  exists s2, main_step (Stopped example_other) s1 = Some (Next, s2) /\
    main_R (lp_world s2) example_tracker1 /\ watched s2 waiting_malloc.
Proof.
  intros HR Hwd.
  apply (loop_goes_on tt (fun t => t) 64 128 1048576 2097152 600 632 3 10 1000 1000 7 example_breakpoints
    16777216 s1 inside_malloc example_tracker1 _ _ [] []); try done.
  - exact Example.statics.
  - constructor.
Qed.

Lemma held_threads_released_witness :
  exists s s' : loop_state (uspace_t := unit) (upt_t := Z), hold_threads s = [9] /\ hold_threads s' = [] /\
    resumed (lp_actions s') ≡ₚ [9; 7] ++ resumed (lp_actions s).
Proof.
  destruct example_malloc_entered as (s1 & _ & HR1 & Hw1).
  destruct (example_waits s1 HR1 Hw1) as (s2 & _ & HR2 & Hw2).
  assert (exists s3, main_step (Stopped example_return) s2 = Some (Next, s3) /\
    main_R (lp_world s3) example_tracker2 /\ watched s3 after_malloc) as (s3 & H3 & _ & _).
  { apply (loop_goes_on tt (fun t => t) 64 128 1048576 2097152 600 632 3 10 1000 1000 7 example_breakpoints
      16777216 s2 waiting_malloc example_tracker1 _ _ example_events2 [0; 11]).
    - exact Example.statics.
    - exact HR2.
    - exact Hw2.
    - reflexivity.
    - apply List.Forall_cons; [| by repeat constructor].
      split; [split; [done | by repeat constructor] | unfold event_ok, is_u64; lia].
    - vm_compute. reflexivity.
    - by repeat constructor. }
  exists s2, s3. split; [apply Hw2 |]. pose proof Hw2 as (_ & _ & Eh & _).
  destruct (held_threads_released tt (fun t => t) 64 128 1048576 2097152 600 632 3 10 1000 1000 7
    example_breakpoints s2 [(Stopped example_return, see 7 example_breakpoints s2 (Stopped example_return))] s3
    waiting_malloc after_malloc example_events2) as [E Hres].
  - eapply observed_event; [exact H3 | constructor].
  - exact Hw2.
  - reflexivity.
  - split; [reflexivity | exact I].
  - rewrite Eh. exact (le_n 1).
  - split; [exact E |]. rewrite Hres, Eh. reflexivity.
Defined.
