(* ===== verification/Program.v ===== *)
(** * The whole of [main]

    [main] composes the parts of [memleax.c]: the options, the preparation of
    the tables, attaching, the breakpoints, the loop, and the end.  What the
    kernel shows and answers is its input.

    [main_correct] is about all of it, with the tables that were prepared as
    the symbolizer of the report, on Linux and on FreeBSD; [main_restores_code] about the target's code
    at the end; [main_exits] about the errors on the way to the loop. *)

From stdpp Require Import relations sorting.
From S2P Require Import Prelude ListH HlistH HashH PtrBacktrace Heap Callstack.
From S2P Require Import Memblock Tracker CallstackRefine MemblockRefine Handlers Accounting Report.
From S2P Require Import ArrayH CString ProcMaps ProcInfo AddrMaps Machines PtrMaps FreeBSD Expiry.
From S2P Require Import Crc32 DebugFile TableBuild Symtab DebugLine MainLoop Prepare Monitor Main WaitStatus Liveness.

(** ** Up to the loop *)

(** The memory of the program as far as [start_up] uses it, the iterator of
    [proc_tasks] with what was asked of the kernel, and the target's memory. *)
Section startup.
Context {maps : ProcMaps}.

Record startup := mk_startup {
  su_tables : prep_world;
  su_trace : option (list cstr) * list trace_action;
  su_mem : target_mem
}.

#[export, refine] Instance su_tables_lens : Lens startup prep_world := {
  view := su_tables;
  update w s := mk_startup w (su_trace s) (su_mem s)
}.
Proof. all: by try intros []. Defined.

#[export, refine] Instance su_trace_lens : Lens startup (option (list cstr) * list trace_action) := {
  view := su_trace;
  update t s := mk_startup (su_tables s) t (su_mem s)
}.
Proof. all: by try intros []. Defined.

#[export, refine] Instance su_mem_lens : Lens startup target_mem := {
  view := su_mem;
  update m s := mk_startup (su_tables s) (su_trace s) m
}.
Proof. all: by try intros []. Defined.

End startup.

Section program.
Context {maps : ProcMaps} `{!Machine} {lib : DwarfLib} `{!Qsort}.
Context {uspace_t upt_t : Type}.
Context (unw_create_addr_space : uspace_t) (UPT_create : Z -> upt_t).
(** The files; and what the kernel shows of the target, and permits. *)
Context (open_file : cstr -> option file) (dwarf_begin : cstr -> option (list dwarf_cu)).
Context (read_file : cstr -> option (option (list Z))).
Context (dir : option (list cstr)) (may_attach : Z -> bool).
(** Where the static variables are, and their contents. *)
Context (g_map_sections space_head spaces g_callstack_hash : Z).
Context (g_memblock_hash g_memblock_active g_memblock_expire heap_start : Z).
Context (bt : bt_state (uspace_t := uspace_t) (upt_t := upt_t)) (lists : lmem).

Abbreviation loop_state := (loop_state (uspace_t := uspace_t) (upt_t := upt_t)).
Abbreviation env := (env uspace_t upt_t).
Abbreviation waited := (waited (uspace_t := uspace_t) (upt_t := upt_t)).

(** On Linux, the other threads: as many turns as there are names, and one to see
    the end. *)
Definition attach_all (pid : Z) : cmd (option (list cstr) * list trace_action) (result unit) :=
  match os with
  | LinuxOS => attach_threads may_attach dir pid (S (length (default [] dir)))
  | FreeBSDOS => mret (Ret tt)
  end.

(** The target, and the breakpoints. *)
Definition plant (pid : Z) : cmd startup (result (list breakpoint_s)) :=
  zoom (attach_target may_attach pid);;!
  tables ← gets su_tables;
  bps ← zoom (breakpoint_init (by_name_of tables));
  match bps with
  | None => mret (Exit 3)
  | Some bps => zoom (trace (Continue pid 0));; mret (Ret bps)
  end.

Definition attach_and_plant (pid : Z) : cmd startup (result (list breakpoint_s)) :=
  zoom (attach_all pid);;! plant pid.

Definition start_up (o : options) (pid : Z) : cmd startup (result (list breakpoint_s)) :=
  zoom (prepare open_file (opt_debug_info_file o) dwarf_begin read_file g_map_sections);;!
  attach_and_plant pid.

Definition unstarted (h : heap) (d : debug_state) (m : target_mem) : startup :=
  mk_startup (unprepared g_map_sections h d) (None, []) m.

(** The tables can be built for the mappings [es]. *)
Record preparable (o : options) (es : list map_entry) (h : heap) : Prop := {
  pb_walks : walks es;
  pb_good : entries_good open_file (opt_debug_info_file o) dwarf_begin es;
  pb_heap : heap_ok h /\ heap_start <= brk h;
  pb_room : prepare_room open_file (opt_debug_info_file o) dwarf_begin es <= heap_end h - brk h;
  pb_fits : prepare_fits open_file (opt_debug_info_file o) dwarf_begin es
}.

(** In whatever order the sort leaves symbols of one address. *)
Definition for_symbols (o : options) (es : list map_entry) (P : (string -> Z) -> Prop) : Prop :=
  forall syms,
    syms ≡ₚ concat (entry_items (reader := symbol_reader open_file) open_file (opt_debug_info_file o) <$> es) ->
    StronglySorted (fun x y => sym_address x <= sym_address y) syms ->
    P (fun nm => lookup_name (lit nm) 0 syms).

Definition task_names (names : list cstr) : Prop := dir = Some names /\ Forall (fun t => 0 < t) (task_ids names).

(** The threads to which the loop over [proc_tasks] attaches: on FreeBSD there is
    no such loop, and ptrace attaches to the process. *)
Definition other_threads (names : list cstr) : list Z :=
  match os with LinuxOS => task_ids names | FreeBSDOS => [] end.

(** The kernel permits to attach, and the functions of the API are in the files,
    in memory, and apart. *)
Record startable (o : options) (pid : Z) (es : list map_entry) (names : list cstr) (m : target_mem) : Prop := {
  sb_names : task_names names;
  sb_threads : Forall (fun t => ~ refused may_attach pid t) (other_threads names);
  sb_target : may_attach pid = true;
  sb_mem : mem_ok m;
  sb_api : for_symbols o es (fun f => symbols_ok f m (api_names.*1))
}.

Definition started_trace (pid : Z) (names : list cstr) : list trace_action :=
  concat (attach_actions pid <$> other_threads names) ++ [Attach pid; WaitStop pid; TraceChild pid; Continue pid 0].

Context (Hg : g_map_sections < heap_start).

(** After the start. *)
Record started (o : options) (pid : Z) (es : list map_entry) (names : list cstr) (m : target_mem)
    (bps : list breakpoint_s) (su : startup) : Prop := {
  sd_prepared : exists syms dies,
    prepared open_file (opt_debug_info_file o) dwarf_begin read_file g_map_sections heap_start
      (su_tables su) es syms dies;
  sd_trace : su_trace su = (None, started_trace pid names);
  sd_bps : bps_ok bps /\ name <$> bps = api_names.*1 /\ planted bps None (su_mem su);
  sd_code : forall b, b ∈ bps -> entry_address b = by_name_of (su_tables su) (name b) /\
    entry_code b = ptrace_get_data m (entry_address b)
}.

Lemma zoom_startup {A B} `{Lens startup A} (m : cmd A (result B)) (k : B -> cmd startup (result (list breakpoint_s)))
    s b a : m (view s) = Some (Ret b, a) -> result_bind (zoom m) k s = k b (update a s).
Proof. intros E. erewrite result_bind_Ret; [reflexivity |]. by apply zoom_Some. Qed.

(** The first step: the tables. *)
Lemma start_up_prepared o pid es h d m :
  preparable o es h ->
  exists w syms dies,
    prepared open_file (opt_debug_info_file o) dwarf_begin read_file g_map_sections heap_start w es syms dies /\
    start_up o pid (unstarted h d m) = attach_and_plant pid (mk_startup w (None, []) m).
Proof.
  intros [Hes Hgood [Hh Hb] Hroom Hfits].
  destruct (prepare_run open_file (opt_debug_info_file o) dwarf_begin read_file g_map_sections heap_start Hg
    es h d) as (w & syms & dies & Hprep & Hw); try done.
  exists w, syms, dies. split; [done |]. unfold start_up. by erewrite zoom_startup by exact Hprep.
Qed.

(** The second one: the threads. *)
Lemma start_up_attached pid names w m :
  task_names names -> Forall (fun t => ~ refused may_attach pid t) (other_threads names) ->
  attach_and_plant pid (mk_startup w (None, []) m) =
    plant pid (mk_startup w (None, concat (attach_actions pid <$> other_threads names)) m).
Proof.
  intros [Hd Hts]. unfold attach_and_plant, attach_all, other_threads. destruct os; [| done]. intros Hok.
  by erewrite zoom_startup by (apply (attach_all_run may_attach dir pid names); try done; rewrite Hd; simpl; lia).
Qed.

(** The third one: the target itself. *)
Lemma plant_run pid w dirp acts m :
  plant pid (mk_startup w (dirp, acts) m) =
    if may_attach pid then
      match breakpoint_init (by_name_of w) m with
      | Some (Some bps, m') => Some (Ret bps, mk_startup w (dirp,
          acts ++ [Attach pid; WaitStop pid; TraceChild pid; Continue pid 0]) m')
      | Some (None, m') => Some (Exit 3, mk_startup w (dirp, acts ++ [Attach pid; WaitStop pid; TraceChild pid]) m')
      | None => None
      end
    else Some (Exit 4, mk_startup w (dirp, acts) m).
Proof.
  unfold plant, attach_target, ptrace_attach. destruct (may_attach pid); [| done].
  erewrite zoom_startup by reflexivity. cbn [update su_trace_lens su_tables su_trace su_mem].
  erewrite (cmd_bind_Some (gets su_tables)) by reflexivity. cbn beta. cbn [su_tables].
  unfold mbind, cmd_bind. unfold zoom at 1. cbn [view su_mem_lens su_mem].
  destruct (breakpoint_init (by_name_of w) m) as [[[bps |] m'] |]; cbn; by rewrite <- ?app_assoc.
Qed.

Lemma for_symbols_ok o es w syms dies m l :
  prepared open_file (opt_debug_info_file o) dwarf_begin read_file g_map_sections heap_start w es syms dies ->
  for_symbols o es (fun f => symbols_ok f m l) -> symbols_ok (by_name_of w) m l.
Proof.
  intros Hw Hapi. apply (symbols_ok_ext _ (fun nm => lookup_name (lit nm) 0 syms)).
  - intros nm _. by eapply by_name_of_run.
  - apply Hapi; apply Hw.
Qed.

Lemma start_up_run o pid es names h d m :
  preparable o es h -> startable o pid es names m ->
  exists bps su, start_up o pid (unstarted h d m) = Some (Ret bps, su) /\ started o pid es names m bps su.
Proof.
  intros Hp [Hn Hok Htgt Hmem Hapi].
  destruct (start_up_prepared o pid es h d m Hp) as (w & syms & dies & Hw & ->).
  rewrite (start_up_attached pid names), plant_run, Htgt by done.
  destruct (breakpoint_init_run (by_name_of w) m Hmem (for_symbols_ok _ _ _ _ _ _ _ Hw Hapi))
    as (bps & m' & -> & Hok' & Hpl & Hnames & Hcode).
  eexists bps, _. split; [reflexivity |]. constructor; [by exists syms, dies | done | done | done].
Qed.

(** ** The loop *)

Inductive input :=
  | Interrupt (signo : Z)                 (* signal_handler runs *)
  | Waited (w : waited)                   (* waitpid returns *)
  | TargetRan (m : target_mem).           (* meanwhile: the target's new memory *)

Definition loop_start (pid : Z) (su : startup) : loop_state :=
  mk_loop (su_mem su) (initial_world g_callstack_hash g_memblock_hash bt lists (pw_heap (su_tables su)))
    (mk_call None 0 0 0 0 0) [] 0 0 0 [Say (MsgBegin pid)].

#[local] Existing Instance lp_mem_lens.

Context (Hstat : statics_ok space_head spaces g_callstack_hash g_memblock_hash
  g_memblock_active g_memblock_expire heap_start).
Context (Hbt : bt_initial space_head spaces bt)
  (Hlists : two_lists g_memblock_active g_memblock_expire lists [] []).

Section run.
Context (o : options) (pid : Z) (tables : prep_world) (bps : list breakpoint_s).

#[local] Instance tables_symbolizer : Symbolizer := symbolizer_of tables.

Abbreviation loop_step := (loop_step unw_create_addr_space UPT_create space_head spaces g_callstack_hash
  g_memblock_hash g_memblock_active g_memblock_expire (opt_backtrace_limit o)
  (memory_expire o) (memblock_limit o) (callstack_limit o) pid bps).

Abbreviation R := (R unw_create_addr_space UPT_create space_head spaces g_callstack_hash
  g_memblock_hash g_memblock_active g_memblock_expire heap_start).
Abbreviation spec_events := (spec_events unw_create_addr_space UPT_create (opt_backtrace_limit o)).
Abbreviation event_good := (event_good unw_create_addr_space UPT_create (opt_backtrace_limit o)).

(** The body of the loop, before the next iterations. *)
Definition iteration (ev : wait_event (uspace_t := uspace_t) (upt_t := upt_t)) (k : cmd loop_state outcome) :
    cmd loop_state outcome :=
  next ← loop_step ev;
  match next with Break => mret Break | Next => k end.

Lemma iteration_step ev k s next s1 :
  loop_step ev s = Some (next, s1) ->
  iteration ev k s = match next with Break => Some (Break, s1) | Next => k s1 end.
Proof. intros E. unfold iteration. erewrite cmd_bind_Some by exact E. by destruct next. Qed.

(** As long as there is input. *)
Fixpoint monitor_loop (inputs : list input) : cmd loop_state outcome :=
  match inputs with
  | [] => mret Next
  | TargetRan m :: inputs => modify (update m);; monitor_loop inputs
  | Interrupt signo :: inputs => iteration (Signal signo) (monitor_loop inputs)
  | Waited w :: inputs => iteration (wait_event_of w) (monitor_loop inputs)
  end.

Abbreviation see := (see pid bps).

(** What is seen at the iterations. *)
Definition sights_from (ev : wait_event (uspace_t := uspace_t) (upt_t := upt_t)) (k : loop_state -> list sight)
    (s : loop_state) : list sight :=
  see s ev :: match loop_step ev s with Some (Next, s1) => k s1 | _ => [] end.

Lemma sights_step ev k s next s1 :
  loop_step ev s = Some (next, s1) ->
  sights_from ev k s = see s ev :: match next with Break => [] | Next => k s1 end.
Proof. intros E. unfold sights_from. rewrite E. by destruct next. Qed.

Fixpoint sights (inputs : list input) (s : loop_state) : list sight :=
  match inputs with
  | [] => []
  | TargetRan m :: inputs => sights inputs (update m s)
  | Interrupt signo :: inputs => sights_from (Signal signo) (sights inputs) s
  | Waited w :: inputs => sights_from (wait_event_of w) (sights inputs) s
  end.

(** The iterations of a loop that waits. *)
Lemma loop_observed inputs s s' :
  monitor_loop inputs s = Some (Next, s') ->
  exists xs, Monitor.observed unw_create_addr_space UPT_create space_head spaces g_callstack_hash
      g_memblock_hash g_memblock_active g_memblock_expire (opt_backtrace_limit o) (memory_expire o)
      (memblock_limit o) (callstack_limit o) pid bps s xs s' /\ sights inputs s = xs.*2.
Proof.
  revert s. induction inputs as [| i inputs IH]; intros s.
  { intros [= <-]. exists []. by split; [constructor |]. }
  assert (forall ev, iteration ev (monitor_loop inputs) s = Some (Next, s') ->
    exists xs, Monitor.observed unw_create_addr_space UPT_create space_head spaces g_callstack_hash
      g_memblock_hash g_memblock_active g_memblock_expire (opt_backtrace_limit o) (memory_expire o)
      (memblock_limit o) (callstack_limit o) pid bps s xs s' /\
    sights_from ev (sights inputs) s = xs.*2) as Hev.
  { intros ev ([|] & s1 & Hstep & Hrun)%cmd_bind_inv; [| done]. unfold sights_from. rewrite Hstep.
    destruct (IH s1 Hrun) as (xs & Hobs & ->). exists ((ev, see s ev) :: xs).
    by split; [eapply observed_event |]. }
  destruct i as [signo | w | m]; [apply Hev.. |].
  intros (xs & Hobs & Hs)%IH. exists xs. split; [by eapply observed_target | done].
Qed.

(** The assumptions on what happens: where the functions return to, and that the
    target does not change the code under the breakpoints. *)
Definition behaves_from (ev : wait_event (uspace_t := uspace_t) (upt_t := upt_t)) (k : loop_state -> Prop)
    (s : loop_state) : Prop :=
  event_assumption bps ev s /\ match loop_step ev s with Some (Next, s1) => k s1 | _ => True end.

Lemma behaves_step ev k s next s1 :
  loop_step ev s = Some (next, s1) -> event_assumption bps ev s -> (next = Next -> k s1) -> behaves_from ev k s.
Proof. intros E Hev Hk. split; [done |]. rewrite E. destruct next; [by apply Hk | done]. Qed.

Fixpoint behaves (inputs : list input) (s : loop_state) : Prop :=
  match inputs with
  | [] => True
  | TargetRan m :: inputs => target_ran bps s m /\ behaves inputs (update m s)
  | Interrupt signo :: inputs => behaves_from (Signal signo) (behaves inputs) s
  | Waited w :: inputs => behaves_from (wait_event_of w) (behaves inputs) s
  end.

Lemma loop_code_inv inputs s next s' :
  bps_ok bps -> code_inv bps s -> behaves inputs s -> monitor_loop inputs s = Some (next, s') -> code_inv bps s'.
Proof.
  intros Hok. revert s. induction inputs as [| i inputs IH]; intros s Hinv Hb Hrun.
  { by injection Hrun as _ <-. }
  assert (forall ev, behaves_from ev (behaves inputs) s ->
    iteration ev (monitor_loop inputs) s = Some (next, s') -> code_inv bps s') as Hev.
  { intros ev [Hev Hk] (o1 & s1 & Hstep & Hrest)%cmd_bind_inv. rewrite Hstep in Hk.
    assert (code_inv bps s1) as Hinv1 by (by eapply loop_step_inv).
    destruct o1; [by apply (IH s1) | by injection Hrest as _ <-]. }
  destruct i as [signo | w | m]; [by apply (Hev _ Hb) | by apply (Hev _ Hb) |].
  destruct Hb as [Hran Hb]. apply (IH (update m s)); [| done | exact Hrun].
  apply (loop_trans_inv unw_create_addr_space UPT_create space_head spaces g_callstack_hash g_memblock_hash
    g_memblock_active g_memblock_expire (opt_backtrace_limit o) (memory_expire o) (memblock_limit o)
    (callstack_limit o) pid bps Hok s); [by apply trans_target | done].
Qed.

(** The run from [s0]: the abstract monitor does not lose track, gets to the
    state [wt], and says events for which the specification of the tracker is
    defined, on the heap [h]; and whenever the loop ends there is memory for
    the report. *)
Record tracked (inputs : list input) (s0 : loop_state) (h : heap) (wt : watcher) (evs : list (env * event)) :
    Prop := {
  tk_watch : watch_all (memory_expire o) (memblock_limit o) (callstack_limit o) (mk_watcher None 0 0 [])
    (sights inputs s0) = Some (wt, evs);
  tk_good : Forall event_good evs;
  tk_defined : is_Some (spec_events evs (empty_tracker h));
  tk_fits : forall evs1 rs1 t1, evs1 `prefix_of` evs ->
    spec_events evs1 (empty_tracker h) = Some (rs1, t1) -> report_fits t1
}.

Lemma good_ok evs :
  Forall event_good evs ->
  Forall (fun '(e, ev) => event_env_ok unw_create_addr_space UPT_create (opt_backtrace_limit o) e ev /\
    event_ok ev) evs.
Proof. intros Hevs. eapply Forall_impl; [exact Hevs |]. by intros [? ?]. Qed.

(** The loop is defined as long as the tracker is, and some of the events have
    been done, all of them if the loop waits. *)
Lemma loop_runs inputs s wt t wt' evs rs t' :
  R (lp_world s) t -> watched s wt ->
  watch_all (memory_expire o) (memblock_limit o) (callstack_limit o) wt (sights inputs s) = Some (wt', evs) ->
  Forall event_good evs -> spec_events evs t = Some (rs, t') ->
  exists next s1 evs1 rs1 t1, monitor_loop inputs s = Some (next, s1) /\
    spec_events evs1 t = Some (rs1, t1) /\ R (lp_world s1) t1 /\ evs1 `prefix_of` evs /\
    (next = Next -> evs1 = evs /\ watched s1 wt').
Proof.
  revert s wt t evs rs. induction inputs as [| i inputs IH]; intros s wt t evs rs HR Hwd Hall Hgood Hspec.
  { injection Hall as <- <-. by exists Next, s, [], [], t. }
  assert (forall ev, watch_all (memory_expire o) (memblock_limit o) (callstack_limit o) wt
      (sights_from ev (sights inputs) s) = Some (wt', evs) ->
    exists next s1 evs1 rs1 t1, iteration ev (monitor_loop inputs) s = Some (next, s1) /\
      spec_events evs1 t = Some (rs1, t1) /\ R (lp_world s1) t1 /\ evs1 `prefix_of` evs /\
      (next = Next -> evs1 = evs /\ watched s1 wt')) as Hev.
  { clear Hall. intros ev Hall. unfold sights_from in Hall. cbn [Monitor.watch_all] in Hall.
    apply bind_Some in Hall as ([[wt1 last] out] & Hw & Hall).
    apply bind_Some in Hall as ([wt2 rest] & Hall & [= -> <-]).
    rewrite spec_events_app in Hspec. apply bind_Some in Hspec as ([rs0 t0] & Hspec0 & Hspec).
    apply bind_Some in Hspec as ([rs2 t2] & Hspec2 & [= <- ->]).
    pose proof (proj1 (Forall_app _ _ _) Hgood) as [Hlast Hrest].
    destruct (loop_step_refines _ _ _ _ _ _ _ _ _ _ _ _ _ _ heap_start s wt t ev wt1 last out rs0 t0 Hstat
      HR Hwd Hw (good_ok _ Hlast) Hspec0)
      as (o' & s1 & evs1 & rs1 & t1 & Hstep & Hs & HR1 & Hpre & Hnext & _).
    rewrite (iteration_step _ _ _ _ _ Hstep). rewrite Hstep in Hall. destruct o'.
    - destruct (Hnext eq_refl) as [-> Hwd1]. rewrite Hspec0 in Hs. injection Hs as <- <-.
      destruct (IH s1 wt1 t0 rest rs2 HR1 Hwd1 Hall Hrest Hspec2)
        as (next & s2 & evs2 & rs3 & t3 & Hrun & Hs & HR3 & Hpre2 & Hend).
      exists next, s2, (last ++ evs2), (rs0 ++ rs3), t3. split_and!; [done | | done | by apply prefix_app |].
      + rewrite spec_events_app, Hspec0. simpl. by rewrite Hs.
      + by intros [-> ?]%Hend.
    - exists Break, s1, evs1, rs1, t1. split_and!; [done.. | by apply prefix_app_r | done]. }
  destruct i as [signo | w | m]; [by apply Hev.. |]. by apply (IH (update m s) wt t evs rs).
Qed.

End run.

(** ** The whole *)

Inductive ending :=
  | Quit (status : Z) (msgs : list main_msg)     (* the options *)
  | Exited (status : Z) (su : startup)           (* exit() before the loop *)
  | Waiting (s : loop_state)                     (* in waitpid, after all the input *)
  | Ended (status : Z) (s : loop_state).

Definition main (opts : list (ascii * cstr)) (rest : list cstr) (su : startup) (inputs : list input)
    (begin : Z) (e : env) : option ending :=
  match parse_args opts rest with
  | inr (status, msgs) => Some (Quit status msgs)
  | inl (o, pid) =>
      '(r, su) ← start_up o pid su;
      match r with
      | Exit status => Some (Exited status su)
      | Ret bps =>
          '(next, s) ← monitor_loop o pid (su_tables su) bps inputs (loop_start pid su);
          match next with
          | Next => Some (Waiting s)
          | Break =>
              '(status, s) ← finish (H0 := symbolizer_of (su_tables su)) g_callstack_hash g_memblock_active
                 g_memblock_expire o pid bps begin e s;
              Some (Ended status s)
          end
      end
  end.

Lemma started_heap o pid es names m bps su :
  started o pid es names m bps su ->
  start_ok space_head spaces g_memblock_active g_memblock_expire heap_start bt lists (pw_heap (su_tables su)).
Proof.
  intros [(syms & dies & Hw) _ _ _]. destruct (pd_sections _ _ _ _ _ _ _ _ _ _ Hw) as [nodes Hsec].
  assert (pm_heap (sections_of (su_tables su)) = pw_heap (su_tables su)) as Eh
    by (unfold sections_of; by destruct (pw_sections (su_tables su)) as [[??] ?]).
  destruct (sr_heap _ _ _ _ _ Hsec) as [Hheap Hbrk]. rewrite Eh in Hheap, Hbrk. by split_and!.
Qed.

(** The loop of a program that was started waits, or ends, and then the report is made. *)
Lemma loop_total o pid es names m bps su inputs wt evs begin e :
  started o pid es names m bps su ->
  tracked o pid (su_tables su) bps inputs (loop_start pid su) (pw_heap (su_tables su)) wt evs ->
  exists next s1, monitor_loop o pid (su_tables su) bps inputs (loop_start pid su) = Some (next, s1) /\
    match next with
    | Next => watched s1 wt /\
        (forall tm, clock_monotone tm evs -> 0 <= memory_expire o < 2 ^ 31 - 1 ->
           waits_right g_memblock_active g_memblock_expire (memory_expire o) s1 evs)
    | Break =>
        let ends := finish (H0 := symbolizer_of (su_tables su)) g_callstack_hash g_memblock_active
          g_memblock_expire o pid bps begin e s1 in
        (now e - begin < memory_expire o -> exists s2, ends = Some (2, s2) /\
           lp_actions s2 = lp_actions s1 ++ [Detach pid; Say (MsgTooShort (memory_expire o))]) /\
        (memory_expire o <= now e - begin -> exists s2 expire css, ends = Some (0, s2) /\
           lp_actions s2 = lp_actions s1 ++ [Detach pid] /\
           reported (H := symbolizer_of (su_tables su)) g_memblock_expire (lp_world s2)
             (cs_out (mb_cs (lp_world s1))) expire css)
    end.
Proof.
  intros Hst%started_heap [Hwatch Hgood [[rs t'] Hspec] Hfits]. set (s0 := loop_start pid su) in *.
  assert (watched s0 (mk_watcher None 0 0 [])) as Hwd0 by by split_and!.
  pose proof (initial_R unw_create_addr_space UPT_create _ _ _ _ _ _ _ bt lists _ Hstat Hst) as HR0.
  destruct (loop_runs o pid (su_tables su) bps inputs s0 _ _ wt evs rs t' HR0 Hwd0 Hwatch Hgood Hspec)
    as (next & s1 & evs1 & rs1 & t1 & Hrun & Hs & HR1 & Hpre & Hnext).
  exists next, s1. split; [done |]. destruct next.
  - destruct (Hnext eq_refl) as [-> Hwd]. split; [done |]. intros tm Hclock Hex.
    destruct (loop_observed _ _ _ _ _ _ _ Hrun) as (xs & Hobs & Hsee). rewrite Hsee in Hwatch.
    apply (alarm_follows (H0 := symbolizer_of (su_tables su)) unw_create_addr_space UPT_create space_head spaces g_callstack_hash g_memblock_hash
      g_memblock_active g_memblock_expire (opt_backtrace_limit o) (memory_expire o) (memblock_limit o)
      (callstack_limit o) pid bps heap_start bt lists (pw_heap (su_tables su)) s0 xs s1 (mk_watcher None 0 0 [])
      wt evs tm rs t'); done.
  - cbv zeta. apply (finish_reports unw_create_addr_space UPT_create space_head spaces g_callstack_hash
      g_memblock_hash g_memblock_active g_memblock_expire o pid bps heap_start Hstat s1 t1); [done | | by eapply Hfits].
    eapply spec_events_reportable; [| | exact Hs].
    + split; [apply empty_inv; apply Hst |]. intros cs c. simpl. by rewrite lookup_empty.
    + destruct Hpre as [k ->]. apply Forall_app in Hgood as [Hgood _].
      eapply Forall_impl; [exact Hgood |]. by intros [? ?] [].
Qed.

(** The run of [main]: it waits, or the loop has ended. *)
Definition outcome_of_main (o : options) (su : startup) (bps : list breakpoint_s) (pid : Z) (inputs : list input)
    (wt : watcher) (evs : list (env * event)) (begin : Z) (e : env) (r : option ending) : Prop :=
  exists next s1, monitor_loop o pid (su_tables su) bps inputs (loop_start pid su) = Some (next, s1) /\
    match next with
    | Next => r = Some (Waiting s1) /\ watched s1 wt /\
        (forall tm, clock_monotone tm evs -> 0 <= memory_expire o < 2 ^ 31 - 1 ->
           waits_right g_memblock_active g_memblock_expire (memory_expire o) s1 evs)
    | Break =>
        (now e - begin < memory_expire o -> exists s2, r = Some (Ended 2 s2) /\
           lp_actions s2 = lp_actions s1 ++ [Detach pid; Say (MsgTooShort (memory_expire o))]) /\
        (memory_expire o <= now e - begin -> exists s2 expire css, r = Some (Ended 0 s2) /\
           lp_actions s2 = lp_actions s1 ++ [Detach pid] /\
           reported (H := symbolizer_of (su_tables su)) g_memblock_expire (lp_world s2)
             (cs_out (mb_cs (lp_world s1))) expire css)
    end.

Lemma main_total opts arg su0 es names m bps su inputs wt evs begin e :
  let o := chosen opts in let pid := s32 (atoi arg) in
  Forall valid_option opts -> pid <> 0 ->
  start_up o pid su0 = Some (Ret bps, su) -> started o pid es names m bps su ->
  tracked o pid (su_tables su) bps inputs (loop_start pid su) (pw_heap (su_tables su)) wt evs ->
  outcome_of_main o su bps pid inputs wt evs begin e (main opts [arg] su0 inputs begin e).
Proof.
  intros o pid Hopts Hpid Hrun Hst Htr.
  destruct (loop_total o pid es names m bps su inputs wt evs begin e Hst Htr) as (next & s1 & Hloop & Hend).
  exists next, s1. split; [done |].
  unfold main, parse_args. rewrite parse_options_prefix by done. fold o. cbn beta iota zeta.
  fold pid. rewrite (proj2 (Z.eqb_neq _ _) Hpid), Hrun. cbn -[finish]. rewrite Hloop. cbn -[finish].
  destruct next; [done |]. destruct Hend as [Hshort Hlong]. split; intros Ht.
  - destruct (Hshort Ht) as (s2 & -> & Hacts). by exists s2.
  - destruct (Hlong Ht) as (s2 & expire & css & -> & Hacts & Hrep). by exists s2, expire, css.
Qed.


(** The memory of the target is that after [clean_up]. *)
Lemma finish_mem `{!Symbolizer} o pid bps begin e (s s' : loop_state) status :
  finish g_callstack_hash g_memblock_active g_memblock_expire o pid bps begin e s = Some (status, s') ->
  exists s1, clean_up pid bps s = Some (tt, s1) /\ lp_mem s' = lp_mem s1.
Proof.
  intros ([] & s1 & Hclean & Hrun)%cmd_bind_inv. exists s1. split; [done |].
  destruct (now e - begin <? memory_expire o); [by injection Hrun as _ <- |].
  apply cmd_bind_inv in Hrun as ([] & s2 & Hrep & [= _ <-]). revert Hrep. unfold zoom.
  destruct (callstack_report _ _ _ _ _) as [[? ?] |]; [| done]. by intros [= _ <-].
Qed.

Lemma main_ended opts arg su0 bps su inputs begin e status s2 :
  let o := chosen opts in let pid := s32 (atoi arg) in
  Forall valid_option opts -> pid <> 0 -> start_up o pid su0 = Some (Ret bps, su) ->
  main opts [arg] su0 inputs begin e = Some (Ended status s2) ->
  exists s1, monitor_loop o pid (su_tables su) bps inputs (loop_start pid su) = Some (Break, s1) /\
    finish (H0 := symbolizer_of (su_tables su)) g_callstack_hash g_memblock_active g_memblock_expire o pid bps
      begin e s1 = Some (status, s2).
Proof.
  intros o pid Hopts Hpid Hst. unfold main, parse_args. rewrite parse_options_prefix by done. fold o.
  cbn beta iota zeta. fold pid. rewrite (proj2 (Z.eqb_neq _ _) Hpid), Hst. cbn.
  destruct (monitor_loop _ _ _ _ _ _) as [[[|] s1] |]; [done | | done]. cbn.
  destruct (finish _ _ _ _ _ _ _ _ _) as [[st s3] |] eqn:E; [| done]. intros [= <- <-]. by exists s1.
Qed.


(** C19: the errors before the loop, with valid options.  Without exactly one
    argument [main] returns 1, and 2 if it is no number.  If a thread, or the
    target, cannot be attached to, the program exits with 4, attached to the
    threads before it, and the target's memory is as it was.  If a function of
    the API is not in the tables it exits with 3; then the breakpoints of the
    functions before it stay in the target. *)
Theorem main_exits opts arg es names h d m inputs begin e :
  let o := chosen opts in let pid := s32 (atoi arg) in
  Forall valid_option opts ->
  (forall rest, length rest <> 1%nat ->
     main opts rest (unstarted h d m) inputs begin e = Some (Quit 1 [MsgInvalidArgument; MsgTryHelp])) /\
  let run := main opts [arg] (unstarted h d m) inputs begin e in
  (pid = 0 -> run = Some (Quit 2 [MsgInvalidPid arg])) /\
  (pid <> 0 -> preparable o es h -> task_names names ->
     (forall pre t post, other_threads names = pre ++ t :: post ->
        Forall (fun t => ~ refused may_attach pid t) pre -> refused may_attach pid t ->
        exists su, run = Some (Exited 4 su) /\ su_mem su = m /\
          (su_trace su).2 = concat (attach_actions pid <$> pre)) /\
     (Forall (fun t => ~ refused may_attach pid t) (other_threads names) ->
        (may_attach pid = false -> exists su, run = Some (Exited 4 su) /\ su_mem su = m /\
           (su_trace su).2 = concat (attach_actions pid <$> other_threads names)) /\
        (may_attach pid = true -> mem_ok m -> forall l1 nm a l2, api_names = l1 ++ (nm, a) :: l2 ->
           for_symbols o es (fun f => f nm = 0 /\ symbols_ok f m (l1.*1)) ->
           exists su, run = Some (Exited 3 su) /\
             forall nm', nm' ∈ l1.*1 ->
               ptrace_get_data (su_mem su) (by_name_of (su_tables su) nm') =
                 trap_word (ptrace_get_data m (by_name_of (su_tables su) nm'))))).
Proof.
  intros o pid Hopts. unfold main, parse_args. rewrite parse_options_prefix by done. fold o.
  split; [by intros [| ? [| ? ?]] | cbn beta iota zeta; fold pid].
  split; [by intros -> |]. intros Hpid Hp Hn. rewrite (proj2 (Z.eqb_neq _ _) Hpid).
  destruct (start_up_prepared o pid es h d m Hp) as (w & syms & dies & Hw & ->).
  split; [intros pre t post Hts Hpre Hr | intros Hok; rewrite (start_up_attached pid names), plant_run by done; split].
  - destruct Hn as [Hd Hpt]. unfold attach_and_plant, attach_all, other_threads in *.
    destruct os; [| by destruct pre].
    destruct (attach_refused_run may_attach dir pid names [] (S (length names)) pre t post Hd Hpt
      ltac:(lia) Hts Hpre Hr) as [dirp Hrun].
    unfold result_bind.
    replace (default [] dir) with names by by rewrite Hd.
    erewrite cmd_bind_Some by (apply (zoom_Some (H := su_trace_lens)); exact Hrun). by eexists.
  - intros ->. by eexists.
  - intros -> Hm l1 nm a l2 Happ Hapi.
    destruct (breakpoint_init_missing (by_name_of w) l1 nm a l2 m Happ) as (m' & -> & Hleft); [| done | |].
    + erewrite by_name_of_run by exact Hw. by apply Hapi; apply Hw.
    + apply (for_symbols_ok o es w syms dies); [done |]. intros f Hf1 Hf2. by apply Hapi.
    + by eexists.
Qed.

End program.

(** ** An example

    The program and the library of the preparation's example; the program calls
    [malloc(100)], and later the user interrupts the monitor. *)
#[local] Existing Instance x86_64.
#[local] Existing Instance example_walk.
Import Example.
#[local] Existing Instance lp_mem_lens.

Definition main_heap : heap := mk_heap 16777216 33554432.
Definition main_memory : target_mem :=
  write_bytes (write_bytes example_api_memory 8192 [72; 137; 195; 72; 133; 192; 116; 5])
    16384 [0; 32; 0; 0; 0; 0; 0; 0].
Definition main_names : list cstr := [lit "."; lit ".."; lit "7"; lit "9"].

Abbreviation example_start_up := (start_up (lib := libdw) prepare_disk dwarf_disk example_read
  (Some main_names) (fun _ => true) 32).
Definition main_unstarted : startup := unstarted 32 main_heap no_debug main_memory.

Lemma main_preparable :
  preparable (lib := libdw) prepare_disk dwarf_disk 16777216 (chosen []) example_maps main_heap.
Proof.
  constructor.
  - exact example_walks.
  - exact example_entries_ok.
  - split; [unfold heap_ok |]; simpl; lia.
  - vm_compute. discriminate.
  - vm_compute. done.
Qed.

(** What at most one item of a list has is found in whatever order. *)
Lemma find_unique {A} (f : A -> bool) (l l' : list A) :
  l ≡ₚ l' -> (length (filter (fun x => f x = true) l') <= 1)%nat -> List.find f l = List.find f l'.
Proof.
  intros Hp Hl. assert (forall l : list A, List.find f l = head (filter (fun x => f x = true) l)) as Hfind.
  { clear. induction l as [| x l IH]; [done |]. cbn [List.find]. rewrite filter_cons.
    destruct (f x); [by rewrite decide_True by done | by rewrite decide_False by done]. }
  rewrite !Hfind. assert (filter (fun x => f x = true) l ≡ₚ filter (fun x => f x = true) l') as E by by rewrite Hp.
  destruct (filter _ l') as [| x [| y r]]; [by apply Permutation_nil_r in E as -> | | simpl in Hl; lia].
  by apply Permutation_singleton_r in E as ->.
Qed.

Lemma main_symbols nm syms :
  syms ≡ₚ concat (entry_items (reader := symbol_reader prepare_disk) prepare_disk None <$> example_maps) ->
  nm ∈ api_names.*1 -> lookup_name (lit nm) 0 syms = example_api_address nm.
Proof.
  assert (concat (entry_items (reader := symbol_reader prepare_disk) prepare_disk None <$> example_maps) =
    example_symbols_in) as -> by (vm_compute; reflexivity).
  intros Hsyms Hnm. unfold lookup_name.
  repeat (apply elem_of_cons in Hnm as [-> | Hnm];
    [rewrite !(find_unique _ syms example_symbols_in Hsyms) by (vm_compute; lia); vm_compute; reflexivity |]).
  destruct (not_elem_of_nil _ Hnm).
Qed.

Lemma main_startable :
  startable prepare_disk (Some main_names) (fun _ => true) (chosen []) 7 example_maps main_names main_memory.
Proof.
  constructor.
  - split; [reflexivity | vm_compute; repeat constructor].
  - apply Forall_forall. by intros t _ [].
  - reflexivity.
  - unfold main_memory, example_api_memory. cbn [foldr].
    repeat (apply write_bytes_ok; [| apply (bool_decide_unpack _); vm_compute; exact I]). by intros a b.
  - intros syms Hsyms _. apply (symbols_ok_ext _ example_api_address); [by intros nm; apply main_symbols |].
    compute_symbols_ok.
Qed.

Definition main_started : startup :=
  match example_start_up (chosen []) 7 main_unstarted with Some (_, su) => su | None => main_unstarted end.
Definition main_bps : list breakpoint_s := Eval vm_compute in
  match example_start_up (chosen []) 7 main_unstarted with Some (Ret bps, _) => bps | _ => [] end.

Lemma main_start_up : example_start_up (chosen []) 7 main_unstarted = Some (Ret main_bps, main_started).
Proof.
  assert (fst <$> example_start_up (chosen []) 7 main_unstarted = Some (Ret main_bps)) as E
    by (vm_compute; reflexivity).
  unfold main_started. destruct (example_start_up (chosen []) 7 main_unstarted) as [[r su] |]; [| discriminate E].
  by injection E as ->.
Qed.

#[local] Instance main_symbolizer : Symbolizer := symbolizer_of (lib := libdw) (su_tables main_started).

(** The thread stops at [malloc], then at the return address; then it is stopped
    by the signal. *)
Definition main_waited (sig rsp rax ip t : Z) (frames : list Z) : waited (uspace_t := unit) (upt_t := Z) :=
  mk_waited 7 false (stopped_status 0 sig) 0 true (mk_x86_64 rsp rax 100 0 ip : registers_info_t) ∅ t
    (fun _ _ => (200, frames)).
Definition main_entry := main_waited SIGTRAP 16384 0 140000001025 1000 [100].
Definition main_return := main_waited SIGTRAP 16392 65536 8193 1001 [100; 50].
Definition main_stop := main_waited SIGSTOP 16384 0 8200 1030 [].
Definition main_inputs : list (input (uspace_t := unit) (upt_t := Z)) :=
  [Waited main_entry; Waited main_return; Interrupt SIGINT; Waited main_stop].

Definition main_s0 : loop_state (uspace_t := unit) (upt_t := Z) :=
  loop_start 1048576 2097152 example_bt_state static_lists 7 main_started.
Definition main_heap_left : heap := Eval vm_compute in pw_heap (su_tables main_started).
Definition main_tracker0 : tracker := empty_tracker main_heap_left.

Definition main_events1 : list (env unit Z * event) := [(example_env 1000 0 0 [100], example_scan)].
Definition main_events2 : list (env unit Z * event) :=
  [(example_env 1001 140000001024 7 [100; 50], Return Malloc 65536 100 0);
   (example_env 1001 140000001024 7 [100; 50], example_scan)].
Definition main_tracker1 : tracker :=
  Eval vm_compute in tracker_of (spec_events tt (fun t => t) 50 main_events1 main_tracker0).
Definition main_tracker2 : tracker :=
  Eval vm_compute in tracker_of (spec_events tt (fun t => t) 50 main_events2 main_tracker1).

Definition main_bp : breakpoint_s := Eval vm_compute in default (mk_breakpoint "" Malloc 0 0) (head main_bps).
Definition main_inside : watcher := mk_watcher (Some (mk_ongoing main_bp 7 8192 100 0)) 0 0 [].
Definition main_after : watcher := mk_watcher None 140000001024 7 [].

Abbreviation prog_step := (loop_step (uspace_t := unit) (upt_t := Z) tt (fun t => t)
  64 128 1048576 2097152 600 632 50 10 1000 1000 7 main_bps).
Abbreviation prog_R := (R (uspace_t := unit) tt (fun t => t) 64 128 1048576 2097152 600 632 16777216).

Lemma main_heap_is : pw_heap (su_tables main_started) = main_heap_left.
Proof. vm_compute. reflexivity. Qed.

Lemma main_related : prog_R (lp_world main_s0) main_tracker0.
Proof.
  unfold main_s0, loop_start. cbn [lp_world]. rewrite main_heap_is. apply initial_R; [exact Example.statics |].
  split_and!; [apply example_bt_initial | apply lists_empty | unfold heap_ok |]; simpl; lia.
Qed.

Lemma main_entry_seen :
  watch 10 1000 1000 (mk_watcher None 0 0 []) (see 7 main_bps main_s0 (wait_event_of main_entry)) =
  Some (main_inside, main_events1, Next).
Proof.
  set (small := mk_loop (su_mem main_started) example_mb_world (mk_call None 0 0 0 0 0) [] 0 0 0 []).
  rewrite (see_ext 7 main_bps main_s0 small _ (eq_refl (su_mem main_started))
    (eq_refl (mk_call None 0 0 0 0 0)) (eq_refl 0)). vm_compute. reflexivity.
Qed.

Lemma main_entered :
  exists s1, prog_step (wait_event_of main_entry) main_s0 = Some (Next, s1) /\
    prog_R (lp_world s1) main_tracker1 /\ watched s1 main_inside.
Proof.
  apply (loop_goes_on tt (fun t => t) 64 128 1048576 2097152 600 632 50 10 1000 1000 7 main_bps
    16777216 main_s0 (mk_watcher None 0 0 []) main_tracker0 _ _ main_events1 [0]).
  - exact Example.statics.
  - exact main_related.
  - by split_and!.
  - exact main_entry_seen.
  - by repeat constructor.
  - vm_compute. reflexivity.
  - by repeat constructor.
Qed.

Lemma main_returned s1 :
  prog_R (lp_world s1) main_tracker1 -> watched s1 main_inside ->
  exists s2, prog_step (wait_event_of main_return) s1 = Some (Next, s2) /\
    prog_R (lp_world s2) main_tracker2 /\ watched s2 main_after.
Proof.
  intros HR Hwd.
  apply (loop_goes_on tt (fun t => t) 64 128 1048576 2097152 600 632 50 10 1000 1000 7 main_bps
    16777216 s1 main_inside main_tracker1 _ _ main_events2 [0; 11]).
  - exact Example.statics.
  - exact HR.
  - exact Hwd.
  - reflexivity.
  - apply List.Forall_cons; [| by repeat constructor].
    split; [split; [done | by repeat constructor] | unfold event_ok, is_u64; lia].
  - vm_compute. reflexivity.
  - by repeat constructor.
Qed.

(** The user's signal, and the stop that it causes. *)
Definition main_signalled (s : loop_state (uspace_t := unit) (upt_t := Z)) : loop_state :=
  mk_loop (lp_mem s) (lp_world s) (lp_call s) (hold_threads s) SIGINT (g_current_entry s) (g_current_thread s)
    (lp_actions s ++ [Kill 7 SIGSTOP]).

Lemma main_interrupted s : prog_step (Signal SIGINT) s = Some (Next, main_signalled s).
Proof. reflexivity. Qed.

Definition main_terminated (s : loop_state (uspace_t := unit) (upt_t := Z)) : loop_state :=
  mk_loop (lp_mem s) (lp_world s) (lp_call s) (hold_threads s) SIGINT (g_current_entry s) (g_current_thread s)
    ((lp_actions s ++ [Kill 7 SIGSTOP]) ++ [Say MsgTerminate]).

Lemma main_stopped s :
  prog_step (wait_event_of main_stop) (main_signalled s) = Some (Break, main_terminated s).
Proof. reflexivity. Qed.

(** There is memory for the report at any time. *)
Lemma main_report_fits evs1 k :
  main_events1 ++ main_events2 = evs1 ++ k ->
  report_fits (tracker_of (spec_events tt (fun t => t) 50 evs1 main_tracker0)).
Proof.
  intros E. assert (evs1 = take (length evs1) (main_events1 ++ main_events2)) as -> by by rewrite E, take_app_length.
  destruct (length evs1) as [| [| [| n]]]; [.. | replace (take _ _) with (main_events1 ++ main_events2)];
    [split_and!; vm_compute; done.. |]. by destruct n.
Qed.

Lemma some_ret_inj {A B} (a a' : A) (b b' : B) : Some (Ret a, b) = Some (Ret a', b') -> a = a' /\ b = b'.
Proof. by intros [= -> ->]. Qed.

Lemma next_inj {A B} (a a' : A) (b b' : B) : Some (a, b) = Some (a', b') -> a = a' /\ b = b'.
Proof. by intros [= -> ->]. Qed.

(** The run, up to the end of the loop. *)
Lemma main_loop_run :
  exists s1 s2, prog_step (wait_event_of main_entry) main_s0 = Some (Next, s1) /\
    prog_step (wait_event_of main_return) s1 = Some (Next, s2) /\
    monitor_loop (lib := libdw) tt (fun t => t) 64 128 1048576 2097152 600 632 (chosen []) 7
      (su_tables main_started) main_bps main_inputs main_s0 = Some (Break, main_terminated s2) /\
    tracked (lib := libdw) tt (fun t => t) 64 128 1048576 2097152 600 632 (chosen []) 7
      (su_tables main_started) main_bps main_inputs main_s0 (pw_heap (su_tables main_started))
      main_after (main_events1 ++ main_events2).
Proof.
  destruct main_entered as (s1 & H1 & HR1 & Hw1).
  destruct (main_returned s1 HR1 Hw1) as (s2 & H2 & HR2 & Hw2).
  exists s1, s2. split; [exact H1 |]. split; [exact H2 |]. split.
  - unfold main_inputs. cbn [monitor_loop].
    erewrite iteration_step by exact H1. cbn beta iota. erewrite iteration_step by exact H2. cbn beta iota.
    erewrite iteration_step by exact (main_interrupted s2). cbn beta iota.
    erewrite iteration_step by exact (main_stopped s2). reflexivity.
  - constructor.
    + unfold main_inputs. cbn [sights].
      erewrite sights_step by exact H1. cbn beta iota. erewrite sights_step by exact H2. cbn beta iota.
      erewrite sights_step by exact (main_interrupted s2). cbn beta iota.
      erewrite sights_step by exact (main_stopped s2). cbn [Monitor.watch_all].
      change (memory_expire (chosen [])) with 10. change (memblock_limit (chosen [])) with 1000.
      change (callstack_limit (chosen [])) with 1000.
      rewrite main_entry_seen. reflexivity.
    + apply List.Forall_cons; [by repeat constructor |].
      apply List.Forall_cons; [| by repeat constructor].
      split; [split; [done | by repeat constructor] | unfold event_ok, is_u64; simpl; lia].
    + exists ([0; 0; 11], main_tracker2). rewrite main_heap_is. vm_compute. reflexivity.
    + intros evs1 rs1 t1 [k Hpre] Hspec. rewrite main_heap_is in Hspec. fold main_tracker0 in Hspec.
      change t1 with (tracker_of (Some (rs1, t1))). rewrite <- Hspec. by apply (main_report_fits _ k).
Qed.

Abbreviation example_main := (main (lib := libdw) tt (fun t => t) prepare_disk dwarf_disk example_read
  (Some main_names) (fun _ => true) 32 64 128 1048576 2097152 600 632 example_bt_state static_lists).
Definition main_end : env unit Z := mk_env 1030 0 0 (fun _ _ => (200, [])).


(** The assumptions of the run: [malloc] returns to 8192. *)
Lemma main_entry_behaves : event_assumption main_bps (wait_event_of main_entry) main_s0.
Proof.
  intros _. unfold stop_assumption. intros b Hb.
  assert (b = main_bp) as -> by (injection Hb as <-; reflexivity).
  change (recovered_mem (lp_mem main_s0) (lp_call main_s0)) with (su_mem main_started).
  unfold entry_assumption. cbv zeta.
  match goal with |- ?ra <> 0 /\ _ => replace ra with 8192 by (vm_compute; reflexivity) end.
  split; [discriminate |]. split; [| split].
  - apply (bool_decide_unpack _). vm_compute. exact I.
  - intros b Hb'. repeat (apply elem_of_cons in Hb' as [-> | Hb'];
      [unfold apart; cbn [entry_address]; vm_compute; (left; discriminate) || (right; discriminate) |]).
    destruct (not_elem_of_nil _ Hb').
  - vm_compute. split; [discriminate | reflexivity].
Qed.

Lemma main_return_behaves s : event_assumption main_bps (wait_event_of main_return) s.
Proof. intros _. unfold stop_assumption. intros b Hb. discriminate Hb. Qed.


(** Thread 9 cannot be attached to. *)
Lemma main_exits_witness :
  exists su, main (lib := libdw) tt (fun t => t) prepare_disk dwarf_disk example_read (Some main_names)
      (fun t => t =? 7) 32 64 128 1048576 2097152 600 632 example_bt_state static_lists
      [] [lit "7"] main_unstarted main_inputs 900 (mk_env 1030 0 0 (fun _ _ => (200, []))) = Some (Exited 4 su) /\
    su_mem su = main_memory /\ (su_trace su).2 = [].
Proof.
  destruct (main_exits (lib := libdw) tt (fun t => t) prepare_disk dwarf_disk example_read
    (Some main_names) (fun t => t =? 7) 32 64 128 1048576 2097152 600 632 16777216 example_bt_state static_lists
    ltac:(lia) [] (lit "7") example_maps main_names main_heap no_debug main_memory
    main_inputs 900 (mk_env 1030 0 0 (fun _ _ => (200, []))) ltac:(constructor)) as (_ & _ & Hexits).
  destruct (Hexits ltac:(discriminate) main_preparable) as [Hrefused _].
  - split; [reflexivity | vm_compute; repeat constructor].
  - apply (Hrefused [7] 9 []).
    + vm_compute. reflexivity.
    + apply List.Forall_cons; [by intros [] | constructor].
    + split; [discriminate | reflexivity].
Defined.

(** ** The same program on FreeBSD

    The kernel has the mappings in an array; the words of ptrace have 4 bytes;
    there is no loop over threads. *)
Definition bsd_kves : list kinfo_vmentry :=
  [mk_kve 4194304 4243456 5 (lit "/usr/bin/app"); mk_kve 6340608 6344704 3 (lit "/usr/bin/app");
   mk_kve 140000000000 140000004096 5 (lit "/lib/libc.so.6"); mk_kve 140000016384 140000020480 3 []].

Lemma bsd_example_walks : walks (maps := bsd_maps (Some (lit "app")) (Some bsd_kves)) example_maps.
Proof. exact (bsd_walks (lit "app") bsd_kves ltac:(reflexivity)). Qed.

Lemma bsd_preparable :
  preparable (maps := bsd_maps (Some (lit "app")) (Some bsd_kves)) (lib := libdw) prepare_disk dwarf_disk 16777216
    (chosen []) example_maps main_heap.
Proof.
  destruct main_preparable as [_ Hgood Hheap Hroom Hfits].
  constructor; [exact bsd_example_walks | exact Hgood | exact Hheap | exact Hroom | exact Hfits].
Qed.

Lemma bsd_startable :
  startable (H := x86_64_freebsd) prepare_disk (Some main_names) (fun _ => true) (chosen []) 7 example_maps main_names
    main_memory.
Proof.
  constructor.
  - split; [reflexivity | vm_compute; repeat constructor].
  - constructor.
  - reflexivity.
  - exact (sb_mem _ _ _ _ _ _ _ _ main_startable).
  - intros syms Hsyms _. apply (symbols_ok_ext _ example_api_address); [by intros nm; apply main_symbols |].
    compute_symbols_ok.
Qed.

(** The breakpoints are planted, and ptrace is attached to the process only. *)
Lemma start_up_on_freebsd :
  exists bps su, start_up (H := x86_64_freebsd) (maps := bsd_maps (Some (lit "app")) (Some bsd_kves)) (lib := libdw)
      prepare_disk dwarf_disk example_read (Some main_names) (fun _ => true) 32 (chosen []) 7
      (unstarted (maps := bsd_maps (Some (lit "app")) (Some bsd_kves)) 32 main_heap no_debug main_memory) =
      Some (Ret bps, su) /\
    name <$> bps = api_names.*1 /\
    su_trace su = (None, [Attach 7; WaitStop 7; TraceChild 7; Continue 7 0]).
Proof.
  destruct (start_up_run (H := x86_64_freebsd) (maps := bsd_maps (Some (lit "app")) (Some bsd_kves)) (lib := libdw)
    prepare_disk dwarf_disk example_read (Some main_names) (fun _ => true) 32 16777216 ltac:(lia) (chosen []) 7
    example_maps main_names main_heap no_debug main_memory bsd_preparable bsd_startable) as (bps & su & Hrun & Hst).
  exists bps, su. destruct Hst as [_ Htrace (_ & Hnames & _) _].
  split; [exact Hrun |]. split; [exact Hnames | exact Htrace].
Qed.
